(* ===== verification/_CoqProject ===== *)
-Q . S2P
Prelude.v
StateMonad.v
DrmAbi.v
FormatMod.v
Matching.v
Multirect.v
PlaneRegistry.v
Layer.v
Output.v
ZposOrder.v
PlaneClip.v
LayerGroups.v
PropertyStore.v
Atomic.v
Assignment.v
Scoring.v
AllocState.v
Canvas.v
Writes.v
PlaneOrder.v
Search.v
Allocator.v
Frames.v
BufferRing.v
RingPresenter.v
BufferSource.v
DmaBufSlot.v
DmaBufPool.v
DmaBufRing.v
SourceMirror.v
SceneLayer.v
SceneMemory.v
Scene.v
SceneFrame.v
SceneOwn.v
SceneInv.v
SceneRing.v
SceneBuild.v
SceneLife.v
SceneLive.v
SceneProps.v
SceneRuns.v
HdrMetadata.v
HdrCache.v
OutputSignaling.v
SceneSignals.v
SceneLower.v
SceneCanvas.v
ScenePlanes.v
SceneSet.v
SceneSetCommit.v
SceneSetProps.v
SceneSetRuns.v
