(* ===== verification/Prelude.v ===== *)
(** * drm-cxx in Rocq

    A verification library for drm-cxx, a C++ library that drives Linux KMS
    displays.  It covers the part that decides what the display hardware shows
    and who owns the buffers on screen: the plane allocator and everything it
    computes with, the atomic request it writes, the scene that owns the layers
    and their buffers, the set that commits several scenes together, and the
    buffer rings and dma-buf sources that feed it.  This file is the root: its
    header documents the whole development; its body holds the shared notation
    (machine integers, decoders, sorting, counted loops), the lemmas the
    components share and the hint databases.

    ** How the program works

    A scene is a table of layers, each with a source of buffers, on one CRTC.
    A frame takes a buffer from every source, lowers the layers to the planes'
    layers of an [Output], and asks the [Allocator] which hardware plane shows
    which layer.  The allocator scores the pairs (layer, plane), pre-solves
    them as a bipartite matching, asks the kernel through TEST_ONLY atomic
    commits whether a placement is accepted, and gives what does not fit to one
    composited canvas.  It then writes the placement into the caller's atomic
    request, leaving out every property that the plane already has.  After the
    commit the scene turns a two-deep ring: a buffer goes back to its source
    once the frame that showed it has left the screen.

    A set owns one scene per CRTC.  Its commit splits the scenes into groups,
    has each scene of a group write its frame into one request, keeps scenes off
    each other's planes, and hands every scene the kernel's verdict.  A source
    shown on several scenes sits behind a mirror that acquires it once a frame.

    ** Files and sources

    - [StateMonad.v]: the monad of the operations that follow pointers, and its
      total-correctness rules.
    - [DrmAbi.v]: the kernel headers' constants, as the interface [DrmAbi].
    - [FormatMod.v]: [src/fmt/format_mod.*], [src/core/format.cpp]: the
      IN_FORMATS decoder, the modifier verdict cache, the scan-out cost.
    - [Matching.v]: [src/planes/matching.*], Hopcroft-Karp.
    - [Multirect.v]: [src/planes/multirect.hpp], the vendor capability text.
    - [PlaneRegistry.v]: [src/planes/plane_registry.*]: enumeration, the cached
      per-CRTC view, exclusions.
    - [Layer.v], [Output.v]: [src/planes/layer.*], [src/planes/output.*].  A
      [Layer] is a record; a [Layer*] is a location of an explicit heap, and
      following a freed one is [None].
    - [ZposOrder.v], [PlaneClip.v], [LayerGroups.v]: the headers of the same
      names under [src/planes/].
    - [PropertyStore.v], [Atomic.v]: [src/core/property_store.*],
      [src/modeset/atomic.*].
    - [src/planes/allocator.*] is split by concern: [Assignment.v] (its two
      containers), [Scoring.v] (scores, preseed, ranking, spatial split),
      [AllocState.v] (its members and setters), [Canvas.v] (the canvas bounds),
      [Writes.v] (the atomic writes and the snapshots), [PlaneOrder.v] (CRTCs
      whose stacking is the plane id order), [Search.v] (the tested search),
      [Allocator.v] ([apply], the whole frame).  [Frames.v] holds the theorems
      on a whole frame.
    - [BufferRing.v]: [src/present/buffer_ring.*], the scan-out slot pool.
    - [RingPresenter.v]: [src/scene/detail/external_ring_core.*], the
      presentation state machine the dma-buf sources share.
    - [BufferSource.v]: [src/scene/buffer_source.hpp], the interface of what
      produces a layer's buffers.
    - [DmaBufSlot.v]: [src/scene/detail/dmabuf_slot.*] and
      [src/core/addfb2.hpp], importing one dma-buf.
    - [DmaBufPool.v], [DmaBufRing.v]: [src/scene/external_dma_buf_pool.*] and
      [src/scene/external_dma_buf_ring.*].
    - [SourceMirror.v]: [src/scene/detail/source_mirror.*].
    - [SceneLayer.v]: [src/scene/layer.hpp] and the value types around it.
    - [src/scene/layer_scene.cpp]: [SceneMemory.v] (the objects a scene owns),
      [Scene.v] (the handle table, acquiring and releasing), [SceneFrame.v]
      (build, finalise, sessions, rebind).  Their theorems: [SceneOwn.v]
      (ownership and the books of the buffers), [SceneInv.v] (the invariant of a
      scene, the table's operations), [SceneRing.v] (the ring, sessions,
      rebind), [SceneBuild.v] (frames), [SceneLife.v] (runs), [SceneProps.v]
      (the properties), [SceneLive.v] (what is retired is freed in time),
      [SceneRuns.v] (concrete runs).
    - What [build_frame_into] computes between acquiring and returning:
      [SceneLower.v] (lowering the layers and numbering them), [SceneCanvas.v]
      (the plane of the composition canvas and the demotion loop), [ScenePlanes.v]
      (the other plane properties and their blobs), [SceneSignals.v] (the
      properties of the output).  Each works on the request and on what the
      passes read of an acquired layer ([SceneLower.Acq]).
    - [HdrMetadata.v], [HdrCache.v]: [src/display/hdr_metadata.*] and
      [src/display/hdr_metadata_cache.*].  [OutputSignaling.v]:
      [src/display/connector_capabilities.*] and [src/scene/output_signaling.*].
    - [SceneSet.v]: [src/scene/scene_set.*].  Its theorems: [SceneSetCommit.v]
      (the partition, the two phases of a commit, the plane claims),
      [SceneSetProps.v] (runs: ownership of planes, routing of layers),
      [SceneSetRuns.v] (concrete runs).

    ** Interfaces

    Code outside the repository is a class whose laws are its documented
    behaviour: [CppStd] (the standard library's hash), [Kms] and [Libdrm] (the
    kernel's reports, the atomic request object and the ioctl), [DrmAbi] (the
    headers), [DmaBufKernel] (descriptors, GEM handles, framebuffers),
    [PropertyBlobs] (creating and destroying property blobs).  Each has
    a concrete instance, used by the witnesses.  Four interfaces are the
    program's own: [Placement], what places a round of a frame as the demotion
    loop around it sees it, [ChildScene] with [ChildSceneLaws], a scene as its set sees it, [Presentation] with [PresentationLaws], against which the
    pool and the ring are proved and which [RingPresenter.v] discharges, and
    [LayerBufferSource], the sources as their clients see them.

    ** What the theorems show

    - A frame ([Frames.v], [Allocator.v]): [apply] returns in every reachable
      state, reaches the kernel only by TEST_ONLY commits and at most the budget
      of them, fails only when DRM master is lost, and leaves each layer either
      alone on one compatible plane or marked for composition.  A content-only
      frame needs no call to the kernel.
    - The writes ([Writes.v]): a minimised frame takes the kernel where writing
      every property would (a refinement of the unminimised writer), and the
      snapshots stay sound; the disable pass darkens exactly what it may.
    - The search ([Search.v], [PlaneOrder.v], [Canvas.v], [Scoring.v]): groups
      are placed one to one, stacked as requested and accepted by the kernel;
      the composited run is optimal; the canvas bounds are feasible exactly when
      one cut of the stack exists; the preseed has maximum cardinality.
    - The data structures: [Matching.v] (maximum matching, termination, array
      bounds), [LayerGroups.v] (connected components), [ZposOrder.v] (sound and
      complete numbering), [FormatMod.v] (the blob decoder stays in bounds and
      decodes what the blob lists), [PlaneRegistry.v] (the cache is coherent),
      [Layer.v] (the hash isolates placement), [Assignment.v] (a finite map),
      [Atomic.v] (rollback).
    - The buffers: a ring lease repairs everything its slot misses; a token is
      given back once and never while live; a presented frame's damage covers
      the dropped ones; a dma-buf pool hands out live framebuffers, evicts only
      idle ones and leaks nothing, imports that fail half way included.
    - The scene ([SceneProps.v], [SceneLayer.v]): in every run its callers may
      make, no pointer to a freed layer or source is followed and nothing is
      freed twice; each acquired buffer goes back once, to the producer that
      made it, and not while it may be on screen; a handle names its layer until
      it is removed and never another; conditional edits differ from plain ones
      in the dirty flag alone.
    - The passes of a build: lowering keeps the requested stacking
      ([SceneLower.v]); the demotion loop ends, leaves the request with its last
      round only and the canvas on a plane the kernel accepts ([SceneCanvas.v]);
      plane settings reach the display although they are written only on a
      change, every fence is handed over or waited for, damage clips hold
      exactly the damage, and no property blob outlives its commit
      ([ScenePlanes.v]).
    - The output ([SceneSignals.v], [HdrCache.v], [OutputSignaling.v]): after
      accepted frames the connector and the CRTC have the colour space, HDR
      metadata, variable refresh and regamma asked for; HDR blobs are neither
      lost nor destroyed under the connector.
    - The set ([SceneSetCommit.v], [SceneSetProps.v]): every frame built is
      finalised once, with the verdict on the request that carried it; each
      plane has one owner; a layer put on several scenes is on all or none, and
      comes off those it was put on.  A mirrored source ([SourceMirror.v]) gets
      each buffer back once, after every scene that took it, and scenes that
      commit together show the same frame.

    ** Fuel and loops

    Loops that are not structural take fuel, and a theorem of the component
    shows that the fuel given always suffices: the canvas resolution, the
    plane-order search, the fallback of the search and the demotion loop take one
    more than the number of layers (each round drops or moves one), the matching one more than the
    nodes left to match, the pool's pruning one more than the cached buffers,
    the union-find one more than the items.

    ** Defects the model shows

    Some lemmas state a behaviour the code does not intend.  In the allocator:
    [Output.remove_composition_layer_dangles], [ZposOrder.stack_zpos_wraps],
    [PlaneClip.clip_leading_negates_int64_min], [Matching.solve_again_counts_zero],
    [Layer.color_property_dropped], [Writes.refused_commit_loses_the_move],
    [Search.place_group_untested], [Search.cap_counts_forced_layers].  In the
    buffers: [BufferRing.abandoned_render_is_not_repainted],
    [BufferRing.age_of_the_slot_on_screen], [RingPresenter.stale_token_after_reset],
    [DmaBufPool.submit_inside_acquire_loses_the_buffer],
    [DmaBufRing.failed_resume_hands_out_zero].  In the scene ([SceneRuns.v]):
    [failed_build_loses_buffers], [skipped_layer_released_on_screen],
    [replace_during_build_misdirects], [remove_during_build_dangles],
    [rebound_scene_reports_no_change], [rebind_forgets_force_composited].  In
    the passes of a build: [SceneLower.steered_layer_leaves_the_slot],
    [SceneLower.stale_zpos_is_kept], [ScenePlanes.demotion_loses_settings],
    [ScenePlanes.set_frames_leak_blobs], [SceneSignals.test_swallows_the_colorspace],
    [SceneSignals.test_swallows_the_modeset], [HdrMetadata.nudged_coordinate_keeps_the_hash].  In
    the set: [SceneSetRuns.set_restores_the_async_flag],
    [SceneSetRuns.split_commit_drops_user_data],
    [SourceMirror.mirrored_buffer_returns_after_pause].

    ** Not modelled

    - Logging, debug traces and environment variables.
    - Device, session and loader wrappers, page flip and modeset I/O, GBM, EGL,
      Vulkan, V4L2, GStreamer, libinput and xkbcommon clients: thin state around
      third-party calls.
    - Pixel work (the composite canvas, the GL compositor, cursors, decorations)
      and file output.
    - In [src/scene/layer_scene.cpp]: the order of the passes as one function
      (each pass is modelled on its own; [Scene.v] takes their result as an
      argument of [build_frame_into]), pinned layers, the choice of a stream plane, blending
      into the canvas and the report of placements, the mixing probe and the
      public getters.
    - Key repetition, decorations and modes: clients of timers, event loops and
      drawing libraries, whose behaviour the repository does not define. *)
From Stdlib Require Export ZArith Lia.
From stdpp Require Export base tactics sorting strings option gmap sets list_numbers list.
From coqutil Require Export Datatypes.RecordSetters.
Export DoubleBraceUpdate.
#[global] Arguments constant {E} newValue _ /.
#[global] Open Scope Z_scope.

(** ** Machine integers

    Every C++ integer is a [Z]; unsigned arithmetic wraps with [wrap w]. *)

Definition wrap (w : Z) (z : Z) : Z := z mod 2 ^ w.

Declare Scope machine_scope.
Delimit Scope machine_scope with mach.
Abbreviation u8 z := (wrap 8 z).
Abbreviation u32 z := (wrap 32 z).
Abbreviation u64 z := (wrap 64 z).
Notation "x ⊞ y" := (wrap 64 (x + y)) (at level 50, left associativity) : machine_scope.
Notation "x ⊟ y" := (wrap 64 (x - y)) (at level 50, left associativity) : machine_scope.
Notation "x ⊠ y" := (wrap 64 (x * y)) (at level 40, left associativity) : machine_scope.

(** [static_cast<int32_t>] of an unsigned value (two's complement). *)
Definition to_i32 (z : Z) : Z :=
  let y := wrap 32 z in if y <? 2 ^ 31 then y else y - 2 ^ 32.

Definition in_u (w : Z) (z : Z) : Prop := 0 <= z < 2 ^ w.

Lemma wrap_range w z : 0 <= w -> in_u w (wrap w z).
Proof. intros Hw. unfold in_u, wrap. apply Z.mod_pos_bound. lia. Qed.

Lemma wrap_small w z : in_u w z -> wrap w z = z.
Proof. intros H. unfold wrap. apply Z.mod_small. exact H. Qed.

Lemma wrap_idem w z : 0 <= w -> wrap w (wrap w z) = wrap w z.
Proof. intros Hw. apply wrap_small, wrap_range; lia. Qed.

Create HintDb machine.
#[export] Hint Resolve wrap_range : machine.

(** ** Errors: [std::error_code] by its errno, and [drm::expected]. *)

Inductive errc :=
  | EAGAIN   (* resource_unavailable_try_again *)
  | EACCES   (* permission_denied *)
  | ENOENT   (* no_such_file_or_directory *)
  | EBADF    (* bad_file_descriptor *)
  | Errno (e : Z). (* anything else the kernel reports *)

#[global] Instance errc_eq_dec : EqDecision errc.
Proof. solve_decision. Defined.

(** A C int error as an error code: errno 13 is EACCES, 11 EAGAIN. *)
Definition errno_code (e : Z) : errc :=
  if e =? 13 then EACCES else if e =? 11 then EAGAIN else if e =? 2 then ENOENT
  else if e =? 9 then EBADF else Errno e.

Inductive expected (A : Type) :=
  | Val (a : A)
  | Unexp (e : errc).
Arguments Val {A} a.
Arguments Unexp {A} e.

Definition has_value {A} (r : expected A) : bool :=
  match r with Val _ => true | Unexp _ => false end.

(** ** Tactics *)

(** Split every boolean connective and comparison in sight. *)
Ltac bool_simpl :=
  repeat match goal with
  | H : andb _ _ = true |- _ => apply andb_true_iff in H; destruct H
  | H : andb _ _ = false |- _ => apply andb_false_iff in H
  | H : orb _ _ = false |- _ => apply orb_false_iff in H; destruct H
  | H : orb _ _ = true |- _ => apply orb_true_iff in H
  | H : negb _ = true |- _ => apply negb_true_iff in H
  | H : negb _ = false |- _ => apply negb_false_iff in H
  | H : (_ =? _) = true |- _ => apply Z.eqb_eq in H
  | H : (_ =? _) = false |- _ => apply Z.eqb_neq in H
  | H : (_ <? _) = true |- _ => apply Z.ltb_lt in H
  | H : (_ <? _) = false |- _ => apply Z.ltb_ge in H
  | H : (_ <=? _) = true |- _ => apply Z.leb_le in H
  | H : (_ <=? _) = false |- _ => apply Z.leb_gt in H
  | H : bool_decide _ = true |- _ => apply bool_decide_eq_true in H
  | H : bool_decide _ = false |- _ => apply bool_decide_eq_false in H
  | H : false = true |- _ => discriminate H
  | H : true = false |- _ => discriminate H
  end.

(** Case on the scrutinee of the innermost [match] of the goal. *)
Ltac case_goal :=
  match goal with
  | |- context [match ?x with _ => _ end] =>
      lazymatch x with
      | context [match _ with _ => _ end] => fail
      | _ => let E := fresh "E" in destruct x eqn:E
      end
  end.

(** Same for a hypothesis. *)
Ltac case_hyp H :=
  match type of H with
  | context [match ?x with _ => _ end] =>
      lazymatch x with
      | context [match _ with _ => _ end] => fail
      | _ => let E := fresh "E" in destruct x eqn:E
      end
  end.

(** ** Optional values *)

Definition value_or {A} (d : A) (o : option A) : A := default d o.

(** ** Stable sorting

    [std::stable_sort] is fixed by its specification up to equality: the
    sorted permutation that keeps equivalent elements in input order.
    Insertion from the right computes it. *)

Section StableSort.
Context {A : Type} (lt : A -> A -> bool).

Fixpoint insert_stable (x : A) (l : list A) : list A :=
  match l with
  | [] => [x]
  | y :: l' => if lt y x then y :: insert_stable x l' else x :: l
  end.

Definition stable_sort (l : list A) : list A := foldr insert_stable [] l.

(** [a] may stand before [b]. *)
Definition not_after (a b : A) : Prop := lt b a = false.

Lemma insert_stable_perm x l : insert_stable x l ≡ₚ x :: l.
Proof.
  induction l as [|y l IH]; simpl; [done|].
  destruct (lt y x); [|done]. rewrite IH. apply Permutation_swap.
Qed.

Lemma stable_sort_perm l : stable_sort l ≡ₚ l.
Proof.
  induction l as [|x l IH]; simpl; [done|].
  by rewrite insert_stable_perm, IH.
Qed.

(** Elements for which [P] holds keep their order when [lt] does not
    separate any two of them. *)
Lemma insert_stable_filter (P : A -> Prop) `{forall x, Decision (P x)} x l :
  (forall a b, P a -> P b -> lt a b = false) ->
  filter P (insert_stable x l) = filter P (x :: l).
Proof.
  intros HP. induction l as [|y l IH]; simpl; [done|].
  destruct (lt y x) eqn:Hyx; [|done].
  rewrite !filter_cons, IH, filter_cons.
  destruct (decide (P x)), (decide (P y)); try done.
  by rewrite HP in Hyx.
Qed.

Lemma stable_sort_filter (P : A -> Prop) `{forall x, Decision (P x)} (l : list A) :
  (forall a b, P a -> P b -> lt a b = false) ->
  filter P (stable_sort l) = filter P l.
Proof.
  intros HP. induction l as [|x l IH]; simpl; [done|].
  by rewrite insert_stable_filter, !filter_cons, IH by done.
Qed.
End StableSort.

(** A strict weak order, as the comparators of the program are. *)
Class StrictWeak {A : Type} (lt : A -> A -> bool) : Prop := {
  sw_asym : forall a b, lt a b = true -> lt b a = false;
  sw_negtrans : forall a b c, lt b a = false -> lt c b = false -> lt c a = false
}.

#[export] Instance key_lt_strict_weak {A} (f : A -> Z) :
  StrictWeak (fun a b => f a <? f b).
Proof. split; intros *; rewrite ?Z.ltb_lt, ?Z.ltb_ge; lia. Qed.

#[export] Instance key_gt_strict_weak {A} (f : A -> Z) :
  StrictWeak (fun a b => f b <? f a).
Proof. split; intros *; rewrite ?Z.ltb_lt, ?Z.ltb_ge; lia. Qed.

Lemma insert_stable_sorted {A} (lt : A -> A -> bool) `{!StrictWeak lt} x l :
  StronglySorted (not_after lt) l -> StronglySorted (not_after lt) (insert_stable lt x l).
Proof.
  unfold not_after.
  induction 1 as [|y l Hs IH Hy]; simpl.
  { repeat constructor. }
  destruct (lt y x) eqn:Hyx.
  - constructor; [done|]. rewrite insert_stable_perm.
    constructor; [by apply sw_asym | done].
  - constructor; [by constructor|]. constructor; [done|].
    refine (Forall_impl _ _ _ Hy _). intros z Hz. cbv beta. exact (sw_negtrans _ _ _ Hyx Hz).
Qed.

Lemma stable_sort_sorted {A} (lt : A -> A -> bool) `{!StrictWeak lt} l :
  StronglySorted (not_after lt) (stable_sort lt l).
Proof.
  induction l as [|x l IH]; simpl; [constructor|]. by apply insert_stable_sorted.
Qed.

(** ** What the standard library leaves to the implementation

    [std::sort] may permute equivalent elements, [std::hash] is any function,
    and an unordered container is traversed in any order.  The model takes
    them as one interface; every theorem holds for every implementation. *)

Class CppStd := {
  std_sort : forall {A : Type}, (A -> A -> bool) -> list A -> list A;
  std_sort_perm : forall {A} lt (l : list A), std_sort lt l ≡ₚ l;
  std_sort_sorted : forall {A} lt (l : list A), StrictWeak lt ->
    StronglySorted (not_after lt) (std_sort lt l);
  std_hash : Z -> Z;
  std_hash_range : forall z, in_u 64 (std_hash z);
  unordered_iter : list positive -> list positive;
  unordered_iter_perm : forall l, unordered_iter l ≡ₚ l
}.

(** One implementation, for concrete runs: a stable [std::sort], the identity
    hash of libstdc++, insertion-ordered traversal. *)
Definition libstdcxx : CppStd.
Proof.
  refine {| std_sort := fun A lt l => stable_sort lt l;
            std_hash := fun z => wrap 64 z;
            unordered_iter := fun l => l |}.
  - intros. apply stable_sort_perm.
  - intros. by apply stable_sort_sorted.
  - intros. apply wrap_range. lia.
  - done.
Defined.

(** ** Searches of the standard library on sorted ranges *)

(** [std::lower_bound]: the suffix from the first element not below the key. *)
Fixpoint lower_bound {A} (below : A -> bool) (l : list A) : list A :=
  match l with
  | [] => []
  | x :: l' => if below x then lower_bound below l' else l
  end.

(** [std::unique] followed by [erase]: drop every element equal to the one
    kept before it. *)
Fixpoint unique_aux {A} (eqb : A -> A -> bool) (prev : A) (l : list A) : list A :=
  match l with
  | [] => []
  | x :: l' => if eqb prev x then unique_aux eqb prev l' else x :: unique_aux eqb x l'
  end.

Definition unique {A} (eqb : A -> A -> bool) (l : list A) : list A :=
  match l with
  | [] => []
  | x :: l' => x :: unique_aux eqb x l'
  end.

Definition binary_search {A} (lt : A -> A -> bool) (x : A) (l : list A) : bool :=
  match lower_bound (fun p => lt p x) l with
  | p :: _ => negb (lt x p)
  | [] => false
  end.

Lemma lower_bound_suffix {A} (below : A -> bool) l :
  exists pre, l = pre ++ lower_bound below l /\ Forall (fun x => below x = true) pre.
Proof.
  induction l as [|x l (pre & Hl & Hpre)]; simpl; [by exists []|].
  destruct (below x) eqn:E.
  - exists (x :: pre). simpl. rewrite <- Hl. by repeat constructor.
  - by exists [].
Qed.

Lemma lower_bound_head {A} (below : A -> bool) l x l' :
  lower_bound below l = x :: l' -> below x = false.
Proof.
  induction l as [|y l IH]; simpl; [done|]. destruct (below y) eqn:E; [done|].
  by intros [= -> ->].
Qed.

Lemma binary_search_spec {A} (lt : A -> A -> bool) `{!StrictWeak lt} x l :
  StronglySorted (not_after lt) l ->
  binary_search lt x l = true <-> exists p, p ∈ l /\ lt p x = false /\ lt x p = false.
Proof.
  intros Hs. unfold binary_search.
  induction Hs as [|y l Hs IH Hy]; simpl.
  { split; [done|]. intros (p & Hp & _). by apply not_elem_of_nil in Hp. }
  destruct (lt y x) eqn:Hyx.
  - rewrite IH. split.
    + intros (p & Hp & Hpx). exists p. split; [by apply list_elem_of_further | done].
    + intros (p & Hp & Hpx & Hxp). apply elem_of_cons in Hp as [->|Hp]; [congruence|eauto].
  - rewrite negb_true_iff. split.
    + intros Hxy. exists y. split; [by apply list_elem_of_here | done].
    + intros (p & Hp & Hpx & Hxp). apply elem_of_cons in Hp as [->|Hp]; [done|].
      rewrite Forall_forall in Hy. apply Hy in Hp.
      destruct (lt x y) eqn:Hxy; [|done].
      (* x < y, y not after p, so x < p *)
      by rewrite (sw_negtrans y p x Hp Hxp) in Hxy.
Qed.

Section Unique.
Context {A : Type} (eqb : A -> A -> bool).
Context (eqb_eq : forall a b, eqb a b = true <-> a = b).

Lemma elem_of_unique_aux prev x l :
  x ∈ prev :: unique_aux eqb prev l <-> x ∈ prev :: l.
Proof.
  revert prev. induction l as [|y l IH]; intros prev; simpl; [done|].
  destruct (eqb prev y) eqn:E.
  - apply eqb_eq in E as <-. rewrite IH, !elem_of_cons. tauto.
  - specialize (IH y). rewrite !elem_of_cons in *. tauto.
Qed.

Lemma elem_of_unique x l : x ∈ unique eqb l <-> x ∈ l.
Proof. destruct l as [|y l]; [done|]. apply elem_of_unique_aux. Qed.

Context (lt : A -> A -> bool) `{!StrictWeak lt}.
Context (lt_total : forall a b, lt a b = false -> lt b a = false -> a = b).

Lemma unique_aux_sorted prev l :
  StronglySorted (not_after lt) (prev :: l) ->
  StronglySorted (fun a b => lt a b = true) (prev :: unique_aux eqb prev l).
Proof.
  revert prev. induction l as [|y l IH]; intros prev Hs; simpl.
  { repeat constructor. }
  apply StronglySorted_inv in Hs as [Hs Hf].
  assert (Hs' := Hs). apply StronglySorted_inv in Hs' as [Hl Hy].
  apply Forall_cons in Hf as [Hpy Hpl]. unfold not_after in *.
  destruct (eqb prev y) eqn:E.
  - apply IH. constructor; done.
  - specialize (IH y Hs).
    assert (Hlt : lt prev y = true).
    { destruct (lt prev y) eqn:Hlt; [done|].
      assert (eqb prev y = true) by (by apply eqb_eq, lt_total). congruence. }
    constructor; [done|]. constructor; [done|].
    rewrite Forall_forall. intros z Hz.
    destruct (lt prev z) eqn:Hpz; [done|].
    apply StronglySorted_inv in IH as [_ IH]. rewrite Forall_forall in IH.
    pose proof (IH z Hz) as Hyz.
    (* prev < y and y < z, yet not prev < z *)
    pose proof (sw_asym _ _ Hyz) as Hzy.
    by rewrite (sw_negtrans _ _ _ Hzy Hpz) in Hlt.
Qed.

Lemma unique_sorted l :
  StronglySorted (not_after lt) l -> StronglySorted (fun a b => lt a b = true) (unique eqb l).
Proof. destruct l as [|x l]; [constructor|]. apply unique_aux_sorted. Qed.
End Unique.

Lemma strict_sorted_not_after {A} (lt : A -> A -> bool) `{!StrictWeak lt} l :
  StronglySorted (fun a b => lt a b = true) l -> StronglySorted (not_after lt) l.
Proof.
  induction 1 as [|x l Hs IH Hx]; [constructor|]. constructor; [done|].
  refine (Forall_impl _ _ _ Hx _). intros z Hz. by apply sw_asym.
Qed.

(** ** Filters that keep everything or nothing *)

Lemma filter_none {A} (P : A -> Prop) `{forall x, Decision (P x)} (l : list A) :
  (forall x, x ∈ l -> ~ P x) -> filter P l = [].
Proof.
  induction l as [|x l IH]; intros HP; [done|].
  rewrite filter_cons_False, IH; [done | |].
  - intros y Hy. apply HP. by apply list_elem_of_further.
  - apply HP, list_elem_of_here.
Qed.

Lemma filter_every {A} (P : A -> Prop) `{forall x, Decision (P x)} (l : list A) :
  (forall x, x ∈ l -> P x) -> filter P l = l.
Proof.
  induction l as [|x l IH]; intros HP; [done|].
  rewrite filter_cons_True, IH; [done | |].
  - intros y Hy. apply HP. by apply list_elem_of_further.
  - apply HP, list_elem_of_here.
Qed.

(** ** Options *)

Lemma is_Some_bind {A B} (o : option A) (f : A -> option B) :
  is_Some o -> (forall a, o = Some a -> is_Some (f a)) -> is_Some (o ≫= f).
Proof. intros [a ->] Hf. exact (Hf a eq_refl). Qed.

Lemma bind_Some_iff {A B} (o : option A) (f : A -> option B) b :
  o ≫= f = Some b <-> exists a, o = Some a /\ f a = Some b.
Proof. destruct o; simpl; naive_solver. Qed.

(** ** [std::vector::at]: a read is [l !! i]; a write out of range throws *)

Definition at_set {A} (l : list A) (i : nat) (x : A) : option (list A) :=
  if decide (i < length l)%nat then Some (<[i := x]> l) else None.

Lemma at_set_some {A} (l : list A) i x :
  (i < length l)%nat -> at_set l i x = Some (<[i := x]> l).
Proof. intros Hi. unfold at_set. by rewrite decide_True. Qed.

Lemma filter_ext_elem {A} (P Q : A -> Prop) `{forall x, Decision (P x)} `{forall x, Decision (Q x)}
    (l : list A) :
  (forall x, x ∈ l -> (P x <-> Q x)) -> filter P l = filter Q l.
Proof.
  induction l as [|x l IH]; intros HPQ; [done|]. rewrite !filter_cons.
  pose proof (HPQ x (list_elem_of_here _ _)).
  rewrite IH by (intros y Hy; apply HPQ; by apply list_elem_of_further).
  destruct (decide (P x)), (decide (Q x)); tauto.
Qed.

(** Exactly one element of a duplicate-free list satisfies [P]. *)
Lemma filter_unique_elem {A} (P : A -> Prop) `{forall x, Decision (P x)} (l : list A) (a : A) :
  NoDup l -> a ∈ l -> (forall x, x ∈ l -> (P x <-> x = a)) -> filter P l = [a].
Proof.
  induction l as [|x l IH]; intros Hnd Ha HP; [by apply not_elem_of_nil in Ha|].
  apply NoDup_cons in Hnd as [Hx Hnd]. rewrite filter_cons.
  apply elem_of_cons in Ha as [->|Ha].
  - rewrite decide_True by (apply HP; [apply list_elem_of_here | done]). f_equal.
    apply filter_none. intros y Hy Hpy.
    apply HP in Hpy; [by subst | by apply list_elem_of_further].
  - rewrite decide_False.
    + apply IH; [done..|]. intros y Hy. apply HP. by apply list_elem_of_further.
    + intros Hpx. apply HP in Hpx; [by subst | apply list_elem_of_here].
Qed.

Lemma sorted_lookup {A} (R : A -> A -> Prop) (l : list A) i j a b :
  StronglySorted R l -> l !! i = Some a -> l !! j = Some b -> (i < j)%nat -> R a b.
Proof.
  intros Hs. revert i j. induction Hs as [|x l Hs IH Hx]; intros i j Ha Hb Hij; [done|].
  destruct j as [|j]; [lia|]. destruct i as [|i]; simpl in *.
  - simplify_eq. rewrite Forall_forall in Hx. apply Hx. by eapply list_elem_of_lookup_2.
  - apply (IH i j Ha Hb). lia.
Qed.

(** A stable sort, position by position: never inverted, and elements the
    comparator does not separate stand as they did in the input. *)
Lemma stable_sort_stable {A} (lt : A -> A -> bool) `{!StrictWeak lt} (R : A -> A -> Prop) (l : list A) :
  StronglySorted R l ->
  StronglySorted (fun a b => not_after lt a b /\ (lt a b = false -> R a b)) (stable_sort lt l).
Proof.
  unfold not_after. induction 1 as [|x l Hs IH Hx]; simpl; [constructor|].
  rewrite <- (stable_sort_perm lt l) in Hx. clear Hs. revert IH Hx.
  induction (stable_sort lt l) as [|y l' IHl]; intros Hs Hx; simpl; [repeat constructor|].
  apply Forall_cons in Hx as [Hxy Hx]. apply StronglySorted_inv in Hs as [Hs Hy].
  destruct (lt y x) eqn:E.
  - constructor; [by apply IHl|]. rewrite insert_stable_perm.
    constructor; [|done]. split; [by apply sw_asym | congruence].
  - constructor; [by constructor|]. constructor; [done|].
    rewrite Forall_forall in Hy, Hx |- *. intros z Hz. split; [|by auto].
    by apply (sw_negtrans x y z E), Hy.
Qed.

#[export] Instance flip_strict_weak {A B} (lt : B -> B -> bool) (f : A -> B) `{!StrictWeak lt} :
  StrictWeak (fun a b => lt (f b) (f a)).
Proof.
  split; intros *; [apply sw_asym|]. intros H1 H2. exact (sw_negtrans _ _ _ H2 H1).
Qed.

Lemma StronglySorted_Forall2 {A B} (P : A -> B -> Prop) (R : A -> A -> Prop) (R' : B -> B -> Prop) l l' :
  Forall2 P l l' -> StronglySorted R l ->
  (forall a a' b b', P a a' -> P b b' -> R a b -> R' a' b') -> StronglySorted R' l'.
Proof.
  intros HP Hs HR. revert Hs. induction HP as [|a a' l l' Ha Hl IH]; intros Hs; [constructor|].
  apply StronglySorted_inv in Hs as [Hs Hf]. constructor; [by apply IH|].
  clear IH Hs. induction Hl as [|b b' l l' Hb Hl IH]; [constructor|].
  apply Forall_cons in Hf as [Hab Hf]. constructor; [by eapply HR | by apply IH].
Qed.

Lemma seq_split i n : (i < n)%nat -> seq 0 n = seq 0 i ++ i :: seq (S i) (n - S i).
Proof.
  intros Hi. replace n with (i + S (n - S i))%nat at 1 by lia. by rewrite seq_app.
Qed.

Lemma StronglySorted_filter_seq (P : nat -> Prop) `{forall x, Decision (P x)} a n :
  StronglySorted lt (filter P (seq a n)).
Proof.
  revert a. induction n as [|n IH]; intros a; [constructor|]. cbn [seq]. rewrite filter_cons.
  case_decide; [|done]. constructor; [done|]. apply Forall_forall.
  intros x [_ Hx]%list_elem_of_filter. apply elem_of_seq in Hx. lia.
Qed.
