(* ===== verification/StateMonad.v ===== *)
(** A state that an operation reads and changes, or that makes it fail.

    The C++ operations that follow pointers run in this monad: [None] is the
    undefined behaviour of a null or dangling pointer.  [wp] is the
    total-correctness reading of an operation: it returns, and its result
    satisfies the postcondition. *)
From S2P Require Import Prelude.

Definition ST (S A : Type) : Type := S -> option (A * S).

#[global] Instance st_ret {S} : MRet (ST S) := fun A a w => Some (a, w).
#[global] Instance st_bind {S} : MBind (ST S) := fun A B f m w =>
  match m w with Some (a, w') => f a w' | None => None end.

Section ST.
Context {S : Type}.
Implicit Type w : S.

Definition gets {A} (f : S -> A) : ST S A := fun w => Some (f w, w).
Definition modify (f : S -> S) : ST S unit := fun w => Some (tt, f w).
Definition fault {A} : ST S A := fun _ => None.

Fixpoint for_each {A} (f : A -> ST S unit) (l : list A) : ST S unit :=
  match l with
  | [] => mret tt
  | a :: l' => _ ← f a; for_each f l'
  end.

(** ** Total correctness *)

Definition wp {A} (m : ST S A) w (Q : A -> S -> Prop) : Prop :=
  exists a w', m w = Some (a, w') /\ Q a w'.

Lemma wp_ret {A} (a : A) w (Q : A -> S -> Prop) : Q a w -> wp (mret a) w Q.
Proof. intros HQ. by exists a, w. Qed.

Lemma wp_bind {A B} (m : ST S A) (f : A -> ST S B) w Q :
  wp m w (fun a w' => wp (f a) w' Q) -> wp (m ≫= f) w Q.
Proof.
  intros (a & w' & Hm & b & w'' & Hf & HQ). exists b, w''. split; [|done].
  unfold mbind, st_bind. by rewrite Hm.
Qed.

Lemma wp_mono {A} (m : ST S A) w (P Q : A -> S -> Prop) :
  wp m w P -> (forall a w', P a w' -> Q a w') -> wp m w Q.
Proof. intros (a & w' & Hm & HP) HQ. exists a, w'. auto. Qed.

Lemma wp_gets {A} (f : S -> A) w (Q : A -> S -> Prop) : Q (f w) w -> wp (gets f) w Q.
Proof. intros HQ. by exists (f w), w. Qed.

Lemma wp_modify (f : S -> S) w (Q : unit -> S -> Prop) : Q tt (f w) -> wp (modify f) w Q.
Proof. intros HQ. by exists tt, (f w). Qed.

(** A loop keeps an invariant indexed by what is left to do. *)
Lemma wp_for_each {A} (f : A -> ST S unit) (I : list A -> S -> Prop) l w (Q : unit -> S -> Prop) :
  I l w ->
  (forall a l' w, I (a :: l') w -> wp (f a) w (fun _ w' => I l' w')) ->
  (forall w', I [] w' -> Q tt w') ->
  wp (for_each f l) w Q.
Proof.
  intros Hi Hstep HQ. revert w Hi. induction l as [|a l IH]; intros w Hi; simpl.
  { apply wp_ret. auto. }
  apply wp_bind. eapply wp_mono; [by apply Hstep|]. intros [] w' Hi'. by apply IH.
Qed.

(** An operation that returned did so through its parts. *)
Lemma bind_run {A B} (m : ST S A) (f : A -> ST S B) w b w' :
  (m ≫= f) w = Some (b, w') -> exists a w1, m w = Some (a, w1) /\ f a w1 = Some (b, w').
Proof. unfold mbind, st_bind. destruct (m w) as [[a w1]|]; [eauto|done]. Qed.

End ST.
