(* ===== verification/DrmAbi.v ===== *)
(** The kernel's userspace ABI as the code sees it: the constants and struct
    layouts of [drm_fourcc.h], [drm_mode.h] and [drm.h].  Those headers are not
    part of the repository, so they are one interface, [DrmAbi]; the fourcc
    codes are named by an enumeration so that a C++ [switch] over them is a
    [match]. *)
From S2P Require Import Prelude.

(** The pixel formats the sources name ([DRM_FORMAT_*]). *)
Inductive drm_format :=
  | C8 | RGB332 | BGR233
  | XRGB4444 | XBGR4444 | RGBX4444 | BGRX4444 | ARGB4444 | ABGR4444 | RGBA4444 | BGRA4444
  | XRGB1555 | XBGR1555 | RGBX5551 | BGRX5551 | ARGB1555 | ABGR1555 | RGBA5551 | BGRA5551
  | RGB565 | BGR565 | RGB888 | BGR888
  | XRGB8888 | XBGR8888 | RGBX8888 | BGRX8888 | ARGB8888 | ABGR8888 | RGBA8888 | BGRA8888
  | XRGB2101010 | XBGR2101010 | RGBX1010102 | BGRX1010102
  | ARGB2101010 | ABGR2101010 | RGBA1010102 | BGRA1010102
  | XRGB16161616F | XBGR16161616F | ARGB16161616F | ABGR16161616F
  | NV12 | NV21 | NV15 | NV16 | NV20 | NV61 | NV24 | NV42
  | P010 | P012 | P016 | P210
  | YUYV | YVYU | UYVY | VYUY | AYUV | Y210 | Y212 | Y216
  | YUV410 | YVU410 | YUV411 | YVU411 | YUV420 | YVU420 | YUV422 | YVU422 | YUV444 | YVU444.

#[global] Instance drm_format_eq_dec : EqDecision drm_format.
Proof. solve_decision. Defined.

Definition all_formats : list drm_format :=
  [C8; RGB332; BGR233;
   XRGB4444; XBGR4444; RGBX4444; BGRX4444; ARGB4444; ABGR4444; RGBA4444; BGRA4444;
   XRGB1555; XBGR1555; RGBX5551; BGRX5551; ARGB1555; ABGR1555; RGBA5551; BGRA5551;
   RGB565; BGR565; RGB888; BGR888;
   XRGB8888; XBGR8888; RGBX8888; BGRX8888; ARGB8888; ABGR8888; RGBA8888; BGRA8888;
   XRGB2101010; XBGR2101010; RGBX1010102; BGRX1010102;
   ARGB2101010; ABGR2101010; RGBA1010102; BGRA1010102;
   XRGB16161616F; XBGR16161616F; ARGB16161616F; ABGR16161616F;
   NV12; NV21; NV15; NV16; NV20; NV61; NV24; NV42;
   P010; P012; P016; P210;
   YUYV; YVYU; UYVY; VYUY; AYUV; Y210; Y212; Y216;
   YUV410; YVU410; YUV411; YVU411; YUV420; YVU420; YUV422; YVU422; YUV444; YVU444].

Lemma all_formats_complete f : f ∈ all_formats.
Proof. apply list_elem_of_In. destruct f; simpl; tauto. Qed.

Class DrmAbi := {
  (** [drm_fourcc.h] *)
  DRM_FORMAT : drm_format -> Z;
  DRM_FORMAT_inj : Inj (=) (=) DRM_FORMAT;
  DRM_FORMAT_MOD_LINEAR : Z;
  DRM_FORMAT_MOD_INVALID : Z;
  DRM_FORMAT_MOD_VENDOR_ARM : Z;
  DRM_FORMAT_MOD_VENDOR_AMD : Z;
  DRM_FORMAT_MOD_VENDOR_QCOM : Z;
  DRM_FORMAT_MOD_VENDOR_NVIDIA : Z;
  DRM_FORMAT_MOD_VENDOR_BROADCOM : Z;
  (** [drm_mode.h] *)
  DRM_MODE_ROTATE_0 : Z;
  DRM_MODE_PROP_IMMUTABLE : Z;
  DRM_MODE_PROP_RANGE : Z;
  DRM_MODE_PROP_ENUM : Z;
  DRM_MODE_PROP_BLOB : Z;
  DRM_MODE_PROP_BITMASK : Z;
  DRM_PLANE_TYPE_PRIMARY : Z;
  DRM_PLANE_TYPE_CURSOR : Z;
  DRM_MODE_PAGE_FLIP_EVENT : Z;
  DRM_MODE_ATOMIC_TEST_ONLY : Z;
  DRM_MODE_ATOMIC_ALLOW_MODESET : Z;
  DRM_MODE_PAGE_FLIP_ASYNC : Z;
  (** Layout of [struct drm_format_modifier_blob] and
      [struct drm_format_modifier] (sizes and field offsets in bytes). *)
  sizeof_modifier_blob : Z;
  off_count_formats : Z;
  off_formats_offset : Z;
  off_count_modifiers : Z;
  off_modifiers_offset : Z;
  sizeof_format_modifier : Z;
  off_mod_formats : Z;
  off_mod_offset : Z;
  off_mod_modifier : Z;
  blob_layout :
    Forall (fun o => 0 <= o /\ o + 4 <= sizeof_modifier_blob)
      [off_count_formats; off_formats_offset; off_count_modifiers; off_modifiers_offset] /\
    0 < sizeof_format_modifier <= 2 ^ 16 /\
    0 <= off_mod_formats <= sizeof_format_modifier - 8 /\
    0 <= off_mod_offset <= sizeof_format_modifier - 4 /\
    0 <= off_mod_modifier <= sizeof_format_modifier - 8
}.
#[export] Existing Instance DRM_FORMAT_inj.

(** A [switch] on a fourcc: which of the named formats it is. *)
Definition switch_format `{DrmAbi} (code : Z) : option drm_format :=
  snd <$> list_find (fun f => DRM_FORMAT f = code) all_formats.

Lemma switch_format_spec `{DrmAbi} f : switch_format (DRM_FORMAT f) = Some f.
Proof.
  unfold switch_format.
  destruct (list_find_elem_of (fun g => DRM_FORMAT g = DRM_FORMAT f) all_formats f)
    as [[i g] Hg]; [apply all_formats_complete | done |].
  rewrite Hg. apply list_find_Some in Hg as (_ & Hg & _).
  apply (inj DRM_FORMAT) in Hg. simpl. congruence.
Qed.

Lemma switch_format_Some `{DrmAbi} code f : switch_format code = Some f -> code = DRM_FORMAT f.
Proof.
  unfold switch_format. intros Hs.
  destruct (list_find _ _) as [[i g]|] eqn:Hf; [|done].
  apply list_find_Some in Hf as (_ & Hg & _). simpl in Hs. congruence.
Qed.

(** ** The Linux values, for concrete runs *)

Definition fourcc_code (s : string) : Z :=
  foldr (fun c acc => Z.of_nat (Ascii.nat_of_ascii c) + 256 * acc) 0 (String.list_ascii_of_string s).

Definition linux_fourcc (f : drm_format) : Z :=
  fourcc_code
  match f with
  | C8 => "C8  " | RGB332 => "RGB8" | BGR233 => "BGR8"
  | XRGB4444 => "XR12" | XBGR4444 => "XB12" | RGBX4444 => "RX12" | BGRX4444 => "BX12"
  | ARGB4444 => "AR12" | ABGR4444 => "AB12" | RGBA4444 => "RA12" | BGRA4444 => "BA12"
  | XRGB1555 => "XR15" | XBGR1555 => "XB15" | RGBX5551 => "RX15" | BGRX5551 => "BX15"
  | ARGB1555 => "AR15" | ABGR1555 => "AB15" | RGBA5551 => "RA15" | BGRA5551 => "BA15"
  | RGB565 => "RG16" | BGR565 => "BG16" | RGB888 => "RG24" | BGR888 => "BG24"
  | XRGB8888 => "XR24" | XBGR8888 => "XB24" | RGBX8888 => "RX24" | BGRX8888 => "BX24"
  | ARGB8888 => "AR24" | ABGR8888 => "AB24" | RGBA8888 => "RA24" | BGRA8888 => "BA24"
  | XRGB2101010 => "XR30" | XBGR2101010 => "XB30" | RGBX1010102 => "RX30" | BGRX1010102 => "BX30"
  | ARGB2101010 => "AR30" | ABGR2101010 => "AB30" | RGBA1010102 => "RA30" | BGRA1010102 => "BA30"
  | XRGB16161616F => "XR4H" | XBGR16161616F => "XB4H"
  | ARGB16161616F => "AR4H" | ABGR16161616F => "AB4H"
  | NV12 => "NV12" | NV21 => "NV21" | NV15 => "NV15" | NV16 => "NV16" | NV20 => "NV20"
  | NV61 => "NV61" | NV24 => "NV24" | NV42 => "NV42"
  | P010 => "P010" | P012 => "P012" | P016 => "P016" | P210 => "P210"
  | YUYV => "YUYV" | YVYU => "YVYU" | UYVY => "UYVY" | VYUY => "VYUY" | AYUV => "AYUV"
  | Y210 => "Y210" | Y212 => "Y212" | Y216 => "Y216"
  | YUV410 => "YUV9" | YVU410 => "YVU9" | YUV411 => "YU11" | YVU411 => "YV11"
  | YUV420 => "YU12" | YVU420 => "YV12" | YUV422 => "YU16" | YVU422 => "YV16"
  | YUV444 => "YU24" | YVU444 => "YV24"
  end.

(** The position of a code in the table, a left inverse of [linux_fourcc]. *)
Lemma linux_fourcc_inj : Inj (=) (=) linux_fourcc.
Proof.
  assert (Hnd : NoDup (linux_fourcc <$> all_formats)).
  { apply (bool_decide_unpack (NoDup (linux_fourcc <$> all_formats))). vm_compute. exact I. }
  intros f g Hfg.
  destruct (proj1 (list_elem_of_lookup _ _) (all_formats_complete f)) as [i Hi].
  destruct (proj1 (list_elem_of_lookup _ _) (all_formats_complete g)) as [j Hj].
  assert (i = j) as ->; [|congruence].
  eapply NoDup_lookup; [exact Hnd | |]; rewrite list_lookup_fmap.
  - by rewrite Hi.
  - rewrite Hj. simpl. by rewrite Hfg.
Qed.

Definition linux_abi : DrmAbi.
Proof.
  refine {| DRM_FORMAT := linux_fourcc; DRM_FORMAT_inj := linux_fourcc_inj;
    DRM_FORMAT_MOD_LINEAR := 0; DRM_FORMAT_MOD_INVALID := 0x00ffffffffffffff;
    DRM_FORMAT_MOD_VENDOR_ARM := 0x08; DRM_FORMAT_MOD_VENDOR_AMD := 0x02;
    DRM_FORMAT_MOD_VENDOR_QCOM := 0x05; DRM_FORMAT_MOD_VENDOR_NVIDIA := 0x03;
    DRM_FORMAT_MOD_VENDOR_BROADCOM := 0x07;
    DRM_MODE_ROTATE_0 := 1; DRM_MODE_PROP_IMMUTABLE := 4; DRM_MODE_PROP_RANGE := 2;
    DRM_MODE_PROP_ENUM := 8; DRM_MODE_PROP_BLOB := 16; DRM_MODE_PROP_BITMASK := 32;
    DRM_PLANE_TYPE_PRIMARY := 1; DRM_PLANE_TYPE_CURSOR := 2;
    DRM_MODE_PAGE_FLIP_EVENT := 1; DRM_MODE_ATOMIC_TEST_ONLY := 0x100;
    DRM_MODE_ATOMIC_ALLOW_MODESET := 0x400; DRM_MODE_PAGE_FLIP_ASYNC := 2;
    sizeof_modifier_blob := 24; off_count_formats := 8; off_formats_offset := 12;
    off_count_modifiers := 16; off_modifiers_offset := 20;
    sizeof_format_modifier := 24; off_mod_formats := 0; off_mod_offset := 8;
    off_mod_modifier := 16 |}.
  split_and!; try lia. repeat constructor; lia.
Defined.
