(* ===== verification/FormatMod.v ===== *)
(** Format modifiers: [src/fmt/format_mod.hpp], [src/fmt/format_mod.cpp] and
    the per-format tables of [src/core/format.cpp].

    [FormatTable] decodes a plane's IN_FORMATS blob into a sorted, queryable
    table; [layer_fits_plane] is the allocator's edge test over it;
    [ModifierProbeCache] memoizes TEST_ONLY verdicts per modifier; [classify]
    and [scanout_cost_bytes] feed the placement score. *)
From Stdlib Require Import Floats.SpecFloat.
From S2P Require Import Prelude DrmAbi.

(** ** Modifiers and their classification *)

(** [Modifier] is a strong wrapper over a 64-bit value: here, the value. *)
Definition vendor (m : Z) : Z := u8 (Z.shiftr m 56).

Inductive BandwidthClass := Linear | Tiling | Compression.
#[global] Instance BandwidthClass_eq_dec : EqDecision BandwidthClass.
Proof. solve_decision. Defined.

Inductive Rotation := Rotate0 | Rotate90 | Rotate180 | Rotate270.
#[global] Instance Rotation_eq_dec : EqDecision Rotation.
Proof. solve_decision. Defined.

Definition DRM_FORMAT_MOD_ARM_TYPE_AFBC : Z := 0x00.
Definition DRM_FORMAT_MOD_ARM_TYPE_AFRC : Z := 0x02.
Definition DRM_FORMAT_MOD_ARM_16X16_BLOCK_U_INTERLEAVED : Z := 0x0810000000000001.
Definition DRM_FORMAT_MOD_VENDOR_VS : Z := 0x0b.

Definition vendor_0b_is_mtk (m : Z) : bool :=
  let body := Z.land m 0x00ffffffffffffff in
  if negb (Z.land (Z.shiftr body 54) 0x3 =? 0) then false
  else negb (Z.land body 0xffff00 =? 0) || (body =? 0x1).

Section Modifiers.
Context `{abi : DrmAbi}.

Definition is_linear (m : Z) : bool := m =? DRM_FORMAT_MOD_LINEAR.
Definition is_invalid (m : Z) : bool := m =? DRM_FORMAT_MOD_INVALID.

Definition classify (m : Z) : BandwidthClass :=
  if is_linear m || is_invalid m then Linear
  else if vendor m =? DRM_FORMAT_MOD_VENDOR_ARM then
    if m =? DRM_FORMAT_MOD_ARM_16X16_BLOCK_U_INTERLEAVED then Tiling
    else
      let type := Z.land (Z.shiftr m 52) 0xf in
      if (type =? DRM_FORMAT_MOD_ARM_TYPE_AFBC) || (type =? DRM_FORMAT_MOD_ARM_TYPE_AFRC)
      then Compression else Tiling
  else if vendor m =? DRM_FORMAT_MOD_VENDOR_AMD then
    if negb (Z.land (Z.shiftr m 13) 0x1 =? 0) then Compression else Tiling
  else if vendor m =? DRM_FORMAT_MOD_VENDOR_QCOM then Compression
  else if vendor m =? DRM_FORMAT_MOD_VENDOR_NVIDIA then
    if negb (Z.land (Z.shiftr m 23) 0x7 =? 0) then Compression else Tiling
  else if vendor m =? DRM_FORMAT_MOD_VENDOR_VS then
    if vendor_0b_is_mtk m then
      if negb (Z.land (Z.shiftr m 8) 0xff =? 0) then Compression else Tiling
    else if Z.land m 0x00ffffffffffffff =? 0 then Linear
    else if Z.land (Z.shiftr m 54) 0x3 =? 0x1 then Compression else Tiling
  else Tiling.

Definition rotation_compatible (m : Z) (r : Rotation) : bool :=
  if negb (bool_decide (r = Rotate90)) && negb (bool_decide (r = Rotate270)) then true
  else if is_linear m then false
  else if (vendor m =? DRM_FORMAT_MOD_VENDOR_AMD)
          && negb (Z.land (Z.shiftr m 13) 0x1 =? 0) then false
  else true.
End Modifiers.

(** ** Reading memory

    [read_le mem off n] is the [n]-byte little-endian load at [off]; an access
    outside the buffer is [None], which the code must never perform. *)

Definition read_le (mem : list Z) (off n : Z) : option Z :=
  if (0 <=? off) && (off + n <=? Z.of_nat (length mem))
  then Some (foldr (fun b acc => b + 256 * acc) 0
               (take (Z.to_nat n) (drop (Z.to_nat off) mem)))
  else None.

(** ** FormatTable *)

Record FormatMod := mkFormatMod { fourcc : Z; modifier : Z }.
#[global] Instance FormatMod_eq_dec : EqDecision FormatMod.
Proof. solve_decision. Defined.

Definition FormatMod_lt (a b : FormatMod) : bool :=
  if negb (fourcc a =? fourcc b) then fourcc a <? fourcc b else modifier a <? modifier b.
Definition FormatMod_eqb (a b : FormatMod) : bool :=
  (fourcc a =? fourcc b) && (modifier a =? modifier b).

Record Group := mkGroup { g_fourcc : Z; g_first : nat; g_count : nat }.

Record FormatTable := mkFormatTable {
  pairs_ : list FormatMod;
  mods_ : list Z;
  groups_ : list Group
}.

Definition empty_table : FormatTable := mkFormatTable [] [] [].

(** The inner loop of [build_index]: the modifiers of the leading run of
    [f], and what is left. *)
Fixpoint take_group (f : Z) (ps : list FormatMod) : list Z * list FormatMod :=
  match ps with
  | p :: ps' =>
      if fourcc p =? f then let '(ms, rest) := take_group f ps' in (modifier p :: ms, rest)
      else ([], ps)
  | [] => ([], [])
  end.

(** The outer loop; each round consumes at least one pair. *)
Fixpoint index_loop (fuel : nat) (ps : list FormatMod) (mods : list Z) (groups : list Group)
    : list Z * list Group :=
  match fuel, ps with
  | S fuel', p :: _ =>
      let '(ms, rest) := take_group (fourcc p) ps in
      index_loop fuel' rest (mods ++ ms)
        (groups ++ [mkGroup (fourcc p) (length mods) (length ms)])
  | _, _ => (mods, groups)
  end.

Definition build_index `{CppStd} (ps : list FormatMod) : FormatTable :=
  let ps := unique FormatMod_eqb (std_sort FormatMod_lt ps) in
  let '(mods, groups) := index_loop (length ps) ps [] [] in
  mkFormatTable ps mods groups.

Definition from_pairs `{CppStd} (ps : list (Z * Z)) : FormatTable :=
  build_index ((fun p => mkFormatMod p.1 p.2) <$> ps).

Definition supports (t : FormatTable) (f m : Z) : bool :=
  binary_search FormatMod_lt (mkFormatMod f m) (pairs_ t).

Definition modifiers_for (t : FormatTable) (f : Z) : list Z :=
  match lower_bound (fun g => g_fourcc g <? f) (groups_ t) with
  | g :: _ =>
      if negb (g_fourcc g =? f) then []
      else take (g_count g) (drop (g_first g) (mods_ t))
  | [] => []
  end.

Section FromBlob.
Context `{abi : DrmAbi} `{cpp : CppStd}.

Record blob_header := mkHeader {
  count_formats : Z; formats_offset : Z; count_modifiers : Z; modifiers_offset : Z
}.

Definition read_header (mem : list Z) : option blob_header :=
  cf ← read_le mem off_count_formats 4;
  fo ← read_le mem off_formats_offset 4;
  cm ← read_le mem off_count_modifiers 4;
  mo ← read_le mem off_modifiers_offset 4;
  Some (mkHeader cf fo cm mo).

(** The bit loop over one [drm_format_modifier], bits [b, 64). *)
Fixpoint format_bits (mem : list Z) (h : blob_header) (formats offset mod_ : Z)
    (n : nat) (b : Z) : option (list FormatMod) :=
  match n with
  | O => Some []
  | S n' =>
      if Z.land (Z.shiftr formats b) 1 =? 0 then format_bits mem h formats offset mod_ n' (b + 1)
      else
        let idx := u32 (offset + b) in
        if count_formats h <=? idx then format_bits mem h formats offset mod_ n' (b + 1)
        else
          fc ← read_le mem (formats_offset h + idx * 4) 4;
          rest ← format_bits mem h formats offset mod_ n' (b + 1);
          Some (mkFormatMod fc mod_ :: rest)
  end.

(** The modifier loop, elements [i, i + n). *)
Fixpoint modifier_loop (mem : list Z) (h : blob_header) (n : nat) (i : Z)
    : option (list FormatMod) :=
  match n with
  | O => Some []
  | S n' =>
      let base := modifiers_offset h + i * sizeof_format_modifier in
      fmts ← read_le mem (base + off_mod_formats) 8;
      off ← read_le mem (base + off_mod_offset) 4;
      m ← read_le mem (base + off_mod_modifier) 8;
      here ← format_bits mem h fmts off m 64 0;
      rest ← modifier_loop mem h n' (i + 1);
      Some (here ++ rest)
  end.

(** [data] is [None] for a null pointer.  [None] as a result is undefined
    behaviour: a read outside the blob. *)
Definition from_blob (data : option (list Z)) : option FormatTable :=
  match data with
  | None => Some empty_table
  | Some mem =>
      let size := Z.of_nat (length mem) in
      if size <? sizeof_modifier_blob then Some empty_table
      else
        h ← read_header mem;
        if (size <? formats_offset h) || (size <? modifiers_offset h)
           || ((size - formats_offset h) / 4 <? count_formats h)
           || ((size - modifiers_offset h) / sizeof_format_modifier <? count_modifiers h)
        then Some empty_table
        else
          ps ← modifier_loop mem h (Z.to_nat (count_modifiers h)) 0;
          Some (build_index ps)
  end.
End FromBlob.

(** ** Per-format tables ([src/core/format.cpp]) *)

Section FormatTables.
  Context `{abi : DrmAbi}.

Definition format_name (format : Z) : string :=
  match switch_format format with
  | Some C8 => "C8" | Some RGB332 => "RGB332" | Some BGR233 => "BGR233"
  | Some XRGB4444 => "XRGB4444" | Some XBGR4444 => "XBGR4444" | Some RGBX4444 => "RGBX4444"
  | Some BGRX4444 => "BGRX4444" | Some ARGB4444 => "ARGB4444" | Some ABGR4444 => "ABGR4444"
  | Some RGBA4444 => "RGBA4444" | Some BGRA4444 => "BGRA4444" | Some XRGB1555 => "XRGB1555"
  | Some XBGR1555 => "XBGR1555" | Some RGBX5551 => "RGBX5551" | Some BGRX5551 => "BGRX5551"
  | Some ARGB1555 => "ARGB1555" | Some ABGR1555 => "ABGR1555" | Some RGBA5551 => "RGBA5551"
  | Some BGRA5551 => "BGRA5551" | Some RGB565 => "RGB565" | Some BGR565 => "BGR565"
  | Some RGB888 => "RGB888" | Some BGR888 => "BGR888" | Some XRGB8888 => "XRGB8888"
  | Some XBGR8888 => "XBGR8888" | Some RGBX8888 => "RGBX8888" | Some BGRX8888 => "BGRX8888"
  | Some ARGB8888 => "ARGB8888" | Some ABGR8888 => "ABGR8888" | Some RGBA8888 => "RGBA8888"
  | Some BGRA8888 => "BGRA8888" | Some XRGB2101010 => "XRGB2101010"
  | Some XBGR2101010 => "XBGR2101010" | Some RGBX1010102 => "RGBX1010102"
  | Some BGRX1010102 => "BGRX1010102" | Some ARGB2101010 => "ARGB2101010"
  | Some ABGR2101010 => "ABGR2101010" | Some RGBA1010102 => "RGBA1010102"
  | Some BGRA1010102 => "BGRA1010102" | Some XRGB16161616F => "XRGB16161616F"
  | Some XBGR16161616F => "XBGR16161616F" | Some ARGB16161616F => "ARGB16161616F"
  | Some ABGR16161616F => "ABGR16161616F" | Some NV12 => "NV12" | Some NV21 => "NV21"
  | Some NV15 => "NV15" | Some NV16 => "NV16" | Some NV20 => "NV20" | Some NV61 => "NV61"
  | Some P010 => "P010" | Some P012 => "P012" | Some P016 => "P016" | Some YUYV => "YUYV"
  | Some YVYU => "YVYU" | Some UYVY => "UYVY" | Some VYUY => "VYUY" | Some AYUV => "AYUV"
  | Some Y210 => "Y210" | Some Y212 => "Y212" | Some Y216 => "Y216"
  | Some YUV410 => "YUV410" | Some YVU410 => "YVU410" | Some YUV411 => "YUV411"
  | Some YVU411 => "YVU411" | Some YUV420 => "YUV420" | Some YVU420 => "YVU420"
  | Some YUV422 => "YUV422" | Some YVU422 => "YVU422" | Some YUV444 => "YUV444"
  | Some YVU444 => "YVU444"
  | _ => "unknown"
  end.

Definition format_bpp (format : Z) : Z :=
  match switch_format format with
  | Some (C8 | RGB332 | BGR233) => 8
  | Some (XRGB4444 | XBGR4444 | RGBX4444 | BGRX4444 | ARGB4444 | ABGR4444 | RGBA4444
         | BGRA4444 | XRGB1555 | XBGR1555 | RGBX5551 | BGRX5551 | ARGB1555 | ABGR1555
         | RGBA5551 | BGRA5551 | RGB565 | BGR565) => 16
  | Some (RGB888 | BGR888) => 24
  | Some (XRGB8888 | XBGR8888 | RGBX8888 | BGRX8888 | ARGB8888 | ABGR8888 | RGBA8888
         | BGRA8888 | XRGB2101010 | XBGR2101010 | RGBX1010102 | BGRX1010102 | ARGB2101010
         | ABGR2101010 | RGBA1010102 | BGRA1010102) => 32
  | Some (XRGB16161616F | XBGR16161616F | ARGB16161616F | ABGR16161616F) => 64
  | Some (YUYV | YVYU | UYVY | VYUY) => 16
  | Some (Y210 | Y212 | Y216 | AYUV) => 32
  | _ => 0
  end.

(** Bytes fetched for one frame, in [uint64_t] arithmetic. *)
Definition frame_bytes (fc w h : Z) : Z :=
  let px := u64 (w * h) in
  let bpp := format_bpp fc in
  if negb (bpp =? 0) then u64 (px * (bpp / 8))
  else
    match switch_format fc with
    | Some (NV12 | NV21 | YUV420 | YVU420) => u64 (px * 3) / 2
    | Some (NV16 | NV61 | YUV422 | YVU422) => u64 (px * 2)
    | Some (NV24 | NV42 | YUV444 | YVU444 | P010 | P012 | P016) => u64 (px * 3)
    | _ => u64 (px * 4)
    end.

(** IEEE binary64 as [SpecFloat] computes it. *)
Definition double_of_Z (m e : Z) : spec_float := binary_normalize 53 1024 m e false.

(** [0.6F], the float nearest to 0.6, is 10066330 * 2^-24; exact as a double. *)
Definition ratio_default : spec_float := double_of_Z 10066330 (-24).

Definition trunc_u64 (f : spec_float) : Z :=
  match f with
  | S754_finite false m e =>
      if 0 <=? e then u64 (Zpos m * 2 ^ e) else Zpos m / 2 ^ (- e)
  | _ => 0
  end.

Definition scanout_cost_bytes (w h fc : Z) (cls : BandwidthClass) (ratio : spec_float) : Z :=
  let raw := frame_bytes fc w h in
  if bool_decide (cls = Compression)
  then trunc_u64 (SFmul 53 1024 (double_of_Z raw 0) ratio)
  else raw.

End FormatTables.

(** ** The allocator's edge test *)

Definition layer_fits_plane `{DrmAbi} (t : FormatTable) (f m : Z) : bool :=
  if supports t f m then true
  else if is_linear m || is_invalid m then
    supports t f DRM_FORMAT_MOD_LINEAR || supports t f DRM_FORMAT_MOD_INVALID
  else if vendor m =? DRM_FORMAT_MOD_VENDOR_BROADCOM then
    let code := Z.land m 0xff in
    if (3 <=? code) && (code <=? 5)
    then supports t f (Z.lor (Z.shiftl DRM_FORMAT_MOD_VENDOR_BROADCOM 56) code)
    else false
  else false.

(** ** ModifierProbeCache *)

Module ModifierProbeCache.
Inductive Verdict := Unknown | Ok | Rejected.
#[global] Instance Verdict_eq_dec : EqDecision Verdict.
Proof. solve_decision. Defined.

Record Key := mkKey { crtc : Z; plane : Z; k_fourcc : Z; k_modifier : Z }.
#[global] Instance Key_eq_dec : EqDecision Key.
Proof. solve_decision. Defined.

(** [entries_] *)
Definition entries : Type := list (Key * bool).

Fixpoint lookup_key (k : Key) (c : entries) : Verdict :=
  match c with
  | [] => Unknown
  | (k', ok) :: c' =>
      if bool_decide (k' = k) then (if ok then Ok else Rejected) else lookup_key k c'
  end.

Fixpoint record_key (k : Key) (ok : bool) (c : entries) : entries :=
  match c with
  | [] => [(k, ok)]
  | (k', ok') :: c' =>
      if bool_decide (k' = k) then (k', ok) :: c' else (k', ok') :: record_key k ok c'
  end.

Definition lookup (cr pl fc m : Z) (c : entries) : Verdict := lookup_key (mkKey cr pl fc m) c.
Definition record (cr pl fc m : Z) (ok : bool) (c : entries) : entries := record_key (mkKey cr pl fc m) ok c.
Definition invalidate_plane (pl : Z) (c : entries) : entries :=
  filter (B:=list (Key * bool)) (fun e => plane e.1 <> pl) c.
End ModifierProbeCache.

(** ** The table index *)

#[export] Instance FormatMod_strict_weak : StrictWeak FormatMod_lt.
Proof.
  split; intros *; unfold FormatMod_lt; repeat case_goal; intros; bool_simpl;
    rewrite ?Z.ltb_lt, ?Z.ltb_ge in *; lia.
Qed.

Lemma FormatMod_lt_total a b : FormatMod_lt a b = false -> FormatMod_lt b a = false -> a = b.
Proof.
  destruct a as [f m], b as [f' m']; unfold FormatMod_lt; simpl.
  repeat case_goal; intros; bool_simpl; try lia. f_equal; lia.
Qed.

Lemma FormatMod_eqb_eq a b : FormatMod_eqb a b = true <-> a = b.
Proof.
  destruct a, b; unfold FormatMod_eqb; simpl.
  rewrite andb_true_iff, !Z.eqb_eq. split; [intros []; congruence | intros [=]; done].
Qed.

Definition strictly_sorted (ps : list FormatMod) : Prop :=
  StronglySorted (fun a b => FormatMod_lt a b = true) ps.

Lemma take_group_spec f ps ms rest :
  take_group f ps = (ms, rest) ->
  exists run, ps = run ++ rest /\ ms = modifier <$> run /\
    Forall (fun p => fourcc p = f) run /\
    (forall p rest', rest = p :: rest' -> fourcc p <> f).
Proof.
  revert ms rest. induction ps as [|p ps IH]; intros ms rest; simpl.
  { intros [= <- <-]. exists []. by split_and!. }
  destruct (Z.eqb_spec (fourcc p) f) as [Hf|Hf].
  - destruct (take_group f ps) as [ms' rest'] eqn:E. intros [= <- <-].
    destruct (IH _ _ eq_refl) as (run & -> & -> & Hrun & Hrest).
    exists (p :: run). split_and!; try done. by constructor.
  - intros [= <- <-]. exists []. split_and!; try done.
    by intros ?? [= -> ->].
Qed.

(** What the two index arrays say about the pairs indexed so far. *)
Definition indexes (ps : list FormatMod) (mods : list Z) (groups : list Group) : Prop :=
  mods = modifier <$> ps /\
  StronglySorted (fun a b => g_fourcc a < g_fourcc b) groups /\
  (forall g, g ∈ groups ->
     (g_first g + g_count g <= length mods)%nat /\
     take (g_count g) (drop (g_first g) mods)
     = modifier <$> filter (fun p => fourcc p = g_fourcc g) ps /\
     exists p, p ∈ ps /\ fourcc p = g_fourcc g) /\
  (forall p, p ∈ ps -> exists g, g ∈ groups /\ g_fourcc g = fourcc p).

Lemma strictly_sorted_fourcc p ps q :
  strictly_sorted (p :: ps) -> q ∈ ps -> fourcc p <= fourcc q.
Proof.
  intros Hs Hq. apply StronglySorted_inv in Hs as [_ Hs].
  rewrite Forall_forall in Hs. apply Hs in Hq. revert Hq.
  unfold FormatMod_lt. case_goal; bool_simpl; rewrite Z.ltb_lt; lia.
Qed.

(** One round: the leading run of [f] goes to the tables. *)
Lemma indexes_snoc ps mods groups f run :
  run <> [] ->
  Forall (fun p => fourcc p = f) run ->
  (forall p, p ∈ ps -> fourcc p < f) ->
  indexes ps mods groups ->
  indexes (ps ++ run) (mods ++ (modifier <$> run))
    (groups ++ [mkGroup f (length mods) (length (modifier <$> run))]).
Proof.
  intros Hne Hrun Hlt (-> & Hs & Hg & Hp). rewrite Forall_forall in Hrun.
  split_and!.
  - by rewrite fmap_app.
  - apply StronglySorted_app_2; [| done | repeat constructor].
    intros g g' Hgg ->%list_elem_of_singleton. simpl.
    destruct (Hg g Hgg) as (_ & _ & p & Hpp & <-). by apply Hlt.
  - intros g [Hgg| ->%list_elem_of_singleton]%elem_of_app.
    + destruct (Hg g Hgg) as (Hle & Hslice & p & Hpp & Hpf). split_and!.
      * rewrite length_app. lia.
      * rewrite filter_app, fmap_app, <- Hslice.
        rewrite (filter_none _ run), app_nil_r.
        2: { intros q Hq. rewrite (Hrun q Hq), <- Hpf. specialize (Hlt p Hpp). lia. }
        rewrite drop_app_le, take_app_le; [done | rewrite length_drop; lia | lia].
      * exists p. split; [apply elem_of_app; by left | done].
    + simpl. split_and!.
      * by rewrite length_app.
      * rewrite drop_app_length, take_ge by (rewrite length_fmap; lia).
        rewrite filter_app, fmap_app, filter_none, filter_every; [done | done |].
        intros q Hq. specialize (Hlt q Hq). lia.
      * destruct run as [|q run]; [done|]. exists q.
        split; [apply elem_of_app; right; apply list_elem_of_here | apply Hrun, list_elem_of_here].
  - intros p [Hpp|Hpp]%elem_of_app.
    + destruct (Hp p Hpp) as (g & Hgg & Hgf). exists g.
      split; [apply elem_of_app; by left | done].
    + eexists. split; [apply elem_of_app; right; apply list_elem_of_here|].
      simpl. by rewrite (Hrun p Hpp).
Qed.

Lemma index_loop_spec fuel done rest mods groups mods' groups' :
  index_loop fuel rest mods groups = (mods', groups') ->
  (length rest <= fuel)%nat ->
  strictly_sorted rest ->
  (forall p q, p ∈ done -> q ∈ rest -> fourcc p < fourcc q) ->
  indexes done mods groups ->
  indexes (done ++ rest) mods' groups'.
Proof.
  revert done rest mods groups.
  induction fuel as [|fuel IH]; intros done rest mods groups Hl Hfuel Hs Hlt Hi.
  { destruct rest; [|simpl in Hfuel; lia]. injection Hl as <- <-. by rewrite app_nil_r. }
  destruct rest as [|p ps]; cbn [index_loop] in Hl.
  { injection Hl as <- <-. by rewrite app_nil_r. }
  destruct (take_group (fourcc p) (p :: ps)) as [ms rest] eqn:Ht.
  destruct (take_group_spec _ _ _ _ Ht) as (run & Hps & -> & Hrun & Hrest).
  assert (Hne : run <> []).
  { intros ->. simpl in Hps. by eapply Hrest. }
  assert (Hhd : forall q, q ∈ rest -> fourcc p < fourcc q).
  { intros q Hq. destruct rest as [|r rest]; [by apply not_elem_of_nil in Hq|].
    assert (fourcc p <= fourcc r /\ fourcc r <> fourcc p) as [].
    { split; [|by eapply Hrest]. destruct run as [|r0 run]; [done|]. simpl in Hps.
      injection Hps as <- ->. eapply strictly_sorted_fourcc; [exact Hs|].
      apply elem_of_app. right. apply list_elem_of_here. }
    rewrite Hps in Hs. apply StronglySorted_app_1_r in Hs.
    apply elem_of_cons in Hq as [->|Hq]; [lia|].
    pose proof (strictly_sorted_fourcc _ _ _ Hs Hq). lia. }
  rewrite Hps, (assoc_L (++)). eapply IH; [exact Hl | | | |].
  - assert (length (p :: ps) = length (run ++ rest)) as Hlen by congruence.
    rewrite length_app in Hlen. simpl in Hlen, Hfuel.
    destruct run; [done|]. simpl in Hlen. lia.
  - rewrite Hps in Hs. by apply StronglySorted_app_1_r in Hs.
  - rewrite Forall_forall in Hrun. intros q r [Hq|Hq]%elem_of_app Hr.
    + apply Hlt; [done|]. rewrite Hps. apply elem_of_app. by right.
    + rewrite (Hrun q Hq). by apply Hhd.
  - apply indexes_snoc; try done. intros q Hq. apply Hlt; [done|]. apply list_elem_of_here.
Qed.

(** What [build_index] establishes, and every query relies on. *)
Definition table_ok (t : FormatTable) : Prop :=
  strictly_sorted (pairs_ t) /\ indexes (pairs_ t) (mods_ t) (groups_ t).

Lemma build_index_ok `{CppStd} ps : table_ok (build_index ps).
Proof.
  unfold build_index.
  set (ps' := unique FormatMod_eqb (std_sort FormatMod_lt ps)).
  assert (Hs : strictly_sorted ps').
  { apply (unique_sorted FormatMod_eqb FormatMod_eqb_eq FormatMod_lt FormatMod_lt_total).
    apply std_sort_sorted. apply _. }
  destruct (index_loop _ _ _ _) as [mods groups] eqn:Hl. split; [done|].
  apply (index_loop_spec _ [] _ _ _ _ _ Hl); [simpl; lia | done | |].
  - intros p q Hp. by apply not_elem_of_nil in Hp.
  - split_and!; [done | constructor | |]; intros ? Hx; by apply not_elem_of_nil in Hx.
Qed.

Lemma elem_of_build_index `{CppStd} ps p : p ∈ pairs_ (build_index ps) <-> p ∈ ps.
Proof.
  unfold build_index. destruct (index_loop _ _ _ _). simpl.
  rewrite (elem_of_unique FormatMod_eqb FormatMod_eqb_eq). by rewrite std_sort_perm.
Qed.

Lemma supports_iff t f m :
  table_ok t -> supports t f m = true <-> mkFormatMod f m ∈ pairs_ t.
Proof.
  intros [Hs _]. unfold supports.
  rewrite binary_search_spec by (apply _ || by apply strict_sorted_not_after; [apply _|]).
  split.
  - intros (p & Hp & H1 & H2). by rewrite <- (FormatMod_lt_total p (mkFormatMod f m)).
  - intros Hp. exists (mkFormatMod f m). split; [done|].
    unfold FormatMod_lt. simpl. rewrite Z.eqb_refl. simpl. rewrite Z.ltb_irrefl. done.
Qed.

Lemma lower_bound_group gs f g gs' :
  StronglySorted (fun a b => g_fourcc a < g_fourcc b) gs ->
  lower_bound (fun g => g_fourcc g <? f) gs = g :: gs' ->
  g ∈ gs /\ (forall g', g' ∈ gs -> g_fourcc g' = f -> g_fourcc g = f).
Proof.
  intros Hs Hl. destruct (lower_bound_suffix (fun g => g_fourcc g <? f) gs) as (pre & Heq & Hpre).
  pose proof (lower_bound_head _ _ _ _ Hl) as Hge. apply Z.ltb_ge in Hge.
  rewrite Hl in Heq. subst gs. rewrite Forall_forall in Hpre. split.
  - apply elem_of_app. right. apply list_elem_of_here.
  - intros g' Hg' Hf. apply elem_of_app in Hg' as [Hg'|Hg'].
    + apply Hpre in Hg'. bool_simpl. lia.
    + apply elem_of_cons in Hg' as [->|Hg']; [done|].
      apply StronglySorted_app_1_r, StronglySorted_inv in Hs as [_ Hs].
      rewrite Forall_forall in Hs. apply Hs in Hg'. lia.
Qed.

Lemma lower_bound_nil {A} (below : A -> bool) l x :
  lower_bound below l = [] -> x ∈ l -> below x = true.
Proof.
  intros Hl Hx. destruct (lower_bound_suffix below l) as (pre & Heq & Hpre).
  rewrite Hl, app_nil_r in Heq. subst pre. rewrite Forall_forall in Hpre. by apply Hpre.
Qed.

Lemma modifiers_for_spec t f :
  table_ok t ->
  modifiers_for t f = modifier <$> filter (fun p => fourcc p = f) (pairs_ t).
Proof.
  intros (_ & _ & Hs & Hg & Hp). unfold modifiers_for.
  assert (Hnone : (forall g, g ∈ groups_ t -> g_fourcc g <> f) ->
    modifier <$> filter (fun p => fourcc p = f) (pairs_ t) = []).
  { intros Hno. rewrite filter_none; [done|]. intros p Hpp Hf.
    destruct (Hp p Hpp) as (g & Hgg & Hgf). apply (Hno g Hgg). congruence. }
  destruct (lower_bound _ _) as [|g gs] eqn:Hl.
  - symmetry. apply Hnone. intros g Hgg Hf.
    pose proof (lower_bound_nil _ _ _ Hl Hgg) as Hlt. simpl in Hlt. bool_simpl. lia.
  - destruct (lower_bound_group _ _ _ _ Hs Hl) as [Hgg Hfirst].
    destruct (Z.eqb_spec (g_fourcc g) f) as [<-|Hne]; simpl.
    + by destruct (Hg g Hgg) as (_ & Hslice & _).
    + symmetry. apply Hnone. intros g' Hg' Hf. eauto.
Qed.

(** Building a table and querying it agree: [supports] holds exactly
    for the pairs that were put in, and [modifiers_for] lists exactly the
    modifiers [supports] accepts, each once, in increasing order. *)
Theorem format_table_queries `{CppStd} (ps : list (Z * Z)) (f m : Z) :
  (supports (from_pairs ps) f m = true <-> (f, m) ∈ ps) /\
  (m ∈ modifiers_for (from_pairs ps) f <-> (f, m) ∈ ps) /\
  StronglySorted Z.lt (modifiers_for (from_pairs ps) f).
Proof.
  pose proof (build_index_ok ((fun p => mkFormatMod p.1 p.2) <$> ps)) as Hok.
  assert (Hin : mkFormatMod f m ∈ pairs_ (from_pairs ps) <-> (f, m) ∈ ps).
  { unfold from_pairs. rewrite elem_of_build_index, list_elem_of_fmap. split.
    - intros ([f' m'] & [= -> ->] & Hp). done.
    - intros Hp. by exists (f, m). }
  unfold from_pairs in *. rewrite supports_iff, modifiers_for_spec by done. split_and!; [done | |].
  - rewrite list_elem_of_fmap, <- Hin. split.
    + intros ([f' m'] & -> & [Hf Hp]%list_elem_of_filter). simpl in *. by subst f'.
    + intros Hp. exists (mkFormatMod f m). split; [done|]. by apply list_elem_of_filter.
  - destruct Hok as [Hs _]. revert Hs. generalize (pairs_ (build_index ((fun p : Z * Z =>
      mkFormatMod p.1 p.2) <$> ps))) as l. clear Hin. unfold strictly_sorted.
    induction 1 as [|p l Hs IH Hp]; [constructor|]. rewrite filter_cons.
    destruct (decide (fourcc p = f)) as [Hf|]; [|done]. simpl. constructor; [done|].
    rewrite Forall_fmap. rewrite Forall_forall in *. intros q [Hqf Hq]%list_elem_of_filter.
    apply Hp in Hq. unfold compose. revert Hq. unfold FormatMod_lt.
    rewrite Hf, Hqf, Z.eqb_refl. simpl. by rewrite Z.ltb_lt.
Qed.

(** ** Decoding stays inside the blob *)

Definition bytes_ok (mem : list Z) : Prop := Forall (fun b => in_u 8 b) mem.

Lemma le_sum_range l : bytes_ok l -> 0 <= foldr (fun b acc => b + 256 * acc) 0 l < 256 ^ Z.of_nat (length l).
Proof.
  induction 1 as [|b l Hb Hl IH]; simpl; [lia|].
  unfold in_u in Hb. rewrite Nat2Z.inj_succ, Z.pow_succ_r by lia. lia.
Qed.

Lemma read_le_range mem off n v :
  bytes_ok mem -> 0 <= n -> read_le mem off n = Some v -> 0 <= v < 2 ^ (8 * n).
Proof.
  intros Hm Hn. unfold read_le. case_goal; [|done]. intros [= <-]. bool_simpl.
  pose proof (le_sum_range (take (Z.to_nat n) (drop (Z.to_nat off) mem))) as Hr.
  rewrite length_take, length_drop in Hr.
  replace (Z.of_nat (Z.to_nat n `min` (length mem - Z.to_nat off))) with n in Hr by lia.
  rewrite Z.pow_mul_r by lia. apply Hr. by apply Forall_take, Forall_drop.
Qed.

Lemma read_le_some mem off n :
  0 <= off -> off + n <= Z.of_nat (length mem) -> is_Some (read_le mem off n).
Proof.
  intros H1 H2. unfold read_le.
  rewrite (proj2 (Z.leb_le _ _) H1), (proj2 (Z.leb_le _ _) H2). simpl. eauto.
Qed.

Section BlobSafety.
Context `{abi : DrmAbi} `{cpp : CppStd}.
#[local] Arguments read_le : simpl never.

(** The two arrays the header announces lie inside the blob. *)
Definition arrays_inside (mem : list Z) (h : blob_header) : Prop :=
  0 <= formats_offset h /\ 0 <= count_formats h /\ 0 <= modifiers_offset h /\
  formats_offset h + count_formats h * 4 <= Z.of_nat (length mem) /\
  modifiers_offset h + count_modifiers h * sizeof_format_modifier <= Z.of_nat (length mem).

Lemma format_bits_some mem h fmts off m n b :
  arrays_inside mem h -> is_Some (format_bits mem h fmts off m n b).
Proof.
  intros Ha. revert b. induction n as [|n IH]; intros b; cbn [format_bits]; [eauto|].
  case_goal; [apply IH|]. case_goal; [apply IH|]. bool_simpl.
  destruct Ha as (? & ? & ? & Hf & _).
  pose proof (wrap_range 32 (off + b) ltac:(lia)) as Hidx. unfold in_u in Hidx.
  apply is_Some_bind; [apply read_le_some; lia | intros ? _].
  apply is_Some_bind; [apply IH | eauto].
Qed.

Lemma modifier_loop_some mem h n i :
  arrays_inside mem h -> 0 <= i -> i + Z.of_nat n <= count_modifiers h ->
  is_Some (modifier_loop mem h n i).
Proof.
  intros Ha. revert i. induction n as [|n IH]; intros i Hi Hn; cbn [modifier_loop]; [eauto|].
  destruct blob_layout as (_ & Hsz & Hf & Ho & Hm).
  destruct (Ha) as (? & ? & ? & _ & Hmods).
  assert (i * sizeof_format_modifier + sizeof_format_modifier
          <= count_modifiers h * sizeof_format_modifier) by nia.
  assert (0 <= i * sizeof_format_modifier) by nia.
  do 3 (apply is_Some_bind; [apply read_le_some; lia | intros ? _]).
  apply is_Some_bind; [by apply format_bits_some | intros ? _].
  apply is_Some_bind; [apply IH; lia | eauto].
Qed.

Lemma read_header_some mem :
  bytes_ok mem -> sizeof_modifier_blob <= Z.of_nat (length mem) ->
  exists h, read_header mem = Some h /\ in_u 32 (count_formats h) /\
    in_u 32 (formats_offset h) /\ in_u 32 (count_modifiers h) /\ in_u 32 (modifiers_offset h).
Proof.
  intros Hm Hsz. destruct blob_layout as (Hoff & _).
  apply Forall_cons in Hoff as [Ho1 Hoff]. apply Forall_cons in Hoff as [Ho2 Hoff].
  apply Forall_cons in Hoff as [Ho3 Hoff]. apply Forall_cons in Hoff as [Ho4 _].
  unfold read_header.
  do 4 match goal with
  | |- context [read_le mem ?o 4] =>
      let Hr := fresh "Hr" in
      destruct (read_le_some mem o 4) as [? Hr]; [lia..|]; rewrite Hr;
      apply read_le_range in Hr; [|done|lia]; simpl
  end.
  eexists. split; [done|]. unfold in_u. simpl. lia.
Qed.

Lemma from_blob_total (mem : list Z) :
  bytes_ok mem -> exists t, from_blob (Some mem) = Some t /\ table_ok t.
Proof.
  intros Hm. unfold from_blob.
  assert (Hempty : table_ok empty_table).
  { split; [constructor|]. split_and!; [done|constructor| |];
      intros ? Hx; by apply not_elem_of_nil in Hx. }
  case_goal; [eauto|]. bool_simpl.
  destruct (read_header_some mem Hm ltac:(lia)) as (h & -> & Hcf & Hfo & Hcm & Hmo). simpl.
  case_goal; [eauto|]. bool_simpl. unfold in_u in *.
  destruct blob_layout as (_ & Hsz & _).
  assert (Ha : arrays_inside mem h).
  { unfold arrays_inside. split_and!; try lia.
    - pose proof (Z.mul_div_le (Z.of_nat (length mem) - formats_offset h) 4). lia.
    - pose proof (Z.mul_div_le (Z.of_nat (length mem) - modifiers_offset h)
        sizeof_format_modifier). nia. }
  destruct (modifier_loop_some mem h (Z.to_nat (count_modifiers h)) 0 Ha) as [ps ->]; [lia..|].
  simpl. eexists. split; [done|]. apply build_index_ok.
Qed.

(** Whatever bytes the kernel hands over, truncated or hostile, the
    IN_FORMATS decoder never reads outside the blob: it returns a table, and
    that table answers its two queries consistently. *)
Theorem from_blob_in_bounds (mem : list Z) (f m : Z) :
  bytes_ok mem ->
  exists t, from_blob (Some mem) = Some t /\
    (supports t f m = true <-> m ∈ modifiers_for t f).
Proof.
  intros Hm. destruct (from_blob_total mem Hm) as (t & Ht & Hok). exists t. split; [done|].
  rewrite supports_iff, modifiers_for_spec, list_elem_of_fmap by done. split.
  - intros Hp. exists (mkFormatMod f m). split; [done|]. by apply list_elem_of_filter.
  - intros ([f' m'] & -> & [Hf Hp]%list_elem_of_filter). simpl in *. by subst.
Qed.
End BlobSafety.

Section BlobMeaning.
Context `{abi : DrmAbi} `{cpp : CppStd}.

(** Bit [b] of one modifier element names format [f]. *)
Definition bit_names (mem : list Z) (h : blob_header) (fmts off b f : Z) : Prop :=
  Z.testbit fmts b = true /\ u32 (off + b) < count_formats h /\
  read_le mem (formats_offset h + u32 (off + b) * 4) 4 = Some f.

(** The blob says the plane scans out format [f] with modifier [m]. *)
Definition blob_lists (mem : list Z) (h : blob_header) (f m : Z) : Prop :=
  exists i b fmts off,
    0 <= i < count_modifiers h /\ 0 <= b < 64 /\
    let base := modifiers_offset h + i * sizeof_format_modifier in
    read_le mem (base + off_mod_formats) 8 = Some fmts /\
    read_le mem (base + off_mod_offset) 4 = Some off /\
    read_le mem (base + off_mod_modifier) 8 = Some m /\
    bit_names mem h fmts off b f.

Lemma land_1_testbit z b : 0 <= b -> (Z.land (Z.shiftr z b) 1 =? 0) = negb (Z.testbit z b).
Proof.
  intros Hb. change 1 with (Z.ones 1). rewrite Z.land_ones by lia.
  rewrite Z.shiftr_div_pow2 by lia. change (2 ^ 1) with 2.
  rewrite <- (Z.testbit_spec' z b Hb). by destruct (Z.testbit z b).
Qed.

Lemma format_bits_elem mem h fmts off m n b ps f m' :
  0 <= b -> format_bits mem h fmts off m n b = Some ps ->
  mkFormatMod f m' ∈ ps <->
  m' = m /\ exists b', b <= b' < b + Z.of_nat n /\ bit_names mem h fmts off b' f.
Proof.
  revert b ps. induction n as [|n IH]; intros b ps Hb; cbn [format_bits].
  { intros [= <-]. split; [intros Hp; by apply not_elem_of_nil in Hp|].
    intros (_ & b' & ? & _). lia. }
  rewrite land_1_testbit by done.
  assert (Hskip : forall ps', format_bits mem h fmts off m n (b + 1) = Some ps' ->
    ~ bit_names mem h fmts off b f ->
    (mkFormatMod f m' ∈ ps' <-> m' = m /\ exists b', b <= b' < b + Z.of_nat (S n) /\
      bit_names mem h fmts off b' f)).
  { intros ps' Hps' Hno. rewrite (IH (b + 1) ps') by (done || lia).
    split; intros (-> & b' & Hb' & Hn); (split; [done|]).
    - exists b'. split; [lia | done].
    - destruct (decide (b' = b)) as [->|]; [done|]. exists b'. split; [lia | done]. }
  destruct (Z.testbit fmts b) eqn:Ht; simpl.
  2: { intros Hps. apply Hskip; [done|]. intros (Hbit & _). congruence. }
  case_goal; bool_simpl.
  { intros Hps. apply Hskip; [done|]. intros (_ & Hlt & _). lia. }
  intros (fc & Hfc & Hrest)%bind_Some_iff.
  apply bind_Some_iff in Hrest as (rest & Hrest & [= <-]).
  rewrite elem_of_cons, (IH (b + 1) rest) by (done || lia). split.
  - intros [[= -> ->]|(-> & b' & Hb' & Hn)].
    + split; [done|]. exists b. split; [lia|]. done.
    + split; [done|]. exists b'. split; [lia|done].
  - intros (-> & b' & Hb' & Hn). destruct (decide (b' = b)) as [->|].
    + left. destruct Hn as (_ & _ & Hf). congruence.
    + right. split; [done|]. exists b'. split; [lia | done].
Qed.

Lemma modifier_loop_elem mem h n i ps f m :
  0 <= i -> modifier_loop mem h n i = Some ps ->
  mkFormatMod f m ∈ ps <->
  exists i' b fmts off,
    i <= i' < i + Z.of_nat n /\ 0 <= b < 64 /\
    let base := modifiers_offset h + i' * sizeof_format_modifier in
    read_le mem (base + off_mod_formats) 8 = Some fmts /\
    read_le mem (base + off_mod_offset) 4 = Some off /\
    read_le mem (base + off_mod_modifier) 8 = Some m /\
    bit_names mem h fmts off b f.
Proof.
  revert i ps. induction n as [|n IH]; intros i ps Hi; cbn [modifier_loop].
  { intros [= <-]. split; [intros Hp; by apply not_elem_of_nil in Hp|].
    intros (i' & b & fmts & off & ? & _). lia. }
  intros (fmts & Hfmts & Hl)%bind_Some_iff. apply bind_Some_iff in Hl as (off & Hoff & Hl).
  apply bind_Some_iff in Hl as (mm & Hmm & Hl). apply bind_Some_iff in Hl as (here & Hhere & Hl).
  apply bind_Some_iff in Hl as (rest & Hrest & [= <-]).
  rewrite elem_of_app, (format_bits_elem mem h fmts off mm 64 0 here),
    (IH (i + 1) rest) by (done || lia).
  split.
  - intros [(-> & b & Hb & Hn)|(i' & b & fmts' & off' & Hi' & Hrest')].
    + exists i, b, fmts, off. split_and!; done || lia.
    + exists i', b, fmts', off'. split; [lia | done].
  - intros (i' & b & fmts' & off' & Hi' & Hb & Hf' & Ho' & Hm' & Hn).
    destruct (decide (i' = i)) as [->|].
    + left. simplify_eq. split; [done|]. exists b. split; [lia | done].
    + right. exists i', b, fmts', off'. split_and!; done || lia.
Qed.

(** C36. A table decoded from a well-formed blob supports exactly the
    (format, modifier) pairs the blob lists, and [modifiers_for] returns
    exactly the modifiers it lists for a format. *)
Theorem from_blob_supports (mem : list Z) (h : blob_header) (t : FormatTable) (f m : Z) :
  read_header mem = Some h ->
  sizeof_modifier_blob <= Z.of_nat (length mem) ->
  arrays_inside mem h -> 0 <= count_modifiers h ->
  from_blob (Some mem) = Some t ->
  (supports t f m = true <-> blob_lists mem h f m) /\
  (m ∈ modifiers_for t f <-> blob_lists mem h f m).
Proof.
  intros Hh Hsz Ha Hcm. unfold from_blob.
  rewrite (proj2 (Z.ltb_ge _ _)) by lia. rewrite Hh. cbn [mbind option_bind].
  destruct Ha as (Hfo & Hcf & Hmo & Hfend & Hmend).
  destruct blob_layout as (_ & Hszm & _).
  match goal with |- context [if ?c then _ else _] => replace c with false end.
  2: { symmetry. repeat (apply orb_false_iff; split); apply Z.ltb_ge.
       - lia. - nia. - apply Z.div_le_lower_bound; lia.
       - apply Z.div_le_lower_bound; lia. }
  intros (ps & Hps & [= <-])%bind_Some_iff.
  pose proof (build_index_ok ps) as Hok.
  assert (Hin : mkFormatMod f m ∈ pairs_ (build_index ps) <-> blob_lists mem h f m).
  { rewrite elem_of_build_index, (modifier_loop_elem mem h (Z.to_nat (count_modifiers h)) 0 ps) by (done || lia).
    rewrite Z2Nat.id by lia. done. }
  split.
  - by rewrite supports_iff.
  - rewrite modifiers_for_spec, <- Hin, list_elem_of_fmap by done. split.
    + intros ([f' m'] & -> & [Hf Hp]%list_elem_of_filter). simpl in *. by subst.
    + intros Hp. exists (mkFormatMod f m). split; [done|]. by apply list_elem_of_filter.
Qed.
End BlobMeaning.

(** ** ModifierProbeCache: last verdict wins, other keys untouched *)

Module ProbeCacheFacts.
Import ModifierProbeCache.

Lemma lookup_record_key k k' ok c :
  lookup_key k (record_key k' ok c) =
    if bool_decide (k' = k) then (if ok then Ok else Rejected) else lookup_key k c.
Proof.
  induction c as [|[k0 ok0] c IH]; simpl.
  - by case_bool_decide.
  - destruct (bool_decide (k0 = k')) eqn:E; bool_simpl; simpl.
    + subst. by case_bool_decide.
    + rewrite IH. repeat case_bool_decide; congruence.
Qed.

Lemma lookup_filter_plane k pl c :
  lookup_key k (invalidate_plane pl c) =
    if bool_decide (plane k = pl) then Unknown else lookup_key k c.
Proof.
  unfold invalidate_plane, entries in *. induction c as [|[k0 ok0] c IH].
  { simpl. by case_bool_decide. }
  rewrite filter_cons. simpl. destruct (decide (plane k0 <> pl)) as [Hp|Hp]; simpl; rewrite IH.
  - repeat case_bool_decide; congruence.
  - repeat case_bool_decide; try congruence. naive_solver.
Qed.

(** The modifier probe cache returns the last verdict recorded for
    a (crtc, plane, fourcc, modifier), is unchanged for every other key, and
    invalidating a plane forgets exactly that plane's verdicts. *)
Theorem probe_cache_last_verdict (cr pl fc m cr' pl' fc' m' : Z) (ok : bool) (c : entries) :
  lookup cr pl fc m (record cr' pl' fc' m' ok c) =
    (if bool_decide ((cr, pl, fc, m) = (cr', pl', fc', m'))
     then (if ok then Ok else Rejected) else lookup cr pl fc m c) /\
  lookup cr pl fc m (invalidate_plane pl' c) =
    (if bool_decide (pl = pl') then Unknown else lookup cr pl fc m c).
Proof.
  unfold lookup, record. rewrite lookup_record_key, lookup_filter_plane. split; [|done].
  repeat case_bool_decide; congruence.
Qed.
End ProbeCacheFacts.

(** ** layer_fits_plane *)

Section Fits.
Context `{abi : DrmAbi}.

(** The modifiers of a plane entry that admit a buffer with modifier [m]. *)
Definition admits (m e : Z) : Prop :=
  e = m \/
  ((m = DRM_FORMAT_MOD_LINEAR \/ m = DRM_FORMAT_MOD_INVALID) /\
   (e = DRM_FORMAT_MOD_LINEAR \/ e = DRM_FORMAT_MOD_INVALID)) \/
  (m <> DRM_FORMAT_MOD_LINEAR /\ m <> DRM_FORMAT_MOD_INVALID /\
   vendor m = DRM_FORMAT_MOD_VENDOR_BROADCOM /\ 3 <= Z.land m 0xff <= 5 /\
   e = Z.lor (Z.shiftl DRM_FORMAT_MOD_VENDOR_BROADCOM 56) (Z.land m 0xff)).

(** The allocator's edge test accepts a buffer exactly when the
    plane's table has an entry for its format whose modifier is the buffer's,
    or both are LINEAR/INVALID, or the buffer is a Broadcom SAND64/128/256
    layout and the entry is its base modifier. *)
Theorem layer_fits_plane_iff (t : FormatTable) (f m : Z) :
  table_ok t ->
  (layer_fits_plane t f m = true <-> exists e, mkFormatMod f e ∈ pairs_ t /\ admits m e).
Proof.
  intros Hok. unfold layer_fits_plane, admits, is_linear, is_invalid.
  destruct (supports t f m) eqn:Hs.
  { apply supports_iff in Hs; [|done]. split; [eauto | done]. }
  assert (Hno : mkFormatMod f m ∉ pairs_ t) by (rewrite <- supports_iff by done; congruence).
  destruct ((m =? DRM_FORMAT_MOD_LINEAR) || (m =? DRM_FORMAT_MOD_INVALID)) eqn:Hlin.
  { rewrite orb_true_iff, !Z.eqb_eq in Hlin. rewrite orb_true_iff, !supports_iff by done.
    split; [naive_solver|]. intros (e & He & [->|[[_ [-> | ->]]|(? & ? & _)]]); tauto. }
  bool_simpl. destruct (Z.eqb_spec (vendor m) DRM_FORMAT_MOD_VENDOR_BROADCOM) as [Hv|Hv].
  2: { split; [done|]. naive_solver. }
  destruct ((3 <=? Z.land m 255) && (Z.land m 255 <=? 5)) eqn:Hc; simpl.
  - bool_simpl. rewrite supports_iff by done. split; [naive_solver lia|].
    intros (e & He & [->|[[? _]|(_ & _ & _ & _ & ->)]]); [done|naive_solver|done].
  - split; [done|]. intros (e & He & [->|[[? _]|(_ & _ & _ & Hr & _)]]);
      [done|naive_solver|]. rewrite !(proj2 (Z.leb_le _ _)) in Hc by lia. done.
Qed.
End Fits.

(** ** Concrete runs *)

(** A blob with one format (XR24) and one modifier entry (LINEAR). *)
Definition sample_blob : list Z :=
  [1;0;0;0; 0;0;0;0; 1;0;0;0; 24;0;0;0; 1;0;0;0; 32;0;0;0; 88;82;50;52; 0;0;0;0;
   1;0;0;0;0;0;0;0; 0;0;0;0; 0;0;0;0; 0;0;0;0;0;0;0;0].
Definition XR24 : Z := 0x34325258.

Lemma sample_blob_bytes : bytes_ok sample_blob.
Proof. unfold bytes_ok, sample_blob. repeat (constructor; [unfold in_u; lia|]). constructor. Qed.

Lemma from_blob_in_bounds_witness :
  exists t, @from_blob linux_abi libstdcxx (Some sample_blob) = Some t /\
    (supports t XR24 0 = true <-> 0 ∈ modifiers_for t XR24).
Proof.
  apply (@from_blob_in_bounds linux_abi libstdcxx sample_blob XR24 0 sample_blob_bytes).
Defined.

Definition sample_table : FormatTable := @build_index libstdcxx [mkFormatMod XR24 0].

Lemma from_blob_supports_witness :
  supports sample_table XR24 0 = true /\ @blob_lists linux_abi sample_blob (mkHeader 1 24 1 32) XR24 0.
Proof.
  split; [reflexivity|].
  destruct (@from_blob_supports linux_abi libstdcxx sample_blob (mkHeader 1 24 1 32) sample_table XR24 0)
    as [Hs _].
  - reflexivity.
  - simpl. lia.
  - unfold arrays_inside. simpl. lia.
  - simpl. lia.
  - reflexivity.
  - apply Hs. reflexivity.
Defined.

Lemma layer_fits_plane_iff_witness :
  exists e, mkFormatMod XR24 e ∈ pairs_ sample_table /\ @admits linux_abi 0x00ffffffffffffff e.
Proof.
  apply (@layer_fits_plane_iff linux_abi sample_table XR24 0x00ffffffffffffff).
  - apply build_index_ok.
  - reflexivity.
Defined.
