(* ===== verification/Matching.v ===== *)
(** Hopcroft-Karp bipartite matching: [src/planes/matching.hpp] and
    [src/planes/matching.cpp].

    The allocator's pre-solve.  Left nodes are layers, right nodes planes.
    The theorems: [solve] returns on every graph, its result is a matching of
    the graph, the count it returns is the number of matched layers, and no
    matching of the graph is larger. *)
From S2P Require Import Prelude.

#[local] Open Scope nat_scope.

(** The class's fields.  [nil] in the match arrays is [None]; the distance
    [numeric_limits<size_t>::max()] is [None]. *)
Record BipartiteMatching := mkBM {
  n_left_ : nat;
  n_right_ : nat;
  adj_ : list (list (nat * Z));
  match_left_ : list (option nat);
  match_right_ : list (option nat);
  dist_ : list (option nat);
  matched_ : nat
}.

Definition with_adj (m : BipartiteMatching) (a : list (list (nat * Z))) : BipartiteMatching :=
  mkBM (n_left_ m) (n_right_ m) a (match_left_ m) (match_right_ m) (dist_ m) (matched_ m).
Definition with_match (m : BipartiteMatching) (l r : list (option nat)) : BipartiteMatching :=
  mkBM (n_left_ m) (n_right_ m) (adj_ m) l r (dist_ m) (matched_ m).
Definition with_dist (m : BipartiteMatching) (d : list (option nat)) : BipartiteMatching :=
  mkBM (n_left_ m) (n_right_ m) (adj_ m) (match_left_ m) (match_right_ m) d (matched_ m).
Definition with_matched (m : BipartiteMatching) (k : nat) : BipartiteMatching :=
  mkBM (n_left_ m) (n_right_ m) (adj_ m) (match_left_ m) (match_right_ m) (dist_ m) k.

(** The constructor; [reset] re-shapes an instance to the same state. *)
Definition construct (n_left n_right : nat) : BipartiteMatching :=
  mkBM n_left n_right (replicate n_left []) (replicate n_left None) (replicate n_right None)
    (replicate (S n_left) (Some 0)) 0.

(** [adj_.resize(n_left)], then every slot cleared. *)
Definition resize_adj (n : nat) (a : list (list (nat * Z))) : list (list (nat * Z)) :=
  take n a ++ replicate (n - length a) [].

Definition reset (m : BipartiteMatching) (n_left n_right : nat) : BipartiteMatching :=
  mkBM n_left n_right ((fun _ => []) <$> resize_adj n_left (adj_ m))
    (replicate n_left None) (replicate n_right None) (replicate (S n_left) (Some 0)) 0.

Definition add_edge (m : BipartiteMatching) (u v : nat) (score : Z) : option BipartiteMatching :=
  edges ← adj_ m !! u;
  a ← at_set (adj_ m) u (edges ++ [(v, score)]);
  Some (with_adj m a).

(** [add_edge(u, v)] without a score. *)
Definition add_edge_plain (m : BipartiteMatching) (u v : nat) : option BipartiteMatching :=
  add_edge m u v 0%Z.

(** [d + 1] in [size_t]: the maximum wraps to 0. *)
Definition succ_dist (d : option nat) : option nat :=
  match d with Some n => Some (S n) | None => Some 0 end.

Definition dist_ltb (a b : option nat) : bool :=
  match a, b with
  | Some x, Some y => x <? y
  | Some _, None => true
  | None, _ => false
  end.

(** ** bfs *)

(** The initialisation loop, left nodes [u, u + n). *)
Fixpoint bfs_init (m : BipartiteMatching) (n u : nat) (dist : list (option nat))
    (queue : list nat) : option (list (option nat) * list nat) :=
  match n with
  | O => Some (dist, queue)
  | S n' =>
      ml ← match_left_ m !! u;
      match ml with
      | None => dist' ← at_set dist u (Some 0); bfs_init m n' (S u) dist' (queue ++ [u])
      | Some _ => dist' ← at_set dist u None; bfs_init m n' (S u) dist' queue
      end
  end.

Fixpoint bfs_edges (m : BipartiteMatching) (u : nat) (edges : list (nat * Z))
    (dist : list (option nat)) (queue : list nat) : option (list (option nat) * list nat) :=
  match edges with
  | [] => Some (dist, queue)
  | (v, _) :: edges' =>
      pair_v ← match_right_ m !! v;
      let idx := default (n_left_ m) pair_v in
      di ← dist !! idx;
      match di with
      | None =>
          du ← dist !! u;
          dist' ← at_set dist idx (succ_dist du);
          bfs_edges m u edges' dist' (if idx =? n_left_ m then queue else queue ++ [idx])
      | Some _ => bfs_edges m u edges' dist queue
      end
  end.

Fixpoint bfs_loop (fuel : nat) (m : BipartiteMatching) (dist : list (option nat))
    (queue : list nat) : option (list (option nat)) :=
  match queue with
  | [] => Some dist
  | u :: queue' =>
      match fuel with
      | O => None
      | S fuel' =>
          du ← dist !! u;
          dn ← dist !! n_left_ m;
          if dist_ltb du dn then
            edges ← adj_ m !! u;
            '(dist', queue'') ← bfs_edges m u edges dist queue';
            bfs_loop fuel' m dist' queue''
          else bfs_loop fuel' m dist queue'
      end
  end.

Definition bfs (m : BipartiteMatching) : option (bool * BipartiteMatching) :=
  '(dist, queue) ← bfs_init m (n_left_ m) 0 (dist_ m) [];
  dist ← at_set dist (n_left_ m) None;
  dist ← bfs_loop (n_left_ m) m dist queue;
  dn ← dist !! n_left_ m;
  Some (bool_decide (dn <> None), with_dist m dist).

(** ** dfs *)

Section DfsEdges.
Context (dfs : BipartiteMatching -> nat -> option (bool * BipartiteMatching)) (u : nat).

Fixpoint dfs_edges (edges : list (nat * Z)) (m : BipartiteMatching)
    : option (bool * BipartiteMatching) :=
  match edges with
  | [] =>
      d ← at_set (dist_ m) u None;
      Some (false, with_dist m d)
  | (v, _) :: edges' =>
      pair_v ← match_right_ m !! v;
      let idx := default (n_left_ m) pair_v in
      di ← dist_ m !! idx;
      du ← dist_ m !! u;
      if decide (di = succ_dist du) then
        '(found, m') ← dfs m idx;
        if found : bool then
          r ← at_set (match_right_ m') v (Some u);
          l ← at_set (match_left_ m') u (Some v);
          Some (true, with_match m' l r)
        else dfs_edges edges' m'
      else dfs_edges edges' m
  end.
End DfsEdges.

Fixpoint dfs (fuel : nat) (m : BipartiteMatching) (u : nat) : option (bool * BipartiteMatching) :=
  match fuel with
  | O => None
  | S fuel' =>
      if u =? n_left_ m then Some (true, m)
      else
        edges ← adj_ m !! u;
        dfs_edges (dfs fuel') u edges m
  end.

(** ** solve *)

(** The augmenting round, left nodes [u, u + n). *)
Fixpoint augment (n u : nat) (m : BipartiteMatching) : option BipartiteMatching :=
  match n with
  | O => Some m
  | S n' =>
      ml ← match_left_ m !! u;
      match ml with
      | None =>
          '(found, m') ← dfs (n_left_ m + 2) m u;
          augment n' (S u) (if found : bool then with_matched m' (S (matched_ m')) else m')
      | Some _ => augment n' (S u) m
      end
  end.

Fixpoint solve_loop (fuel : nat) (m : BipartiteMatching) : option BipartiteMatching :=
  match fuel with
  | O => None
  | S fuel' =>
      '(more, m) ← bfs m;
      if more : bool then
        m ← augment (n_left_ m) 0 m;
        solve_loop fuel' m
      else Some m
  end.

Definition by_score (a b : nat * Z) : bool := Z.ltb b.2 a.2.

Definition solve (m : BipartiteMatching) : option (nat * BipartiteMatching) :=
  let m := with_matched m 0 in
  let m := with_adj m (stable_sort by_score <$> adj_ m) in
  m ← solve_loop (S (n_left_ m)) m;
  Some (matched_ m, m).

Definition match_for_left (m : BipartiteMatching) (u : nat) : option nat :=
  if n_left_ m <=? u then None else mjoin (match_left_ m !! u).
Definition match_for_right (m : BipartiteMatching) (v : nat) : option nat :=
  if n_right_ m <=? v then None else mjoin (match_right_ m !! v).
Definition matched_count (m : BipartiteMatching) : nat := matched_ m.

Fixpoint add_edges (m : BipartiteMatching) (es : list (nat * nat * Z)) : option BipartiteMatching :=
  match es with
  | [] => Some m
  | (u, v, s) :: es' => m' ← add_edge m u v s; add_edges m' es'
  end.

(** ** Accessors and well-formedness *)

Definition ml (m : BipartiteMatching) (u : nat) : option nat := mjoin (match_left_ m !! u).
Definition mr (m : BipartiteMatching) (v : nat) : option nat := mjoin (match_right_ m !! v).
Definition ds (m : BipartiteMatching) (w : nat) : option nat := mjoin (dist_ m !! w).

(** [u -- v] is an edge. *)
Definition edge (m : BipartiteMatching) (u v : nat) : Prop :=
  exists es s, adj_ m !! u = Some es /\ (v, s) ∈ es.

(** The node a right node leads to: its partner, or the sentinel. *)
Definition node_of (m : BipartiteMatching) (v : nat) : nat := default (n_left_ m) (mr m v).

Definition shaped (m : BipartiteMatching) : Prop :=
  length (adj_ m) = n_left_ m /\ length (match_left_ m) = n_left_ m /\
  length (match_right_ m) = n_right_ m /\ length (dist_ m) = S (n_left_ m) /\
  (forall u v, edge m u v -> v < n_right_ m).

(** The two match arrays describe one matching of the graph, except that the
    right node [stale] may still name its former partner. *)
Definition consistent_but (m : BipartiteMatching) (stale : option nat) : Prop :=
  (forall u v, ml m u = Some v -> u < n_left_ m /\ edge m u v /\ mr m v = Some u) /\
  (forall v u, mr m v = Some u ->
     u < n_left_ m /\ v < n_right_ m /\ (ml m u = Some v \/ stale = Some v)).

Definition consistent (m : BipartiteMatching) : Prop := consistent_but m None.

(** Distances never exceed the number of left nodes. *)
Definition dist_bounded (m : BipartiteMatching) : Prop :=
  forall w d, ds m w = Some d -> d <= n_left_ m.

Lemma lookup_at {A} (l : list (option A)) i :
  i < length l -> l !! i = Some (mjoin (l !! i)).
Proof. intros Hi. destruct (lookup_lt_is_Some_2 l i Hi) as [x Hx]. by rewrite Hx. Qed.

Lemma lookup_insert_at {A} (l : list (option A)) i j x :
  i < length l ->
  mjoin (<[i := x]> l !! j) = if decide (i = j) then x else mjoin (l !! j).
Proof.
  intros Hi. case_decide as Hij.
  - subst. by rewrite list_lookup_insert_eq.
  - by rewrite list_lookup_insert_ne.
Qed.

Lemma lookup_beyond {A} (l : list (option A)) i : length l <= i -> mjoin (l !! i) = None.
Proof. intros Hi. by rewrite lookup_ge_None_2. Qed.

Lemma consistent_left m u v : consistent m -> ml m u = Some v -> mr m v = Some u.
Proof. intros [H _] Hu. by destruct (H u v Hu) as (_ & _ & ?). Qed.

Lemma consistent_right m u v : consistent m -> mr m v = Some u -> ml m u = Some v.
Proof. intros [_ H] Hv. by destruct (H v u Hv) as (_ & _ & [?|?]). Qed.

Lemma node_of_le m v : consistent m -> node_of m v <= n_left_ m.
Proof.
  intros [_ Hc]. unfold node_of. destruct (mr m v) as [u|] eqn:Hv; simpl; [|lia].
  destruct (Hc v u Hv). lia.
Qed.

(** The layered graph of the last [bfs], and which nodes reach the sentinel. *)
Definition layered (m : BipartiteMatching) (u w : nat) : Prop :=
  exists v d, edge m u v /\ node_of m v = w /\ ds m u = Some d /\ ds m w = Some (S d).

Inductive reach (m : BipartiteMatching) : nat -> Prop :=
  | reach_end : reach m (n_left_ m)
  | reach_step u w : u < n_left_ m -> layered m u w -> reach m w -> reach m u.

Lemma reach_dist m u : reach m u -> u = n_left_ m \/ exists k, ds m u = Some k.
Proof. destruct 1 as [|u w _ (v & k & _ & _ & Hk & _) _]; eauto. Qed.

(** [m'] differs from [m] by pruning dead ends from the layers: the node [u]
    and matched nodes below it, from distance [d] on. *)
Record prunes (u d : nat) (m m' : BipartiteMatching) : Prop := {
  pr_nl : n_left_ m' = n_left_ m;
  pr_nr : n_right_ m' = n_right_ m;
  pr_adj : adj_ m' = adj_ m;
  pr_ml : match_left_ m' = match_left_ m;
  pr_mr : match_right_ m' = match_right_ m;
  pr_matched : matched_ m' = matched_ m;
  pr_len : length (dist_ m') = length (dist_ m);
  pr_ds : forall w, ds m' w = ds m w \/
    (ds m' w = None /\ w < n_left_ m /\ ~ reach m w /\ (w = u \/ ml m w <> None) /\
     exists d', ds m w = Some d' /\ d <= d')
}.

(** [m'] augments [m] along a layered path from [u] at distance [d]: [u] gets
    a new partner, every matched left node stays matched, no other becomes
    matched, and only nodes from distance [d] on are re-matched. *)
Record augments (u d : nat) (m m' : BipartiteMatching) : Prop := {
  au_nl : n_left_ m' = n_left_ m;
  au_nr : n_right_ m' = n_right_ m;
  au_adj : adj_ m' = adj_ m;
  au_matched : matched_ m' = matched_ m;
  au_shaped : shaped m';
  au_cons : consistent_but m' (ml m u);
  au_new : exists v, ml m' u = Some v /\ ml m u <> Some v;
  au_keep : forall w, ml m w <> None -> ml m' w <> None;
  au_free : forall w, w <> u -> ml m w = None -> ml m' w = None;
  au_ml : forall w, ml m' w <> ml m w -> exists d', ds m w = Some d' /\ d <= d';
  au_mr : forall v, mr m' v <> mr m v ->
    mr m v = None \/ exists w d', mr m v = Some w /\ ds m w = Some d' /\ d < d';
  au_ds : forall w, ds m' w = ds m w \/ (ds m' w = None /\ w < n_left_ m /\ ml m w <> None)
}.

Definition dfs_post (u d : nat) (m : BipartiteMatching) (r : bool) (m' : BipartiteMatching) : Prop :=
  if r then augments u d m m' else prunes u d m m' /\ ds m' u = None.

Section Prunes.
Context {u d : nat} {m m' : BipartiteMatching} (Hp : prunes u d m m').

Lemma prunes_ml w : ml m' w = ml m w.
Proof. unfold ml. by rewrite (pr_ml _ _ _ _ Hp). Qed.
Lemma prunes_mr v : mr m' v = mr m v.
Proof. unfold mr. by rewrite (pr_mr _ _ _ _ Hp). Qed.
Lemma prunes_edge a b : edge m' a b <-> edge m a b.
Proof. unfold edge. by rewrite (pr_adj _ _ _ _ Hp). Qed.
Lemma prunes_node_of v : node_of m' v = node_of m v.
Proof. unfold node_of. by rewrite prunes_mr, (pr_nl _ _ _ _ Hp). Qed.

Lemma prunes_ds_some w k : ds m' w = Some k -> ds m w = Some k.
Proof. destruct (pr_ds _ _ _ _ Hp w) as [->|(-> & _)]; [done | discriminate]. Qed.

Lemma prunes_reach w : reach m w -> reach m' w.
Proof.
  induction 1 as [|a b Ha Hl Hr IH].
  - rewrite <- (pr_nl _ _ _ _ Hp). constructor.
  - assert (Hra : reach m a) by (by eapply reach_step).
    econstructor; [by rewrite (pr_nl _ _ _ _ Hp) | | exact IH].
    destruct Hl as (v & k & He & Hn & Hda & Hdb). exists v, k.
    rewrite prunes_edge, prunes_node_of. split_and!; [done | done | |].
    + destruct (pr_ds _ _ _ _ Hp a) as [->|(_ & _ & Hno & _)]; done.
    + destruct (pr_ds _ _ _ _ Hp b) as [->|(_ & _ & Hno & _)]; done.
Qed.

Lemma prunes_reach_inv w : reach m' w -> reach m w.
Proof.
  induction 1 as [|a b Ha Hl Hr IH].
  - rewrite (pr_nl _ _ _ _ Hp). constructor.
  - econstructor; [by rewrite <- (pr_nl _ _ _ _ Hp) | | exact IH].
    destruct Hl as (v & k & He & Hn & Hda & Hdb). exists v, k.
    rewrite prunes_edge in He. rewrite prunes_node_of in Hn.
    split_and!; [done | done | by apply prunes_ds_some | by apply prunes_ds_some].
Qed.

Lemma prunes_shaped : shaped m -> shaped m'.
Proof.
  intros (H1 & H2 & H3 & H4 & H5). unfold shaped.
  rewrite (pr_adj _ _ _ _ Hp), (pr_nl _ _ _ _ Hp), (pr_nr _ _ _ _ Hp), (pr_ml _ _ _ _ Hp),
    (pr_mr _ _ _ _ Hp), (pr_len _ _ _ _ Hp).
  split_and!; try done. intros a b. rewrite prunes_edge. apply H5.
Qed.

Lemma prunes_consistent st : consistent_but m st -> consistent_but m' st.
Proof.
  intros [H1 H2]. split.
  - intros a b. rewrite prunes_ml, prunes_mr, prunes_edge, (pr_nl _ _ _ _ Hp). apply H1.
  - intros b a. rewrite prunes_ml, prunes_mr, (pr_nl _ _ _ _ Hp), (pr_nr _ _ _ _ Hp). apply H2.
Qed.

Lemma prunes_bounded : dist_bounded m -> dist_bounded m'.
Proof.
  intros H w k Hk. rewrite (pr_nl _ _ _ _ Hp). apply (H w). by apply prunes_ds_some.
Qed.
End Prunes.

Lemma prunes_refl u d m : prunes u d m m.
Proof. split; try done. intros w. by left. Qed.

Lemma prunes_trans u d m1 m2 m3 : prunes u d m1 m2 -> prunes u d m2 m3 -> prunes u d m1 m3.
Proof.
  intros H12 H23. split; try (etrans; [apply H23 | apply H12]).
  intros w. destruct (pr_ds _ _ _ _ H23 w) as [->|(Hn & Hw & Hr & Hm & k & Hk & Hd)].
  - apply H12.
  - right. split_and!; [done | by rewrite <- (pr_nl _ _ _ _ H12) | | |].
    + intros Hr'. by apply Hr, (prunes_reach H12).
    + by rewrite <- (prunes_ml H12).
    + exists k. split; [by apply (prunes_ds_some H12) | done].
Qed.

Lemma prunes_below u d w m m' :
  ml m w <> None -> prunes w (S d) m m' -> prunes u d m m'.
Proof.
  intros Hw Hp. split; try apply Hp.
  intros x. destruct (pr_ds _ _ _ _ Hp x) as [?|(Hn & Hx & Hr & Hm & k & Hk & Hd)]; [by left|].
  right. split_and!; try done.
  - right. by destruct Hm as [->|?].
  - exists k. split; [done | lia].
Qed.

Lemma ds_mark m u w :
  shaped m -> u < n_left_ m ->
  ds (with_dist m (<[u := None]> (dist_ m))) w = if decide (u = w) then None else ds m w.
Proof.
  intros (_ & _ & _ & Hd & _) Hu. unfold ds. simpl. apply lookup_insert_at. lia.
Qed.

(** The end of a failed search: [dist_[u]] is set to the maximum. *)
Lemma prunes_mark u d m :
  shaped m -> u < n_left_ m -> ds m u = Some d -> ~ reach m u ->
  prunes u d m (with_dist m (<[u := None]> (dist_ m))).
Proof.
  intros Hs Hu Hd Hr. split; try done.
  - simpl. apply length_insert.
  - intros w. rewrite ds_mark by done. case_decide; [subst | by left].
    right. split_and!; try done; [by left | eauto].
Qed.

(** Following an edge to a free right node, or through an augmented partner:
    the assignments at the end of a successful [dfs]. *)
Definition rematch (m : BipartiteMatching) (u v : nat) : BipartiteMatching :=
  with_match m (<[u := Some v]> (match_left_ m)) (<[v := Some u]> (match_right_ m)).

Lemma ml_rematch m u v w :
  shaped m -> u < n_left_ m -> ml (rematch m u v) w = if decide (u = w) then Some v else ml m w.
Proof. intros (_ & Hl & _) Hu. unfold ml. simpl. apply lookup_insert_at. lia. Qed.

Lemma mr_rematch m u v w :
  shaped m -> v < n_right_ m -> mr (rematch m u v) w = if decide (v = w) then Some u else mr m w.
Proof. intros (_ & _ & Hr & _) Hv. unfold mr. simpl. apply lookup_insert_at. lia. Qed.

Lemma rematch_shaped m u v : shaped m -> shaped (rematch m u v).
Proof.
  intros (H1 & H2 & H3 & H4 & H5). unfold shaped. simpl. rewrite !length_insert. done.
Qed.

(** The state a caller sees before it assigns: [m1] after the search below,
    whose only stale entry may be [v], the edge being followed. *)
Lemma rematch_consistent m1 u v st :
  shaped m1 -> u < n_left_ m1 -> edge m1 u v ->
  consistent_but m1 st ->
  (st = None /\ mr m1 v = None \/ st = Some v) ->
  (forall w, ml m1 w <> Some v) ->
  consistent_but (rematch m1 u v) (ml m1 u).
Proof.
  intros Hs Hu He [HL HR] Hst Hno.
  pose proof Hs as (_ & _ & _ & _ & Hrange). pose proof (Hrange u v He) as Hv.
  split.
  - intros w x. rewrite ml_rematch, mr_rematch by done. simpl.
    case_decide as Hw; [subst w; intros [= <-]; by rewrite decide_True|].
    intros Hx. destruct (HL w x Hx) as (? & ? & ?).
    rewrite decide_False; [done|]. intros <-. by apply (Hno w).
  - intros x w. rewrite ml_rematch, mr_rematch by done. simpl.
    case_decide as Hx; [subst x; intros [= <-]; rewrite decide_True by done; auto|].
    intros Hw. destruct (HR x w Hw) as (? & ? & [Hm|Hm]).
    + split_and!; try done. case_decide; [subst; by right | by left].
    + exfalso. destruct Hst as [[-> _]| ->]; congruence.
Qed.

Lemma prunes_augments u d m m0 m' :
  prunes u d m m0 -> ds m0 u = Some d -> augments u d m0 m' -> augments u d m m'.
Proof.
  intros Hp Hu Ha.
  split; try (etrans; [apply Ha | apply Hp]); try apply Ha.
  - rewrite <- (prunes_ml Hp). apply Ha.
  - rewrite <- (prunes_ml Hp). apply Ha.
  - intros w. rewrite <- (prunes_ml Hp). apply Ha.
  - intros w. rewrite <- (prunes_ml Hp). apply Ha.
  - intros w. rewrite <- (prunes_ml Hp). intros Hw.
    destruct (au_ml _ _ _ _ Ha w Hw) as (k & Hk & ?). exists k.
    split; [by apply (prunes_ds_some Hp) | done].
  - intros v. rewrite <- (prunes_mr Hp). intros Hv.
    destruct (au_mr _ _ _ _ Ha v Hv) as [?|(w & k & Hw & Hk & ?)]; [by left|].
    right. exists w, k. split_and!; [done | by apply (prunes_ds_some Hp) | done].
  - intros w. destruct (au_ds _ _ _ _ Ha w) as [->|(Hn & Hw & Hm)].
    + destruct (pr_ds _ _ _ _ Hp w) as [->|(Hn & Hw & _ & [->|Hm] & _)];
        [by left | congruence | by right].
    + right. rewrite <- (pr_nl _ _ _ _ Hp), <- (prunes_ml Hp). done.
Qed.

Lemma augments_free u d m v :
  shaped m -> consistent m -> u < n_left_ m -> ds m u = Some d ->
  edge m u v -> mr m v = None -> augments u d m (rematch m u v).
Proof.
  intros Hs Hc Hu Hd He Hv.
  assert (Hvr : v < n_right_ m) by (destruct Hs as (_ & _ & _ & _ & H); eauto).
  assert (Hno : forall w, ml m w <> Some v).
  { intros w Hw. apply (consistent_left _ _ _ Hc) in Hw. congruence. }
  split; try done.
  - by apply rematch_shaped.
  - eapply rematch_consistent; eauto.
  - exists v. rewrite ml_rematch, decide_True by done. split; [done | apply Hno].
  - intros w. rewrite ml_rematch by done. by case_decide.
  - intros w Hw. by rewrite ml_rematch, decide_False.
  - intros w. rewrite ml_rematch by done. case_decide; [subst; eauto | done].
  - intros w. rewrite mr_rematch by done. case_decide; [subst; by left | done].
  - intros w. by left.
Qed.

Lemma augments_through u d m v w m1 :
  shaped m -> consistent m -> u < n_left_ m -> ds m u = Some d ->
  edge m u v -> mr m v = Some w -> ds m w = Some (S d) ->
  augments w (S d) m m1 -> augments u d m (rematch m1 u v).
Proof.
  intros Hs Hc Hu Hd He Hv Hw Ha.
  pose proof (consistent_right _ _ _ Hc Hv) as Hwv.
  pose proof (au_shaped _ _ _ _ Ha) as Hs1.
  assert (Hvr : v < n_right_ m1).
  { rewrite (au_nr _ _ _ _ Ha). destruct Hs as (_ & _ & _ & _ & H); eauto. }
  assert (Hu1 : u < n_left_ m1) by (by rewrite (au_nl _ _ _ _ Ha)).
  assert (Hmv : mr m1 v = Some w).
  { destruct (decide (mr m1 v = mr m v)) as [->|Hne]; [done|].
    destruct (au_mr _ _ _ _ Ha v Hne) as [?|(x & k & ? & ? & ?)]; [congruence|].
    simplify_eq. lia. }
  assert (Hmu : ml m1 u = ml m u).
  { destruct (decide (ml m1 u = ml m u)) as [|Hne]; [done|].
    destruct (au_ml _ _ _ _ Ha u Hne) as (k & ? & ?). simplify_eq. lia. }
  assert (Hno : forall x, ml m1 x <> Some v).
  { intros x Hx. destruct (au_cons _ _ _ _ Ha) as [HL _].
    destruct (HL x v Hx) as (_ & _ & Hm). assert (x = w) as -> by congruence.
    destruct (au_new _ _ _ _ Ha) as (v' & Hnew & Hold). congruence. }
  split; try apply Ha.
  - by apply rematch_shaped.
  - rewrite <- Hmu. eapply rematch_consistent; try done.
    + unfold edge. rewrite (au_adj _ _ _ _ Ha). exact He.
    + apply Ha.
    + by right.
  - exists v. rewrite ml_rematch, decide_True by done. split; [done|].
    rewrite <- Hmu. apply Hno.
  - intros x Hx. rewrite ml_rematch by done. case_decide; [done|]. by apply Ha.
  - intros x Hne Hx. rewrite ml_rematch, decide_False by done.
    destruct (decide (x = w)) as [->|]; [congruence|]. by apply Ha.
  - intros x. rewrite ml_rematch by done. case_decide; [subst; eauto|].
    intros Hx. destruct (au_ml _ _ _ _ Ha x Hx) as (k & ? & ?). exists k. split; [done | lia].
  - intros x. rewrite mr_rematch by done. case_decide as Hx.
    + subst x. intros _. right. exists w, (S d). split_and!; [done | done | lia].
    + intros Hne. destruct (au_mr _ _ _ _ Ha x Hne) as [?|(y & k & ? & ? & ?)]; [by left|].
      right. exists y, k. split_and!; [done | done | lia].
Qed.

(** The search loop over the edges of [u], given the search below it. *)
Definition dfs_ok (go : BipartiteMatching -> nat -> option (bool * BipartiteMatching))
    (d : nat) (m : BipartiteMatching) : Prop :=
  forall m' w, shaped m' -> consistent m' -> dist_bounded m' ->
    n_left_ m' = n_left_ m -> w <= n_left_ m' -> ds m' w = Some d ->
    (w = n_left_ m' -> go m' w = Some (true, m')) /\
    (w < n_left_ m' -> exists r m'', go m' w = Some (r, m'') /\ dfs_post w d m' r m'').

Lemma dfs_edges_spec go u d m es todo m0 :
  shaped m -> consistent m -> dist_bounded m -> u < n_left_ m -> ds m u = Some d ->
  dfs_ok go (S d) m ->
  adj_ m !! u = Some es ->
  (forall v s, (v, s) ∈ todo -> edge m u v) ->
  (forall v s, (v, s) ∈ es -> (v, s) ∈ todo \/
     ~ (ds m (node_of m v) = Some (S d) /\ reach m (node_of m v))) ->
  prunes u d m m0 -> ds m0 u = Some d ->
  exists r m', dfs_edges go u todo m0 = Some (r, m') /\ dfs_post u d m r m'.
Proof.
  intros Hs Hc Hb Hu Hd Hgo Hes Htodo Hdone Hp Hd0.
  revert m0 Hp Hd0 Hdone. induction todo as [|[v s] todo IH]; intros m0 Hp Hd0 Hdone;
    cbn [dfs_edges];
    pose proof (prunes_shaped Hp Hs) as Hs0;
    pose proof (prunes_consistent Hp _ Hc) as Hc0;
    pose proof (pr_nl _ _ _ _ Hp) as Hnl.
  - (* no edge left: a dead end *)
    rewrite at_set_some by (destruct Hs0 as (_ & _ & _ & -> & _); lia). simpl.
    eexists _, _. split; [done|]. simpl.
    assert (Hr : ~ reach m0 u).
    { intros Hr. apply (prunes_reach_inv Hp) in Hr. inversion Hr as [|a b Ha Hl Hb']; subst; [lia|].
      destruct Hl as (v & k & (es' & s & Hes' & Hv) & Hn & Hk & Hk').
      assert (es' = es) as -> by congruence. assert (k = d) as -> by congruence.
      destruct (Hdone v s Hv) as [Hnil|Hno]; [by apply not_elem_of_nil in Hnil|].
      apply Hno. by rewrite Hn. }
    split.
    + eapply prunes_trans; [exact Hp|]. apply prunes_mark; try done. by rewrite Hnl.
    + rewrite ds_mark, decide_True; try done. by rewrite Hnl.
  - assert (He : edge m u v) by (eapply Htodo, list_elem_of_here).
    assert (Hv : v < n_right_ m0).
    { rewrite (pr_nr _ _ _ _ Hp). destruct Hs as (_ & _ & _ & _ & H). eauto. }
    rewrite (lookup_at (match_right_ m0) v) by (destruct Hs0 as (_ & _ & -> & _); done). fold (mr m0 v). simpl.
    change (default (n_left_ m0) (mr m0 v)) with (node_of m0 v).
    pose proof (node_of_le _ v Hc0) as Hle.
    assert (Hlen : length (dist_ m0) = S (n_left_ m0)) by apply Hs0.
    rewrite (lookup_at (dist_ m0) (node_of m0 v)) by lia. fold (ds m0 (node_of m0 v)). simpl.
    rewrite (lookup_at (dist_ m0) u) by lia. fold (ds m0 u). rewrite Hd0. simpl.
    assert (Hskip : forall m1, prunes u d m m1 -> ds m1 u = Some d ->
      ~ (ds m (node_of m v) = Some (S d) /\ reach m (node_of m v)) ->
      exists r m', dfs_edges go u todo m1 = Some (r, m') /\ dfs_post u d m r m').
    { intros m1 Hp1 Hd1 Hno. apply IH; try done.
      - intros v' s' Hin. eapply Htodo. by apply list_elem_of_further.
      - intros v' s' Hin. destruct (Hdone v' s' Hin) as [Hin'|?]; [|by right].
        apply elem_of_cons in Hin' as [[= -> ->]|]; [by right | by left]. }
    rewrite (prunes_node_of Hp) in *.
    case_decide as Hdi.
    2: { apply Hskip; try done. intros [Hk Hr]. apply Hdi.
         apply (prunes_reach Hp) in Hr. destruct (pr_ds _ _ _ _ Hp (node_of m v)) as [->|(_ & _ & Hr' & _)];
           [done|]. destruct Hr'. by apply (prunes_reach_inv Hp). }
    destruct (Hgo m0 (node_of m v) Hs0 Hc0 (prunes_bounded Hp Hb) Hnl Hle Hdi) as [Hend Hrec].
    destruct (mr m0 v) as [w|] eqn:Hmr.
    + assert (Hnode : node_of m v = w).
      { unfold node_of. by rewrite <- (prunes_mr Hp), Hmr. }
      rewrite Hnode in *.
      assert (Hw : w < n_left_ m0) by (destruct Hc0 as [_ HR]; by destruct (HR v w Hmr)).
      destruct (Hrec Hw) as (r & m1 & -> & Hpost). simpl. destruct r.
      * simpl in Hpost. pose proof (au_shaped _ _ _ _ Hpost) as Hs1.
        rewrite (at_set_some (match_right_ m1)) by (destruct Hs1 as (_ & _ & -> & _); rewrite (au_nr _ _ _ _ Hpost); done).
        simpl.
        rewrite (at_set_some (match_left_ m1))
          by (destruct Hs1 as (_ & -> & _); rewrite (au_nl _ _ _ _ Hpost), Hnl; done).
        simpl. eexists _, _. split; [done|]. simpl.
        eapply prunes_augments; [done..|].
        eapply (augments_through u d m0 v w m1); try done; [by rewrite Hnl|].
        by apply (prunes_edge Hp).
      * destruct Hpost as [Hp1 Hd1].
        assert (Hp1' : prunes u d m0 m1).
        { apply (prunes_below u d w); [|done]. rewrite (consistent_right _ _ _ Hc0 Hmr). done. }
        apply Hskip.
        -- by eapply prunes_trans.
        -- destruct (pr_ds _ _ _ _ Hp1 u) as [->|(_ & _ & _ & _ & k & Hk & ?)]; [done|].
           simplify_eq. lia.
        -- intros [_ Hr]. apply (prunes_reach Hp) in Hr.
           destruct (pr_ds _ _ _ _ Hp1 w) as [Heq|(_ & _ & Hr' & _)]; congruence.
    + assert (Hnode : node_of m v = n_left_ m0).
      { unfold node_of. rewrite <- (prunes_mr Hp), Hmr. by rewrite Hnl. }
      rewrite Hnode in *. rewrite (Hend eq_refl). simpl.
      rewrite (at_set_some (match_right_ m0)) by (destruct Hs0 as (_ & _ & -> & _); done). simpl.
      rewrite (at_set_some (match_left_ m0)) by (destruct Hs0 as (_ & -> & _); rewrite Hnl; done). simpl.
      eexists _, _. split; [done|]. simpl.
      eapply prunes_augments; [done..|].
      eapply (augments_free u d m0 v); try done; [by rewrite Hnl|].
      by apply (prunes_edge Hp).
Qed.

Lemma dfs_spec fuel m u d :
  shaped m -> consistent m -> dist_bounded m -> u < n_left_ m -> ds m u = Some d ->
  n_left_ m + 2 - d <= fuel ->
  exists r m', dfs fuel m u = Some (r, m') /\ dfs_post u d m r m'.
Proof.
  revert m u d. induction fuel as [|fuel IH]; intros m u d Hs Hc Hb Hu Hd Hfuel.
  { pose proof (Hb u d Hd). lia. }
  cbn [dfs]. rewrite (proj2 (Nat.eqb_neq _ _)) by lia.
  destruct (lookup_lt_is_Some_2 (adj_ m) u) as [es Hes].
  { destruct Hs as (-> & _). done. }
  rewrite Hes. simpl.
  apply (dfs_edges_spec (dfs fuel) u d m es es m); try done.
  - intros m' w Hs' Hc' Hb' Hnl Hw Hdw. pose proof (Hb u d Hd) as Hdu. split.
    + intros ->. destruct fuel as [|fuel]; [lia|]. cbn [dfs]. by rewrite Nat.eqb_refl.
    + intros Hlt. apply (IH m' w (S d)); try done. lia.
  - intros v s Hv. by exists es, s.
  - intros v s Hv. by left.
  - apply prunes_refl.
Qed.

(** ** The augmenting round *)

(** Matched left nodes. *)
Definition matched_lefts (m : BipartiteMatching) : list nat :=
  filter (fun u => ml m u <> None) (seq 0 (n_left_ m)).

Lemma elem_of_matched_lefts m u : u ∈ matched_lefts m <-> u < n_left_ m /\ ml m u <> None.
Proof. unfold matched_lefts. rewrite list_elem_of_filter, elem_of_seq. intuition lia. Qed.

Lemma NoDup_matched_lefts m : NoDup (matched_lefts m).
Proof. apply NoDup_filter, NoDup_seq. Qed.

Definition counted (m : BipartiteMatching) : Prop := matched_ m = length (matched_lefts m).

Lemma NoDup_incl_length {A} (l k : list A) :
  NoDup l -> (forall x, x ∈ l -> x ∈ k) -> length l <= length k.
Proof. intros Hl Hin. by apply submseteq_length, NoDup_submseteq. Qed.

Lemma matched_lefts_le m : length (matched_lefts m) <= n_left_ m.
Proof.
  rewrite <- (length_seq (n_left_ m) 0). apply NoDup_incl_length; [apply NoDup_matched_lefts|].
  intros x [_ Hx]%list_elem_of_filter. exact Hx.
Qed.

Lemma augments_matched u d m m' :
  ml m u = None -> u < n_left_ m -> augments u d m m' ->
  length (matched_lefts m') = S (length (matched_lefts m)).
Proof.
  intros Hu Hlt Ha. apply (Permutation_length (l' := u :: matched_lefts m)).
  apply NoDup_Permutation.
  - apply NoDup_matched_lefts.
  - constructor; [|apply NoDup_matched_lefts]. rewrite elem_of_matched_lefts. tauto.
  - intros w. rewrite elem_of_cons, !elem_of_matched_lefts, (au_nl _ _ _ _ Ha).
    destruct (decide (w = u)) as [->|Hne].
    + destruct (au_new _ _ _ _ Ha) as (v & -> & _). split; [by left | by split].
    + split.
      * intros [Hw Hm]. right. split; [done|]. intros Hn. by apply Hm, Ha.
      * intros [?|[Hw Hm]]; [done|]. split; [done|]. by apply Ha.
Qed.

(** During a round: the free left nodes still to visit keep distance 0. *)
Definition round_ok (u : nat) (m : BipartiteMatching) : Prop :=
  shaped m /\ consistent m /\ dist_bounded m /\ counted m /\
  (forall w, u <= w -> w < n_left_ m -> ml m w = None -> ds m w = Some 0).

Lemma round_step u m :
  round_ok u m -> u < n_left_ m -> ml m u = None ->
  exists r m', dfs (n_left_ m + 2) m u = Some (r, m') /\ dfs_post u 0 m r m' /\
    round_ok (S u) (if r then with_matched m' (S (matched_ m')) else m').
Proof.
  intros (Hs & Hc & Hb & Hk & Hfree) Hu Hmu.
  pose proof (Hfree u (le_n _) Hu Hmu) as Hd.
  destruct (dfs_spec (n_left_ m + 2) m u 0 Hs Hc Hb Hu Hd ltac:(lia)) as (r & m' & He & Hpost).
  exists r, m'. split; [done|]. split; [done|]. destruct r; simpl in Hpost.
  - split_and!.
    + apply (au_shaped _ _ _ _ Hpost).
    + pose proof (au_cons _ _ _ _ Hpost) as Hc'. rewrite Hmu in Hc'. exact Hc'.
    + intros w k Hwk. change (ds m' w = Some k) in Hwk. simpl. rewrite (au_nl _ _ _ _ Hpost).
      apply (Hb w). destruct (au_ds _ _ _ _ Hpost w) as [<-|(Hn & _)]; congruence.
    + unfold counted in *. simpl. change (matched_lefts _) with (matched_lefts m').
      rewrite (augments_matched _ _ _ _ Hmu Hu Hpost), (au_matched _ _ _ _ Hpost). lia.
    + simpl. intros w Hw Hlt Hmw. change (ml m' w = None) in Hmw. change (ds m' w = Some 0).
      rewrite (au_nl _ _ _ _ Hpost) in Hlt.
      assert (Hmw0 : ml m w = None).
      { destruct (ml m w) eqn:E; [|done]. exfalso.
        apply (au_keep _ _ _ _ Hpost w); congruence. }
      destruct (au_ds _ _ _ _ Hpost w) as [->|(_ & _ & ?)]; [apply Hfree; lia || done | done].
  - destruct Hpost as [Hp Hn]. split_and!.
    + by apply (prunes_shaped Hp).
    + by apply (prunes_consistent Hp).
    + by apply (prunes_bounded Hp).
    + unfold counted, matched_lefts in *. rewrite (pr_matched _ _ _ _ Hp), (pr_nl _ _ _ _ Hp), Hk.
      f_equal. apply list_filter_iff. intros w. by rewrite (prunes_ml Hp).
    + intros w Hw Hlt Hmw. rewrite (prunes_ml Hp) in Hmw. rewrite (pr_nl _ _ _ _ Hp) in Hlt.
      destruct (pr_ds _ _ _ _ Hp w) as [->|(_ & _ & _ & [->|?] & _)]; [|lia|done].
      apply Hfree; lia || done.
Qed.

Definition same_graph (m m' : BipartiteMatching) : Prop :=
  n_left_ m' = n_left_ m /\ n_right_ m' = n_right_ m /\ adj_ m' = adj_ m.

(** A whole round returns; if a free node still to visit reaches the
    sentinel, the round matches at least one more layer. *)
Lemma augment_spec n u m :
  round_ok u m -> u + n = n_left_ m ->
  exists m', augment n u m = Some m' /\ same_graph m m' /\ round_ok (u + n) m' /\
    matched_ m <= matched_ m' /\
    ((exists w, u <= w /\ w < n_left_ m /\ ml m w = None /\ reach m w) -> matched_ m < matched_ m').
Proof.
  revert u m. induction n as [|n IH]; intros u m Hok Hn; cbn [augment].
  { exists m. split_and!; try done. by rewrite Nat.add_0_r. intros (w & ? & ? & _). lia. }
  assert (Hu : u < n_left_ m) by lia.
  rewrite lookup_at by (destruct Hok as ((_ & -> & _) & _); done). fold (ml m u). simpl.
  destruct (ml m u) as [v|] eqn:Hmu.
  - destruct (IH (S u) m) as (m' & He & Hg & Hr & Hle & Hlt); [|lia|].
    { destruct Hok as (? & ? & ? & ? & Hf). split_and!; try done. intros w Hw. apply Hf. lia. }
    exists m'. split_and!; try done; [apply Hg.. | by rewrite <- Nat.add_succ_comm |].
    intros (w & Hw & Hwl & Hmw & Hr'). apply Hlt. exists w.
    split_and!; try done. destruct (decide (w = u)); [congruence | lia].
  - destruct (round_step u m Hok Hu Hmu) as (r & m1 & -> & Hpost & Hok1). simpl.
    set (m2 := if r then with_matched m1 (S (matched_ m1)) else m1) in *.
    assert (Hg2 : same_graph m m2).
    { unfold same_graph, m2. destruct r; simpl in *.
      - by rewrite (au_nl _ _ _ _ Hpost), (au_nr _ _ _ _ Hpost), (au_adj _ _ _ _ Hpost).
      - destruct Hpost as [Hp _].
        by rewrite (pr_nl _ _ _ _ Hp), (pr_nr _ _ _ _ Hp), (pr_adj _ _ _ _ Hp). }
    pose proof Hg2 as (Hg2l & Hg2r & Hg2a).
    destruct (IH (S u) m2 Hok1) as (m' & -> & Hg & Hr & Hle & Hlt); [lia|].
    exists m'. destruct Hg as (Hgl & Hgr & Hga). split_and!; try congruence.
    + unfold same_graph. by rewrite Hgl, Hgr, Hga.
    + by rewrite <- Nat.add_succ_comm.
    + unfold m2 in Hle. destruct r; simpl in *.
      * rewrite (au_matched _ _ _ _ Hpost) in Hle. lia.
      * destruct Hpost as [Hp _]. by rewrite (pr_matched _ _ _ _ Hp) in Hle.
    + intros (w & Hw & Hwl & Hmw & Hrw). unfold m2 in Hle, Hlt. destruct r; simpl in *.
      * rewrite (au_matched _ _ _ _ Hpost) in Hle. lia.
      * destruct Hpost as [Hp Hn1]. rewrite <- (pr_matched _ _ _ _ Hp). apply Hlt. exists w.
        rewrite (pr_nl _ _ _ _ Hp), (prunes_ml Hp).
        split_and!; try done; [|by apply (prunes_reach Hp)].
        destruct (decide (w = u)) as [->|]; [|lia]. exfalso.
        apply (prunes_reach Hp) in Hrw.
        destruct (reach_dist _ _ Hrw) as [?|[k Hk]]; [rewrite (pr_nl _ _ _ _ Hp) in *; lia | congruence].
Qed.

(** ** The breadth-first search *)

Definition dl (d : list (option nat)) (w : nat) : option nat := mjoin (d !! w).

Lemma dl_insert (d : list (option nat)) i x w :
  i < length d -> dl (<[i := x]> d) w = if decide (i = w) then x else dl d w.
Proof. apply lookup_insert_at. Qed.

(** Left nodes without a distance yet. *)
Definition undiscovered (m : BipartiteMatching) (d : list (option nat)) : nat :=
  length (filter (fun u => dl d u = None) (seq 0 (n_left_ m))).

Lemma undiscovered_set m d w x :
  length d = S (n_left_ m) -> w < n_left_ m -> dl d w = None ->
  undiscovered m d = S (undiscovered m (<[w := Some x]> d)).
Proof.
  intros Hl Hw Hn. unfold undiscovered.
  apply (Permutation_length (l' := w :: filter (fun u => dl (<[w := Some x]> d) u = None)
    (seq 0 (n_left_ m)))).
  apply NoDup_Permutation.
  - apply NoDup_filter, NoDup_seq.
  - constructor; [|apply NoDup_filter, NoDup_seq].
    rewrite list_elem_of_filter, dl_insert, decide_True by (done || lia). naive_solver.
  - intros u. rewrite elem_of_cons, !list_elem_of_filter, elem_of_seq, dl_insert by lia.
    case_decide; [subst; naive_solver lia | naive_solver].
Qed.

Record bfs_state (m : BipartiteMatching) (d : list (option nat)) (q : list nat) : Prop := {
  bs_len : length d = S (n_left_ m);
  bs_free : forall u, u < n_left_ m -> ml m u = None -> dl d u = Some 0;
  bs_zero : forall w, dl d w = Some 0 -> w < n_left_ m /\ ml m w = None;
  bs_pred : forall w x, dl d w = Some (S x) ->
    exists u v, u < n_left_ m /\ edge m u v /\ node_of m v = w /\ dl d u = Some x;
  bs_queue : forall w, w ∈ q -> w < n_left_ m /\ dl d w <> None
}.

Definition extends (d d' : list (option nat)) : Prop :=
  forall w y, dl d w = Some y -> dl d' w = Some y.

Lemma extends_some d d' w : extends d d' -> dl d w <> None -> dl d' w <> None.
Proof. intros He Hw. destruct (dl d w) eqn:E; [|done]. by rewrite (He _ _ E). Qed.

(** A newly found node: its distance is written and, unless it is the
    sentinel, it is queued. *)
Lemma bfs_state_discover m d q u v x :
  consistent m -> bfs_state m d q -> u < n_left_ m -> edge m u v -> dl d u = Some x ->
  dl d (node_of m v) = None ->
  let idx := node_of m v in
  let q' := if idx =? n_left_ m then q else q ++ [idx] in
  bfs_state m (<[idx := Some (S x)]> d) q' /\ extends d (<[idx := Some (S x)]> d) /\
  undiscovered m (<[idx := Some (S x)]> d) + length q' = undiscovered m d + length q.
Proof.
  intros Hc Hb Hu He Hx Hn idx q'. pose proof (node_of_le m v Hc) as Hle. fold idx in Hle, Hn.
  pose proof (bs_len _ _ _ Hb) as Hlen.
  assert (Hext : extends d (<[idx := Some (S x)]> d)).
  { intros w y Hw. rewrite dl_insert by lia. case_decide; [congruence | done]. }
  split_and!; [split | done |].
  - by rewrite length_insert.
  - intros w Hw Hm. by apply Hext, (bs_free _ _ _ Hb).
  - intros w. rewrite dl_insert by lia. case_decide; [done | apply Hb].
  - intros w y. rewrite dl_insert by lia. case_decide as Hw.
    + intros [= <-]. exists u, v. split_and!; try done. by apply Hext.
    + intros Hy. destruct (bs_pred _ _ _ Hb w y Hy) as (u' & v' & ? & ? & ? & ?).
      exists u', v'. split_and!; try done. by apply Hext.
  - intros w Hw. assert (w ∈ q \/ (w = idx /\ idx <> n_left_ m)) as [Hq|[-> Hne]].
    { unfold q' in Hw. destruct (Nat.eqb_spec idx (n_left_ m)); [by left|].
      apply elem_of_app in Hw as [?| ->%list_elem_of_singleton]; auto. }
    + destruct (bs_queue _ _ _ Hb w Hq). split; [done|]. by eapply extends_some.
    + split; [lia|]. rewrite dl_insert, decide_True by (done || lia). done.
  - unfold q'. destruct (Nat.eqb_spec idx (n_left_ m)) as [Hs|Hs].
    + unfold undiscovered. f_equal. f_equal. apply filter_ext_elem.
      intros w Hw%elem_of_seq. rewrite dl_insert, decide_False by lia. done.
    + rewrite (undiscovered_set m d idx (S x)), length_app by (done || lia). simpl. lia.
Qed.

Lemma bfs_edges_spec m u x edges d q :
  shaped m -> consistent m -> u < n_left_ m ->
  (forall v s, (v, s) ∈ edges -> edge m u v) ->
  bfs_state m d q -> dl d u = Some x ->
  exists d' q', bfs_edges m u edges d q = Some (d', q') /\ bfs_state m d' q' /\
    extends d d' /\ undiscovered m d' + length q' = undiscovered m d + length q /\
    (forall w, w ∈ q -> w ∈ q') /\
    (forall v s, (v, s) ∈ edges -> dl d' (node_of m v) <> None) /\
    (forall w y, dl d' w = Some y ->
       dl d w = Some y \/ (y = S x /\ (w = n_left_ m \/ w ∈ q'))).
Proof.
  intros Hs Hc Hu. revert d q.
  induction edges as [|[v s] edges IH]; intros d q Hed Hb Hx; cbn [bfs_edges].
  { exists d, q. split_and!; try done. by intros ?. intros ? ? Hin.
    by apply not_elem_of_nil in Hin. by left. }
  assert (He : edge m u v) by (eapply Hed, list_elem_of_here).
  assert (Hed' : forall v' s', (v', s') ∈ edges -> edge m u v').
  { intros v' s' Hin. eapply Hed. by apply list_elem_of_further. }
  pose proof Hs as (_ & _ & Hmr & _ & Hrange). pose proof (Hrange u v He) as Hv.
  rewrite (lookup_at (match_right_ m) v) by lia. fold (mr m v). simpl.
  change (default (n_left_ m) (mr m v)) with (node_of m v).
  pose proof (node_of_le m v Hc) as Hle. pose proof (bs_len _ _ _ Hb) as Hlen.
  rewrite (lookup_at d (node_of m v)) by lia. fold (dl d (node_of m v)). simpl.
  destruct (dl d (node_of m v)) as [y|] eqn:Hn.
  - destruct (IH d q Hed' Hb Hx) as (d' & q' & -> & Hb' & Hext & Hcnt & Hq & Hall & Hnew).
    exists d', q'. split_and!; try done. intros v' s' [[= -> ->]|Hin]%elem_of_cons; [|eauto].
    by rewrite (Hext _ _ Hn).
  - rewrite (lookup_at d u) by lia. fold (dl d u). rewrite Hx. simpl.
    rewrite at_set_some by lia. simpl.
    destruct (bfs_state_discover m d q u v x Hc Hb Hu He Hx Hn) as (Hb1 & Hext1 & Hcnt1).
    destruct (IH _ _ Hed' Hb1 (Hext1 _ _ Hx)) as (d' & q' & -> & Hb' & Hext & Hcnt & Hq & Hall & Hnew).
    exists d', q'. split_and!; try done.
    + intros w y Hw. by apply Hext, Hext1.
    + lia.
    + intros w Hw. apply Hq. case_match; [done|]. apply elem_of_app. by left.
    + intros v' s' [[= -> ->]|Hin]%elem_of_cons; [|eauto].
      eapply extends_some; [exact Hext|]. rewrite dl_insert, decide_True by (done || lia). done.
    + intros w y Hw. destruct (Hnew w y Hw) as [Hw1|?]; [|by right].
      rewrite dl_insert in Hw1 by lia. case_decide as Hidx; [|by left].
      subst w. injection Hw1 as <-. right. split; [done|].
      destruct (Nat.eqb_spec (node_of m v) (n_left_ m)) as [|Hne]; [by left|].
      right. apply Hq. apply elem_of_app. right. apply list_elem_of_here.
Qed.

Lemma bfs_init_spec m n u d q :
  shaped m -> u + n = n_left_ m -> length d = S (n_left_ m) ->
  (forall w, w < u -> dl d w = match ml m w with None => Some 0 | Some _ => None end) ->
  q = filter (fun w => ml m w = None) (seq 0 u) ->
  exists d' q', bfs_init m n u d q = Some (d', q') /\ length d' = S (n_left_ m) /\
    (forall w, w < n_left_ m -> dl d' w = match ml m w with None => Some 0 | Some _ => None end) /\
    q' = filter (fun w => ml m w = None) (seq 0 (n_left_ m)).
Proof.
  intros Hs. revert u d q. induction n as [|n IH]; intros u d q Hn Hl Hd Hq; cbn [bfs_init].
  { rewrite Nat.add_0_r in Hn. subst u. eauto 6. }
  rewrite (lookup_at (match_left_ m) u) by (destruct Hs as (_ & -> & _); lia). fold (ml m u). simpl.
  assert (Hstep : forall x, x = match ml m u with None => Some 0 | Some _ => None end ->
    forall w, w < S u ->
      dl (<[u := x]> d) w = match ml m w with None => Some 0 | Some _ => None end).
  { intros x Hx w Hw. rewrite dl_insert by lia. case_decide; [by subst | apply Hd; lia]. }
  assert (Hq' : filter (fun w => ml m w = None) (seq 0 (S u))
    = q ++ if decide (ml m u = None) then [u] else []).
  { rewrite seq_S, Nat.add_0_l, filter_app, filter_cons, <- Hq. by destruct (decide (ml m u = None)). }
  destruct (ml m u) as [v|] eqn:Hmu; rewrite at_set_some by lia; simpl.
  - apply IH; [lia | by rewrite length_insert | by apply Hstep |].
    rewrite Hq', decide_False by done. by rewrite app_nil_r.
  - apply IH; [lia | by rewrite length_insert | by apply Hstep |].
    by rewrite Hq', decide_True.
Qed.

(** Every discovered node was expanded, unless the search had reached the
    sentinel. *)
Definition explored (m : BipartiteMatching) (d : list (option nat)) (q : list nat) : Prop :=
  forall u, u < n_left_ m -> dl d u <> None ->
    u ∈ q \/ (forall v, edge m u v -> dl d (node_of m v) <> None) \/ dl d (n_left_ m) <> None.

Lemma bfs_loop_spec fuel m k d q :
  shaped m -> consistent m -> bfs_state m d q -> explored m d q ->
  (forall w x, dl d w = Some x -> x <= k) -> k + fuel = n_left_ m ->
  undiscovered m d + length q <= fuel ->
  exists d', bfs_loop fuel m d q = Some d' /\ bfs_state m d' [] /\ explored m d' [] /\
    (forall w x, dl d' w = Some x -> x <= n_left_ m).
Proof.
  intros Hs Hc. revert k d q.
  induction fuel as [|fuel IH]; intros k d q Hb Hex Hk Hf Hcnt.
  { destruct q; [|simpl in Hcnt; lia]. exists d. split_and!; try done.
    intros w x Hw. specialize (Hk w x Hw). lia. }
  destruct q as [|u q]; cbn [bfs_loop].
  { exists d. split_and!; try done. intros w x Hw. specialize (Hk w x Hw). lia. }
  destruct (bs_queue _ _ _ Hb u (list_elem_of_here _ _)) as [Hu Hdu].
  pose proof (bs_len _ _ _ Hb) as Hlen. simpl in Hcnt.
  rewrite (lookup_at d u), (lookup_at d (n_left_ m)) by lia. fold (dl d u) (dl d (n_left_ m)). simpl.
  assert (Hb1 : bfs_state m d q).
  { split; try apply Hb. intros w Hw. apply (bs_queue _ _ _ Hb). by apply list_elem_of_further. }
  destruct (dl d u) as [x|] eqn:Hx; [|done].
  destruct (dist_ltb (Some x) (dl d (n_left_ m))) eqn:Hlt.
  - destruct (lookup_lt_is_Some_2 (adj_ m) u) as [es Hes].
    { destruct Hs as (-> & _). done. }
    rewrite Hes. simpl.
    destruct (bfs_edges_spec m u x es d q Hs Hc Hu) as (d' & q' & -> & Hb' & Hext & Hc' & Hq & Hall & Hnew);
      [intros v s Hv; by exists es, s | done | done |]. simpl.
    apply (IH (S k)); try done; [| | lia | lia].
    + intros w Hw Hdw. destruct (dl d' w) as [y|] eqn:Hy; [|done].
      destruct (Hnew w y Hy) as [Hold|[_ [->|?]]]; [|lia|by left].
      destruct (Hex w Hw) as [[->|Hin]%elem_of_cons|[Hexp|Hend]]; [congruence | | | |].
      * right; left. intros v (es' & s & Hes' & Hv). assert (es' = es) as -> by congruence. eauto.
      * left. by apply Hq.
      * right; left. intros v Hv. eapply extends_some; eauto.
      * right; right. by eapply extends_some.
    + intros w y Hy. specialize (Hk u x Hx) as Hxk.
      destruct (Hnew w y Hy) as [Hold|[-> _]]; [specialize (Hk w y Hold)|]; lia.
  - apply (IH (S k)); try done; [| | lia | lia].
    + intros w Hw Hdw. destruct (Hex w Hw Hdw) as [[->|Hin]%elem_of_cons|?]; [|by left|by right].
      right; right. simpl in Hlt. by destruct (dl d (n_left_ m)).
    + intros w y Hy. specialize (Hk w y Hy). lia.
Qed.

(** No layered way out: every edge of a discovered node leads to a discovered
    node, and none to a free right node. *)
Definition closed (m : BipartiteMatching) : Prop :=
  (forall u, u < n_left_ m -> ml m u = None -> ds m u <> None) /\
  (forall u v, u < n_left_ m -> ds m u <> None -> edge m u v ->
     exists w, mr m v = Some w /\ ds m w <> None).

Lemma bfs_spec m :
  shaped m -> consistent m -> counted m ->
  exists b d, bfs m = Some (b, with_dist m d) /\ round_ok 0 (with_dist m d) /\
    if b : bool
    then exists u, u < n_left_ m /\ ml m u = None /\ reach (with_dist m d) u
    else closed (with_dist m d).
Proof.
  intros Hs Hc Hk. unfold bfs.
  destruct (bfs_init_spec m (n_left_ m) 0 (dist_ m) []) as (d0 & q0 & -> & Hl0 & Hd0 & Hq0); try done.
  { apply Hs. } { intros w Hw. lia. }
  simpl. rewrite at_set_some by lia. simpl.
  set (d1 := <[n_left_ m := None]> d0).
  assert (Hd1 : forall w, dl d1 w =
    if decide (w < n_left_ m) then match ml m w with None => Some 0 | Some _ => None end else None).
  { intros w. unfold d1. rewrite dl_insert by lia. case_decide; case_decide; try lia; try done.
    - by apply Hd0.
    - unfold dl. apply lookup_beyond. lia. }
  assert (Hb1 : bfs_state m d1 q0).
  { split.
    - unfold d1. by rewrite length_insert.
    - intros u Hu Hm. by rewrite Hd1, decide_True, Hm.
    - intros w. rewrite Hd1. case_decide; [|done]. by destruct (ml m w).
    - intros w x. rewrite Hd1. case_decide; [|done]. by destruct (ml m w).
    - intros w. rewrite Hq0, list_elem_of_filter, elem_of_seq. intros [Hm Hw].
      split; [lia|]. rewrite Hd1, decide_True, Hm by lia. done. }
  destruct (bfs_loop_spec (n_left_ m) m 0 d1 q0 Hs Hc Hb1) as (d & -> & Hb & Hex & Hbnd).
  - intros u Hu Hdu. left. rewrite Hq0, list_elem_of_filter, elem_of_seq.
    rewrite Hd1, decide_True in Hdu by done. destruct (ml m u); [done|]. split; [done | lia].
  - intros w x. rewrite Hd1. case_decide; [|done]. destruct (ml m w); [done|]. intros [= <-]. lia.
  - done.
  - rewrite Hq0. unfold undiscovered.
    rewrite <- (length_seq (n_left_ m) 0) at 3. rewrite <- length_app.
    apply submseteq_length, NoDup_submseteq.
    + apply NoDup_app. split_and!; [apply NoDup_filter, NoDup_seq | | apply NoDup_filter, NoDup_seq].
      intros w [Hw Hin]%list_elem_of_filter [Hm _]%list_elem_of_filter.
      apply elem_of_seq in Hin. rewrite Hd1, decide_True, Hm in Hw by lia. done.
    + intros w [[_ ?]%list_elem_of_filter|[_ ?]%list_elem_of_filter]%elem_of_app; done.
  - simpl. pose proof (bs_len _ _ _ Hb) as Hlen.
    rewrite (lookup_at d (n_left_ m)) by lia. fold (dl d (n_left_ m)). simpl.
    eexists _, d. split; [done|]. split.
    { split_and!; try done.
      - destruct Hs as (? & ? & ? & _ & ?). split_and!; done.
      - intros w _ Hw Hm. by apply (bs_free _ _ _ Hb). }
    case_bool_decide as Hend.
    + assert (Hreach : forall x w, dl d w = Some x -> reach (with_dist m d) w ->
        exists u, u < n_left_ m /\ ml m u = None /\ reach (with_dist m d) u).
      { induction x as [|x IH]; intros w Hw Hr.
        - destruct (bs_zero _ _ _ Hb w Hw). eauto.
        - destruct (bs_pred _ _ _ Hb w x Hw) as (u & v & Hu & He & Hn & Hx).
          apply (IH u Hx). apply (reach_step _ u w); [done | by exists v, x | done]. }
      destruct (dl d (n_left_ m)) as [x|] eqn:Hx; [|done].
      apply (Hreach x (n_left_ m) Hx). exact (reach_end (with_dist m d)).
    + split.
      * intros u Hu Hm. change (dl d u <> None). by rewrite (bs_free _ _ _ Hb).
      * intros u v Hu Hdu He. destruct (Hex u Hu Hdu) as [Hin|[Hexp|?]]; [by apply not_elem_of_nil in Hin| |done].
        specialize (Hexp v He). unfold node_of in Hexp. destruct (mr m v) as [w|] eqn:Hv; [|done].
        exists w. split; [exact Hv | exact Hexp].
Qed.

Definition run_example (nl nr : nat) (es : list (nat * nat * Z)) : option (nat * list (option nat)) :=
  m ← add_edges (construct nl nr) es;
  '(k, m) ← solve m;
  Some (k, match_left_ m).

(** ** The result *)

(** A matching of the graph: a list of edges, no node twice. *)
Definition is_matching (m : BipartiteMatching) (M : list (nat * nat)) : Prop :=
  NoDup M.*1 /\ NoDup M.*2 /\ forall u v, (u, v) ∈ M -> u < n_left_ m /\ edge m u v.

(** Koenig's argument: a closed search leaves no larger matching.  A matched
    pair of [M] is sent to the current partner of its right node when its left
    node was discovered, and to its left node otherwise. *)
Lemma closed_maximum m M :
  consistent m -> closed m -> is_matching m M -> length M <= length (matched_lefts m).
Proof.
  intros Hc [Hfree Hcl] (Hu & Hv & HM).
  set (g := fun p : nat * nat => if decide (ds m p.1 = None) then p.1 else default 0 (mr m p.2)).
  assert (Hd : forall u v, (u, v) ∈ M -> ds m u <> None ->
    exists w, mr m v = Some w /\ ml m w = Some v /\ ds m w <> None).
  { intros u v Hin Hdu. destruct (HM u v Hin) as [Hlt He].
    destruct (Hcl u v Hlt Hdu He) as (w & Hw & Hdw). exists w.
    split_and!; try done. by apply (consistent_right _ _ _ Hc). }
  rewrite <- (length_fmap g). apply NoDup_incl_length.
  - apply NoDup_fmap_2_strong; [|by eapply NoDup_fmap_1].
    intros [u1 v1] [u2 v2] H1 H2 Heq. unfold g in Heq. simpl in Heq.
    assert (Hinj1 : u1 = u2 -> (u1, v1) = (u2, v2)).
    { intros ->. apply list_elem_of_lookup in H1 as [i Hi], H2 as [j Hj].
      assert (i = j) as ->; [|congruence].
      eapply (NoDup_lookup M.*1); [done| |]; rewrite list_lookup_fmap; [by rewrite Hi | by rewrite Hj]. }
    assert (Hinj2 : v1 = v2 -> (u1, v1) = (u2, v2)).
    { intros ->. apply list_elem_of_lookup in H1 as [i Hi], H2 as [j Hj].
      assert (i = j) as ->; [|congruence].
      eapply (NoDup_lookup M.*2); [done| |]; rewrite list_lookup_fmap; [by rewrite Hi | by rewrite Hj]. }
    destruct (decide (ds m u1 = None)) as [E1|E1], (decide (ds m u2 = None)) as [E2|E2].
    + by apply Hinj1.
    + destruct (Hd _ _ H2 E2) as (w & Hw & _ & Hdw). rewrite Hw in Heq. simpl in Heq. congruence.
    + destruct (Hd _ _ H1 E1) as (w & Hw & _ & Hdw). rewrite Hw in Heq. simpl in Heq. congruence.
    + destruct (Hd _ _ H1 E1) as (w1 & Hw1 & Hm1 & _), (Hd _ _ H2 E2) as (w2 & Hw2 & Hm2 & _).
      rewrite Hw1, Hw2 in Heq. simpl in Heq. apply Hinj2. congruence.
  - intros x ([u v] & -> & Hin)%list_elem_of_fmap. rewrite elem_of_matched_lefts.
    destruct (HM u v Hin) as [Hlt _]. unfold g. simpl.
    destruct (decide (ds m u = None)) as [E|E].
    + split; [done|]. intros Hm. by apply (Hfree u Hlt Hm).
    + destruct (Hd u v Hin E) as (w & -> & Hm & _). simpl. split; [|congruence].
      destruct Hc as [HL _]. by destruct (HL w v Hm).
Qed.

Lemma solve_loop_spec fuel m :
  shaped m -> consistent m -> counted m -> n_left_ m < fuel + matched_ m ->
  exists m', solve_loop fuel m = Some m' /\ same_graph m m' /\
    shaped m' /\ consistent m' /\ counted m' /\ closed m'.
Proof.
  revert m. induction fuel as [|fuel IH]; intros m Hs Hc Hk Hf; cbn [solve_loop].
  { pose proof (matched_lefts_le m). unfold counted in Hk. lia. }
  destruct (bfs_spec m Hs Hc Hk) as (b & d & -> & Hr & Hb). simpl. destruct b.
  - destruct Hb as (u & Hu & Hmu & Hreach).
    destruct (augment_spec (n_left_ m) 0 (with_dist m d) Hr eq_refl)
      as (m1 & -> & Hg & Hok & Hle & Hlt). simpl in *.
    destruct Hok as (Hs1 & Hc1 & _ & Hk1 & _).
    specialize (Hlt (ex_intro _ u (conj (Nat.le_0_l u) (conj Hu (conj Hmu Hreach))))).
    destruct Hg as (Hg1 & Hg2 & Hg3). simpl in *.
    destruct (IH m1 Hs1 Hc1 Hk1) as (m' & -> & (Hh1 & Hh2 & Hh3) & Hrest); [lia|].
    exists m'. split_and!; try apply Hrest; [done|]. unfold same_graph. by rewrite Hh1, Hh2, Hh3.
  - destruct Hr as (Hs1 & Hc1 & _ & Hk1 & _). eexists. by split_and!.
Qed.

(** ** Building the graph *)

Lemma reset_is_construct m nl nr : reset m nl nr = construct nl nr.
Proof.
  unfold reset, construct. f_equal. apply list_eq_same_length with nl.
  - by rewrite length_replicate.
  - rewrite length_fmap. unfold resize_adj. rewrite length_app, length_take, length_replicate. lia.
  - intros i x y Hi. rewrite list_lookup_fmap, lookup_replicate_2 by done.
    intros (z & _ & ->)%fmap_Some. congruence.
Qed.

Definition in_range (nl nr : nat) (es : list (nat * nat * Z)) : Prop :=
  Forall (fun e => e.1.1 < nl /\ e.1.2 < nr) es.

(** Nothing matched yet. *)
Definition fresh (m : BipartiteMatching) : Prop :=
  shaped m /\ forall u, ml m u = None /\ mr m u = None.

Lemma fresh_construct nl nr : fresh (construct nl nr).
Proof.
  unfold fresh, shaped, construct, ml, mr; simpl. rewrite !length_replicate. split_and!; try done.
  - intros u v (es & s & Hes & Hin). simpl in Hes. apply lookup_replicate in Hes as [-> _].
    by apply not_elem_of_nil in Hin.
  - intros u. split; (destruct (_ !! u) eqn:E; [|done]);
      apply lookup_replicate in E as [-> _]; done.
Qed.

Lemma add_edge_spec m u v s :
  fresh m -> u < n_left_ m -> v < n_right_ m ->
  exists m', add_edge m u v s = Some m' /\ fresh m' /\
    n_left_ m' = n_left_ m /\ n_right_ m' = n_right_ m /\
    (forall a b, edge m' a b <-> edge m a b \/ (a = u /\ b = v)).
Proof.
  intros [(H1 & H2 & H3 & H4 & H5) Hf] Hu Hv. unfold add_edge.
  destruct (lookup_lt_is_Some_2 (adj_ m) u) as [es Hes]; [lia|]. rewrite Hes. simpl.
  rewrite at_set_some by lia. simpl. eexists. split; [done|].
  assert (He : forall a b, edge (with_adj m (<[u:=es ++ [(v, s)]]> (adj_ m))) a b <->
    edge m a b \/ (a = u /\ b = v)).
  { intros a b. unfold edge. simpl. destruct (decide (a = u)) as [->|Hne].
    - rewrite list_lookup_insert_eq by lia. split.
      + intros (es' & s' & [= <-] & [Hin|[= -> ->]%list_elem_of_singleton]%elem_of_app); [|by right].
        left. by exists es, s'.
      + intros [(es' & s' & Hes' & Hin)|[_ ->]].
        * exists (es ++ [(v, s)]), s'. split; [done|]. apply elem_of_app. left. congruence.
        * exists (es ++ [(v, s)]), s. split; [done|]. apply elem_of_app. right. apply list_elem_of_here.
    - rewrite list_lookup_insert_ne by done. naive_solver. }
  split_and!; try done. unfold fresh, shaped. simpl. rewrite length_insert. split_and!; try done.
  intros a b [?|[-> ->]]%He; eauto.
Qed.

Lemma add_edges_spec es m :
  fresh m -> in_range (n_left_ m) (n_right_ m) es ->
  exists g, add_edges m es = Some g /\ fresh g /\
    n_left_ g = n_left_ m /\ n_right_ g = n_right_ m /\
    (forall a b, edge g a b <-> edge m a b \/ exists s, (a, b, s) ∈ es).
Proof.
  revert m. induction es as [|[[u v] s] es IH]; intros m Hf Hr; cbn [add_edges].
  { exists m. split_and!; try done. intros a b. split; [by left|].
    intros [?|(s & Hin)]; [done | by apply not_elem_of_nil in Hin]. }
  apply Forall_cons in Hr as [[Hu Hv] Hr]. simpl in Hu, Hv.
  destruct (add_edge_spec m u v s Hf Hu Hv) as (m' & -> & Hf' & Hl & Hr' & He). simpl.
  rewrite <- Hl, <- Hr' in Hr. destruct (IH m' Hf' Hr) as (g & -> & Hfg & Hgl & Hgr & Hg).
  exists g. split_and!; try congruence; try apply Hfg. intros a b. rewrite Hg, He. split.
  - intros [[?|[-> ->]]|(s' & Hin)]; [by left | right; exists s; apply list_elem_of_here |].
    right. exists s'. by apply list_elem_of_further.
  - intros [?|(s' & Hin)]; [auto|]. apply elem_of_cons in Hin as [[= -> -> ->]|Hin]; eauto.
Qed.

(** The pairs [solve] leaves, as its callers read them. *)
Definition result_pairs (m : BipartiteMatching) : list (nat * nat) :=
  omap (fun u => pair u <$> match_for_left m u) (seq 0 (n_left_ m)).

Lemma match_for_left_ml m u : shaped m -> match_for_left m u = ml m u.
Proof.
  intros (_ & Hl & _). unfold match_for_left, ml. destruct (Nat.leb_spec (n_left_ m) u); [|done].
  symmetry. apply lookup_beyond. lia.
Qed.

Lemma match_for_right_mr m v : shaped m -> match_for_right m v = mr m v.
Proof.
  intros (_ & _ & Hl & _). unfold match_for_right, mr.
  destruct (Nat.leb_spec (n_right_ m) v); [|done]. symmetry. apply lookup_beyond. lia.
Qed.

Lemma solve_spec g :
  fresh g ->
  exists k m', solve g = Some (k, m') /\ n_left_ m' = n_left_ g /\ n_right_ m' = n_right_ g /\
    (forall u v, edge m' u v <-> edge g u v) /\
    shaped m' /\ consistent m' /\ closed m' /\ k = length (matched_lefts m').
Proof.
  intros [(H1 & H2 & H3 & H4 & H5) Hf]. unfold solve.
  set (m := with_adj (with_matched g 0) (stable_sort by_score <$> adj_ (with_matched g 0))).
  assert (He : forall u v, edge m u v <-> edge g u v).
  { intros u v. unfold edge, m. simpl. rewrite list_lookup_fmap. split.
    - intros (es & s & (es' & Hes & ->)%fmap_Some & Hin). exists es', s.
      by rewrite stable_sort_perm in Hin.
    - intros (es & s & -> & Hin). exists (stable_sort by_score es), s.
      split; [done|]. by rewrite stable_sort_perm. }
  destruct (solve_loop_spec (S (n_left_ m)) m) as (m' & -> & (Hl & Hr & Ha) & Hs & Hc & Hk & Hcl).
  - split_and!; try done; simpl; [by rewrite length_fmap|]. intros u v Huv%He. by apply H5 in Huv.
  - split; intros u v Huv; destruct (Hf u) as [Hm1 Hm2]; exfalso.
    + change (ml g u = Some v) in Huv. congruence.
    + change (mr g u = Some v) in Huv. congruence.
  - unfold counted, m. simpl. unfold matched_lefts. rewrite filter_none; [done|].
    intros u _ Hm. apply Hm. apply Hf.
  - simpl. lia.
  - simpl. exists (matched_ m'), m'. split_and!; try done.
    intros u v. rewrite <- He. unfold edge. by rewrite Ha.
Qed.

(** What a solved graph reports. *)
Lemma solve_result g :
  fresh g ->
  exists k m', solve g = Some (k, m') /\ n_left_ m' = n_left_ g /\ shaped m' /\ consistent m' /\
    matched_count m' = k /\ is_matching g (result_pairs m') /\ k = length (result_pairs m') /\
    (forall M, is_matching g M -> length M <= k).
Proof.
  intros Hg. destruct (solve_spec g Hg) as (k & m' & Hsol & Hl & Hr & He & Hs & Hc & Hcl & ->).
  exists (length (matched_lefts m')), m'. split; [done|].
  assert (Hin : forall u v, (u, v) ∈ result_pairs m' <-> ml m' u = Some v).
  { intros u v. unfold result_pairs. rewrite list_elem_of_omap. split.
    - intros (w & _ & (x & Hx & [= -> ->])%fmap_Some). by rewrite <- match_for_left_ml.
    - intros Hu. exists u. split; [|by rewrite match_for_left_ml, Hu].
      apply elem_of_seq. destruct Hc as [HL _]. destruct (HL u v Hu). lia. }
  assert (Hfst : (result_pairs m').*1 = matched_lefts m').
  { unfold result_pairs, matched_lefts. generalize (seq 0 (n_left_ m')) as l.
    induction l as [|u l IH]; [done|]. csimpl.
    rewrite match_for_left_ml by done. destruct (ml m' u) eqn:Hu; csimpl.
    - by rewrite filter_cons_True, IH by congruence.
    - by rewrite filter_cons_False by tauto. }
  split_and!; [done..| | split_and! | by rewrite <- Hfst, length_fmap |].
  - revert Hsol. unfold solve. destruct (solve_loop _ _); simpl; [|done]. by intros [= <- <-].
  - rewrite Hfst. apply NoDup_matched_lefts.
  - apply NoDup_fmap_2_strong; [|apply (NoDup_fmap_1 fst); rewrite Hfst; apply NoDup_matched_lefts].
    intros [u v] [u' v'] H1 H2 Heq. simpl in Heq. subst v'. apply Hin in H1, H2.
    apply (consistent_left _ _ _ Hc) in H1, H2. congruence.
  - intros u v Huv%Hin. destruct Hc as [HL _]. destruct (HL u v Huv) as (? & Hedge & _).
    split; [lia | by apply He].
  - intros M (H1 & H2 & HM). apply closed_maximum; [done..|]. split_and!; [done..|].
    intros u v Huv. destruct (HM u v Huv). split; [lia | by apply He].
Qed.

(** A graph built by [reset] and [add_edge] has exactly the edges added. *)
Lemma build_graph m0 nl nr es :
  in_range nl nr es ->
  exists g, add_edges (reset m0 nl nr) es = Some g /\ fresh g /\ n_left_ g = nl /\
    (forall u v, edge g u v <-> exists s : Z, (u, v, s) ∈ es).
Proof.
  intros Hes. rewrite reset_is_construct.
  destruct (add_edges_spec es _ (fresh_construct nl nr) Hes) as (g & -> & Hg & Hgl & Hgr & Hge).
  exists g. split_and!; [done..|]. intros u v. rewrite Hge. split; [|by right].
  intros [(es' & s & Hx & Hin')|?]; [|done]. exfalso. simpl in Hx.
  apply lookup_replicate in Hx as [-> _]. by apply not_elem_of_nil in Hin'.
Qed.

(** On every bipartite graph, [solve] returns without running off
    its arrays; the pairs it leaves form a matching of the graph, which
    [match_for_left] and [match_for_right] report alike; and the count it
    returns is the number of matched left nodes. *)
Theorem solve_matching (m0 : BipartiteMatching) (nl nr : nat) (es : list (nat * nat * Z)) :
  in_range nl nr es ->
  exists g k m', add_edges (reset m0 nl nr) es = Some g /\ solve g = Some (k, m') /\
    is_matching g (result_pairs m') /\
    (forall u v, (u, v) ∈ result_pairs m' -> exists s, (u, v, s) ∈ es) /\
    (forall u v, match_for_left m' u = Some v <-> match_for_right m' v = Some u) /\
    k = length (result_pairs m').
Proof.
  intros Hes. destruct (build_graph m0 nl nr es Hes) as (g & -> & Hg & _ & He).
  destruct (solve_result g Hg) as (k & m' & Hsol & _ & Hs & Hc & _ & Hm & Hk & _).
  exists g, k, m'. split_and!; [done | done | done | | | done].
  - intros u v Huv. by apply He, (proj2 (proj2 Hm)).
  - intros u v. rewrite match_for_left_ml, match_for_right_mr by done.
    split; [apply consistent_left | apply consistent_right]; done.
Qed.


Example run_swap : run_example 2 2 [(0,0,10%Z); (0,1,5%Z); (1,0,9%Z)] = Some (2, [Some 1; Some 0]).
Proof. vm_compute. reflexivity. Qed.
Example run_pref : run_example 2 2 [(0,0,1%Z); (0,1,5%Z); (1,0,9%Z); (1,1,9%Z)] = Some (2, [Some 1; Some 0]).
Proof. vm_compute. reflexivity. Qed.
Example run_3 : run_example 3 3 [(0,0,1%Z); (0,1,1%Z); (1,0,1%Z); (2,1,1%Z); (2,2,0%Z);(1,1,1%Z)] = Some (3, [Some 0; Some 1;Some 2]).
Proof. vm_compute. reflexivity. Qed.

Lemma swap_in_range : in_range 2 2 [(0, 0, 10%Z); (0, 1, 5%Z); (1, 0, 9%Z)].
Proof. unfold in_range. repeat constructor. Qed.

Lemma solve_matching_witness :
  exists g k m', add_edges (reset (construct 0 0) 2 2) [(0, 0, 10%Z); (0, 1, 5%Z); (1, 0, 9%Z)] = Some g /\
    solve g = Some (k, m') /\ k = length (result_pairs m').
Proof.
  destruct (solve_matching (construct 0 0) 2 2 _ swap_in_range)
    as (g & k & m' & Hg & Hs & _ & _ & _ & Hk).
  exists g, k, m'. split; [exact Hg|]. split; [exact Hs | exact Hk].
Defined.


(** Solving again without a reset finds every left node matched, so the second
    count is 0 although the matching is still there. *)
Lemma solve_again_counts_zero :
  exists g k m' m'', add_edges (reset (construct 0 0) 1 1) [(0, 0, 1%Z)] = Some g /\
    solve g = Some (k, m') /\ k = 1 /\ match_for_left m' 0 = Some 0 /\
    solve m' = Some (0, m'') /\ match_for_left m'' 0 = Some 0 /\ matched_count m'' = 0.
Proof. eexists _, _, _, _. split; [reflexivity|]. vm_compute. repeat split. Qed.
