(* ===== verification/Multirect.v ===== *)
(** [src/planes/multirect.hpp]: the [capabilities] blob text of the downstream
    SDE driver ([key=value] lines), the multirect parent and the blend-stage
    limit read from it, and the pairing rule. *)
From Stdlib Require Import Ascii String.
From S2P Require Import Prelude.

#[local] Open Scope nat_scope.

Definition newline : ascii := "010"%char.
Definition equals : ascii := "="%char.

(** [std::from_chars] into [uint32_t], base 10: the leading digits, failing
    on none and on overflow. *)
Definition digit (c : ascii) : option Z :=
  let n := nat_of_ascii c in
  if (48 <=? n) && (n <=? 57) then Some (Z.of_nat n - 48)%Z else None.

Fixpoint from_chars_loop (s : string) (acc : option Z) : option Z :=
  match s with
  | EmptyString => acc
  | String c s' =>
      match digit c with
      | Some d => from_chars_loop s' (Some (10 * default 0 acc + d)%Z)
      | None => acc
      end
  end.

Definition from_chars_u32 (s : string) : option Z :=
  match from_chars_loop s None with
  | Some v => if (v <? 2 ^ 32)%Z then Some v else None
  | None => None
  end.

(** The search loop of [caps_value]; each round moves past a match. *)
Fixpoint caps_loop (fuel : nat) (text key : string) (pos : nat) : option Z :=
  match fuel with
  | O => None
  | S fuel' =>
      match String.index pos key text with
      | None => None
      | Some p =>
          let after := p + String.length key in
          if ((p =? 0) || bool_decide (String.get (p - 1) text = Some newline))
             && bool_decide (String.get after text = Some equals)
          then from_chars_u32 (String.substring (S after) (String.length text - S after) text)
          else caps_loop fuel' text key after
      end
  end.

Definition caps_value (text key : string) : option Z := caps_loop (S (String.length text)) text key 0.

Definition parse_multirect_parent (text : string) : option Z :=
  let id := caps_value text "primary_smart_plane_id" in
  match id with
  | Some v => if negb (v =? 0)%Z then id else None
  | None => None
  end.

Definition parse_blend_limit (text : string) : option Z :=
  match caps_value text "max_blendstages" with
  | None => None
  | Some max_stages =>
      if (max_stages =? 0)%Z then None
      else
        let top :=
          match caps_value text "sec_ui_blendstage" with
          | Some sec_ui => if (0 <? sec_ui)%Z && (sec_ui <? max_stages)%Z then sec_ui else max_stages
          | None => max_stages
          end in
        let base_usable := negb (default 0%Z (caps_value text "use_baselayer_for_stage") =? 0)%Z in
        let limit := if base_usable then top else u32 (top - 1) in
        if (0 <? limit)%Z then Some limit else None
  end.

(** [in_use(id)] reports whether a plane id is taken. *)
Definition multirect_pairing_ok (parent : option Z) (in_use : Z -> bool) : bool :=
  match parent with None => true | Some p => in_use p end.

Definition sample : string :=
  "blend_stages=3" ++ String newline ("max_blendstages=8" ++ String newline
    ("sec_ui_blendstage=6" ++ String newline "primary_smart_plane_id=57")).
Example parse_sample : (parse_multirect_parent sample, parse_blend_limit sample,
  caps_value sample "blendstages") = (Some 57%Z, Some 5%Z, None).
Proof. vm_compute. reflexivity. Qed.

(** ** Values are 32-bit and the limit never underflows *)

Lemma from_chars_loop_range s acc v :
  (forall a, acc = Some a -> (0 <= a)%Z) -> from_chars_loop s acc = Some v -> (0 <= v)%Z.
Proof.
  revert acc. induction s as [|c s IH]; intros acc Ha; simpl; [by apply Ha|].
  destruct (digit c) as [d|] eqn:Hd; [|by apply Ha]. apply IH. intros a [= <-].
  assert (0 <= d)%Z.
  { unfold digit in Hd. destruct ((48 <=? _) && _) eqn:E; [|done]. injection Hd as <-.
    apply andb_true_iff in E as [E%Nat.leb_le _]. lia. }
  destruct acc as [a|]; simpl; [specialize (Ha a eq_refl)|]; lia.
Qed.

Lemma from_chars_range s v : from_chars_u32 s = Some v -> in_u 32 v.
Proof.
  unfold from_chars_u32. destruct (from_chars_loop s None) as [w|] eqn:Hw; [|done].
  destruct (Z.ltb_spec w (2 ^ 32)); [|done]. intros [= <-].
  apply from_chars_loop_range in Hw; [|done]. unfold in_u. lia.
Qed.

Lemma caps_value_range text key v : caps_value text key = Some v -> in_u 32 v.
Proof.
  unfold caps_value. generalize 0 as pos. generalize (S (String.length text)) as fuel.
  induction fuel as [|fuel IH]; intros pos; simpl; [done|].
  destruct (String.index _ _ _) as [p|]; [|done].
  case_match; [apply from_chars_range | apply IH].
Qed.

(** The blend limit read from a CRTC's capabilities text is between 1
    and [max_blendstages], one less than the usable stages unless the base
    stage is usable; it never wraps below zero. *)
Theorem parse_blend_limit_bounds (text : string) (n : Z) :
  parse_blend_limit text = Some n ->
  exists stages, caps_value text "max_blendstages" = Some stages /\
    (1 <= n <= stages)%Z /\ in_u 32 n /\
    (caps_value text "use_baselayer_for_stage" = None -> n < stages)%Z.
Proof.
  unfold parse_blend_limit.
  destruct (caps_value text "max_blendstages") as [stages|] eqn:Hm; [|done].
  pose proof (caps_value_range _ _ _ Hm) as Hr. unfold in_u in Hr.
  destruct (Z.eqb_spec stages 0); [done|].
  set (top := match caps_value text "sec_ui_blendstage" with Some _ => _ | None => _ end).
  assert (Htop : (1 <= top <= stages)%Z).
  { unfold top. case_match; [|lia]. case_match eqn:E; [|lia]. bool_simpl. lia. }
  clearbody top. rewrite (wrap_small 32 (top - 1)) by (unfold in_u; lia).
  intros Hn. exists stages. split; [done|]. unfold in_u.
  destruct (negb _) eqn:Hb in Hn.
  - destruct (Z.ltb_spec 0 top); [|done]. injection Hn as <-. split_and!; try lia.
    intros Hno. rewrite Hno in Hb. done.
  - destruct (Z.ltb_spec 0 (top - 1)); [|done]. injection Hn as <-. lia.
Qed.

Lemma parse_blend_limit_bounds_witness : (1 <= 7 <= 8)%Z /\ parse_blend_limit "max_blendstages=8" = Some 7%Z.
Proof.
  split; [|reflexivity].
  destruct (parse_blend_limit_bounds "max_blendstages=8" 7 eq_refl) as (stages & Hs & Hb & _).
  vm_compute in Hs. injection Hs as <-. exact Hb.
Defined.
