(* ===== verification/PlaneRegistry.v ===== *)
(** The plane registry: [src/planes/plane_registry.hpp] and
    [src/planes/plane_registry.cpp].

    What each plane can do ([PlaneCapabilities]), how that is read off the
    kernel's property list, and the per-CRTC view the allocator works on. *)
From S2P Require Import Prelude DrmAbi FormatMod Multirect.

Inductive DRMPlaneType := PRIMARY | OVERLAY | CURSOR.
#[global] Instance DRMPlaneType_eq_dec : EqDecision DRMPlaneType.
Proof. solve_decision. Defined.

(** [rescale_alpha], in [uint64_t]. *)
Definition rescale_alpha (value alpha_max : Z) : Z :=
  let k_alpha_full := 0xFFFF in
  let clamped := if value <? k_alpha_full then value else k_alpha_full in
  if k_alpha_full <=? alpha_max then clamped
  else u64 (u64 (clamped * alpha_max) + k_alpha_full / 2) / k_alpha_full.

Record PlaneCapabilities := mkCaps {
  id : Z;
  possible_crtcs : Z;
  type_ : DRMPlaneType;
  formats : list Z;
  format_table : FormatTable;
  modifier_classes : list (Z * BandwidthClass);
  zpos_min : option Z;
  zpos_max : option Z;
  multirect_parent : option Z;
  reset_on_arm_props : list Z;
  rotation_bits : Z;
  supports_rotation : bool;
  supports_scaling : bool;
  has_format_modifiers : bool;
  has_pixel_blend_mode : bool;
  has_per_plane_alpha : bool;
  alpha_max : Z;
  blend_mode_premultiplied : option Z;
  blend_mode_coverage : option Z;
  blend_mode_none : option Z;
  has_color_encoding : bool;
  color_encoding_bt601 : option Z;
  color_encoding_bt709 : option Z;
  color_encoding_bt2020 : option Z;
  has_color_range : bool;
  color_range_limited : option Z;
  color_range_full : option Z;
  has_plane_degamma_lut : bool;
  has_plane_ctm : bool;
  has_plane_hdr_mult : bool;
  plane_degamma_lut_size : Z;
  cursor_max_w : Z;
  cursor_max_h : Z
}.

(** The default member initialisers. *)
Definition default_caps : PlaneCapabilities :=
  {| id := 0; possible_crtcs := 0; type_ := OVERLAY; formats := [];
     format_table := empty_table; modifier_classes := []; zpos_min := None; zpos_max := None;
     multirect_parent := None; reset_on_arm_props := []; rotation_bits := 0;
     supports_rotation := false; supports_scaling := false; has_format_modifiers := false;
     has_pixel_blend_mode := false; has_per_plane_alpha := false; alpha_max := 0xFFFF;
     blend_mode_premultiplied := None; blend_mode_coverage := None; blend_mode_none := None;
     has_color_encoding := false; color_encoding_bt601 := None; color_encoding_bt709 := None;
     color_encoding_bt2020 := None; has_color_range := false; color_range_limited := None;
     color_range_full := None; has_plane_degamma_lut := false; has_plane_ctm := false;
     has_plane_hdr_mult := false; plane_degamma_lut_size := 0; cursor_max_w := 0;
     cursor_max_h := 0 |}.

Section Capabilities.
Context `{abi : DrmAbi} `{cpp : CppStd}.

Definition supports_format (p : PlaneCapabilities) (f : Z) : bool := bool_decide (f ∈ formats p).

Definition scans_out (p : PlaneCapabilities) (f m : Z) : bool :=
  if negb (has_format_modifiers p) then (is_linear m || is_invalid m) && supports_format p f
  else layer_fits_plane (format_table p) f m.

Definition scans_out_linear (p : PlaneCapabilities) (f : Z) : bool :=
  scans_out p f DRM_FORMAT_MOD_LINEAR.

Definition compatible_with_crtc (p : PlaneCapabilities) (crtc_index : Z) : bool :=
  if 32 <=? crtc_index then false
  else negb (Z.land (possible_crtcs p) (Z.shiftl 1 crtc_index) =? 0).

Definition bandwidth_class (p : PlaneCapabilities) (m : Z) : BandwidthClass :=
  match lower_bound (fun e => e.1 <? m) (modifier_classes p) with
  | e :: _ => if e.1 =? m then e.2 else classify m
  | [] => classify m
  end.

Definition build_format_metadata (p : PlaneCapabilities) : PlaneCapabilities :=
  let t :=
    if bool_decide (pairs_ (format_table p) = []) && negb (bool_decide (formats p = []))
    then from_pairs ((fun f => (f, DRM_FORMAT_MOD_LINEAR)) <$> formats p)
    else format_table p in
  let classes := (fun fm => (modifier fm, classify (modifier fm))) <$> pairs_ t in
  let classes := std_sort (fun a b : Z * BandwidthClass => a.1 <? b.1) classes in
  p {{ format_table := t;
       modifier_classes := unique (fun a b : Z * BandwidthClass => a.1 =? b.1) classes }}.
End Capabilities.

(** ** PlaneRegistry

    A view holds pointers into [planes_]; here, the planes' indices. *)

Record PlaneRegistry := mkRegistry {
  planes_ : list PlaneCapabilities;
  blend_limits_ : gmap Z Z;
  excluded_ : list Z;
  for_crtc_cache_ : gmap Z (list nat)
}.

Definition empty_registry : PlaneRegistry := mkRegistry [] ∅ [] ∅.

(** [std::binary_search] over the sorted exclusion list. *)
Definition is_excluded (excl : list Z) (pid : Z) : bool :=
  binary_search (fun a b => a <? b) pid excl.

(** The loop that fills a view: indices [i, ...) of the planes left. *)
Fixpoint fill_view (crtc_index : Z) (excl : list Z) (ps : list PlaneCapabilities) (i : nat)
    : list nat :=
  match ps with
  | [] => []
  | p :: ps' =>
      if compatible_with_crtc p crtc_index && negb (is_excluded excl (id p))
      then i :: fill_view crtc_index excl ps' (S i)
      else fill_view crtc_index excl ps' (S i)
  end.

(** [for_crtc]: the cached view, filled on first use. *)
Definition for_crtc (r : PlaneRegistry) (crtc_index : Z) : list nat * PlaneRegistry :=
  match for_crtc_cache_ r !! crtc_index with
  | Some view => (view, r)
  | None =>
      let view := fill_view crtc_index (excluded_ r) (planes_ r) 0 in
      (view, mkRegistry (planes_ r) (blend_limits_ r) (excluded_ r)
               (<[crtc_index := view]> (for_crtc_cache_ r)))
  end.

(** The planes a view points at. *)
Definition deref (r : PlaneRegistry) (view : list nat) : list PlaneCapabilities :=
  omap (fun i => planes_ r !! i) view.

Fixpoint is_sorted (l : list Z) : bool :=
  match l with
  | a :: (b :: _) as l' => negb (b <? a) && is_sorted l'
  | _ => true
  end.

Definition set_excluded_planes `{CppStd} (r : PlaneRegistry) (plane_ids : list Z) : PlaneRegistry :=
  if is_sorted plane_ids && bool_decide (plane_ids = excluded_ r) then r
  else
    let next := unique (fun a b => a =? b) (std_sort (fun a b => a <? b) plane_ids) in
    if bool_decide (next = excluded_ r) then r
    else
      mkRegistry (planes_ r) (blend_limits_ r) next
        (map_imap (fun crtc_index _ => Some (fill_view crtc_index next (planes_ r) 0))
           (for_crtc_cache_ r)).

Definition blend_limit (r : PlaneRegistry) (crtc_index : Z) : option Z :=
  blend_limits_ r !! crtc_index.

Definition set_blend_limit (r : PlaneRegistry) (crtc_index n : Z) : PlaneRegistry :=
  mkRegistry (planes_ r) (<[crtc_index := n]> (blend_limits_ r)) (excluded_ r) (for_crtc_cache_ r).

Definition from_capabilities `{DrmAbi} `{CppStd} (caps : list PlaneCapabilities) : PlaneRegistry :=
  mkRegistry (build_format_metadata <$> caps) ∅ [] ∅.

(** ** Enumeration

    The libdrm getters, as the answers of one device.  They are queries: two
    calls with the same arguments give the same answer. *)

Record drmModePropertyRes := mkProperty {
  prop_id : Z;
  prop_name : string;
  prop_flags : Z;
  prop_values : list Z;
  prop_enums : list (string * Z)
}.

Record drmModePlane := mkPlane { pl_plane_id : Z; pl_possible_crtcs : Z; pl_formats : list Z }.

Inductive object_type := OBJECT_PLANE | OBJECT_CRTC | OBJECT_CONNECTOR.

Class Kms := {
  drmModeGetPlaneResources : expected (list Z);
  cap_cursor_width : option Z;   (* drmGetCap(DRM_CAP_CURSOR_WIDTH) *)
  cap_cursor_height : option Z;
  drmModeGetPlane : Z -> option drmModePlane;
  drmModeObjectGetProperties : Z -> object_type -> option (list (Z * Z));
  drmModeGetProperty : Z -> option drmModePropertyRes;
  drmModeGetPropertyBlob : Z -> option (list Z);
  drmModeGetResources : option (list Z)   (* the CRTC ids *)
}.

Definition is_reset_on_arm (name : string) : bool :=
  bool_decide (name ∈ ["scaler_v2"; "csc_v1"; "excl_rect_v1"; "lut_ed"; "lut_cir"; "lut_sep";
                       "SDE_VIG_3D_LUT_GAMUT_V5"; "SDE_VIG_1D_LUT_IGC_V5"]).

(** A blob's bytes read as text. *)
Definition text_of (bytes : list Z) : string :=
  String.string_of_list_ascii ((fun b => Ascii.ascii_of_N (Z.to_N b)) <$> bytes).

Section Enumerate.
Context `{abi : DrmAbi} `{cpp : CppStd} `{kms : Kms}.

Definition has_flag (flags bit : Z) : bool := negb (Z.land flags bit =? 0).

(** The scan stops at the first property called ["type"]. *)
Fixpoint parse_type_loop (props : list (Z * Z)) : DRMPlaneType :=
  match props with
  | [] => OVERLAY
  | (pid, val) :: props' =>
      match drmModeGetProperty pid with
      | None => parse_type_loop props'
      | Some prop =>
          if String.eqb (prop_name prop) "type" then
            if val =? DRM_PLANE_TYPE_PRIMARY then PRIMARY
            else if val =? DRM_PLANE_TYPE_CURSOR then CURSOR else OVERLAY
          else parse_type_loop props'
      end
  end.

Definition parse_plane_type (plane_id : Z) : DRMPlaneType :=
  match drmModeObjectGetProperties plane_id OBJECT_PLANE with
  | None => OVERLAY
  | Some props => parse_type_loop props
  end.

(** [None] is a read outside the blob. *)
Definition parse_in_formats_blob (blob_id : Z) (caps : PlaneCapabilities)
    : option PlaneCapabilities :=
  match drmModeGetPropertyBlob blob_id with
  | None => Some caps
  | Some mem =>
      t ← from_blob (Some mem);
      Some (caps {{ format_table := t;
                    has_format_modifiers := negb (bool_decide (pairs_ t = [])) }})
  end.

(** The enum loops: the last entry of a name wins. *)
Definition enum_value (name : string) (enums : list (string * Z)) (old : option Z) : option Z :=
  foldl (fun acc en => if String.eqb en.1 name then Some en.2 else acc) old enums.

Definition rotation_union (enums : list (string * Z)) (old : Z) : Z :=
  foldl (fun acc en => if en.2 <? 64 then Z.lor acc (Z.shiftl 1 en.2) else acc) old enums.

(** One round of the property loop of [detect_plane_capabilities]. *)
Definition detect_property (prop : drmModePropertyRes) (val : Z) (caps : PlaneCapabilities)
    : option PlaneCapabilities :=
  let named name := String.eqb (prop_name prop) name in
  let flag bit := has_flag (prop_flags prop) bit in
  if named "zpos" then
    match prop_values prop with
    | lo :: hi :: _ =>
        if flag DRM_MODE_PROP_RANGE then Some (caps {{ zpos_min := Some lo; zpos_max := Some hi }})
        else Some (caps {{ zpos_min := Some val; zpos_max := Some val }})
    | _ => Some (caps {{ zpos_min := Some val; zpos_max := Some val }})
    end
  else if named "rotation" then
    let caps := caps {{ supports_rotation := true }} in
    Some (if flag DRM_MODE_PROP_BITMASK
          then caps {{ rotation_bits ::= rotation_union (prop_enums prop) }} else caps)
  else if named "capabilities" && flag DRM_MODE_PROP_BLOB && negb (val =? 0) then
    match drmModeGetPropertyBlob (u32 val) with
    | Some mem => Some (caps {{ multirect_parent := parse_multirect_parent (text_of mem) }})
    | None => Some caps
    end
  else if is_reset_on_arm (prop_name prop) then
    Some (caps {{ reset_on_arm_props ::= fun l => l ++ [prop_id prop] }})
  else if named "SRC_W" then Some (caps {{ supports_scaling := true }})
  else if named "IN_FORMATS" then parse_in_formats_blob (u32 val) caps
  else if named "pixel blend mode" then
    let caps := caps {{ has_pixel_blend_mode := true }} in
    Some (if flag DRM_MODE_PROP_ENUM
          then caps {{ blend_mode_premultiplied ::= enum_value "Pre-multiplied" (prop_enums prop);
                       blend_mode_coverage ::= enum_value "Coverage" (prop_enums prop);
                       blend_mode_none ::= enum_value "None" (prop_enums prop) }}
          else caps)
  else if named "alpha" then
    let caps := caps {{ has_per_plane_alpha := true }} in
    match prop_values prop with
    | _ :: hi :: _ =>
        Some (if flag DRM_MODE_PROP_RANGE then caps {{ alpha_max := hi }} else caps)
    | _ => Some caps
    end
  else if named "COLOR_ENCODING" then
    let caps := caps {{ has_color_encoding := true }} in
    Some (if flag DRM_MODE_PROP_ENUM
          then caps {{ color_encoding_bt601 ::= enum_value "ITU-R BT.601 YCbCr" (prop_enums prop);
                       color_encoding_bt709 ::= enum_value "ITU-R BT.709 YCbCr" (prop_enums prop);
                       color_encoding_bt2020 ::= enum_value "ITU-R BT.2020 YCbCr" (prop_enums prop) }}
          else caps)
  else if named "COLOR_RANGE" then
    let caps := caps {{ has_color_range := true }} in
    Some (if flag DRM_MODE_PROP_ENUM
          then caps {{ color_range_limited ::= enum_value "YCbCr limited range" (prop_enums prop);
                       color_range_full ::= enum_value "YCbCr full range" (prop_enums prop) }}
          else caps)
  else if named "PLANE_DEGAMMA_LUT" then Some (caps {{ has_plane_degamma_lut := true }})
  else if named "PLANE_DEGAMMA_LUT_SIZE" then
    Some (if flag DRM_MODE_PROP_RANGE && negb (bool_decide (prop_values prop = []))
          then caps {{ plane_degamma_lut_size := u32 val }} else caps)
  else if named "PLANE_CTM" then Some (caps {{ has_plane_ctm := true }})
  else if named "PLANE_HDR_MULT" then Some (caps {{ has_plane_hdr_mult := true }})
  else Some caps.

Fixpoint detect_loop (props : list (Z * Z)) (caps : PlaneCapabilities) : option PlaneCapabilities :=
  match props with
  | [] => Some caps
  | (pid, val) :: props' =>
      match drmModeGetProperty pid with
      | None => detect_loop props' caps
      | Some prop => caps' ← detect_property prop val caps; detect_loop props' caps'
      end
  end.

Definition detect_plane_capabilities (plane_id : Z) (caps : PlaneCapabilities)
    : option PlaneCapabilities :=
  match drmModeObjectGetProperties plane_id OBJECT_PLANE with
  | None => Some caps
  | Some props => detect_loop props caps
  end.

(** The body of the plane loop. *)
Definition enumerate_plane (plane : drmModePlane) : option PlaneCapabilities :=
  let caps := default_caps {{ id := pl_plane_id plane;
                              possible_crtcs := pl_possible_crtcs plane;
                              formats := pl_formats plane;
                              type_ := parse_plane_type (pl_plane_id plane) }} in
  let caps :=
    if decide (type_ caps = CURSOR)
    then caps {{ cursor_max_w := u32 (default 0 cap_cursor_width);
                 cursor_max_h := u32 (default 0 cap_cursor_height) }}
    else caps in
  caps ← detect_plane_capabilities (pl_plane_id plane) caps;
  Some (build_format_metadata caps).

Fixpoint enumerate_planes (plane_ids : list Z) : option (list PlaneCapabilities) :=
  match plane_ids with
  | [] => Some []
  | i :: plane_ids' =>
      match drmModeGetPlane i with
      | None => enumerate_planes plane_ids'
      | Some plane =>
          caps ← enumerate_plane plane; rest ← enumerate_planes plane_ids'; Some (caps :: rest)
      end
  end.

(** The inner loop over one CRTC's properties. *)
Definition crtc_blend_limits (c : Z) (props : list (Z * Z)) (limits : gmap Z Z) : gmap Z Z :=
  foldl (fun limits pv =>
    match drmModeGetProperty pv.1 with
    | Some prop =>
        if String.eqb (prop_name prop) "capabilities" && has_flag (prop_flags prop) DRM_MODE_PROP_BLOB
           && negb (pv.2 =? 0) then
          match drmModeGetPropertyBlob (u32 pv.2) with
          | Some mem =>
              match parse_blend_limit (text_of mem) with
              | Some limit => <[u32 c := limit]> limits
              | None => limits
              end
          | None => limits
          end
        else limits
    | None => limits
    end) limits props.

Fixpoint enumerate_limits (crtcs : list Z) (c : Z) (limits : gmap Z Z) : gmap Z Z :=
  match crtcs with
  | [] => limits
  | crtc :: crtcs' =>
      enumerate_limits crtcs' (c + 1)
        match drmModeObjectGetProperties crtc OBJECT_CRTC with
        | None => limits
        | Some props => crtc_blend_limits c props limits
        end
  end.

Definition enumerate : option (expected PlaneRegistry) :=
  match drmModeGetPlaneResources with
  | Unexp e => Some (Unexp e)
  | Val plane_ids =>
      planes ← enumerate_planes plane_ids;
      let limits := match drmModeGetResources with
                    | Some crtcs => enumerate_limits crtcs 0 ∅
                    | None => ∅
                    end in
      Some (Val (mkRegistry planes limits [] ∅))
  end.
End Enumerate.

(** ** Alpha *)

Definition ALPHA_FULL : Z := 0xFFFF.

Lemma rescale_alpha_eq value alpha_max :
  0 <= value -> 0 <= alpha_max ->
  rescale_alpha value alpha_max =
    (let c := Z.min value ALPHA_FULL in
     if ALPHA_FULL <=? alpha_max then c else (c * alpha_max + 32767) / ALPHA_FULL).
Proof.
  intros Hv Ha. unfold rescale_alpha, ALPHA_FULL. cbv zeta.
  replace (if value <? 65535 then value else 65535) with (Z.min value 65535)
    by (destruct (Z.ltb_spec value 65535); lia).
  destruct (Z.leb_spec 65535 alpha_max); [done|].
  change (65535 / 2) with 32767.
  rewrite !wrap_small; [done|unfold in_u; nia..|].
  rewrite wrap_small; unfold in_u; nia.
Qed.

(** [rescale_alpha] never exceeds the plane's maximum, sends full
    opacity to that maximum on a plane with at most 16 bits, keeps the order of
    opacities, is within half a step of the exact fraction, and is the identity
    on a 16-bit plane. *)
Theorem rescale_alpha_spec (v v' amax : Z) :
  in_u 64 v -> in_u 64 v' -> in_u 64 amax ->
  let r := rescale_alpha v amax in
  0 <= r <= amax /\
  (amax <= ALPHA_FULL -> ALPHA_FULL <= v -> r = amax) /\
  (v <= v' -> r <= rescale_alpha v' amax) /\
  (amax <= ALPHA_FULL -> Z.abs (r * ALPHA_FULL - Z.min v ALPHA_FULL * amax) <= ALPHA_FULL / 2) /\
  (v <= ALPHA_FULL -> rescale_alpha v ALPHA_FULL = v).
Proof.
  intros Hv Hv' Ha r. subst r. unfold in_u in *.
  rewrite !rescale_alpha_eq by (unfold ALPHA_FULL; lia). cbv zeta.
  change (ALPHA_FULL <=? ALPHA_FULL) with true. cbv iota.
  unfold ALPHA_FULL. destruct (Z.leb_spec 65535 amax).
  { change (65535 / 2) with 32767. repeat split; intros; try lia.
    assert (amax = 65535) as -> by lia. lia. }
  assert (Hmod : forall c, 0 <= c <= 65535 ->
    0 <= c * amax + 32767 - 65535 * ((c * amax + 32767) / 65535) < 65535).
  { intros c Hc. pose proof (Z.mod_pos_bound (c * amax + 32767) 65535 ltac:(lia)).
    pose proof (Z.div_mod (c * amax + 32767) 65535 ltac:(lia)). lia. }
  pose proof (Hmod (Z.min v 65535) ltac:(lia)). change (65535 / 2) with 32767.
  repeat split; intros; try lia.
  - apply Z.lt_succ_r, Z.div_lt_upper_bound; nia.
  - apply Z.div_le_mono; nia.
Qed.

Example rescale_alpha_spec_witness :
  0x8000 <= 0xFFFF /\ (0 <= rescale_alpha 0x8000 255 <= 255 /\ rescale_alpha 0x8000 255 = 128).
Proof.
  split; [lia|]. split; [|reflexivity].
  apply (rescale_alpha_spec 0x8000 0x8000 255); unfold in_u; lia.
Defined.

(** ** Derived format metadata *)

Section MetadataFacts.
Context `{abi : DrmAbi} `{cpp : CppStd}.

Lemma elem_of_unique_key {A} (key : A -> Z) (l : list A) x :
  x ∈ unique (fun a b => key a =? key b) l -> x ∈ l.
Proof.
  assert (Haux : forall l prev, x ∈ unique_aux (fun a b => key a =? key b) prev l -> x ∈ l).
  { clear l. induction l as [|y l IH]; intros prev; simpl; [done|].
    case_goal; rewrite ?elem_of_cons; naive_solver. }
  destruct l as [|y l]; simpl; [done|]. rewrite !elem_of_cons. naive_solver.
Qed.

Lemma lower_bound_subset {A} (below : A -> bool) (l : list A) x l' :
  lower_bound below l = x :: l' -> x ∈ l.
Proof.
  intros Hl. destruct (lower_bound_suffix below l) as (pre & Heq & _).
  rewrite Heq, Hl. apply elem_of_app. right. apply list_elem_of_here.
Qed.

Lemma bandwidth_class_built p m : bandwidth_class (build_format_metadata p) m = classify m.
Proof.
  unfold bandwidth_class, build_format_metadata. cbn -[std_sort lower_bound unique].
  match goal with |- context [lower_bound ?b ?l] => destruct (lower_bound b l) as [|e l'] eqn:El end;
    [done|].
  case_goal; [|done]. bool_simpl.
  apply lower_bound_subset, (elem_of_unique_key fst) in El.
  rewrite std_sort_perm in El.
  apply list_elem_of_fmap in El as (fm & -> & _). simpl in *. congruence.
Qed.

(** What enumeration keeps about [format_table]: it is indexed, and
    [has_format_modifiers] says whether a blob filled it. *)
Definition formats_ok (p : PlaneCapabilities) : Prop :=
  table_ok (format_table p) /\
  has_format_modifiers p = negb (bool_decide (pairs_ (format_table p) = [])).

(** The table a plane is matched against: the blob's, or LINEAR for each
    listed format. *)
Definition metadata_ok (p : PlaneCapabilities) : Prop :=
  table_ok (format_table p) /\
  (forall m, bandwidth_class p m = classify m) /\
  (has_format_modifiers p = false ->
   forall f m, supports (format_table p) f m = true <-> f ∈ formats p /\ m = DRM_FORMAT_MOD_LINEAR).

Lemma build_format_metadata_ok p : formats_ok p -> metadata_ok (build_format_metadata p).
Proof.
  intros [Ht Hm]. split_and!.
  - unfold build_format_metadata. cbn. case_goal; [apply build_index_ok | done].
  - apply bandwidth_class_built.
  - change (has_format_modifiers (build_format_metadata p)) with (has_format_modifiers p).
    change (formats (build_format_metadata p)) with (formats p).
    intros Hno f m. rewrite Hno in Hm. symmetry in Hm. bool_simpl.
    unfold build_format_metadata. cbn. rewrite (bool_decide_eq_true_2 _ Hm). simpl.
    destruct (bool_decide (formats p = [])) eqn:Hf; simpl; bool_simpl.
    + rewrite supports_iff, Hm, Hf by done. split; [intros H|intros [H _]]; by apply not_elem_of_nil in H.
    + rewrite supports_iff by apply build_index_ok. unfold from_pairs.
      rewrite elem_of_build_index, <- list_fmap_compose, list_elem_of_fmap. simpl. split.
      * intros (f' & [= -> ->] & Hin). done.
      * intros [Hin ->]. exists f. done.
Qed.
End MetadataFacts.

(** ** Enumeration is total and yields well-formed planes *)

Section EnumerateFacts.
Context `{abi : DrmAbi} `{cpp : CppStd} `{kms : Kms}.
Context (blobs_ok : forall i mem, drmModeGetPropertyBlob i = Some mem -> bytes_ok mem).

Lemma parse_in_formats_blob_ok i p :
  formats_ok p -> exists p', parse_in_formats_blob i p = Some p' /\ formats_ok p'.
Proof using blobs_ok.
  intros Hp. unfold parse_in_formats_blob. destruct (drmModeGetPropertyBlob i) as [mem|] eqn:E; [|eauto].
  destruct (from_blob_total mem (blobs_ok _ _ E)) as (t & -> & Ht).
  cbn [mbind option_bind]. eexists. split; [reflexivity|]. split; [exact Ht | reflexivity].
Qed.

(** Updates of the other fields. *)
Lemma formats_ok_proper p p' :
  format_table p' = format_table p -> has_format_modifiers p' = has_format_modifiers p ->
  formats_ok p -> formats_ok p'.
Proof. unfold formats_ok. by intros -> ->. Qed.

Lemma detect_property_ok prop val p :
  formats_ok p -> exists p', detect_property prop val p = Some p' /\ formats_ok p'.
Proof using blobs_ok.
  intros Hp. unfold detect_property. cbv zeta.
  repeat (case_goal; try exact (parse_in_formats_blob_ok _ _ Hp));
    (eexists; split; [reflexivity|];
     repeat case_goal; exact (formats_ok_proper p _ eq_refl eq_refl Hp)).
Qed.

Lemma detect_loop_ok props p :
  formats_ok p -> exists p', detect_loop props p = Some p' /\ formats_ok p'.
Proof using blobs_ok.
  revert p. induction props as [|[pid val] props IH]; intros p Hp; simpl; [eauto|].
  destruct (drmModeGetProperty pid) as [prop|]; [|auto].
  destruct (detect_property_ok prop val p Hp) as (p' & -> & Hp'). simpl. auto.
Qed.

Lemma detect_plane_capabilities_ok i p :
  formats_ok p -> exists p', detect_plane_capabilities i p = Some p' /\ formats_ok p'.
Proof using blobs_ok.
  intros Hp. unfold detect_plane_capabilities. case_goal; [by apply detect_loop_ok | eauto].
Qed.

Lemma default_formats_ok : formats_ok default_caps.
Proof.
  split; [|reflexivity]. split; [constructor|].
  split_and!; [done | constructor | |]; intros ? Hx; by apply not_elem_of_nil in Hx.
Qed.

Lemma enumerate_plane_ok plane : exists p, enumerate_plane plane = Some p /\ metadata_ok p.
Proof using blobs_ok.
  unfold enumerate_plane.
  match goal with |- context [detect_plane_capabilities ?i ?c] =>
    destruct (detect_plane_capabilities_ok i c) as (p & -> & Hp) end.
  { destruct (decide _); exact (formats_ok_proper default_caps _ eq_refl eq_refl default_formats_ok). }
  cbn [mbind option_bind]. eexists. split; [reflexivity|]. by apply build_format_metadata_ok.
Qed.

Lemma enumerate_planes_ok ids : exists ps, enumerate_planes ids = Some ps /\ Forall metadata_ok ps.
Proof using blobs_ok.
  induction ids as [|i ids (ps & Hps & Hok)]; simpl; [eauto|].
  destruct (drmModeGetPlane i) as [plane|]; [|eauto].
  destruct (enumerate_plane_ok plane) as (p & -> & Hp). rewrite Hps. simpl. eauto.
Qed.

(** C37. Whatever the device publishes, enumeration performs no read
    outside a blob and returns the kernel's error or a registry; in a
    registry every plane's table is indexed, the cached bandwidth class of
    every modifier is the one [classify] computes, and a plane without
    IN_FORMATS supports exactly its bare formats as LINEAR. *)
Theorem enumerate_well_formed :
  exists res, enumerate = Some res /\
    match res, drmModeGetPlaneResources with
    | Unexp e, Unexp e' => e = e'
    | Val r, Val _ =>
        Forall metadata_ok (planes_ r) /\ excluded_ r = [] /\ for_crtc_cache_ r = ∅
    | _, _ => False
    end.
Proof using blobs_ok.
  unfold enumerate. destruct drmModeGetPlaneResources as [ids|e]; [|by exists (Unexp e)].
  destruct (enumerate_planes_ok ids) as (ps & -> & Hps). eexists. split; [reflexivity|]. done.
Qed.
End EnumerateFacts.

(** ** The per-CRTC view *)

Section Views.
Context `{cpp : CppStd}.

Inductive registry_op :=
  | ForCrtc (crtc_index : Z)
  | SetExcluded (plane_ids : list Z)
  | SetBlendLimit (crtc_index n : Z).

Definition registry_step (r : PlaneRegistry) (o : registry_op) : PlaneRegistry :=
  match o with
  | ForCrtc c => (for_crtc r c).2
  | SetExcluded ids => set_excluded_planes r ids
  | SetBlendLimit c n => set_blend_limit r c n
  end.

(** The exclusion list last set. *)
Definition last_excluded (ops : list registry_op) : list Z :=
  foldl (fun acc o => match o with SetExcluded ids => ids | _ => acc end) [] ops.

Definition views_ok (r : PlaneRegistry) : Prop :=
  StronglySorted (fun a b => (a <? b) = true) (excluded_ r) /\
  (forall c view, for_crtc_cache_ r !! c = Some view ->
     view = fill_view c (excluded_ r) (planes_ r) 0).

Lemma is_excluded_spec excl i :
  StronglySorted (fun a b => (a <? b) = true) excl -> is_excluded excl i = true <-> i ∈ excl.
Proof.
  intros Hs. unfold is_excluded.
  pose proof (key_lt_strict_weak (fun x : Z => x)) as Hsw.
  rewrite (binary_search_spec _ _ _ (strict_sorted_not_after _ _ Hs)). split.
  - intros (p & Hp & H1 & H2). bool_simpl. by replace i with p by lia.
  - intros Hi. exists i. rewrite Z.ltb_irrefl. done.
Qed.

Lemma fill_view_deref c excl ps pre :
  StronglySorted (fun a b => (a <? b) = true) excl ->
  omap (fun i => (pre ++ ps) !! i) (fill_view c excl ps (length pre)) =
    filter (fun p => compatible_with_crtc p c = true /\ id p ∉ excl) ps.
Proof.
  intros Hs. revert pre. induction ps as [|p ps IH]; intros pre; simpl; [done|].
  specialize (IH (pre ++ [p])). rewrite <- app_assoc, length_app in IH. simpl in IH.
  rewrite Nat.add_1_r in IH. rewrite filter_cons, <- IH.
  pose proof (is_excluded_spec excl (id p) Hs) as He.
  destruct (decide (compatible_with_crtc p c = true /\ id p ∉ excl)) as [[Hc Hx]|Hn].
  - rewrite Hc. destruct (is_excluded excl (id p)); [naive_solver|]. csimpl.
    by rewrite lookup_app_r, Nat.sub_diag by done.
  - destruct (compatible_with_crtc p c), (is_excluded excl (id p)); simpl; done || naive_solver.
Qed.

Lemma is_sorted_spec l : is_sorted l = true -> StronglySorted Z.le l.
Proof.
  induction l as [|a [|b l] IH]; [constructor|repeat constructor|].
  intros Hl. change ((negb (b <? a) && is_sorted (b :: l)) = true) in Hl. bool_simpl.
  specialize (IH H0). constructor; [done|].
  apply StronglySorted_inv in IH as [_ Hb]. constructor; [lia|].
  refine (Forall_impl _ _ _ Hb _). lia.
Qed.

Lemma set_excluded_spec r ids :
  let next := unique (fun a b => a =? b) (std_sort (fun a b => a <? b) ids) in
  StronglySorted (fun a b => (a <? b) = true) next /\ (forall i, i ∈ next <-> i ∈ ids) /\
  planes_ (set_excluded_planes r ids) = planes_ r.
Proof.
  intros next. subst next. pose proof (key_lt_strict_weak (fun x : Z => x)) as Hsw. split_and!.
  - apply unique_sorted; [intros; apply Z.eqb_eq | done | |].
    + intros a b ??. bool_simpl. lia.
    + by apply std_sort_sorted.
  - intros i. rewrite elem_of_unique by (intros; apply Z.eqb_eq). by rewrite std_sort_perm.
  - unfold set_excluded_planes. repeat case_goal; done.
Qed.

Lemma registry_step_ok r o :
  views_ok r -> views_ok (registry_step r o) /\ planes_ (registry_step r o) = planes_ r.
Proof.
  intros [Hs Hc]. destruct o as [c|ids|c n]; simpl.
  - unfold for_crtc. destruct (for_crtc_cache_ r !! c) as [v|] eqn:E; simpl; [done|].
    split; [|done]. split; [done|]. simpl. intros c' view.
    rewrite lookup_insert_Some. intros [[-> <-]|[_ Hv]]; [done | by apply Hc].
  - destruct (set_excluded_spec r ids) as (Hn & _ & Hp). split; [|done].
    unfold set_excluded_planes. destruct (is_sorted ids && _); [done|]. cbv zeta.
    destruct (bool_decide _); [done|]. split; [done|]. simpl. intros c view. rewrite map_lookup_imap.
    destruct (for_crtc_cache_ r !! c) eqn:E; simpl; [|done]. by intros [= <-].
  - done.
Qed.

Lemma registry_step_excluded r o (ids : list Z) :
  (forall i, i ∈ excluded_ r <-> i ∈ ids) ->
  forall i, i ∈ excluded_ (registry_step r o) <->
    i ∈ match o with SetExcluded ids' => ids' | _ => ids end.
Proof.
  intros Hids. destruct o as [c|ids'|c n]; simpl; [| |done].
  - unfold for_crtc. by case_goal.
  - intros i. destruct (set_excluded_spec r ids') as (_ & Hn & _).
    unfold set_excluded_planes. repeat case_goal; bool_simpl.
    + by subst.
    + by rewrite <- E0, Hn.
    + apply Hn.
Qed.

(** However lookups, exclusion changes and limit changes are
    interleaved, the view [for_crtc] hands out (cached or fresh) is the list
    of the registry's planes that reach the CRTC and are not in the exclusion
    list set last, in registry order. *)
Theorem for_crtc_view `{abi : DrmAbi} (caps : list PlaneCapabilities) (ops : list registry_op) (c : Z) :
  let r := foldl registry_step (from_capabilities caps) ops in
  let '(view, r') := for_crtc r c in
  deref r' view =
    filter (fun p => compatible_with_crtc p c = true /\ id p ∉ last_excluded ops)
      (build_format_metadata <$> caps).
Proof.
  intros r.
  assert (Hr : views_ok r /\ planes_ r = build_format_metadata <$> caps /\
               forall i, i ∈ excluded_ r <-> i ∈ last_excluded ops).
  { subst r. unfold last_excluded. induction ops as [|o ops IH] using rev_ind.
    - split_and!; [split; [constructor|done] | done | done].
    - rewrite !foldl_snoc. destruct IH as (Hok & Hp & Hex).
      destruct (registry_step_ok _ o Hok) as [Hok' Hp'].
      split_and!; [done | congruence |]. by apply registry_step_excluded. }
  clearbody r. destruct Hr as ((Hs & Hc) & Hp & Hex).
  assert (Hview : forall view r', for_crtc r c = (view, r') ->
    view = fill_view c (excluded_ r) (planes_ r) 0 /\ planes_ r' = planes_ r).
  { unfold for_crtc. intros view r'. destruct (for_crtc_cache_ r !! c) eqn:E; intros [= <- <-].
    - split; [by apply Hc | done].
    - done. }
  destruct (for_crtc r c) as [view r'] eqn:E. destruct (Hview _ _ eq_refl) as [-> Hr'].
  unfold deref. rewrite Hr', <- Hp.
  etransitivity; [exact (fill_view_deref c (excluded_ r) (planes_ r) [] Hs)|].
  apply filter_ext_elem. intros p _. by rewrite Hex.
Qed.
End Views.

(** A device with one overlay plane that publishes an IN_FORMATS blob. *)
Definition sample_kms : Kms := {|
  drmModeGetPlaneResources := Val [40];
  cap_cursor_width := Some 64; cap_cursor_height := Some 64;
  drmModeGetPlane := fun i => if i =? 40 then Some (mkPlane 40 1 [XR24]) else None;
  drmModeObjectGetProperties := fun i _ => if i =? 40 then Some [(7, 99)] else None;
  drmModeGetProperty := fun i => if i =? 7 then Some (mkProperty 7 "IN_FORMATS" 0 [] []) else None;
  drmModeGetPropertyBlob := fun i => if i =? 99 then Some sample_blob else None;
  drmModeGetResources := Some [3] |}.

Lemma sample_kms_blobs i mem : @drmModeGetPropertyBlob sample_kms i = Some mem -> bytes_ok mem.
Proof. simpl. destruct (i =? 99); [|done]. intros [= <-]. apply sample_blob_bytes. Qed.

Lemma enumerate_well_formed_witness :
  exists res, @enumerate linux_abi libstdcxx sample_kms = Some res /\ has_value res = true.
Proof.
  destruct (@enumerate_well_formed linux_abi libstdcxx sample_kms sample_kms_blobs) as (res & Hr & Hok).
  exists res. split; [exact Hr|]. destruct res; [reflexivity | destruct Hok].
Defined.

Example sample_scans_out :
  (fun res => match res with
              | Some (Val r) => (fun p => @scans_out linux_abi p XR24 0) <$> planes_ r
              | _ => []
              end) (@enumerate linux_abi libstdcxx sample_kms) = [true].
Proof. vm_compute. reflexivity. Qed.
