(* ===== verification/Layer.v ===== *)
(** Layers: [src/planes/layer.hpp] and [src/planes/layer.cpp].

    A [Layer] is a property bag (a value array and a presence bitset) with a
    dirty flag and a lazily cached hash of its placement properties.  The
    allocator uses the hash to tell a new buffer from a moved layer. *)
From S2P Require Import Prelude.

Inductive ContentType := Generic | Video | UI | Cursor.
#[global] Instance ContentType_eq_dec : EqDecision ContentType.
Proof. solve_decision. Defined.

Record Rect := mkRect { rx : Z; ry : Z; rw : Z; rh : Z }.
#[global] Instance Rect_eq_dec : EqDecision Rect.
Proof. solve_decision. Defined.

(** ** Property tags *)

Inductive PropTag :=
  | FbId | FbModifier | CrtcId | CrtcX | CrtcY | CrtcW | CrtcH | SrcX | SrcY | SrcW | SrcH
  | Rotation | Alpha | Zpos | PixelFormat | InFenceFd.
#[global] Instance PropTag_eq_dec : EqDecision PropTag.
Proof. solve_decision. Defined.

(** [static_cast<size_t>(tag)] *)
Definition idx_of (t : PropTag) : nat :=
  match t with
  | FbId => 0 | FbModifier => 1 | CrtcId => 2 | CrtcX => 3 | CrtcY => 4 | CrtcW => 5 | CrtcH => 6
  | SrcX => 7 | SrcY => 8 | SrcW => 9 | SrcH => 10 | Rotation => 11 | Alpha => 12 | Zpos => 13
  | PixelFormat => 14 | InFenceFd => 15
  end.

Definition k_num_props : nat := 16.

(** The tags in enum order: [static_cast<PropTag>(i)] is entry [i]. *)
Definition all_tags : list PropTag :=
  [FbId; FbModifier; CrtcId; CrtcX; CrtcY; CrtcW; CrtcH; SrcX; SrcY; SrcW; SrcH;
   Rotation; Alpha; Zpos; PixelFormat; InFenceFd].

Inductive PropClass := Content | Placement.
#[global] Instance PropClass_eq_dec : EqDecision PropClass.
Proof. solve_decision. Defined.

Definition prop_class (tag : PropTag) : PropClass :=
  match tag with
  | FbId | InFenceFd => Content
  | FbModifier | CrtcId | CrtcX | CrtcY | CrtcW | CrtcH | SrcX | SrcY | SrcW | SrcH
  | Rotation | Alpha | Zpos | PixelFormat => Placement
  end.

Definition k_prop_names : list string :=
  ["FB_ID"; "FB_MODIFIER"; "CRTC_ID"; "CRTC_X"; "CRTC_Y"; "CRTC_W";
   "CRTC_H"; "SRC_X"; "SRC_Y"; "SRC_W"; "SRC_H"; "rotation";
   "alpha"; "zpos"; "pixel_format"; "IN_FENCE_FD"].

Definition prop_name (tag : PropTag) : string := default EmptyString (k_prop_names !! idx_of tag).

Definition parse_prop_tag (name : string) : option PropTag :=
  '(i, _) ← list_find (fun n => n = name) k_prop_names; all_tags !! i.

(** ** The layer *)

Record PropertySnapshot := mkSnapshot { snap_values : list Z; snap_mask : list bool }.
#[global] Instance PropertySnapshot_eq_dec : EqDecision PropertySnapshot.
Proof. solve_decision. Defined.

Record Layer := mkLayer {
  values_ : list Z;
  set_mask_ : list bool;
  cached_hash_ : option Z;
  force_composited_ : bool;
  transient_composited_ : bool;
  needs_composition_ : bool;
  dirty_ : bool;
  is_composition_layer_ : bool;
  externally_bound_ : bool;
  pinned_ : bool;
  assigned_plane_ : option Z;
  content_type_ : ContentType;
  update_hz_ : Z;
  app_priority_ : Z
}.

Definition new_layer : Layer :=
  mkLayer (replicate k_num_props 0) (replicate k_num_props false) None false false false true false
    false false None Generic 0 0.

Definition test (l : Layer) (i : nat) : bool := default false (set_mask_ l !! i).
Definition value_at (l : Layer) (i : nat) : Z := default 0 (values_ l !! i).

Definition set_property (tag : PropTag) (v : Z) (l : Layer) : Layer :=
  let idx := idx_of tag in
  let was_set := test l idx in
  let value_changed := negb was_set || negb (value_at l idx =? v) in
  let l := l {{ values_ ::= fun a => <[idx := v]> a; set_mask_ ::= fun m => <[idx := true]> m }} in
  if value_changed then l {{ dirty_ := true; cached_hash_ := None }} else l.

Definition set_property_name (name : string) (v : Z) (l : Layer) : Layer :=
  match parse_prop_tag name with
  | None => l
  | Some tag => set_property tag v l
  end.

Definition disable (l : Layer) : Layer := set_property FbId 0 l.
Definition set_composited (l : Layer) : Layer := l {{ force_composited_ := true; dirty_ := true }}.

Definition set_transient_composited (composited : bool) (l : Layer) : Layer :=
  if negb (bool_decide (transient_composited_ l = composited))
  then l {{ transient_composited_ := composited; dirty_ := true }} else l.

Definition set_content_type (t : ContentType) (l : Layer) : Layer := l {{ content_type_ := t }}.
Definition set_update_hint (hz : Z) (l : Layer) : Layer := l {{ update_hz_ := hz }}.
Definition set_app_priority (p : Z) (l : Layer) : Layer := l {{ app_priority_ := p }}.
Definition set_externally_bound (b : bool) (l : Layer) : Layer := l {{ externally_bound_ := b }}.
Definition set_pinned (b : bool) (l : Layer) : Layer := l {{ pinned_ := b }}.
Definition set_assigned_plane (p : option Z) (l : Layer) : Layer := l {{ assigned_plane_ := p }}.
Definition set_needs_composition (b : bool) (l : Layer) : Layer := l {{ needs_composition_ := b }}.
Definition mark_clean (l : Layer) : Layer := l {{ dirty_ := false }}.

Definition property (tag : PropTag) (l : Layer) : option Z :=
  if test l (idx_of tag) then Some (value_at l (idx_of tag)) else None.

Definition property_named (name : string) (l : Layer) : option Z :=
  tag ← parse_prop_tag name; property tag l.

Definition snapshot (l : Layer) : PropertySnapshot := mkSnapshot (values_ l) (set_mask_ l).

Definition format (l : Layer) : option Z := (fun f => u32 f) <$> property PixelFormat l.
Definition layer_modifier (l : Layer) : Z := value_or 0 (property FbModifier l).
Definition rotation (l : Layer) : Z := value_or 0 (property Rotation l).

Definition requires_scaling (l : Layer) : bool :=
  match property SrcW l, property CrtcW l, property SrcH l, property CrtcH l with
  | Some src_w, Some crtc_w, Some src_h, Some crtc_h =>
      negb (src_w =? u64 (Z.shiftl crtc_w 16)) || negb (src_h =? u64 (Z.shiftl crtc_h 16))
  | _, _, _, _ => false
  end.

Definition width (l : Layer) : Z := u32 (value_or 0 (property CrtcW l)).
Definition height (l : Layer) : Z := u32 (value_or 0 (property CrtcH l)).

Definition crtc_rect (l : Layer) : Rect :=
  mkRect (to_i32 (value_or 0 (property CrtcX l))) (to_i32 (value_or 0 (property CrtcY l)))
    (width l) (height l).

(** ** PropertyView: an index that skips to the next set slot *)

Fixpoint advance_to_set (fuel : nat) (l : Layer) (idx : nat) : nat :=
  match fuel with
  | O => idx
  | S fuel' =>
      if (idx <? k_num_props)%nat && negb (test l idx) then advance_to_set fuel' l (S idx) else idx
  end.

Definition pv_iterator (l : Layer) (idx : nat) : nat := advance_to_set k_num_props l idx.
Definition pv_begin (l : Layer) : nat := pv_iterator l 0.
Definition pv_end (l : Layer) : nat := pv_iterator l k_num_props.
Definition pv_next (l : Layer) (idx : nat) : nat := pv_iterator l (S idx).
Definition pv_deref (l : Layer) (idx : nat) : string * Z :=
  (default EmptyString (k_prop_names !! idx), value_at l idx).
Definition pv_empty (l : Layer) : bool := forallb negb (set_mask_ l).
Definition pv_size (l : Layer) : nat := length (filter (fun b => b = true) (set_mask_ l)).

(** [for (auto [name, value] : layer.properties())] *)
Fixpoint pv_walk (fuel : nat) (l : Layer) (idx : nat) : list (string * Z) :=
  match fuel with
  | O => []
  | S fuel' => if (idx =? pv_end l)%nat then [] else pv_deref l idx :: pv_walk fuel' l (pv_next l idx)
  end.
Definition properties (l : Layer) : list (string * Z) := pv_walk (S k_num_props) l (pv_begin l).

(** ** The hash, in [uint64_t] ([size_t] is 64 bits wide) *)

Definition golden : Z := 0x9e3779b97f4a7c15.

Definition hash_combine (hh v : Z) : Z :=
  Z.lxor hh (u64 (v + golden + u64 (Z.shiftl hh 6) + Z.shiftr hh 2)).

Definition hash_step `{CppStd} (l : Layer) (hh : Z) (i : nat) (tag : PropTag) : Z :=
  if negb (test l i) then hh
  else if decide (prop_class tag = Content) then hh
  else hash_combine (hash_combine hh (std_hash (Z.of_nat i))) (std_hash (value_at l i)).

Fixpoint hash_loop `{CppStd} (l : Layer) (hh : Z) (i : nat) (tags : list PropTag) : Z :=
  match tags with
  | [] => hh
  | tag :: tags' => hash_loop l (hash_step l hh i tag) (S i) tags'
  end.

Definition compute_hash `{CppStd} (l : Layer) : Z := hash_loop l golden 0 all_tags.

(** [property_hash] is const but writes the mutable cache. *)
Definition property_hash `{CppStd} (l : Layer) : Z * Layer :=
  match cached_hash_ l with
  | Some hh => (hh, l)
  | None => let hh := compute_hash l in (hh, l {{ cached_hash_ := Some hh }})
  end.

(** ** Names *)

Lemma all_tags_lookup t : all_tags !! idx_of t = Some t.
Proof. by destruct t. Qed.

Lemma idx_of_bound t : (idx_of t < k_num_props)%nat.
Proof. destruct t; simpl; unfold k_num_props; lia. Qed.

Lemma idx_of_inj t t' : idx_of t = idx_of t' -> t = t'.
Proof. intros H. pose proof (all_tags_lookup t). pose proof (all_tags_lookup t'). congruence. Qed.

Lemma all_tags_index i t : all_tags !! i = Some t -> i = idx_of t.
Proof. do 16 (destruct i as [|i]; [by intros [= <-]|]). done. Qed.

(** Every tag is found by its KMS name, and only by it. *)
Theorem parse_prop_tag_name (t : PropTag) (name : string) :
  parse_prop_tag name = Some t <-> name = prop_name t.
Proof.
  split; [|intros ->; by destruct t].
  unfold parse_prop_tag. intros Hp.
  destruct (list_find _ _) as [[i n]|] eqn:Hf; [|done]. simpl in Hp.
  apply list_find_Some in Hf as (Hn & -> & _).
  apply all_tags_index in Hp as ->. unfold prop_name. by rewrite Hn.
Qed.

(** ** Well-formed layers: the arrays have their C++ size *)

Definition layer_wf (l : Layer) : Prop :=
  length (values_ l) = k_num_props /\ length (set_mask_ l) = k_num_props.

Lemma new_layer_wf : layer_wf new_layer.
Proof. done. Qed.

Lemma set_property_arrays t v l :
  values_ (set_property t v l) = <[idx_of t := v]> (values_ l) /\
  set_mask_ (set_property t v l) = <[idx_of t := true]> (set_mask_ l).
Proof. unfold set_property. cbv zeta. by destruct (_ || _). Qed.

Lemma set_property_wf t v l : layer_wf l -> layer_wf (set_property t v l).
Proof.
  intros [Hv Hm]. unfold layer_wf. destruct (set_property_arrays t v l) as [-> ->].
  by rewrite !length_insert.
Qed.

Lemma set_property_slots t v l i :
  layer_wf l ->
  (i = idx_of t -> test (set_property t v l) i = true /\ value_at (set_property t v l) i = v) /\
  (i <> idx_of t -> test (set_property t v l) i = test l i /\
                    value_at (set_property t v l) i = value_at l i).
Proof.
  intros [Hv Hm]. unfold test, value_at. destruct (set_property_arrays t v l) as [-> ->].
  split; intros Hi.
  - subst. rewrite !list_lookup_insert_eq by (rewrite ?Hv, ?Hm; apply idx_of_bound). done.
  - by rewrite !list_lookup_insert_ne by done.
Qed.

Lemma property_set_property t t' v l :
  layer_wf l ->
  property t' (set_property t v l) = if decide (t' = t) then Some v else property t' l.
Proof.
  intros Hwf. unfold property.
  destruct (set_property_slots t v l (idx_of t') Hwf) as [He Hn].
  case_decide as Ht.
  - subst. destruct (He eq_refl) as [-> ->]. done.
  - destruct Hn as [-> ->]; [|done]. intros Heq. by apply Ht, idx_of_inj.
Qed.

(** Setting a property makes exactly that property read back the value,
    under the tag and under the name, leaves every other property alone,
    marks the layer dirty exactly when the stored state changed (or it already
    was), and an unknown name is dropped. *)
Theorem set_property_spec (t t' : PropTag) (v : Z) (name : string) (l : Layer) :
  layer_wf l ->
  property t' (set_property t v l) = (if decide (t' = t) then Some v else property t' l) /\
  property_named (prop_name t) (set_property_name (prop_name t) v l) = Some v /\
  (dirty_ (set_property t v l) = true <-> dirty_ l = true \/ property t l <> Some v) /\
  ((forall tag, name <> prop_name tag) -> set_property_name name v l = l) /\
  layer_wf (set_property t v l).
Proof.
  intros Hwf. split_and!.
  - by apply property_set_property.
  - unfold property_named, set_property_name.
    assert (parse_prop_tag (prop_name t) = Some t) as -> by by destruct t.
    simpl. by rewrite property_set_property, decide_True.
  - unfold set_property, property. cbv zeta.
    destruct (test l (idx_of t)); simpl; [|naive_solver].
    destruct (Z.eqb_spec (value_at l (idx_of t)) v) as [->|Hne]; simpl; naive_solver.
  - intros Hname. unfold set_property_name, parse_prop_tag.
    destruct (list_find _ _) as [[i n]|] eqn:Hf; [|done]. simpl.
    apply list_find_Some in Hf as (Hn & -> & _).
    destruct (all_tags !! i) as [tag|] eqn:Ht; [|done].
    destruct (Hname tag). apply all_tags_index in Ht as ->. unfold prop_name. by rewrite Hn.
  - by apply set_property_wf.
Qed.

Lemma set_property_spec_witness :
  layer_wf new_layer /\
  property Zpos (set_property Zpos 5 new_layer) = Some 5 /\
  property Alpha (set_property Zpos 5 new_layer) = None.
Proof.
  split; [done|]. split.
  - apply (proj1 (set_property_spec Zpos Zpos 5 "" new_layer new_layer_wf)).
  - apply (proj1 (set_property_spec Zpos Alpha 5 "" new_layer new_layer_wf)).
Defined.

(** ** Iteration *)

(** The next set slot at or after [i]. *)
Lemma advance_to_set_spec fuel l i :
  (k_num_props - i <= fuel)%nat -> (i <= k_num_props)%nat ->
  let j := advance_to_set fuel l i in
  (i <= j <= k_num_props)%nat /\ (forall k, (i <= k < j)%nat -> test l k = false) /\
  ((j < k_num_props)%nat -> test l j = true).
Proof.
  revert i. induction fuel as [|fuel IH]; intros i Hf Hi; cbn [advance_to_set].
  { split_and!; [lia | lia | lia | lia]. }
  destruct ((i <? k_num_props)%nat && negb (test l i)) eqn:E.
  - apply andb_true_iff in E as [Hlt Ht]. apply Nat.ltb_lt in Hlt. bool_simpl.
    destruct (IH (S i) ltac:(lia) ltac:(lia)) as (Hj & Hk & Hset).
    split_and!; [lia | lia | | done]. intros k Hik.
    destruct (decide (k = i)) as [->|]; [done|]. apply Hk. lia.
  - split_and!; [lia | lia | lia |]. intros Hlt. apply andb_false_iff in E as [E|E]; bool_simpl; [|done].
    apply Nat.ltb_ge in E. lia.
Qed.

(** The set slots from [i] on, in order. *)
Definition slots_from (l : Layer) (i : nat) : list (string * Z) :=
  pv_deref l <$> filter (fun k => test l k = true) (seq i (k_num_props - i)).

Lemma slots_skip l i j :
  (i <= j <= k_num_props)%nat -> (forall k, (i <= k < j)%nat -> test l k = false) ->
  slots_from l i = slots_from l j.
Proof.
  intros Hij Hno. unfold slots_from.
  replace (k_num_props - i)%nat with ((j - i) + (k_num_props - j))%nat by lia.
  rewrite seq_app, filter_app. replace (i + (j - i))%nat with j by lia.
  rewrite (filter_none _ (seq i (j - i))); [done|].
  intros k Hk. apply elem_of_seq in Hk. rewrite Hno by lia. done.
Qed.

Lemma pv_walk_spec fuel l i :
  (k_num_props - i < fuel)%nat -> (i <= k_num_props)%nat ->
  pv_walk fuel l (pv_iterator l i) = slots_from l i.
Proof.
  revert i. induction fuel as [|fuel IH]; intros i Hf Hi; [lia|]. cbn [pv_walk].
  change (pv_end l) with k_num_props. unfold pv_iterator.
  destruct (advance_to_set_spec k_num_props l i ltac:(lia) Hi) as (Hj & Hk & Hset).
  set (j := advance_to_set k_num_props l i) in *.
  rewrite (slots_skip l i j Hj Hk).
  destruct (Nat.eqb_spec j k_num_props) as [->|Hne].
  { unfold slots_from. by rewrite Nat.sub_diag. }
  unfold pv_next. rewrite IH by lia. unfold slots_from.
  replace (k_num_props - j)%nat with (S (k_num_props - S j)) by lia.
  cbn [seq]. rewrite filter_cons_True by (apply Hset; lia). done.
Qed.

(** Iterating a layer's [properties()] ends, and yields the name
    and value of every set property, each once, in tag order. *)
Theorem properties_yields_set (l : Layer) :
  properties l = omap (fun t => pair (prop_name t) <$> property t l) all_tags.
Proof.
  unfold properties, pv_begin. rewrite pv_walk_spec by (unfold k_num_props; lia).
  unfold slots_from.
  assert (Hseq : seq 0 (k_num_props - 0) = idx_of <$> all_tags) by reflexivity.
  rewrite Hseq. clear Hseq. induction all_tags as [|t ts IH]; [done|].
  csimpl. rewrite filter_cons. unfold property at 1.
  destruct (test l (idx_of t)) eqn:Ht.
  - rewrite decide_True by done. csimpl. f_equal. exact IH.
  - rewrite decide_False by done. exact IH.
Qed.

(** ** The hash *)

Section Hash.
Context `{cpp : CppStd}.

(** Every way the public interface changes or reads a layer. *)
Inductive layer_op :=
  | SetProperty (t : PropTag) (v : Z)
  | SetPropertyName (name : string) (v : Z)
  | Disable
  | SetComposited
  | SetTransientComposited (b : bool)
  | SetContentType (c : ContentType)
  | SetUpdateHint (hz : Z)
  | SetAppPriority (p : Z)
  | SetExternallyBound (b : bool)
  | SetPinned (b : bool)
  | SetAssignedPlane (p : option Z)
  | SetNeedsComposition (b : bool)
  | MarkClean
  | PropertyHash.

Definition layer_step (l : Layer) (o : layer_op) : Layer :=
  match o with
  | SetProperty t v => set_property t v l
  | SetPropertyName n v => set_property_name n v l
  | Disable => disable l
  | SetComposited => set_composited l
  | SetTransientComposited b => set_transient_composited b l
  | SetContentType c => set_content_type c l
  | SetUpdateHint hz => set_update_hint hz l
  | SetAppPriority p => set_app_priority p l
  | SetExternallyBound b => set_externally_bound b l
  | SetPinned b => set_pinned b l
  | SetAssignedPlane p => set_assigned_plane p l
  | SetNeedsComposition b => set_needs_composition b l
  | MarkClean => mark_clean l
  | PropertyHash => (property_hash l).2
  end.

Definition layer_run (ops : list layer_op) : Layer := foldl layer_step new_layer ops.

Lemma hash_step_arrays l l' hh i t :
  test l i = test l' i -> value_at l i = value_at l' i -> hash_step l hh i t = hash_step l' hh i t.
Proof. intros Ht Hv. unfold hash_step. by rewrite Ht, Hv. Qed.

Lemma compute_hash_arrays l l' :
  values_ l = values_ l' -> set_mask_ l = set_mask_ l' -> compute_hash l = compute_hash l'.
Proof.
  intros Hv Hm. unfold compute_hash. generalize golden, 0%nat. induction all_tags as [|t ts IH]; [done|].
  intros hh i. simpl. rewrite IH. f_equal. apply hash_step_arrays; unfold test, value_at; by rewrite ?Hv, ?Hm.
Qed.

(** The cache, when filled, holds the hash of the arrays. *)
Definition hash_ok (l : Layer) : Prop :=
  layer_wf l /\ forall hh, cached_hash_ l = Some hh -> hh = compute_hash l.

Lemma hash_ok_set_property t v l : hash_ok l -> hash_ok (set_property t v l).
Proof.
  intros [Hwf Hc]. split; [by apply set_property_wf|]. destruct Hwf as [Hv Hm].
  pose proof (idx_of_bound t) as Hb. unfold set_property. cbv zeta.
  destruct (negb _ || negb _) eqn:E; [done|]. cbn. intros hh Hh. rewrite (Hc hh Hh).
  apply orb_false_iff in E as [Et Ev]. bool_simpl. unfold test, value_at in *.
  apply compute_hash_arrays; cbn; symmetry; apply list_insert_id.
  - destruct (lookup_lt_is_Some_2 (values_ l) (idx_of t) ltac:(lia)) as [u Hu].
    rewrite Hu in *. simpl in Ev. by subst.
  - destruct (lookup_lt_is_Some_2 (set_mask_ l) (idx_of t) ltac:(lia)) as [u Hu].
    rewrite Hu in *. simpl in Et. by subst.
Qed.

Lemma hash_ok_same l l' :
  values_ l' = values_ l -> set_mask_ l' = set_mask_ l -> cached_hash_ l' = cached_hash_ l ->
  hash_ok l -> hash_ok l'.
Proof.
  unfold hash_ok, layer_wf. intros Hv Hm Hc [Hwf Hh]. rewrite Hv, Hm, Hc. split; [done|].
  intros hh Hhh. rewrite (Hh hh Hhh). by apply compute_hash_arrays.
Qed.

Lemma hash_ok_step l o : hash_ok l -> hash_ok (layer_step l o).
Proof.
  intros Hl. destruct o; simpl;
    lazymatch goal with
    | |- hash_ok (set_property _ _ _) => by apply hash_ok_set_property
    | |- hash_ok (disable _) => by apply hash_ok_set_property
    | |- hash_ok (set_property_name _ _ _) => idtac
    | |- hash_ok (set_transient_composited _ _) => idtac
    | |- hash_ok (snd _) => idtac
    | |- hash_ok ?l' => exact (hash_ok_same l l' eq_refl eq_refl eq_refl Hl)
    end.
  - unfold set_property_name. case_goal; [by apply hash_ok_set_property | done].
  - unfold set_transient_composited. destruct (negb _); [|done].
    match goal with |- hash_ok ?l' => exact (hash_ok_same l l' eq_refl eq_refl eq_refl Hl) end.
  - unfold property_hash. destruct (cached_hash_ l) eqn:E; [exact Hl|]. cbn [snd].
    destruct Hl as [Hwf Hh]. split; [exact Hwf|]. intros hh Hhh.
    assert (hh = compute_hash l) as -> by (by apply (inj Some)). by apply compute_hash_arrays.
Qed.

Lemma layer_run_ok ops : hash_ok (layer_run ops).
Proof.
  unfold layer_run. assert (H0 : hash_ok new_layer) by done. revert H0.
  generalize new_layer. induction ops as [|o ops IH]; intros l Hl; simpl; [done|].
  by apply IH, hash_ok_step.
Qed.

Lemma compute_hash_placement l l' :
  (forall t, prop_class t = Placement -> property t l = property t l') ->
  compute_hash l = compute_hash l'.
Proof.
  intros Hp. unfold compute_hash.
  assert (Hstep : forall ts i hh, (forall k t, ts !! k = Some t -> (i + k)%nat = idx_of t) ->
    hash_loop l hh i ts = hash_loop l' hh i ts).
  { induction ts as [|t ts IH]; intros i hh Hi; [done|]. cbn [hash_loop].
    rewrite IH by (intros k t' Hk; rewrite <- (Hi (S k) t' Hk); lia). f_equal.
    pose proof (Hi 0%nat t eq_refl) as Hit. rewrite Nat.add_0_r in Hit. subst i.
    unfold hash_step. destruct (decide (prop_class t = Content)) as [Hc|Hc].
    { by destruct (test l _), (test l' _). }
    assert (Hpl : prop_class t = Placement) by (by destruct (prop_class t)).
    specialize (Hp t Hpl). unfold property in Hp.
    destruct (test l _), (test l' _); simplify_eq/=; congruence. }
  apply Hstep. intros k t Hk. simpl. by apply all_tags_index in Hk.
Qed.

(** C38. The hash a layer reports, cached or not, is a function of its
    placement properties alone: after any two histories of calls (hash reads
    included) that leave the placement properties equal, [property_hash]
    agrees, whatever happened to the framebuffer and the fence, in whatever
    order properties were set, and in spite of the mutable cache. *)
Theorem property_hash_isolates_placement (ops ops' : list layer_op) :
  (forall t, prop_class t = Placement ->
     property t (layer_run ops) = property t (layer_run ops')) ->
  (property_hash (layer_run ops)).1 = (property_hash (layer_run ops')).1.
Proof.
  intros Hp.
  assert (Hval : forall o, (property_hash (layer_run o)).1 = compute_hash (layer_run o)).
  { intros o. destruct (layer_run_ok o) as [_ Hh]. unfold property_hash.
    destruct (cached_hash_ (layer_run o)) as [c|]; simpl; [by apply Hh | done]. }
  rewrite !Hval. by apply compute_hash_placement.
Qed.

(** *** When the hash must move *)

Lemma hash_combine_inj hh v v' :
  in_u 64 v -> in_u 64 v' -> hash_combine hh v = hash_combine hh v' -> v = v'.
Proof.
  unfold hash_combine. intros Hv Hv' Heq.
  apply (f_equal (Z.lxor hh)) in Heq. rewrite <- !Z.lxor_assoc, !Z.lxor_nilpotent, !Z.lxor_0_l in Heq.
  set (c := golden + u64 (Z.shiftl hh 6) + Z.shiftr hh 2) in Heq.
  replace (v + golden + u64 (Z.shiftl hh 6) + Z.shiftr hh 2) with (v + c) in Heq by (subst c; lia).
  replace (v' + golden + u64 (Z.shiftl hh 6) + Z.shiftr hh 2) with (v' + c) in Heq by (subst c; lia).
  unfold wrap, in_u in *.
  pose proof (Z.mod_pos_bound (v + c) (2 ^ 64) ltac:(lia)).
  pose proof (Z.div_mod (v + c) (2 ^ 64) ltac:(lia)).
  pose proof (Z.div_mod (v' + c) (2 ^ 64) ltac:(lia)). nia.
Qed.

Lemma hash_loop_skip l hh i ts :
  (forall k t, ts !! k = Some t -> test l (i + k) = false \/ prop_class t = Content) ->
  hash_loop l hh i ts = hh.
Proof.
  revert hh i. induction ts as [|t ts IH]; intros hh i Hskip; [done|]. cbn [hash_loop].
  rewrite IH.
  - pose proof (Hskip 0%nat t eq_refl) as Hs. rewrite Nat.add_0_r in Hs. unfold hash_step.
    destruct Hs as [-> | Hc]; [done|]. rewrite (decide_True _ _ Hc). by destruct (negb _).
  - intros k t' Hk. replace (S i + k)%nat with (i + S k)%nat by lia. by apply Hskip.
Qed.

Lemma hash_loop_app l hh i ts ts' :
  hash_loop l hh i (ts ++ ts') = hash_loop l (hash_loop l hh i ts) (i + length ts) ts'.
Proof.
  revert hh i. induction ts as [|t ts IH]; intros hh i; simpl; [by rewrite Nat.add_0_r|].
  rewrite IH. f_equal. lia.
Qed.

Lemma hash_loop_ext l l' hh i ts :
  (forall k, (k < length ts)%nat -> test l (i + k) = test l' (i + k) /\
                                   value_at l (i + k) = value_at l' (i + k)) ->
  hash_loop l hh i ts = hash_loop l' hh i ts.
Proof.
  revert hh i. induction ts as [|t ts IH]; intros hh i He; [done|]. cbn [hash_loop].
  destruct (He 0%nat ltac:(simpl; lia)) as [Ht Hv]. rewrite Nat.add_0_r in *.
  rewrite (hash_step_arrays l l') by done. apply IH. intros k Hk.
  replace (S i + k)%nat with (i + S k)%nat by lia. apply He. simpl. lia.
Qed.

(** The hash splits at a placement tag that is the last one set. *)
Lemma compute_hash_last l t :
  prop_class t = Placement -> test l (idx_of t) = true ->
  (forall t', (idx_of t < idx_of t')%nat -> prop_class t' = Placement -> test l (idx_of t') = false) ->
  compute_hash l =
    hash_combine (hash_combine (hash_loop l golden 0 (take (idx_of t) all_tags))
                    (std_hash (Z.of_nat (idx_of t)))) (std_hash (value_at l (idx_of t))).
Proof.
  intros Hc Ht Hlater. unfold compute_hash.
  rewrite <- (take_drop_middle all_tags (idx_of t) t (all_tags_lookup t)) at 1.
  rewrite hash_loop_app. cbn [hash_loop].
  rewrite length_take_le by (change (length all_tags) with k_num_props; pose proof (idx_of_bound t); lia).
  rewrite Nat.add_0_l. rewrite hash_loop_skip.
  - unfold hash_step. rewrite Ht. simpl. rewrite decide_False by congruence. done.
  - intros k t' Hk. rewrite lookup_drop in Hk. pose proof (all_tags_index _ _ Hk) as Hi.
    destruct (prop_class t') eqn:Hc'; [by right|]. left.
    replace (S (idx_of t) + k)%nat with (idx_of t') by lia. apply Hlater; [lia | done].
Qed.

(** With a hash that separates 64-bit values (libstdc++'s
    is the identity), writing a different value to the last placement
    property a layer has set always moves the layer's hash. *)
Theorem property_hash_moves (l : Layer) (t : PropTag) (v : Z) :
  (forall a b, in_u 64 a -> in_u 64 b -> std_hash a = std_hash b -> a = b) ->
  layer_wf l -> prop_class t = Placement -> in_u 64 v -> in_u 64 (value_at l (idx_of t)) ->
  (exists u, property t l = Some u /\ u <> v) ->
  (forall t', (idx_of t < idx_of t')%nat -> prop_class t' = Placement -> property t' l = None) ->
  (property_hash (set_property t v l)).1 <> compute_hash l.
Proof.
  intros Hinj Hwf Hc Hv Hu (u & Hpu & Hne) Hlater.
  unfold property in Hpu. destruct (test l (idx_of t)) eqn:Ht; simplify_eq.
  assert (Hcache : cached_hash_ (set_property t v l) = None).
  { unfold set_property. cbv zeta. rewrite Ht. simpl.
    destruct (Z.eqb_spec (value_at l (idx_of t)) v); [congruence | done]. }
  unfold property_hash. rewrite Hcache. simpl.
  assert (Hslots := fun i => set_property_slots t v l i Hwf).
  assert (Hl : forall t', (idx_of t < idx_of t')%nat -> prop_class t' = Placement ->
    test l (idx_of t') = false).
  { intros t' Hlt Hc'. specialize (Hlater t' Hlt Hc'). unfold property in Hlater.
    by destruct (test l (idx_of t')). }
  rewrite (compute_hash_last l t Hc Ht Hl).
  destruct (proj1 (Hslots (idx_of t)) eq_refl) as [Ht' Hv'].
  rewrite (compute_hash_last (set_property t v l) t Hc Ht').
  2: { intros t' Hlt Hc'. rewrite (proj1 (proj2 (Hslots (idx_of t')) ltac:(lia))). by apply Hl. }
  rewrite Hv', (hash_loop_ext (set_property t v l) l golden 0 (take (idx_of t) all_tags)).
  2: { intros k Hk. rewrite length_take in Hk. apply (Hslots (0 + k)%nat). lia. }
  intros Heq. apply hash_combine_inj in Heq; [|apply std_hash_range..].
  by apply Hinj in Heq; [congruence|..].
Qed.
End Hash.

Lemma property_hash_isolates_placement_witness :
  let '(a, b) := ([SetProperty CrtcX 7; PropertyHash; SetProperty FbId 1],
                  [SetProperty FbId 2; SetProperty CrtcX 7; SetProperty InFenceFd 3]) in
  (@property_hash libstdcxx (layer_run (cpp := libstdcxx) a)).1 =
  (@property_hash libstdcxx (layer_run (cpp := libstdcxx) b)).1.
Proof.
  apply (property_hash_isolates_placement (cpp := libstdcxx)).
  intros t Ht. destruct t; try discriminate Ht; reflexivity.
Defined.

Lemma property_hash_moves_witness :
  (@property_hash libstdcxx (set_property Zpos 2 (set_property Zpos 1 new_layer))).1 <>
  @compute_hash libstdcxx (set_property Zpos 1 new_layer).
Proof.
  apply (property_hash_moves (cpp := libstdcxx)).
  - intros a b Ha Hb. simpl. rewrite !wrap_small by done. done.
  - split; reflexivity.
  - reflexivity.
  - unfold in_u. lia.
  - vm_compute; split; congruence.
  - exists 1. split; [reflexivity | lia].
  - intros t' Hlt _. destruct t'; simpl in Hlt; try lia; reflexivity.
Defined.

(** A colour property is not a tag: setting one changes nothing, so it does
    not move the hash. *)
Lemma color_property_dropped `{CppStd} v l :
  set_property_name "COLOR_ENCODING" v l = l /\ set_property_name "COLOR_RANGE" v l = l.
Proof. split; reflexivity. Qed.
