(* ===== verification/Output.v ===== *)
(** Outputs: [src/planes/output.hpp] and [src/planes/output.cpp].

    An [Output] owns its layers ([unique_ptr]) and lists raw pointers to them;
    the composition layer is a borrowed pointer.  Layers live in a heap; a
    [Layer*] is a location, and following a dangling one is [None]. *)
From S2P Require Import Prelude Layer.

Abbreviation heap := (gmap positive Layer).

(** [p->field = ...] through a pointer. *)
Definition update_layer (f : Layer -> Layer) (p : positive) (hp : heap) : option heap :=
  l ← hp !! p; Some (<[p := f l]> hp).

Fixpoint update_layers (f : Layer -> Layer) (ps : list positive) (hp : heap) : option heap :=
  match ps with
  | [] => Some hp
  | p :: ps' => hp' ← update_layer f p hp; update_layers f ps' hp'
  end.

Record Output := mkOutput {
  crtc_id_ : Z;
  owned_layers_ : list positive;
  layer_ptrs_ : list positive;
  composition_layer_ : option positive
}.

Definition set_is_composition (b : bool) (l : Layer) : Layer := l {{ is_composition_layer_ := b }}.

(** The constructor: the caller's composition layer is marked. *)
Definition make_output (crtc_id : Z) (comp : positive) (hp : heap) : option (Output * heap) :=
  hp' ← update_layer (set_is_composition true) comp hp;
  Some (mkOutput crtc_id [] [] (Some comp), hp').

(** [make_unique<Layer>]: any location not in use. *)
Definition add_layer (o : Output) (hp : heap) : positive * Output * heap :=
  let p := fresh (dom hp) in
  (p, o {{ owned_layers_ ::= fun l => l ++ [p]; layer_ptrs_ ::= fun l => l ++ [p] }},
   <[p := new_layer]> hp).

(** Erasing the owning pointer frees the layer. *)
Definition remove_layer (p : positive) (o : Output) (hp : heap) : Output * heap :=
  (o {{ layer_ptrs_ ::= filter (fun q => q <> p); owned_layers_ ::= filter (fun q => q <> p) }},
   if bool_decide (p ∈ owned_layers_ o) then delete p hp else hp).

Definition set_composition_layer (p : positive) (o : Output) (hp : heap) : option (Output * heap) :=
  hp' ← match composition_layer_ o with
        | Some q => update_layer (set_is_composition false) q hp
        | None => Some hp
        end;
  hp'' ← update_layer (set_is_composition true) p hp';
  Some (o {{ composition_layer_ := Some p }}, hp'').

Fixpoint any_dirty (ps : list positive) (hp : heap) : option bool :=
  match ps with
  | [] => Some false
  | p :: ps' => l ← hp !! p; if dirty_ l then Some true else any_dirty ps' hp
  end.

Definition any_layer_dirty (o : Output) (hp : heap) : option bool :=
  b ← any_dirty (layer_ptrs_ o) hp;
  if b : bool then Some true
  else match composition_layer_ o with
       | Some p => l ← hp !! p; Some (dirty_ l)
       | None => Some false
       end.

Fixpoint dirty_layers (ps : list positive) (hp : heap) : option (list positive) :=
  match ps with
  | [] => Some []
  | p :: ps' =>
      l ← hp !! p; rest ← dirty_layers ps' hp; Some (if dirty_ l then p :: rest else rest)
  end.

Definition changed_layers (o : Output) (hp : heap) : option (list positive) :=
  dirty_layers (layer_ptrs_ o) hp.

Definition output_mark_clean (o : Output) (hp : heap) : option heap :=
  hp' ← update_layers mark_clean (layer_ptrs_ o) hp;
  match composition_layer_ o with
  | Some p => update_layer mark_clean p hp'
  | None => Some hp'
  end.

Definition zpos_key (hp : heap) (p : positive) : Z :=
  match hp !! p with
  | Some l => value_or 0 (property_named "zpos" l)
  | None => 0
  end.

Definition sort_layers_by_zpos `{CppStd} (o : Output) (hp : heap) : Output :=
  o {{ layer_ptrs_ ::= std_sort (fun a b => zpos_key hp a <? zpos_key hp b) }}.

(** ** Well-formed outputs: the listed layers are the owned ones, alive, and
    the composition layer is alive and not one of them *)

Definition output_ok (o : Output) (hp : heap) : Prop :=
  NoDup (owned_layers_ o) /\ layer_ptrs_ o ≡ₚ owned_layers_ o /\
  (forall p, p ∈ owned_layers_ o -> is_Some (hp !! p)) /\
  (forall c, composition_layer_ o = Some c -> is_Some (hp !! c) /\ c ∉ owned_layers_ o).

Lemma update_layer_some f p hp :
  is_Some (hp !! p) -> exists l, hp !! p = Some l /\ update_layer f p hp = Some (<[p := f l]> hp).
Proof. intros [l Hl]. exists l. split; [done|]. unfold update_layer. by rewrite Hl. Qed.

Lemma update_layers_spec f ps hp :
  (forall p, p ∈ ps -> is_Some (hp !! p)) -> NoDup ps ->
  exists hp', update_layers f ps hp = Some hp' /\
    forall q, hp' !! q = if bool_decide (q ∈ ps) then f <$> hp !! q else hp !! q.
Proof.
  revert hp. induction ps as [|p ps IH]; intros hp Hin Hnd; cbn [update_layers]; [by exists hp|].
  apply NoDup_cons in Hnd as [Hp Hnd].
  destruct (update_layer_some f p hp (Hin p (list_elem_of_here _ _))) as (l & Hl & ->). simpl.
  destruct (IH (<[p := f l]> hp)) as (hp' & -> & Hq); [|done|].
  { intros q Hq. destruct (decide (q = p)) as [->|Hne].
    - rewrite lookup_insert_eq. eauto.
    - rewrite lookup_insert_ne by done. apply Hin. by apply list_elem_of_further. }
  exists hp'. split; [done|]. intros q. rewrite Hq. destruct (decide (q = p)) as [->|Hne].
  - rewrite !bool_decide_eq_false_2, bool_decide_eq_true_2 by (done || apply list_elem_of_here).
    by rewrite lookup_insert_eq, Hl.
  - rewrite lookup_insert_ne by done.
    assert (bool_decide (q ∈ p :: ps) = bool_decide (q ∈ ps)) as ->; [|done].
    apply bool_decide_ext. rewrite elem_of_cons. naive_solver.
Qed.

Lemma any_dirty_false ps hp :
  (forall p, p ∈ ps -> exists l, hp !! p = Some l /\ dirty_ l = false) -> any_dirty ps hp = Some false.
Proof.
  induction ps as [|p ps IH]; intros Hc; simpl; [done|].
  destruct (Hc p (list_elem_of_here _ _)) as (l & -> & Hd). simpl. rewrite Hd.
  apply IH. intros q Hq. apply Hc. by apply list_elem_of_further.
Qed.

Lemma any_dirty_spec ps hp :
  (forall p, p ∈ ps -> is_Some (hp !! p)) ->
  exists b, any_dirty ps hp = Some b /\
    (b = true <-> exists p l, p ∈ ps /\ hp !! p = Some l /\ dirty_ l = true).
Proof.
  induction ps as [|p ps IH]; intros Hin; simpl.
  { exists false. split; [done|]. split; [done|]. intros (p & _ & Hp & _). by apply not_elem_of_nil in Hp. }
  destruct (Hin p (list_elem_of_here _ _)) as [l Hl]. rewrite Hl. simpl.
  destruct (dirty_ l) eqn:Hd.
  { exists true. split; [done|]. split; [|done]. intros _. exists p, l. split; [apply list_elem_of_here|done]. }
  destruct IH as (b & -> & Hb).
  { intros q Hq. apply Hin. by apply list_elem_of_further. }
  exists b. split; [done|]. rewrite Hb. split.
  - intros (q & l' & Hq & ?). exists q, l'. split; [by apply list_elem_of_further | done].
  - intros (q & l' & Hq & Hl' & Hd'). apply elem_of_cons in Hq as [->|Hq]; [congruence|]. eauto.
Qed.

Lemma dirty_layers_spec ps hp :
  (forall p, p ∈ ps -> is_Some (hp !! p)) ->
  dirty_layers ps hp = Some (filter (fun p => dirty_ <$> hp !! p = Some true) ps).
Proof.
  induction ps as [|p ps IH]; intros Hin; simpl; [done|].
  destruct (Hin p (list_elem_of_here _ _)) as [l Hl].
  rewrite IH by (intros q Hq; apply Hin; by apply list_elem_of_further).
  rewrite Hl. simpl. rewrite filter_cons. destruct (dirty_ l) eqn:Hd.
  - rewrite decide_True; [done|]. by rewrite Hl, <- Hd.
  - rewrite decide_False; [done|]. rewrite Hl. simpl. congruence.
Qed.

(** The public operations. *)
Inductive output_op :=
  | AddLayer
  | RemoveLayer (p : positive)
  | SetCompositionLayer (p : positive)
  | SortByZpos
  | MarkCleanAll
  | EditLayer (p : positive) (t : PropTag) (v : Z).

Definition output_step `{CppStd} (o : Output) (hp : heap) (op : output_op) : option (Output * heap) :=
  match op with
  | AddLayer => let '(_, o', hp') := add_layer o hp in Some (o', hp')
  | RemoveLayer p => Some (remove_layer p o hp)
  | SetCompositionLayer p => set_composition_layer p o hp
  | SortByZpos => Some (sort_layers_by_zpos o hp, hp)
  | MarkCleanAll => hp' ← output_mark_clean o hp; Some (o, hp')
  | EditLayer p t v => hp' ← update_layer (set_property t v) p hp; Some (o, hp')
  end.

(** What a caller must respect: the composition layer is another live layer,
    and edits go through live layers. *)
Definition op_allowed (o : Output) (hp : heap) (op : output_op) : Prop :=
  match op with
  | SetCompositionLayer p => is_Some (hp !! p) /\ p ∉ owned_layers_ o
  | EditLayer p _ _ => is_Some (hp !! p)
  | _ => True
  end.

Lemma output_ok_update o hp f p :
  output_ok o hp -> is_Some (hp !! p) ->
  exists hp', update_layer f p hp = Some hp' /\ output_ok o hp' /\
    forall q, is_Some (hp !! q) -> is_Some (hp' !! q).
Proof.
  intros (Hnd & Hperm & Hin & Hc) Hp. destruct (update_layer_some f p hp Hp) as (l & Hl & ->).
  assert (Halive : forall q, is_Some (hp !! q) -> is_Some (<[p := f l]> hp !! q)).
  { intros q Hq. destruct (decide (q = p)) as [->|]; [rewrite lookup_insert_eq; eauto|].
    by rewrite lookup_insert_ne. }
  eexists. split; [done|]. split; [|done]. split_and!; [done | done | auto |].
  intros c Hcc. destruct (Hc c Hcc). auto.
Qed.

Lemma output_mark_clean_spec o hp :
  output_ok o hp ->
  exists hp', output_mark_clean o hp = Some hp' /\ output_ok o hp' /\
    forall q, hp' !! q = if bool_decide (q ∈ layer_ptrs_ o \/ composition_layer_ o = Some q)
                         then mark_clean <$> hp !! q else hp !! q.
Proof.
  intros Hok. pose proof Hok as (Hnd & Hperm & Hin & Hc). unfold output_mark_clean.
  destruct (update_layers_spec mark_clean (layer_ptrs_ o) hp) as (hp' & -> & Hq).
  { intros p. rewrite Hperm. apply Hin. } { by rewrite Hperm. }
  assert (Halive : forall q, is_Some (hp !! q) -> is_Some (hp' !! q)).
  { intros q [l Hl]. rewrite Hq, Hl. case_goal; simpl; eauto. }
  assert (Hok' : output_ok o hp').
  { split_and!; [done | done | auto |]. intros c Hcc. destruct (Hc c Hcc). auto. }
  cbn [mbind option_bind]. destruct (composition_layer_ o) as [c|] eqn:Ec.
  - destruct (Hc c eq_refl) as [Hcl Hcn].
    destruct (update_layer_some mark_clean c hp' (Halive c Hcl)) as (l & Hl & Hu). rewrite Hu.
    destruct (output_ok_update o hp' mark_clean c Hok' (Halive c Hcl)) as (hp'' & Hu' & Hok'' & _).
    rewrite Hu in Hu'. injection Hu' as <-. eexists. split; [done|]. split; [done|].
    assert (Hcl' : hp !! c = Some l).
    { rewrite Hq, bool_decide_eq_false_2 in Hl by (rewrite Hperm; done). done. }
    intros q. destruct (decide (q = c)) as [->|Hne].
    + rewrite lookup_insert_eq, bool_decide_eq_true_2, Hcl' by tauto. done.
    + rewrite lookup_insert_ne by done. rewrite Hq.
      erewrite bool_decide_ext; [done|]. split; [tauto|]. intros [?|[= ->]]; done.
  - exists hp'. split; [done|]. split; [done|]. intros q. rewrite Hq.
    erewrite bool_decide_ext; [done|]. split; [tauto|]. by intros [?|?].
Qed.

(** ** Reachable outputs *)

Section Reachable.
Context `{cpp : CppStd}.

Inductive reachable : Output -> heap -> Prop :=
  | reach_new crtc_id c hp o hp' :
      make_output crtc_id c hp = Some (o, hp') -> reachable o hp'
  | reach_step o hp op o' hp' :
      reachable o hp -> op_allowed o hp op -> output_step o hp op = Some (o', hp') ->
      reachable o' hp'.

Lemma make_output_ok crtc_id c hp o hp' :
  make_output crtc_id c hp = Some (o, hp') -> output_ok o hp'.
Proof.
  unfold make_output, update_layer. destruct (hp !! c) as [l|]; simpl; [|done].
  intros [= <- <-]. split_and!; simpl; [constructor | done | |].
  - intros p Hp. by apply not_elem_of_nil in Hp.
  - intros c' [= <-]. rewrite lookup_insert_eq. split; [eauto | apply not_elem_of_nil].
Qed.

Lemma add_layer_ok o hp :
  output_ok o hp -> let '(_, o', hp') := add_layer o hp in output_ok o' hp'.
Proof.
  intros (Hnd & Hperm & Hin & Hc). unfold add_layer. set (p := fresh (dom hp)).
  assert (Hp : hp !! p = None) by (apply not_elem_of_dom, is_fresh).
  assert (Halive : forall q, is_Some (hp !! q) -> q <> p) by (intros q [? ?] ->; congruence).
  assert (Hno : p ∉ owned_layers_ o) by (intros Hq; by destruct (Halive p (Hin p Hq))).
  split_and!; simpl.
  - apply NoDup_app. split_and!; [done | | apply NoDup_singleton].
    intros q Hq Hqp. apply list_elem_of_singleton in Hqp. by subst.
  - by rewrite Hperm.
  - intros q. rewrite elem_of_app, list_elem_of_singleton. intros [Hq | ->].
    + rewrite lookup_insert_ne; [by apply Hin|]. by apply not_eq_sym, Halive, Hin.
    + rewrite lookup_insert_eq. eauto.
  - intros c Hcc. destruct (Hc c Hcc) as [Hcl Hcn]. pose proof (Halive c Hcl).
    rewrite lookup_insert_ne by done. split; [done|].
    rewrite elem_of_app, list_elem_of_singleton. tauto.
Qed.

Lemma remove_layer_ok p o hp :
  output_ok o hp -> let '(o', hp') := remove_layer p o hp in output_ok o' hp'.
Proof.
  intros (Hnd & Hperm & Hin & Hc). unfold remove_layer, output_ok. simpl.
  split_and!.
  - by apply NoDup_filter.
  - by rewrite Hperm.
  - intros q [Hqp Hq]%list_elem_of_filter. case_goal; [|by apply Hin].
    rewrite lookup_delete_ne by done. by apply Hin.
  - intros c Hcc. destruct (Hc c Hcc) as [Hcl Hcn].
    rewrite list_elem_of_filter. split; [|tauto].
    case_goal; [|done]. bool_simpl. by rewrite lookup_delete_ne by (intros ->; done).
Qed.

Lemma output_step_ok o hp op :
  output_ok o hp -> op_allowed o hp op ->
  exists o' hp', output_step o hp op = Some (o', hp') /\ output_ok o' hp'.
Proof.
  intros Hok Ha. destruct op as [|p|p| | |p t v]; cbn [output_step op_allowed] in *.
  - pose proof (add_layer_ok o hp Hok). destruct (add_layer o hp) as [[? ?] ?]. eauto.
  - pose proof (remove_layer_ok p o hp Hok). destruct (remove_layer p o hp). eauto.
  - destruct Ha as [Hp Hpn]. unfold set_composition_layer.
    assert (exists hp', match composition_layer_ o with
                        | Some q => update_layer (set_is_composition false) q hp
                        | None => Some hp
                        end = Some hp' /\ output_ok o hp' /\ is_Some (hp' !! p)) as (hp' & -> & Hok' & Hp').
    { pose proof Hok as (_ & _ & _ & Hc). destruct (composition_layer_ o) as [q|]; [|eauto].
      destruct (Hc q eq_refl) as [Hq _].
      destruct (output_ok_update o hp (set_is_composition false) q Hok Hq) as (hp' & ? & ? & Ha). eauto. }
    destruct (output_ok_update o hp' (set_is_composition true) p Hok' Hp') as (hp'' & Hu & Hok'' & Ha).
    cbn [mbind option_bind]. rewrite Hu. simpl. eexists _, _. split; [done|].
    destruct Hok'' as (Hnd & Hperm & Hin & _).
    split_and!; simpl; [done..|]. intros c [= <-]. auto.
  - eexists _, _. split; [done|]. destruct Hok as (Hnd & Hperm & Hin & Hc).
    split_and!; simpl; [done | | done | done]. by rewrite std_sort_perm.
  - destruct (output_mark_clean_spec o hp Hok) as (hp' & -> & Hok' & _). simpl. eauto.
  - destruct (output_ok_update o hp (set_property t v) p Hok Ha) as (hp' & -> & Hok' & _). simpl. eauto.
Qed.

Lemma reachable_ok o hp : reachable o hp -> output_ok o hp.
Proof.
  induction 1 as [crtc_id c hp o hp' Hm | o hp op o' hp' _ IH Ha Hs]; [by eapply make_output_ok|].
  destruct (output_step_ok o hp op IH Ha) as (o'' & hp'' & Hs' & Hok). congruence.
Qed.

Lemma dirty_queries o hp :
  output_ok o hp ->
  changed_layers o hp = Some (filter (fun p => dirty_ <$> hp !! p = Some true) (layer_ptrs_ o)) /\
  exists b, any_layer_dirty o hp = Some b /\
    (b = true <-> exists p l, (p ∈ layer_ptrs_ o \/ composition_layer_ o = Some p) /\
                              hp !! p = Some l /\ dirty_ l = true).
Proof.
  intros (Hnd & Hperm & Hin & Hc).
  assert (Hin' : forall p, p ∈ layer_ptrs_ o -> is_Some (hp !! p)) by (intros p; rewrite Hperm; apply Hin).
  split; [by apply dirty_layers_spec|].
  unfold any_layer_dirty. destruct (any_dirty_spec _ _ Hin') as (b & -> & Hb). cbn [mbind option_bind].
  destruct b.
  { exists true. split; [done|]. split; [|done]. intros _.
    destruct (proj1 Hb eq_refl) as (p & l & ? & ?). eauto. }
  assert (Hno : forall p l, p ∈ layer_ptrs_ o -> hp !! p = Some l -> dirty_ l = true -> False).
  { intros p l Hp Hl Hd. discriminate (proj2 Hb). eauto. }
  destruct (composition_layer_ o) as [c|].
  - destruct (Hc c eq_refl) as [[l Hl] _]. rewrite Hl. simpl. exists (dirty_ l). split; [done|]. split.
    + intros Hd. exists c, l. tauto.
    + intros (p & l' & [Hp|[= <-]] & Hl' & Hd); [by destruct (Hno p l') | congruence].
  - exists false. split; [done|]. split; [done|].
    intros (p & l' & [Hp|?] & Hl' & Hd); [by destruct (Hno p l') | done].
Qed.

(** From construction on, as long as the caller keeps the
    composition layer alive and distinct from the output's own layers, no
    operation follows a dangling pointer: every step is defined and the dirty
    queries answer, [any_layer_dirty] being true exactly when a listed layer
    or the composition layer is dirty. *)
Theorem output_operations_safe (o : Output) (hp : heap) (op : output_op) :
  reachable o hp -> op_allowed o hp op ->
  is_Some (output_step o hp op) /\
  exists b, any_layer_dirty o hp = Some b /\
    (b = true <-> exists p l, (p ∈ layer_ptrs_ o \/ composition_layer_ o = Some p) /\
                              hp !! p = Some l /\ dirty_ l = true).
Proof.
  intros Hr Ha. apply reachable_ok in Hr as Hok.
  destruct (output_step_ok o hp op Hok Ha) as (o' & hp' & Hs & _).
  split; [eauto|]. by apply dirty_queries.
Qed.

(** After [mark_clean] nothing is dirty; then a property write to
    one of the output's layers is reported, by [any_layer_dirty] and by
    [changed_layers], exactly when it changed the stored property. *)
Theorem mark_clean_then_edit (o : Output) (hp : heap) (p : positive) (l : Layer) (t : PropTag) (v : Z) :
  reachable o hp -> p ∈ layer_ptrs_ o -> hp !! p = Some l ->
  exists hp1 hp2,
    output_mark_clean o hp = Some hp1 /\
    any_layer_dirty o hp1 = Some false /\ changed_layers o hp1 = Some [] /\
    update_layer (set_property t v) p hp1 = Some hp2 /\
    let changed := negb (bool_decide (property t l = Some v)) in
    any_layer_dirty o hp2 = Some changed /\
    changed_layers o hp2 = Some (if changed then [p] else []).
Proof.
  intros Hr Hp Hl. apply reachable_ok in Hr as Hok. pose proof Hok as (Hnd & Hperm & Hin & Hc).
  destruct (output_mark_clean_spec o hp Hok) as (hp1 & Hmc & Hok1 & Hq).
  assert (Hp1 : hp1 !! p = Some (mark_clean l)).
  { rewrite Hq, bool_decide_eq_true_2, Hl by tauto. done. }
  assert (Hclean : forall q l', q ∈ layer_ptrs_ o \/ composition_layer_ o = Some q ->
    hp1 !! q = Some l' -> dirty_ l' = false).
  { intros q l' Hqo. rewrite Hq, bool_decide_eq_true_2 by done.
    destruct (hp !! q); simpl; [|done]. by intros [= <-]. }
  set (hp2 := <[p := set_property t v (mark_clean l)]> hp1).
  assert (Hp2 : update_layer (set_property t v) p hp1 = Some hp2).
  { unfold update_layer. by rewrite Hp1. }
  destruct (output_ok_update o hp1 (set_property t v) p Hok1 ltac:(eauto)) as (hp2' & Hu & Hok2 & _).
  rewrite Hp2 in Hu. injection Hu as <-.
  exists hp1, hp2. split; [done|].
  destruct (dirty_queries o hp1 Hok1) as (Hch1 & b1 & Hany1 & Hb1).
  destruct (dirty_queries o hp2 Hok2) as (Hch2 & b2 & Hany2 & Hb2).
  rewrite Hany1, Hch1, Hany2, Hch2.
  assert (Hnone : forall q, q ∈ layer_ptrs_ o -> dirty_ <$> hp1 !! q <> Some true).
  { intros q Hqo Hd. destruct (hp1 !! q) as [l'|] eqn:E; [|done]. simpl in Hd.
    rewrite (Hclean q l') in Hd by tauto. done. }
  assert (Hd2 : dirty_ (set_property t v (mark_clean l)) = negb (bool_decide (property t l = Some v))).
  { unfold set_property, property. cbv zeta. change (test (mark_clean l)) with (test l).
    change (value_at (mark_clean l)) with (value_at l).
    destruct (test l (idx_of t)); simpl; [|done].
    destruct (Z.eqb_spec (value_at l (idx_of t)) v) as [->|Hne]; simpl.
    - by rewrite bool_decide_eq_true_2.
    - rewrite bool_decide_eq_false_2; [done | congruence]. }
  cbv zeta. split_and!; [|f_equal; by apply filter_none|done| |].
  - f_equal. destruct b1; [|done]. destruct (proj1 Hb1 eq_refl) as (q & l' & Hqo & Hl' & Hd).
    rewrite (Hclean q l') in Hd by done. done.
  - f_equal. rewrite <- Hd2. apply eq_true_iff_eq. rewrite Hb2. split.
    + intros (q & l' & Hqo & Hl' & Hd). unfold hp2 in Hl'. destruct (decide (q = p)) as [->|Hne].
      * rewrite lookup_insert_eq in Hl'. congruence.
      * rewrite lookup_insert_ne in Hl' by done. rewrite (Hclean q l') in Hd by done. done.
    + intros Hd. exists p, (set_property t v (mark_clean l)). split; [tauto|].
      unfold hp2. by rewrite lookup_insert_eq.
  - f_equal. rewrite <- Hd2. destruct (dirty_ (set_property t v (mark_clean l))) eqn:Hd.
    + apply filter_unique_elem; [by rewrite Hperm|done|]. intros q Hqo. unfold hp2.
      destruct (decide (q = p)) as [->|Hne].
      * rewrite lookup_insert_eq. simpl. rewrite Hd. tauto.
      * rewrite lookup_insert_ne by done. pose proof (Hnone q Hqo). tauto.
    + apply filter_none. intros q Hqo. unfold hp2. destruct (decide (q = p)) as [->|Hne].
      * rewrite lookup_insert_eq. simpl. congruence.
      * rewrite lookup_insert_ne by done. by apply Hnone.
Qed.
End Reachable.

Lemma sample_reachable :
  reachable (cpp := libstdcxx)
    (mkOutput 7 [2%positive] [2%positive] (Some 1%positive))
    {[1%positive := set_is_composition true new_layer; 2%positive := new_layer]}.
Proof.
  eapply (reach_step _ _ AddLayer).
  - eapply (reach_new 7 1%positive {[1%positive := new_layer]}). reflexivity.
  - exact I.
  - vm_compute. reflexivity.
Qed.

Lemma output_operations_safe_witness :
  is_Some (output_step (H := libstdcxx)
    (mkOutput 7 [2%positive] [2%positive] (Some 1%positive))
    {[1%positive := set_is_composition true new_layer; 2%positive := new_layer]} MarkCleanAll).
Proof. apply (output_operations_safe (cpp := libstdcxx) _ _ MarkCleanAll sample_reachable I). Defined.

Lemma mark_clean_then_edit_witness :
  exists hp1 hp2,
    output_mark_clean (mkOutput 7 [2%positive] [2%positive] (Some 1%positive))
      {[1%positive := set_is_composition true new_layer; 2%positive := new_layer]} = Some hp1 /\
    update_layer (set_property FbId 3) 2%positive hp1 = Some hp2 /\
    changed_layers (mkOutput 7 [2%positive] [2%positive] (Some 1%positive)) hp2 = Some [2%positive].
Proof.
  destruct (mark_clean_then_edit (cpp := libstdcxx) _ _ 2%positive new_layer FbId 3 sample_reachable)
    as (hp1 & hp2 & H1 & _ & _ & H2 & _ & H3).
  - apply list_elem_of_here.
  - reflexivity.
  - exists hp1, hp2. split; [exact H1|]. split; [exact H2 | exact H3].
Defined.

(** The header does not ask callers to keep the composition layer out of the
    owned layers.  If one is, removing it frees it, the output keeps the
    pointer, and the next dirty query reads freed memory. *)
Lemma remove_composition_layer_dangles :
  let hp := {[1%positive := new_layer]} in
  exists o1 hp1 o2 hp2 p,
    make_output 7 1%positive hp = Some (o1, hp1) /\
    (let '(p', o', hp') := add_layer o1 hp1 in p = p' /\ set_composition_layer p' o' hp' = Some (o2, hp2)) /\
    let '(o3, hp3) := remove_layer p o2 hp2 in any_layer_dirty o3 hp3 = None.
Proof.
  eexists _, _, _, _, _. split; [reflexivity|]. split.
  - vm_compute. split; reflexivity.
  - vm_compute. reflexivity.
Qed.
