(* ===== verification/ZposOrder.v ===== *)
(** The stacking-order rule: [src/planes/zpos_order.hpp].

    Which zpos a layer takes on a plane whose zpos cannot be written, when two
    placed layers stack as requested, and the dense numbering of the armed
    planes that is written to the kernel. *)
From S2P Require Import Prelude DrmAbi FormatMod PlaneRegistry.

Definition zpos_fixed (plane : PlaneCapabilities) : bool :=
  match zpos_min plane, zpos_max plane with
  | Some lo, Some hi => lo =? hi
  | _, _ => false
  end.

Definition effective_zpos (plane : PlaneCapabilities) (layer_zpos : option Z) : option Z :=
  if zpos_fixed plane then zpos_min plane else layer_zpos.

Definition stacking_consistent (pa : PlaneCapabilities) (za : option Z)
    (pb : PlaneCapabilities) (zb : option Z) : bool :=
  match za, zb with
  | Some a, Some b =>
      if a =? b then true
      else
        match effective_zpos pa za, effective_zpos pb zb with
        | Some ea, Some eb => if ea =? eb then false else Bool.eqb (a <? b) (ea <? eb)
        | _, _ => true
        end
  | _, _ => true
  end.

Record StackEntry := mkEntry {
  se_plane : option PlaneCapabilities;
  requested : option Z;
  written : option Z;
  below_ties : bool
}.

Record Rankable := mkRankable {
  r_index : nat;
  r_requested : Z;
  r_after_ties : bool;
  r_plane_id : Z;
  r_zmin : Z;
  r_zmax : Z;
  r_fixed : bool
}.

(** The ranking of one entry, when it can be numbered. *)
Definition rank_entry (i : nat) (e : StackEntry) : option Rankable :=
  match se_plane e, requested e with
  | Some p, Some req =>
      match zpos_min p, zpos_max p with
      | Some zmin, Some zmax =>
          Some (mkRankable i req (negb (below_ties e)) (id p) zmin zmax (zmin =? zmax))
      | _, _ => None
      end
  | _, _ => None
  end.

(** The first loop: reset [written], collect the rankable entries. *)
Fixpoint rank_loop (i : nat) (entries : list StackEntry) : list Rankable :=
  match entries with
  | [] => []
  | e :: entries' => option_list (rank_entry i e) ++ rank_loop (S i) entries'
  end.

Definition reset_written (e : StackEntry) : StackEntry := e {{ written := requested e }}.

(** [std::tie(requested, after_ties, plane_id) < ...] *)
Definition rank_lt (a b : Rankable) : bool :=
  if r_requested a <? r_requested b then true
  else if r_requested b <? r_requested a then false
  else if negb (r_after_ties a) && r_after_ties b then true
  else if negb (r_after_ties b) && r_after_ties a then false
  else r_plane_id a <? r_plane_id b.

(** The numbering loop; [None] is the early [return false]. *)
Fixpoint number_loop (prev : option Z) (order : list Rankable) : option (list Z) :=
  match order with
  | [] => Some []
  | r :: order' =>
      let clash := match prev with Some p => r_fixed r && (r_zmin r <=? p) | None => false end in
      if clash then None
      else
        let v := match prev with
                 | Some p => if r_fixed r then r_zmin r else Z.max (u64 (p + 1)) (r_zmin r)
                 | None => r_zmin r
                 end in
        if r_zmax r <? v then None
        else vs ← number_loop (Some v) order'; Some (v :: vs)
  end.

(** The write-back loop. *)
Fixpoint write_loop (order : list Rankable) (vs : list Z) (entries : list StackEntry)
    : list StackEntry :=
  match order, vs with
  | r :: order', v :: vs' =>
      write_loop order' vs' (alter (fun e => e {{ written := Some v }}) (r_index r) entries)
  | _, _ => entries
  end.

Definition stack_order (entries : list StackEntry) : list Rankable :=
  stable_sort rank_lt (rank_loop 0 entries).

Definition stack_zpos (entries : list StackEntry) : bool * list StackEntry :=
  let entries' := reset_written <$> entries in
  let order := stack_order entries in
  match number_loop None order with
  | None => (false, entries')
  | Some vs => (true, write_loop order vs entries')
  end.

(** ** Stacking *)

Lemma stacking_consistent_sym pa pb za zb :
  stacking_consistent pa za pb zb = stacking_consistent pb zb pa za.
Proof.
  unfold stacking_consistent. destruct za as [a|], zb as [b|]; try done.
  rewrite (Z.eqb_sym b a). destruct (Z.eqb_spec a b); [done|].
  destruct (effective_zpos pa _) as [ea|], (effective_zpos pb _) as [eb|]; try done.
  rewrite (Z.eqb_sym eb ea). destruct (Z.eqb_spec ea eb); [done|].
  destruct (Z.ltb_spec a b), (Z.ltb_spec ea eb), (Z.ltb_spec b a), (Z.ltb_spec eb ea); lia || done.
Qed.

(** On planes that can be written over the whole range asked for,
    two layers always stack as requested; on fixed-slot planes the check holds
    exactly when the slots are strictly ordered as the requests are.  The rule
    is symmetric, so the order of the comparison does not matter. *)
Theorem stacking_consistent_spec (pa pb : PlaneCapabilities) (za zb : option Z) :
  stacking_consistent pa za pb zb = stacking_consistent pb zb pa za /\
  (zpos_fixed pa = false -> zpos_fixed pb = false -> stacking_consistent pa za pb zb = true) /\
  (stacking_consistent pa za pb zb = true <->
   forall a b ea eb, za = Some a -> zb = Some b -> a < b \/ b < a ->
     effective_zpos pa za = Some ea -> effective_zpos pb zb = Some eb ->
     (a < b -> ea < eb) /\ (b < a -> eb < ea)).
Proof.
  assert (Hiff : stacking_consistent pa za pb zb = true <->
   forall a b ea eb, za = Some a -> zb = Some b -> a < b \/ b < a ->
     effective_zpos pa za = Some ea -> effective_zpos pb zb = Some eb ->
     (a < b -> ea < eb) /\ (b < a -> eb < ea)).
  { unfold stacking_consistent. destruct za as [a|], zb as [b|]; try naive_solver.
    destruct (Z.eqb_spec a b); [naive_solver lia|].
    destruct (effective_zpos pa _) as [ea|], (effective_zpos pb _) as [eb|]; try naive_solver.
    destruct (Z.eqb_spec ea eb) as [->|].
    - split; [done|]. intros H. specialize (H a b eb eb eq_refl eq_refl ltac:(lia) eq_refl eq_refl). lia.
    - rewrite eqb_true_iff. destruct (Z.ltb_spec a b), (Z.ltb_spec ea eb); split; try done; try naive_solver lia;
        intros H'; specialize (H' a b ea eb eq_refl eq_refl ltac:(lia) eq_refl eq_refl); lia. }
  split_and!; [| |done].
  - apply stacking_consistent_sym.
  - intros Ha Hb. apply Hiff. unfold effective_zpos. rewrite Ha, Hb. intros. simplify_eq. lia.
Qed.

(** ** The numbering loop *)

#[export] Instance rank_lt_strict_weak : StrictWeak rank_lt.
Proof.
  split; intros *; unfold rank_lt;
    repeat match goal with
    | |- context [?x <? ?y] => destruct (Z.ltb_spec x y)
    | |- context [r_after_ties ?x] => destruct (r_after_ties x)
    end; simpl; intros; try done; lia.
Qed.

(** A numbering of [order] above [prev]: in range and strictly increasing. *)
Fixpoint numbering (prev : option Z) (order : list Rankable) (vs : list Z) : Prop :=
  match order, vs with
  | [], [] => True
  | r :: order', v :: vs' =>
      r_zmin r <= v <= r_zmax r /\ (forall p, prev = Some p -> p < v) /\ numbering (Some v) order' vs'
  | _, _ => False
  end.

(** The ranges fit: below the largest 64-bit value, so [prev + 1] is exact. *)
Definition range_ok (r : Rankable) : Prop :=
  0 <= r_zmin r /\ r_zmax r < 2 ^ 64 - 1 /\ r_fixed r = (r_zmin r =? r_zmax r).

Lemma number_loop_spec prev order :
  Forall range_ok order -> (forall p, prev = Some p -> 0 <= p < 2 ^ 64 - 1) ->
  match number_loop prev order with
  | Some vs => numbering prev order vs /\
      forall prev' vs', (forall p, prev = Some p -> exists p', prev' = Some p' /\ p <= p') ->
        numbering prev' order vs' -> Forall2 Z.le vs vs'
  | None => forall prev' vs', (forall p, prev = Some p -> exists p', prev' = Some p' /\ p <= p') ->
      ~ numbering prev' order vs'
  end.
Proof.
  intros Hok. revert prev. induction Hok as [|r order (Hmin & Hmax & Hfix) Hok IH]; intros prev Hprev; simpl.
  { split; [done|]. intros prev' [|v vs'] _ Hn; [constructor | done]. }
  (* the least admissible value *)
  assert (Hv : forall v, (match prev with Some p => if r_fixed r then r_zmin r else Z.max (u64 (p + 1)) (r_zmin r)
                          | None => r_zmin r end) = v ->
    r_zmin r <= v /\
    (match prev with Some p => r_fixed r && (r_zmin r <=? p) | None => false end = false ->
       forall p, prev = Some p -> p < v) /\
    (forall prev' v', (forall p, prev = Some p -> exists p', prev' = Some p' /\ p <= p') ->
       (forall p, prev' = Some p -> p < v') -> r_zmin r <= v' <= r_zmax r -> v <= v')).
  { intros v Hv. destruct prev as [p|].
    - specialize (Hprev p eq_refl). rewrite wrap_small in Hv by (unfold in_u; lia).
      destruct (r_fixed r); subst v; simpl.
      + split_and!; [lia | | intros; lia]. intros Hc q [= <-]. bool_simpl. lia.
      + split_and!; [lia | intros _ q [= <-]; lia |]. intros prev' v' Hpp Hlt Hr.
        destruct (Hpp p eq_refl) as (p' & Hp' & Hle). specialize (Hlt p' Hp'). lia.
    - subst v. split_and!; [lia | done | intros; lia]. }
  match goal with |- context [r_zmax r <? ?v] => set (v0 := v) in * end.
  destruct (Hv v0 eq_refl) as (Hlo & Hgt & Hleast). clear Hv.
  destruct (match prev with Some p => r_fixed r && (r_zmin r <=? p) | None => false end) eqn:Hclash.
  { (* a fixed slot at or below the previous value *)
    destruct prev as [p|]; [|done]. bool_simpl. intros prev' [|v vs'] Hpp Hn; [done|].
    destruct Hn as (Hr & Hlt & _). destruct (Hpp p eq_refl) as (p' & Hp' & Hle).
    specialize (Hlt p' Hp'). rewrite H in Hfix. symmetry in Hfix. bool_simpl. lia. }
  destruct (Z.ltb_spec (r_zmax r) v0) as [Hover|Hin].
  { intros prev' [|v vs'] Hpp Hn; [done|]. destruct Hn as (Hr & Hlt & _).
    specialize (Hleast prev' v Hpp Hlt Hr). lia. }
  specialize (IH (Some v0)). destruct (number_loop (Some v0) order) as [vs|]; simpl.
  - destruct IH as [Hn Hmin']; [intros p [= <-]; lia|]. split; [naive_solver lia|].
    intros prev' [|v vs'] Hpp Hn'; [done|]. destruct Hn' as (Hr & Hlt & Hn').
    specialize (Hleast prev' v Hpp Hlt Hr). constructor; [done|].
    apply (Hmin' (Some v)); [|done]. intros p [= <-]. eauto.
  - intros prev' [|v vs'] Hpp Hn'; [done|]. destruct Hn' as (Hr & Hlt & Hn').
    specialize (Hleast prev' v Hpp Hlt Hr).
    apply (IH ltac:(intros p [= <-]; lia) (Some v) vs'); [|done]. intros p [= <-]. eauto.
Qed.

Lemma numbering_lookup prev order vs k k' r r' v v' :
  numbering prev order vs -> order !! k = Some r -> order !! k' = Some r' ->
  vs !! k = Some v -> vs !! k' = Some v' -> (k < k')%nat -> v < v'.
Proof.
  assert (Hgt : forall order p vs k v, numbering (Some p) order vs -> vs !! k = Some v -> p < v).
  { clear. induction order as [|r order IH]; intros p [|u vs] k v Hn Hv; [done|done|done|].
    destruct Hn as (_ & Hlt & Hn). specialize (Hlt p eq_refl).
    destruct k as [|k]; [naive_solver|]. specialize (IH u vs k v Hn Hv). lia. }
  revert prev vs k k'. induction order as [|r0 order IH]; intros prev [|u vs] k k' Hn Hr Hr' Hv Hv' Hk; try done.
  destruct Hn as (_ & _ & Hn). destruct k' as [|k']; [lia|]. destruct k as [|k]; simpl in *.
  - simplify_eq. by eapply Hgt.
  - eapply (IH (Some u) vs k k'); done || lia.
Qed.

Lemma numbering_length prev order vs : numbering prev order vs -> length vs = length order.
Proof.
  revert prev vs. induction order as [|r order IH]; intros prev [|v vs] Hn; try done.
  destruct Hn as (_ & _ & Hn). simpl. f_equal. by eapply IH.
Qed.

Lemma numbering_range prev order vs k r v :
  numbering prev order vs -> order !! k = Some r -> vs !! k = Some v -> r_zmin r <= v <= r_zmax r.
Proof.
  revert prev vs k. induction order as [|r0 order IH]; intros prev [|u vs] k Hn Hr Hv; try done.
  destruct Hn as (Hr0 & _ & Hn). destruct k as [|k]; [naive_solver|]. by eapply IH.
Qed.

(** ** Ranking and write-back *)

Lemma elem_of_rank_loop i0 entries r :
  r ∈ rank_loop i0 entries <->
  exists k e, entries !! k = Some e /\ rank_entry (i0 + k) e = Some r.
Proof.
  revert i0. induction entries as [|e entries IH]; intros i0; cbn [rank_loop].
  { split; [intros H; by apply not_elem_of_nil in H | intros (k & e & He & _); done]. }
  assert (Hopt : r ∈ option_list (rank_entry i0 e) <-> rank_entry i0 e = Some r).
  { destruct (rank_entry i0 e) as [r0|]; simpl.
    - rewrite list_elem_of_singleton. naive_solver.
    - split; [intros Hr; by apply not_elem_of_nil in Hr | done]. }
  rewrite elem_of_app, IH, Hopt. split.
  - intros [Hr | (k & e' & He & Hr)].
    + exists 0%nat, e. by rewrite Nat.add_0_r.
    + exists (S k), e'. by replace (i0 + S k)%nat with (S i0 + k)%nat by lia.
  - intros ([|k] & e' & He & Hr).
    + left. simpl in He. rewrite Nat.add_0_r in Hr. congruence.
    + right. exists k, e'. by replace (S i0 + k)%nat with (i0 + S k)%nat by lia.
Qed.

Lemma rank_entry_index i e r : rank_entry i e = Some r -> r_index r = i.
Proof. unfold rank_entry. repeat case_goal; try done. by intros [= <-]. Qed.

Lemma rank_loop_nodup i0 entries : NoDup (r_index <$> rank_loop i0 entries).
Proof.
  revert i0. induction entries as [|e entries IH]; intros i0; cbn [rank_loop]; [constructor|].
  destruct (rank_entry i0 e) as [r|] eqn:Hr; simpl; [|apply IH].
  constructor; [|apply IH]. intros (r' & Heq & Hr')%list_elem_of_fmap.
  apply elem_of_rank_loop in Hr' as (k & e' & _ & Hr').
  rewrite (rank_entry_index _ _ _ Hr), (rank_entry_index _ _ _ Hr') in Heq. lia.
Qed.

Lemma stack_order_nodup entries : NoDup (r_index <$> stack_order entries).
Proof.
  unfold stack_order. rewrite (stable_sort_perm rank_lt (rank_loop 0 entries)). apply rank_loop_nodup.
Qed.

Lemma elem_of_stack_order entries r :
  r ∈ stack_order entries <->
  exists e, entries !! r_index r = Some e /\ rank_entry (r_index r) e = Some r.
Proof.
  unfold stack_order. rewrite (stable_sort_perm rank_lt (rank_loop 0 entries)), elem_of_rank_loop. simpl.
  split.
  - intros (k & e & He & Hr). pose proof (rank_entry_index _ _ _ Hr) as <-. eauto.
  - intros (e & He & Hr). eauto.
Qed.

Lemma write_loop_length order vs entries : length (write_loop order vs entries) = length entries.
Proof.
  revert vs entries. induction order as [|r order IH]; intros [|v vs] entries; try done.
  simpl. by rewrite IH, length_alter.
Qed.

Lemma write_loop_other order vs entries i :
  i ∉ (r_index <$> order) -> write_loop order vs entries !! i = entries !! i.
Proof.
  revert vs entries. induction order as [|r order IH]; intros [|v vs] entries Hi; try done.
  csimpl in Hi. apply not_elem_of_cons in Hi as [Hne Hi]. simpl.
  rewrite IH by done. by rewrite list_lookup_alter_ne.
Qed.

Lemma write_loop_at order vs entries k r v :
  NoDup (r_index <$> order) -> order !! k = Some r -> vs !! k = Some v ->
  write_loop order vs entries !! r_index r = (fun e => e {{ written := Some v }}) <$> entries !! r_index r.
Proof.
  revert vs entries k. induction order as [|r0 order IH]; intros [|v0 vs] entries k Hnd Hr Hv; try done.
  csimpl in Hnd. apply NoDup_cons in Hnd as [Hr0 Hnd]. destruct k as [|k]; simpl in *.
  - simplify_eq. rewrite write_loop_other by done. by rewrite list_lookup_alter_eq.
  - rewrite (IH vs _ k Hnd Hr Hv). rewrite list_lookup_alter_ne; [done|].
    intros Heq. apply Hr0. rewrite Heq. apply list_elem_of_fmap. exists r. split; [done|].
    by eapply list_elem_of_lookup_2.
Qed.

(** ** Numbering a frame's stack *)

(** The range an entry's plane publishes, when the entry can be numbered. *)
Definition entry_range (e : StackEntry) : option (Z * Z) :=
  r ← rank_entry 0 e; Some (r_zmin r, r_zmax r).

Definition entries_ok (entries : list StackEntry) : Prop :=
  forall e lo hi, e ∈ entries -> entry_range e = Some (lo, hi) -> 0 <= lo /\ hi < 2 ^ 64 - 1.

(** Entry [a] must stack under entry [b]: lower request, then the canvas under
    its ties, then plane id, then position. *)
Definition stacks_under (i : nat) (a : StackEntry) (j : nat) (b : StackEntry) : Prop :=
  exists ra rb, rank_entry i a = Some ra /\ rank_entry j b = Some rb /\ rank_lt ra rb = true.

Lemma order_ranges entries : entries_ok entries -> Forall range_ok (stack_order entries).
Proof.
  intros Hok. apply Forall_forall. intros r Hr. apply elem_of_stack_order in Hr as (e & He & Hr).
  apply list_elem_of_lookup_2 in He.
  assert (entry_range e = Some (r_zmin r, r_zmax r) /\ r_fixed r = (r_zmin r =? r_zmax r)) as [Her Hf].
  { unfold entry_range, rank_entry in *. destruct (se_plane e); [|done]. destruct (requested e); [|done].
    destruct (zpos_min _); [|done]. destruct (zpos_max _); [|done]. simpl. injection Hr as <-. done. }
  destruct (Hok e _ _ He Her). by repeat split.
Qed.

Lemma order_position entries i a j b ra rb :
  entries !! i = Some a -> entries !! j = Some b ->
  rank_entry i a = Some ra -> rank_entry j b = Some rb -> rank_lt ra rb = true ->
  exists k k', stack_order entries !! k = Some ra /\ stack_order entries !! k' = Some rb /\ (k < k')%nat.
Proof.
  intros Ha Hb Hra Hrb Hlt.
  assert (Hin : forall i e r, entries !! i = Some e -> rank_entry i e = Some r ->
    exists k, stack_order entries !! k = Some r).
  { intros i' e r He Hr. apply list_elem_of_lookup, elem_of_stack_order.
    rewrite (rank_entry_index _ _ _ Hr). eauto. }
  destruct (Hin i a ra Ha Hra) as [k Hk], (Hin j b rb Hb Hrb) as [k' Hk'].
  exists k, k'. split_and!; [done..|].
  destruct (decide (k < k')%nat) as [|Hge]; [done|].
  destruct (decide (k = k')) as [->|Hne].
  { assert (ra = rb) as -> by congruence. pose proof (sw_asym _ _ Hlt). congruence. }
  pose proof (stable_sort_sorted rank_lt (rank_loop 0 entries)) as Hs.
  pose proof (sorted_lookup _ _ k' k rb ra Hs Hk' Hk ltac:(lia)) as Hna.
  unfold not_after in Hna. congruence.
Qed.

Lemma stack_zpos_numbers (entries : list StackEntry) :
  entries_ok entries ->
  let '(ok, out) := stack_zpos entries in
  length out = length entries /\
  (ok = false -> out = reset_written <$> entries) /\
  (ok = true ->
    (forall i e, entries !! i = Some e ->
       exists e', out !! i = Some e' /\
         se_plane e' = se_plane e /\ requested e' = requested e /\ below_ties e' = below_ties e /\
         match entry_range e with
         | Some (lo, hi) => exists v, written e' = Some v /\ lo <= v <= hi
         | None => written e' = requested e
         end) /\
    (forall i j a b, entries !! i = Some a -> entries !! j = Some b -> stacks_under i a j b ->
       exists a' b' va vb, out !! i = Some a' /\ out !! j = Some b' /\
         written a' = Some va /\ written b' = Some vb /\ va < vb)).
Proof.
  intros Hok. unfold stack_zpos.
  pose proof (number_loop_spec None (stack_order entries) (order_ranges _ Hok) ltac:(done)) as Hspec.
  destruct (number_loop None (stack_order entries)) as [vs|].
  2: { rewrite length_fmap. done. }
  destruct Hspec as [Hn _]. pose proof (numbering_length _ _ _ Hn) as Hlen.
  rewrite write_loop_length, length_fmap. split; [done|]. split; [done|]. intros _.
  assert (Hat : forall k r, stack_order entries !! k = Some r ->
    exists e v, entries !! r_index r = Some e /\ rank_entry (r_index r) e = Some r /\ vs !! k = Some v /\
      r_zmin r <= v <= r_zmax r /\
      write_loop (stack_order entries) vs (reset_written <$> entries) !! r_index r =
        Some (e {{ written := Some v }})).
  { intros k r Hr. destruct (lookup_lt_is_Some_2 vs k) as [v Hv].
    { rewrite Hlen. by eapply lookup_lt_Some. }
    pose proof Hr as Hin. apply list_elem_of_lookup_2, elem_of_stack_order in Hin as (e & He & Hre).
    exists e, v. split_and!; [done..| | |].
    - by destruct (numbering_range _ _ _ k r v Hn Hr Hv).
    - by destruct (numbering_range _ _ _ k r v Hn Hr Hv).
    - rewrite (write_loop_at _ _ _ k r v (stack_order_nodup _) Hr Hv), list_lookup_fmap, He. done. }
  split.
  - intros i e He. unfold entry_range. destruct (rank_entry i e) as [r|] eqn:Hr.
    + assert (Hr0 : exists r0, rank_entry 0 e = Some r0 /\ r_zmin r0 = r_zmin r /\ r_zmax r0 = r_zmax r).
      { unfold rank_entry in *. destruct (se_plane e); [|done]. destruct (requested e); [|done].
        destruct (zpos_min _); [|done]. destruct (zpos_max _); [|done]. injection Hr as <-.
        eexists. split; [reflexivity|]. done. }
      destruct Hr0 as (r0 & -> & Hlo & Hhi). simpl. rewrite Hlo, Hhi.
      pose proof (rank_entry_index _ _ _ Hr) as Hi.
      assert (exists k, stack_order entries !! k = Some r) as [k Hk].
      { apply list_elem_of_lookup, elem_of_stack_order. rewrite Hi. eauto. }
      destruct (Hat k r Hk) as (e' & v & He' & _ & _ & Hv & Hout). rewrite Hi in *.
      assert (e' = e) as -> by congruence. eexists. split; [exact Hout|]. split_and!; [done..|]. eauto.
    + assert (rank_entry 0 e = None) as ->.
      { unfold rank_entry in *. repeat case_goal; done. }
      exists (reset_written e). rewrite write_loop_other, list_lookup_fmap, He; [done|].
      intros (r & -> & Hin)%list_elem_of_fmap. apply elem_of_stack_order in Hin as (e' & He' & Hr').
      congruence.
  - intros i j a b Ha Hb (ra & rb & Hra & Hrb & Hlt).
    destruct (order_position entries i a j b ra rb Ha Hb Hra Hrb Hlt) as (k & k' & Hk & Hk' & Hkk).
    destruct (Hat k ra Hk) as (ea & va & _ & _ & Hva & _ & Houta).
    destruct (Hat k' rb Hk') as (eb & vb & _ & _ & Hvb & _ & Houtb).
    rewrite (rank_entry_index _ _ _ Hra) in Houta. rewrite (rank_entry_index _ _ _ Hrb) in Houtb.
    eexists _, _, va, vb. split_and!; [exact Houta | exact Houtb | done | done |].
    by eapply (numbering_lookup None _ vs k k').
Qed.

(** When [stack_zpos] succeeds, every armed plane that has a zpos
    range and a request gets a value inside its range (its slot, on a fixed
    plane), the others keep their request, nothing else changes, and entries
    stack in the requested order: the canvas under its ties, then by plane
    id.  When it fails, [written] is the request everywhere. *)
Theorem stack_zpos_sound (entries : list StackEntry) :
  entries_ok entries ->
  let '(ok, out) := stack_zpos entries in
  length out = length entries /\
  (ok = false -> out = reset_written <$> entries) /\
  (ok = true ->
    (forall i e, entries !! i = Some e ->
       exists e', out !! i = Some e' /\
         se_plane e' = se_plane e /\ requested e' = requested e /\ below_ties e' = below_ties e /\
         match entry_range e with
         | Some (lo, hi) => exists v, written e' = Some v /\ lo <= v <= hi
         | None => written e' = requested e
         end) /\
    (forall i j a b, entries !! i = Some a -> entries !! j = Some b -> stacks_under i a j b ->
       exists a' b' va vb, out !! i = Some a' /\ out !! j = Some b' /\
         written a' = Some va /\ written b' = Some vb /\ va < vb)).
Proof. apply stack_zpos_numbers. Qed.

(** C33. [stack_zpos] fails only when no numbering exists: it
    succeeds exactly when the ranked entries admit strictly increasing in-range
    values, and the values it picks are then the lowest, entry by entry. *)
Theorem stack_zpos_optimal (entries : list StackEntry) :
  entries_ok entries ->
  ((stack_zpos entries).1 = true <-> exists vs, numbering None (stack_order entries) vs) /\
  (forall vs', numbering None (stack_order entries) vs' ->
     exists vs, stack_zpos entries =
         (true, write_loop (stack_order entries) vs (reset_written <$> entries)) /\
       numbering None (stack_order entries) vs /\ Forall2 Z.le vs vs').
Proof.
  intros Hok. unfold stack_zpos.
  pose proof (number_loop_spec None (stack_order entries) (order_ranges _ Hok) ltac:(done)) as Hspec.
  destruct (number_loop None (stack_order entries)) as [vs|]; simpl.
  - destruct Hspec as [Hn Hmin]. split; [naive_solver|]. intros vs' Hn'. exists vs.
    split_and!; [done..|]. by apply (Hmin None).
  - split; [|intros vs' Hn'; by destruct (Hspec None vs' ltac:(done))].
    split; [done|]. intros [vs' Hn']. by destruct (Hspec None vs' ltac:(done)).
Qed.

(** An overlay that must sit above a primary fixed at slot 2, and one below. *)
Definition sample_plane (pid lo hi : Z) : PlaneCapabilities :=
  default_caps {{ id := pid; zpos_min := Some lo; zpos_max := Some hi }}.
Definition sample_stack : list StackEntry :=
  [mkEntry (Some (sample_plane 40 2 2)) (Some 0) None false;
   mkEntry (Some (sample_plane 41 0 9)) (Some 5) None false;
   mkEntry (Some (sample_plane 42 0 9)) (Some 5) None true].

Lemma sample_stack_ok : entries_ok sample_stack.
Proof.
  intros e lo hi He. unfold sample_stack in He.
  rewrite !elem_of_cons in He. destruct He as [->|[->|[->|He]]]; try by apply not_elem_of_nil in He.
  all: simpl; intros [= <- <-]; lia.
Qed.

Lemma stack_zpos_sound_witness :
  written <$> (stack_zpos sample_stack).2 = [Some 2; Some 4; Some 3] /\
  length (stack_zpos sample_stack).2 = 3%nat.
Proof.
  split; [reflexivity|]. pose proof (stack_zpos_sound sample_stack sample_stack_ok) as H.
  destruct (stack_zpos sample_stack) as [ok out]. exact (proj1 H).
Defined.

Lemma stack_zpos_optimal_witness : exists vs, numbering None (stack_order sample_stack) vs.
Proof. apply (stack_zpos_optimal sample_stack sample_stack_ok). reflexivity. Defined.

(** A slot fixed at the largest 64-bit value makes [prev + 1] wrap to zero:
    the numbering then puts the upper layer below it and reports success. *)
Lemma stack_zpos_wraps :
  let entries := [mkEntry (Some (sample_plane 40 (2 ^ 64 - 1) (2 ^ 64 - 1))) (Some 1) None false;
                  mkEntry (Some (sample_plane 41 0 9)) (Some 2) None false] in
  (stack_zpos entries).1 = true /\ written <$> (stack_zpos entries).2 = [Some (2 ^ 64 - 1); Some 0].
Proof. cbv zeta. split; vm_compute; reflexivity. Qed.
