(* ===== verification/PlaneClip.v ===== *)
(** Clipping a plane at the CRTC's top and left edges:
    [src/planes/plane_clip.hpp]. *)
From S2P Require Import Prelude DrmAbi.

Record PlaneSpan := mkSpan { dst : Z; dst_len : Z; src : Z; src_len : Z }.

Definition UINT32_MAX : Z := 2 ^ 32 - 1.
Definition INT64_MIN : Z := - 2 ^ 63.

(** [None] is undefined behaviour: negating [INT64_MIN]. *)
Definition clip_leading (s : PlaneSpan) : option (bool * PlaneSpan) :=
  if (0 <=? dst s) || (dst_len s =? 0) || (UINT32_MAX <? dst_len s) || (UINT32_MAX <? src_len s)
  then Some (false, s)
  else if dst s =? INT64_MIN then None
  else
    let clip := u64 (- dst s) in
    if dst_len s <=? clip then Some (false, s)
    else
      let kept := u64 (dst_len s - clip) in
      let scaled := u64 (src_len s * kept) in
      let new_src_len :=
        if src_len s <? u64 (Z.shiftl (dst_len s) 16)
        then u64 (u64 (scaled + dst_len s) - 1) / dst_len s
        else scaled / dst_len s in
      Some (true, mkSpan 0 kept (u64 (src s + u64 (src_len s - new_src_len))) new_src_len).

Section Formats.
Context `{abi : DrmAbi}.

Definition chroma_subsampled (fourcc : Z) : bool :=
  match switch_format fourcc with
  | Some (NV12 | NV21 | NV16 | NV61 | NV15 | NV20 | P010 | P012 | P016 | P210
         | YUV410 | YVU410 | YUV411 | YVU411 | YUV420 | YVU420 | YUV422 | YVU422
         | YUYV | YVYU | UYVY | VYUY | Y210 | Y212 | Y216) => true
  | _ => false
  end.

Definition clip_applies (rotation fourcc : Z) : bool :=
  ((rotation =? 0) || (rotation =? DRM_MODE_ROTATE_0)) && negb (chroma_subsampled fourcc).
End Formats.

(** The types of the fields. *)
Definition span_ok (s : PlaneSpan) : Prop :=
  - 2 ^ 63 <= dst s < 2 ^ 63 /\ in_u 64 (dst_len s) /\ in_u 64 (src s) /\ in_u 64 (src_len s).

(** A span with something on both sides of 0, lengths within 32 bits. *)
Definition straddles (s : PlaneSpan) : Prop :=
  - dst_len s < dst s < 0 /\ dst_len s <= UINT32_MAX /\ src_len s <= UINT32_MAX.

(** [a / b] rounded up. *)
Lemma div_up_bounds a b : 0 <= a -> 0 < b -> a <= b * ((a + b - 1) / b) < a + b.
Proof.
  intros Ha Hb. pose proof (Z.div_mod (a + b - 1) b ltac:(lia)).
  pose proof (Z.mod_pos_bound (a + b - 1) b Hb). lia.
Qed.

Lemma div_down_bounds a b : 0 < b -> a - b < b * (a / b) <= a.
Proof.
  intros Hb. pose proof (Z.div_mod a b ltac:(lia)). pose proof (Z.mod_pos_bound a b Hb). lia.
Qed.

(** On a straddling span no operation wraps. *)
Lemma clip_leading_straddles s :
  span_ok s -> straddles s ->
  let kept := dst_len s + dst s in
  let n := if src_len s <? dst_len s * 65536
           then (src_len s * kept + dst_len s - 1) / dst_len s
           else src_len s * kept / dst_len s in
  0 <= n <= src_len s /\
  clip_leading s = Some (true, mkSpan 0 kept (u64 (src s + (src_len s - n))) n).
Proof.
  intros (Hd & Hdl & Hs & Hsl) (Hstr & Hdm & Hsm) kept n. unfold in_u, UINT32_MAX in *.
  assert (Hn : 0 <= n <= src_len s).
  { subst n kept. destruct (Z.ltb_spec (src_len s) (dst_len s * 65536)).
    - pose proof (div_up_bounds (src_len s * (dst_len s + dst s)) (dst_len s) ltac:(nia) ltac:(lia)).
      split; [apply Z.div_pos; nia|]. nia.
    - pose proof (div_down_bounds (src_len s * (dst_len s + dst s)) (dst_len s) ltac:(lia)).
      split; [apply Z.div_pos; nia|]. nia. }
  split; [done|]. unfold clip_leading, UINT32_MAX, INT64_MIN.
  rewrite (proj2 (Z.leb_gt 0 (dst s))), (proj2 (Z.eqb_neq (dst_len s) 0)),
    !(proj2 (Z.ltb_ge _ _)), (proj2 (Z.eqb_neq (dst s) _)) by lia. simpl.
  rewrite (wrap_small 64 (- dst s)) by (unfold in_u; lia).
  rewrite (proj2 (Z.leb_gt _ _)) by lia.
  rewrite (wrap_small 64 (dst_len s - - dst s)) by (unfold in_u; lia).
  replace (dst_len s - - dst s) with kept by (subst kept; lia).
  rewrite (wrap_small 64 (src_len s * kept)) by (unfold in_u; subst kept; nia).
  rewrite Z.shiftl_mul_pow2 by lia. change (2 ^ 16) with 65536.
  rewrite (wrap_small 64 (dst_len s * 65536)) by (unfold in_u; lia).
  rewrite (wrap_small 64 (src_len s * kept + dst_len s)) by (unfold in_u; subst kept; nia).
  rewrite (wrap_small 64 (src_len s * kept + dst_len s - 1)) by (unfold in_u; subst kept; nia).
  fold n. rewrite (wrap_small 64 (src_len s - n)) by (unfold in_u; lia). done.
Qed.

(** Clipping acts exactly on a span that straddles 0 with 32-bit
    lengths, and then the visible part starts at 0, both far edges stay put (on
    the CRTC and in the source), the source only shrinks, by the clipped
    fraction to within one 16.16 step, and an upscale does not become a
    downscale or the reverse; otherwise the span is unchanged. *)
Theorem clip_leading_spec (s : PlaneSpan) :
  span_ok s -> dst s <> INT64_MIN ->
  exists clipped s', clip_leading s = Some (clipped, s') /\
    (clipped = true <-> straddles s) /\
    (clipped = false -> s' = s) /\
    (clipped = true ->
       dst s' = 0 /\ 0 < dst_len s' /\ dst_len s' = dst s + dst_len s /\
       u64 (src s' + src_len s') = u64 (src s + src_len s) /\
       0 <= src_len s' <= src_len s /\
       Z.abs (src_len s' * dst_len s - src_len s * dst_len s') < dst_len s /\
       (src_len s < dst_len s * 65536 -> src_len s' <= dst_len s' * 65536) /\
       (dst_len s * 65536 <= src_len s -> dst_len s' * 65536 <= src_len s')).
Proof.
  intros Hok Hmin.
  assert (Hdec : straddles s \/ ~ straddles s) by (unfold straddles; lia).
  destruct Hdec as [Hstr|Hno].
  - destruct (clip_leading_straddles s Hok Hstr) as [Hn ->].
    eexists true, _. split; [done|]. split; [done|]. split; [done|]. intros _. cbn [dst dst_len src src_len].
    destruct Hok as (Hd & Hdl & Hs & Hsl), Hstr as (Hstr & Hdm & Hsm). unfold in_u, UINT32_MAX in *.
    set (kept := dst_len s + dst s) in *.
    set (n := if src_len s <? dst_len s * 65536 then _ else _) in *.
    assert (Hb : (src_len s < dst_len s * 65536 ->
                    src_len s * kept <= dst_len s * n < src_len s * kept + dst_len s) /\
                 (dst_len s * 65536 <= src_len s ->
                    src_len s * kept - dst_len s < dst_len s * n <= src_len s * kept)).
    { unfold n. destruct (Z.ltb_spec (src_len s) (dst_len s * 65536)); split; intros; try lia.
      - apply div_up_bounds; nia.
      - apply div_down_bounds; lia. }
    split_and!; try lia.
    + unfold wrap. rewrite Zplus_mod_idemp_l. f_equal. lia.
    + intros Hlt. destruct (proj1 Hb Hlt).
      assert (src_len s * kept <= (dst_len s * 65536 - 1) * kept) by (apply Z.mul_le_mono_nonneg_r; lia).
      assert (dst_len s * n < dst_len s * (kept * 65536 + 1)) by lia.
      enough (n < kept * 65536 + 1) by lia. apply (Z.mul_lt_mono_pos_l (dst_len s)); lia.
    + intros Hge. destruct (proj2 Hb Hge).
      assert (dst_len s * 65536 * kept <= src_len s * kept) by (apply Z.mul_le_mono_nonneg_r; lia).
      assert (dst_len s * (kept * 65536 - 1) < dst_len s * n) by lia.
      enough (kept * 65536 - 1 < n) by lia. apply (Z.mul_lt_mono_pos_l (dst_len s)); lia.
  - exists false, s. split; [|done].
    unfold clip_leading. destruct ((0 <=? dst s) || _ || _ || _) eqn:E; [done|].
    bool_simpl. rewrite (proj2 (Z.eqb_neq _ _) Hmin).
    destruct Hok as (Hd & Hdl & _ & _). unfold in_u, straddles, UINT32_MAX, INT64_MIN in *.
    rewrite wrap_small by (unfold in_u; lia).
    by rewrite (proj2 (Z.leb_le _ _)) by lia.
Qed.

Lemma clip_leading_spec_witness :
  exists s', clip_leading (mkSpan (-10) 100 0 (100 * 65536)) = Some (true, s') /\
    dst s' = 0 /\ dst_len s' = 90 /\ src_len s' = 90 * 65536.
Proof.
  destruct (clip_leading_spec (mkSpan (-10) 100 0 (100 * 65536))) as (c & s' & Hc & _ & _ & _).
  - repeat split; unfold in_u; simpl; lia.
  - unfold INT64_MIN. simpl. lia.
  - exists s'. rewrite Hc. vm_compute in Hc. injection Hc as <- <-. repeat split.
Defined.

(** Without the guard on [INT64_MIN], the negation overflows. *)
Lemma clip_leading_negates_int64_min : clip_leading (mkSpan INT64_MIN 100 0 100) = None.
Proof. reflexivity. Qed.
