(* ===== verification/LayerGroups.v ===== *)
(** The allocator's spatial split: [src/planes/layer_groups.hpp].

    Layers that overlap, directly or through a chain, form one group.  The
    groups come from a union-find with path halving over the items' indices. *)
From S2P Require Import Prelude.

Section Groups.
Context {T K : Type} (intersect : T -> T -> bool) (priority : T -> K) (klt : K -> K -> bool).

(** [find]: path halving.  [None] is an index outside the array, or fuel
    running out. *)
Fixpoint find (fuel : nat) (parent : list nat) (x : nat) : option (nat * list nat) :=
  match fuel with
  | O => None
  | S fuel' =>
      px ← parent !! x;
      if (px =? x)%nat then Some (x, parent)
      else
        ppx ← parent !! px;
        let parent := <[x := ppx]> parent in
        x' ← parent !! x;
        find fuel' parent x'
  end.

Definition find_root (parent : list nat) (x : nat) : option (nat * list nat) :=
  find (S (length parent)) parent x.

(** The body of the pair loop. *)
Definition unite (items : list T) (i j : nat) (parent : list nat) : option (list nat) :=
  a ← items !! i; b ← items !! j;
  if intersect a b then
    '(ra, parent) ← find_root parent i;
    '(rb, parent) ← find_root parent j;
    if (ra =? rb)%nat then Some parent else at_set parent (Nat.max ra rb) (Nat.min ra rb)
  else Some parent.

(** [for (j = i + 1; j < n; ++j)] over the [js] left. *)
Fixpoint inner_loop (items : list T) (i : nat) (js : list nat) (parent : list nat)
    : option (list nat) :=
  match js with
  | [] => Some parent
  | j :: js' => parent ← unite items i j parent; inner_loop items i js' parent
  end.

Fixpoint outer_loop (items : list T) (idxs : list nat) (parent : list nat) : option (list nat) :=
  match idxs with
  | [] => Some parent
  | i :: idxs' =>
      parent ← inner_loop items i (seq (S i) (length items - S i)) parent;
      outer_loop items idxs' parent
  end.

(** The collection loop; [slot] maps a root to its index in [groups]. *)
Fixpoint collect_loop (items : list T) (idxs : list nat) (parent slot : list nat)
    (groups : list (list T)) : option (list (list T)) :=
  match idxs with
  | [] => Some groups
  | i :: idxs' =>
      '(root, parent) ← find_root parent i;
      s ← slot !! root;
      '(slot, groups) ←
        (if (s =? length items)%nat
         then slot' ← at_set slot root (length groups); Some (slot', groups ++ [[]])
         else Some (slot, groups));
      s ← slot !! root;
      g ← groups !! s;
      item ← items !! i;
      collect_loop items idxs' parent slot (<[s := g ++ [item]]> groups)
  end.

(** [std::max(best, p)] keeps [best] unless [best < p]. *)
Definition max_priority (best p : K) : K := if klt best p then p else best.

Definition group_key (g : list T) : option K :=
  match g with
  | [] => None
  | x :: _ => Some (foldl (fun best item => max_priority best (priority item)) (priority x) g)
  end.

Fixpoint group_keys (i : nat) (groups : list (list T)) : option (list (K * nat)) :=
  match groups with
  | [] => Some []
  | g :: groups' => k ← group_key g; rest ← group_keys (S i) groups'; Some ((k, i) :: rest)
  end.

Definition independent_groups (items : list T) : option (list (list T)) :=
  let n := length items in
  parent ← outer_loop items (seq 0 n) (seq 0 n);
  groups ← collect_loop items (seq 0 n) parent (replicate n n) [];
  keys ← group_keys 0 groups;
  let keys := stable_sort (fun a b : K * nat => klt b.1 a.1) keys in
  mapM (fun kg => groups !! kg.2) keys.
End Groups.

(** ** Union-find *)

(** [r] is the root of [x]. *)
Inductive root_of (p : list nat) : nat -> nat -> Prop :=
  | root_here r : p !! r = Some r -> root_of p r r
  | root_up x y r : p !! x = Some y -> y <> x -> root_of p y r -> root_of p x r.

(** Every parent is an index not above its child: roots are lowest. *)
Definition uf_ok (n : nat) (p : list nat) : Prop :=
  length p = n /\ forall x y, p !! x = Some y -> (y <= x)%nat.

Lemma root_of_fun p x r r' : root_of p x r -> root_of p x r' -> r = r'.
Proof.
  intros H. revert r'. induction H as [r Hr|x y r Hx Hne H IH]; intros r' H'; inversion H'; subst;
    try congruence.
  apply IH. congruence.
Qed.

Lemma root_is_root p x r : root_of p x r -> p !! r = Some r.
Proof. by induction 1. Qed.

Lemma root_of_le n p x r : uf_ok n p -> root_of p x r -> (r <= x)%nat.
Proof.
  intros [_ Hle]. induction 1 as [|x y r Hx Hne H IH]; [done|]. specialize (Hle x y Hx). lia.
Qed.

Lemma root_of_exists n p x : uf_ok n p -> (x < n)%nat -> exists r, root_of p x r.
Proof.
  intros [Hlen Hle]. induction (lt_wf x) as [x _ IH]. intros Hx.
  destruct (lookup_lt_is_Some_2 p x ltac:(lia)) as [y Hy].
  destruct (decide (y = x)) as [->|Hne]; [exists x; by constructor|].
  specialize (Hle x y Hy). destruct (IH y) as [r Hr]; [lia..|]. exists r. by eapply root_up.
Qed.

(** Two arrays with the same roots. *)
Definition same_roots (p p' : list nat) : Prop := forall x r, root_of p x r <-> root_of p' x r.

(** Path halving: point [x] at its grandparent. *)
Lemma halve_roots n p x y z :
  uf_ok n p -> p !! x = Some y -> y <> x -> p !! y = Some z ->
  uf_ok n (<[x := z]> p) /\ same_roots p (<[x := z]> p).
Proof.
  intros Hok Hx Hne Hy. pose proof Hok as [Hlen Hle].
  pose proof (Hle x y Hx). pose proof (Hle y z Hy).
  assert (Hxl : (x < length p)%nat) by (by eapply lookup_lt_Some).
  assert (Hok' : uf_ok n (<[x := z]> p)).
  { split; [by rewrite length_insert|]. intros u v Hu. destruct (decide (u = x)) as [->|].
    - rewrite list_lookup_insert_eq in Hu by done. simplify_eq. lia.
    - rewrite list_lookup_insert_ne in Hu by done. auto. }
  split; [done|].
  assert (Hto : forall u r, root_of p u r -> root_of (<[x := z]> p) u r).
  { assert (Hstep : forall u, (u < n)%nat -> forall r, root_of p u r -> root_of (<[x := z]> p) u r).
    { intros u. induction (lt_wf u) as [u _ IH]. intros Hu r Hr. destruct (decide (u = x)) as [->|Hux].
      - inversion Hr as [|? y' ? Hx' Hne' Hr']; subst; [congruence|].
        assert (y' = y) as -> by congruence.
        apply root_up with z; [by rewrite list_lookup_insert_eq | lia |].
        inversion Hr' as [|? z' ? Hy' Hne'' Hr'']; subst.
        + assert (z = r) as -> by congruence. apply root_here. by rewrite list_lookup_insert_ne by lia.
        + assert (z' = z) as -> by congruence. apply IH; [lia | lia | done].
      - inversion Hr as [? Hu'|? v ? Hu' Hne' Hr']; subst.
        + apply root_here. by rewrite list_lookup_insert_ne.
        + specialize (Hle u v Hu'). apply root_up with v; [by rewrite list_lookup_insert_ne | done |].
          apply IH; [lia | lia | done]. }
    intros u r Hr. apply Hstep; [|done].
    inversion Hr as [? Hu'|? v ? Hu' _ _]; subst; by eapply lookup_lt_Some. }
  intros u r. split; [apply Hto|]. intros Hr.
  assert (Hu : (u < n)%nat).
  { destruct Hok' as [<- _]. inversion Hr as [? Hu'|? v ? Hu' _ _]; subst; by eapply lookup_lt_Some. }
  destruct (root_of_exists n p u Hok Hu) as [r' Hr'].
  by rewrite (root_of_fun _ _ _ _ Hr (Hto _ _ Hr')).
Qed.

Lemma same_roots_trans p p' p'' : same_roots p p' -> same_roots p' p'' -> same_roots p p''.
Proof. intros H1 H2 x r. rewrite (H1 x r). apply H2. Qed.

Lemma find_spec n fuel p x :
  uf_ok n p -> (x < n)%nat -> (x < fuel)%nat ->
  exists r p', find fuel p x = Some (r, p') /\ root_of p x r /\ uf_ok n p' /\ same_roots p p'.
Proof.
  revert p x. induction fuel as [|fuel IH]; intros p x Hok Hx Hf; [lia|]. cbn [find].
  pose proof Hok as [Hlen Hle].
  destruct (lookup_lt_is_Some_2 p x ltac:(lia)) as [y Hy]. rewrite Hy. cbn [mbind option_bind].
  destruct (Nat.eqb_spec y x) as [->|Hne].
  { exists x, p. split_and!; [done | by constructor | done | done]. }
  pose proof (Hle x y Hy).
  destruct (lookup_lt_is_Some_2 p y ltac:(lia)) as [z Hz]. rewrite Hz. cbn [mbind option_bind].
  pose proof (Hle y z Hz).
  destruct (halve_roots n p x y z Hok Hy Hne Hz) as [Hok' Hsame].
  rewrite list_lookup_insert_eq by lia. cbn [mbind option_bind].
  destruct (IH (<[x := z]> p) z Hok' ltac:(lia) ltac:(lia)) as (r & p' & -> & Hr & Hok'' & Hsame').
  exists r, p'. split; [done|]. split; [|split; [done | by eapply same_roots_trans]].
  apply Hsame in Hr. apply Hsame. apply root_up with z; [by rewrite list_lookup_insert_eq by lia | lia |].
  by apply Hsame.
Qed.

Lemma find_root_spec n p x :
  uf_ok n p -> (x < n)%nat ->
  exists r p', find_root p x = Some (r, p') /\ root_of p x r /\ uf_ok n p' /\ same_roots p p'.
Proof. intros Hok Hx. apply find_spec; [done..|]. destruct Hok as [-> _]. lia. Qed.

(** Linking one root under another. *)
Lemma link_roots n p lo hi :
  uf_ok n p -> p !! lo = Some lo -> p !! hi = Some hi -> (lo < hi)%nat ->
  uf_ok n (<[hi := lo]> p) /\
  forall x r, root_of p x r -> root_of (<[hi := lo]> p) x (if decide (r = hi) then lo else r).
Proof.
  intros [Hlen Hle] Hlo Hhi Hlt.
  assert (Hhl : (hi < length p)%nat) by (by eapply lookup_lt_Some).
  split.
  { split; [by rewrite length_insert|]. intros u v Hu. destruct (decide (u = hi)) as [->|].
    - rewrite list_lookup_insert_eq in Hu by done. simplify_eq. lia.
    - rewrite list_lookup_insert_ne in Hu by done. auto. }
  induction 1 as [r Hr|x y r Hx Hne H IH].
  - case_decide as E.
    + subst. apply root_up with lo; [by rewrite list_lookup_insert_eq | lia |].
      apply root_here. by rewrite list_lookup_insert_ne by lia.
    + apply root_here. by rewrite list_lookup_insert_ne.
  - apply root_up with y; [|done..]. rewrite list_lookup_insert_ne; [done|]. intros ->. congruence.
Qed.

(** ** The pair loop computes connectivity *)

Definition connected (E : nat -> nat -> Prop) : nat -> nat -> Prop := Relation_Operators.clos_refl_sym_trans nat E.

(** [x] and [y] are in the same tree (or the same index). *)
Definition same_tree (p : list nat) (x y : nat) : Prop :=
  x = y \/ exists r, root_of p x r /\ root_of p y r.

Lemma same_tree_trans p x y z : same_tree p x y -> same_tree p y z -> same_tree p x z.
Proof.
  intros [->|(r & Hx & Hy)] [->|(r' & Hy' & Hz)]; unfold same_tree; [by left| |by right; eauto|].
  - right; eauto.
  - right. pose proof (root_of_fun _ _ _ _ Hy Hy') as ->. eauto.
Qed.

Lemma same_tree_sym p x y : same_tree p x y -> same_tree p y x.
Proof. intros [->|(r & Hx & Hy)]; [by left | right; eauto]. Qed.

Lemma connected_incl E p :
  (forall x y, E x y -> same_tree p x y) -> forall x y, connected E x y -> same_tree p x y.
Proof.
  intros He x y H. induction H; eauto using same_tree_sym, same_tree_trans. by left.
Qed.

Lemma connected_mono (E E' : nat -> nat -> Prop) x y :
  (forall x y, E x y -> E' x y) -> connected E x y -> connected E' x y.
Proof.
  intros He H. induction H.
  - apply Relation_Operators.rst_step. auto.
  - apply Relation_Operators.rst_refl.
  - by apply Relation_Operators.rst_sym.
  - by eapply Relation_Operators.rst_trans.
Qed.

(** After the edges [E] were processed. *)
Definition uf_inv (n : nat) (p : list nat) (E : nat -> nat -> Prop) : Prop :=
  uf_ok n p /\ forall x y, same_tree p x y <-> connected E x y.

Lemma same_tree_same_roots p p' x y : same_roots p p' -> same_tree p x y <-> same_tree p' x y.
Proof.
  intros Hs. unfold same_tree. split; (intros [->|(r & Hx & Hy)]; [by left|]); right; exists r;
    by split; apply Hs.
Qed.

Lemma root_of_lookup p x : p !! x = Some x -> forall r, root_of p x r -> r = x.
Proof. intros Hx r Hr. eapply root_of_fun; [exact Hr | by constructor]. Qed.

(** Linking the roots of [i] and [j] adds the edge between them. *)
Lemma link_inv n p E E' i j ri rj :
  uf_inv n p E -> root_of p i ri -> root_of p j rj -> ri <> rj ->
  (forall x y, E' x y <-> E x y \/ (x = i /\ y = j)) ->
  uf_inv n (<[Nat.max ri rj := Nat.min ri rj]> p) E'.
Proof.
  intros [Hok Hinv] Hi Hj Hne HE.
  pose proof (root_is_root _ _ _ Hi) as Hri. pose proof (root_is_root _ _ _ Hj) as Hrj.
  set (hi := Nat.max ri rj). set (lo := Nat.min ri rj).
  assert (Hlo : p !! lo = Some lo) by (unfold lo; by destruct (Nat.min_spec ri rj) as [[_ ->]|[_ ->]]).
  assert (Hhi : p !! hi = Some hi) by (unfold hi; by destruct (Nat.max_spec ri rj) as [[_ ->]|[_ ->]]).
  destruct (link_roots n p lo hi Hok Hlo Hhi ltac:(unfold lo, hi; lia)) as [Hok' Hroots].
  split; [done|].
  assert (Hedge : same_tree (<[hi := lo]> p) i j).
  { assert (Hto : forall r, r = ri \/ r = rj -> (if decide (r = hi) then lo else r) = lo).
    { intros r Hr. unfold hi, lo in *. destruct (decide _); lia. }
    right. exists lo. split.
    - pose proof (Hroots _ _ Hi) as Hr. by rewrite Hto in Hr by tauto.
    - pose proof (Hroots _ _ Hj) as Hr. by rewrite Hto in Hr by tauto. }
  assert (Hkeep : forall x y, same_tree p x y -> same_tree (<[hi := lo]> p) x y).
  { intros x y [->|(r & Hx & Hy)]; [by left|]. right. eauto. }
  assert (Hij : connected E' i j) by (apply Relation_Operators.rst_step, HE; by right).
  assert (Hsub : forall x y, same_tree p x y -> connected E' x y).
  { intros x y Hxy. apply (connected_mono E); [intros; apply HE; by left|]. by apply Hinv. }
  intros x y. split.
  - intros [->|(r & Hx & Hy)]; [apply Relation_Operators.rst_refl|].
    assert (Hback : forall u, root_of (<[hi := lo]> p) u r -> exists ru, root_of p u ru /\
      r = if decide (ru = hi) then lo else ru).
    { intros u Hu. assert (u < n)%nat.
      { destruct Hok' as [<- _]. inversion Hu as [? Hl|? v ? Hl _ _]; subst; by eapply lookup_lt_Some. }
      destruct (root_of_exists n p u Hok) as [ru Hru]; [done|]. exists ru. split; [done|].
      eapply root_of_fun; [exact Hu | by apply Hroots]. }
    destruct (Hback x Hx) as (rx & Hrx & Ex). destruct (Hback y Hy) as (ry & Hry & Ey).
    (* either the same old tree, or one in each of the linked trees *)
    assert (Hcase : rx = ry \/ (rx = ri /\ ry = rj) \/ (rx = rj /\ ry = ri)).
    { clear Hroots. unfold hi, lo in *. destruct (decide (rx = _)), (decide (ry = _)); lia. }
    assert (Hin : forall u ru, root_of p u ru -> root_of p i ru -> connected E' u i).
    { intros u ru H1 H2. apply Hsub. right. eauto. }
    assert (Hjn : forall u ru, root_of p u ru -> root_of p j ru -> connected E' u j).
    { intros u ru H1 H2. apply Hsub. right. eauto. }
    destruct Hcase as [->|[[-> ->]|[-> ->]]].
    + apply Hsub. right. eauto.
    + eapply Relation_Operators.rst_trans; [by eapply Hin|].
      eapply Relation_Operators.rst_trans; [exact Hij|]. apply Relation_Operators.rst_sym. by eapply Hjn.
    + eapply Relation_Operators.rst_trans; [by eapply Hjn|].
      eapply Relation_Operators.rst_trans; [apply Relation_Operators.rst_sym, Hij|].
      apply Relation_Operators.rst_sym. by eapply Hin.
  - apply connected_incl. intros u v [Huv|[-> ->]]%HE; [|done]. apply Hkeep, Hinv.
    by apply Relation_Operators.rst_step.
Qed.

Lemma uf_inv_ext n p E E' :
  (forall x y, E x y <-> E' x y) -> uf_inv n p E -> uf_inv n p E'.
Proof.
  intros HE [Hok Hinv]. split; [done|]. intros x y. rewrite Hinv.
  split; apply connected_mono; intros u v; apply HE.
Qed.

Lemma uf_inv_redundant n p E E' i j :
  uf_inv n p E -> same_tree p i j -> (forall x y, E' x y <-> E x y \/ (x = i /\ y = j)) -> uf_inv n p E'.
Proof.
  intros [Hok Hinv] Hij HE. split; [done|]. intros x y. split.
  - intros Hxy. apply (connected_mono E); [intros; apply HE; by left|]. by apply Hinv.
  - apply connected_incl. intros u v [Huv|[-> ->]]%HE; [|done]. apply Hinv.
    by apply Relation_Operators.rst_step.
Qed.

Section Loops.
Context {T : Type} (intersect : T -> T -> bool).

Definition overlap (items : list T) (i j : nat) : Prop :=
  exists a b, items !! i = Some a /\ items !! j = Some b /\ intersect a b = true.

Lemma unite_spec items p E E' i j :
  uf_inv (length items) p E -> (i < length items)%nat -> (j < length items)%nat ->
  (forall x y, E' x y <-> E x y \/ (x = i /\ y = j /\ overlap items i j)) ->
  exists p', unite intersect items i j p = Some p' /\ uf_inv (length items) p' E'.
Proof.
  intros Hinv Hi Hj HE. unfold unite.
  destruct (lookup_lt_is_Some_2 items i Hi) as [a Ha]. destruct (lookup_lt_is_Some_2 items j Hj) as [b Hb].
  rewrite Ha, Hb. cbn [mbind option_bind]. destruct (intersect a b) eqn:Hab.
  2: { exists p. split; [done|]. apply (uf_inv_ext _ _ E); [|done]. intros x y. rewrite HE.
       split; [by left|]. intros [|(_ & _ & a' & b' & ? & ? & ?)]; [done | congruence]. }
  assert (HE' : forall x y, E' x y <-> E x y \/ (x = i /\ y = j)).
  { intros x y. rewrite HE. assert (overlap items i j) by (by exists a, b). tauto. }
  destruct (find_root_spec _ p i (proj1 Hinv) Hi) as (ri & p1 & -> & Hri & Hok1 & Hs1).
  cbn [mbind option_bind].
  destruct (find_root_spec _ p1 j Hok1 Hj) as (rj & p2 & -> & Hrj & Hok2 & Hs2).
  cbn [mbind option_bind].
  assert (Hinv2 : uf_inv (length items) p2 E).
  { split; [done|]. intros x y.
    rewrite <- (same_tree_same_roots p p2) by (by eapply same_roots_trans). apply Hinv. }
  assert (Hri2 : root_of p2 i ri) by (by apply Hs2, Hs1).
  assert (Hrj2 : root_of p2 j rj) by (by apply Hs2).
  destruct (Nat.eqb_spec ri rj) as [->|Hne].
  - exists p2. split; [done|]. apply (uf_inv_redundant _ _ E E' i j); [done | by right; eauto | done].
  - pose proof (lookup_lt_Some _ _ _ (root_is_root _ _ _ Hri2)).
    pose proof (lookup_lt_Some _ _ _ (root_is_root _ _ _ Hrj2)).
    rewrite at_set_some by lia. eexists. split; [done|]. by eapply link_inv.
Qed.

Lemma inner_loop_spec items i js p E :
  uf_inv (length items) p E -> (i < length items)%nat -> Forall (fun j => (j < length items)%nat) js ->
  exists p', inner_loop intersect items i js p = Some p' /\
    uf_inv (length items) p' (fun x y => E x y \/ (x = i /\ y ∈ js /\ overlap items x y)).
Proof.
  intros Hinv Hi Hjs. revert p E Hinv. induction Hjs as [|j js Hj Hjs IH]; intros p E Hinv; simpl.
  { exists p. split; [done|]. apply (uf_inv_ext _ _ E); [|done]. intros x y.
    split; [by left|]. intros [|(_ & Hy & _)]; [done|]. by apply not_elem_of_nil in Hy. }
  destruct (unite_spec items p E (fun x y => E x y \/ (x = i /\ y = j /\ overlap items i j)) i j Hinv Hi Hj
    ltac:(done)) as (p1 & -> & Hinv1). simpl.
  destruct (IH p1 _ Hinv1) as (p2 & -> & Hinv2). exists p2. split; [done|].
  eapply uf_inv_ext; [|exact Hinv2]. intros x y. simpl. rewrite elem_of_cons. naive_solver.
Qed.

Lemma outer_loop_spec items idxs p E :
  uf_inv (length items) p E -> Forall (fun i => (i < length items)%nat) idxs ->
  exists p', outer_loop intersect items idxs p = Some p' /\
    uf_inv (length items) p' (fun x y => E x y \/ (x ∈ idxs /\ (x < y)%nat /\ overlap items x y)).
Proof.
  intros Hinv Hi. revert p E Hinv. induction Hi as [|i idxs Hi Hidx IH]; intros p E Hinv; cbn [outer_loop].
  { exists p. split; [done|]. apply (uf_inv_ext _ _ E); [|done]. intros x y.
    split; [by left|]. intros [|(Hx & _)]; [done|]. by apply not_elem_of_nil in Hx. }
  destruct (inner_loop_spec items i (seq (S i) (length items - S i)) p E Hinv Hi) as (p1 & -> & Hinv1).
  { apply Forall_forall. intros j Hj. apply elem_of_seq in Hj. lia. }
  cbn [mbind option_bind].
  destruct (IH p1 _ Hinv1) as (p2 & -> & Hinv2). exists p2. split; [done|].
  eapply uf_inv_ext; [|exact Hinv2]. intros x y. simpl. rewrite elem_of_cons, elem_of_seq.
  assert (overlap items x y -> (y < length items)%nat).
  { intros (a & b & _ & Hb & _). by eapply lookup_lt_Some. }
  split; [naive_solver lia|]. intros [|([->|] & ? & ?)]; [tauto| |tauto].
  left. right. split; [done|]. split; [|done]. specialize (H H1). lia.
Qed.

Lemma init_inv n : uf_inv n (seq 0 n) (fun _ _ => False).
Proof.
  assert (Hl : forall x y, seq 0 n !! x = Some y -> y = x).
  { intros x y Hx. apply lookup_seq in Hx as [-> _]. done. }
  split.
  - split; [by rewrite length_seq|]. intros x y Hx. apply Hl in Hx. lia.
  - intros x y. split.
    + intros [->|(r & Hx & Hy)]; [apply Relation_Operators.rst_refl|].
      assert (Hself : forall u, root_of (seq 0 n) u r -> r = u).
      { intros u Hu. inversion Hu as [|? v ? Hv Hne _]; subst; [done|]. by apply Hl in Hv. }
      rewrite <- (Hself x Hx), <- (Hself y Hy). apply Relation_Operators.rst_refl.
    + by apply connected_incl.
Qed.

(** Connected through overlaps. *)
Definition linked (items : list T) : nat -> nat -> Prop :=
  connected (fun x y => (x < y)%nat /\ overlap items x y).

Lemma pair_loops_spec items :
  exists p, outer_loop intersect items (seq 0 (length items)) (seq 0 (length items)) = Some p /\
    uf_ok (length items) p /\ forall x y, same_tree p x y <-> linked items x y.
Proof.
  destruct (outer_loop_spec items (seq 0 (length items)) _ _ (init_inv (length items)))
    as (p & Hp & Hinv).
  { apply Forall_forall. intros i Hi. apply elem_of_seq in Hi. lia. }
  exists p. split; [done|]. apply (uf_inv_ext _ _ _ (fun x y => (x < y)%nat /\ overlap items x y)) in Hinv.
  - exact Hinv.
  - intros x y. rewrite elem_of_seq. assert (overlap items x y -> (x < length items)%nat).
    { intros (a & b & Ha & _). by eapply lookup_lt_Some. }
    split; [naive_solver|]. intros [? Ho]. right. specialize (H Ho). split_and!; [lia..|done].
Qed.
End Loops.

(** ** Collection *)

Section Collect.
Context {T : Type} (items : list T) (rho : nat -> nat).
Notation n := (length items).
Context (rho_le : forall x, (x < n)%nat -> (rho x <= x)%nat).
Context (rho_idem : forall x, (x < n)%nat -> rho (rho x) = rho x).

(** The roots below [i], ascending, and the members below [i] of a root. *)
Definition reps (i : nat) : list nat := filter (fun r => rho r = r) (seq 0 i).
Definition members (i r : nat) : list nat := filter (fun j => rho j = r) (seq 0 i).
Definition at_items (g : list nat) : list T := omap (fun j => items !! j) g.

Lemma reps_S i : reps (S i) = if decide (rho i = i) then reps i ++ [i] else reps i.
Proof.
  unfold reps. rewrite seq_S, filter_app. simpl. rewrite filter_cons, filter_nil.
  case_decide; [done | by rewrite app_nil_r].
Qed.

Lemma members_S i r : members (S i) r = if decide (rho i = r) then members i r ++ [i] else members i r.
Proof.
  unfold members. rewrite seq_S, filter_app. simpl. rewrite filter_cons, filter_nil.
  case_decide; [done | by rewrite app_nil_r].
Qed.

Lemma elem_of_reps i r : r ∈ reps i <-> rho r = r /\ (r < i)%nat.
Proof. unfold reps. rewrite list_elem_of_filter, elem_of_seq. lia. Qed.

Lemma elem_of_members i r j : j ∈ members i r <-> rho j = r /\ (j < i)%nat.
Proof. unfold members. rewrite list_elem_of_filter, elem_of_seq. lia. Qed.

Lemma reps_length i : (length (reps i) <= i)%nat.
Proof. unfold reps. etransitivity; [apply length_filter|]. by rewrite length_seq. Qed.

Lemma reps_nodup i : NoDup (reps i).
Proof. apply NoDup_filter, NoDup_seq. Qed.

(** A root sits at the position given by the roots before it. *)
Lemma reps_position i r : rho r = r -> (r < i)%nat -> reps i !! length (reps r) = Some r.
Proof.
  intros Hr Hi. unfold reps. rewrite (seq_split r i Hi), filter_app, filter_cons_True by done.
  by rewrite list_lookup_middle.
Qed.

Definition groups_at (i : nat) : list (list T) := (fun r => at_items (members i r)) <$> reps i.

Definition slot_ok (i : nat) (slot : list nat) : Prop :=
  length slot = n /\
  forall r, (r < n)%nat ->
    slot !! r = Some (if decide (rho r = r /\ (r < i)%nat) then length (reps r) else n).

(** Pushing item [i] into the group of its root. *)
Lemma groups_push i item k :
  (i < n)%nat -> items !! i = Some item -> reps (S i) !! k = Some (rho i) ->
  forall gs, gs = (if decide (rho i = i) then groups_at i ++ [[]] else groups_at i) ->
  exists g, gs !! k = Some g /\ <[k := g ++ [item]]> gs = groups_at (S i).
Proof.
  intros Hi Hitem Hk gs ->.
  assert (Hgs : (if decide (rho i = i) then groups_at i ++ [[]] else groups_at i) =
    (fun r => at_items (members i r)) <$> reps (S i)).
  { rewrite reps_S. case_decide as E; [|done]. rewrite fmap_app. csimpl. do 3 f_equal.
    unfold members. rewrite filter_none; [done|]. intros j Hj. apply elem_of_seq in Hj.
    pose proof (rho_le j ltac:(lia)). lia. }
  rewrite Hgs. exists (at_items (members i (rho i))).
  split; [by rewrite list_lookup_fmap, Hk|].
  apply list_eq. intros k'. unfold groups_at. rewrite list_lookup_fmap.
  destruct (decide (k' = k)) as [->|Hne].
  - rewrite list_lookup_insert_eq by (rewrite length_fmap; by eapply lookup_lt_Some).
    rewrite Hk. simpl. f_equal. rewrite members_S, decide_True by done.
    unfold at_items. rewrite omap_app. csimpl. by rewrite Hitem.
  - rewrite list_lookup_insert_ne, list_lookup_fmap by done.
    destruct (reps (S i) !! k') as [r|] eqn:Hr; [|done]. simpl. f_equal.
    rewrite members_S, decide_False; [done|]. intros Heq. subst r. apply Hne.
    eapply NoDup_lookup; [apply (reps_nodup (S i)) | done..].
Qed.

Lemma collect_step i p slot :
  (i < n)%nat -> uf_ok n p -> (forall x, (x < n)%nat -> root_of p x (rho x)) -> slot_ok i slot ->
  forall idxs, exists p' slot', uf_ok n p' /\ (forall x, (x < n)%nat -> root_of p' x (rho x)) /\
    slot_ok (S i) slot' /\
    collect_loop items (i :: idxs) p slot (groups_at i) =
    collect_loop items idxs p' slot' (groups_at (S i)).
Proof using rho_le rho_idem.
  intros Hi Hok Hroot [Hlen Hslot] idxs. cbn [collect_loop].
  destruct (find_root_spec n p i Hok Hi) as (r & p' & -> & Hr & Hok' & Hsame).
  rewrite (root_of_fun _ _ _ _ Hr (Hroot i Hi)). clear r Hr.
  pose proof (rho_le i Hi) as Hle. pose proof (rho_idem i Hi) as Hid.
  cbn [mbind option_bind]. rewrite Hslot by lia. cbn [mbind option_bind].
  destruct (lookup_lt_is_Some_2 items i Hi) as [item Hitem].
  assert (Hroot' : forall x, (x < n)%nat -> root_of p' x (rho x)).
  { intros x Hx. by apply Hsame, Hroot. }
  pose proof (reps_length (rho i)) as Hpos.
  destruct (decide (rho i = i)) as [Hself|Hother].
  - rewrite Hself, decide_False by lia. rewrite Nat.eqb_refl, at_set_some by lia.
    cbn [mbind option_bind]. rewrite list_lookup_insert_eq by lia. cbn [mbind option_bind].
    assert (Hlg : length (groups_at i) = length (reps i)) by (unfold groups_at; by rewrite length_fmap).
    rewrite Hlg.
    destruct (groups_push i item (length (reps i)) Hi Hitem) with (gs := groups_at i ++ [[]])
      as (g & Hg & Hins); [|by rewrite decide_True|].
    { rewrite Hself. apply reps_position; [done | lia]. }
    rewrite Hg. cbn [mbind option_bind]. rewrite Hitem. cbn [mbind option_bind]. rewrite Hins.
    exists p', (<[i := length (reps i)]> slot). split_and!; [done | done | | done].
    split; [by rewrite length_insert|]. intros r Hr. destruct (decide (r = i)) as [->|Hne].
    + by rewrite list_lookup_insert_eq, decide_True by lia.
    + rewrite list_lookup_insert_ne, Hslot by lia. f_equal.
      repeat case_decide; lia || done.
  - rewrite decide_True by lia. rewrite (proj2 (Nat.eqb_neq _ _)) by lia.
    cbn [mbind option_bind]. rewrite Hslot, decide_True by lia. cbn [mbind option_bind].
    destruct (groups_push i item (length (reps (rho i))) Hi Hitem) with (gs := groups_at i)
      as (g & Hg & Hins); [|by rewrite decide_False|].
    { apply reps_position; [done | lia]. }
    rewrite Hg. cbn [mbind option_bind]. rewrite Hitem. cbn [mbind option_bind]. rewrite Hins.
    exists p', slot. split_and!; [done | done | | done].
    split; [done|]. intros r Hr. rewrite Hslot by done. f_equal.
    repeat case_decide; try done; [lia|]. assert (r = i) by lia. subst. tauto.
Qed.

Lemma collect_spec k i p slot :
  (i + k = n)%nat -> uf_ok n p -> (forall x, (x < n)%nat -> root_of p x (rho x)) -> slot_ok i slot ->
  collect_loop items (seq i k) p slot (groups_at i) = Some (groups_at n).
Proof using rho_le rho_idem.
  revert i p slot. induction k as [|k IH]; intros i p slot Hik Hok Hroot Hslot.
  { simpl. by replace i with n by lia. }
  cbn [seq]. destruct (collect_step i p slot ltac:(lia) Hok Hroot Hslot (seq (S i) k))
    as (p' & slot' & Hok' & Hroot' & Hslot' & ->).
  apply IH; [lia | done..].
Qed.

(** The groups, as index lists. *)
Definition index_groups : list (list nat) := members n <$> reps n.

Lemma index_groups_partition : mjoin index_groups ≡ₚ seq 0 n.
Proof using rho_le rho_idem.
  apply NoDup_Permutation; [| apply NoDup_seq |].
  - unfold index_groups. pose proof (reps_nodup n) as Hnd. induction Hnd as [|r rs Hr Hnd IH]; [constructor|].
    csimpl. apply NoDup_app. split_and!; [apply NoDup_filter, NoDup_seq | | done].
    intros j Hj. apply elem_of_members in Hj as [Hj _]. rewrite list_elem_of_join.
    intros (g & Hjg & Hg). apply list_elem_of_fmap in Hg as (r' & -> & Hr').
    apply elem_of_members in Hjg as [Hj' _]. congruence.
  - intros j. rewrite list_elem_of_join, elem_of_seq. split.
    + intros (g & Hj & Hg). apply list_elem_of_fmap in Hg as (r & -> & _).
      apply elem_of_members in Hj. lia.
    + intros [_ Hj]. exists (members n (rho j)). split; [by apply elem_of_members|].
      apply list_elem_of_fmap. exists (rho j). split; [done|]. apply elem_of_reps.
      pose proof (rho_le j ltac:(lia)). split; [apply rho_idem; lia | lia].
Qed.
End Collect.

(** ** Ordering by priority *)

Section Order.
Context {T K : Type} (intersect : T -> T -> bool) (priority : T -> K) (klt : K -> K -> bool).
Context `{!StrictWeak klt}.

Lemma klt_irrefl k : klt k k = false.
Proof. destruct (klt k k) eqn:E; [|done]. by pose proof (sw_asym _ _ E); congruence. Qed.

Lemma fold_max_spec g best :
  let k := foldl (fun best item => max_priority klt best (priority item)) best g in
  klt k best = false /\ (k = best \/ exists item, item ∈ g /\ k = priority item) /\
  (forall item, item ∈ g -> klt k (priority item) = false).
Proof.
  revert best. induction g as [|x g IH]; intros best; simpl.
  { split_and!; [apply klt_irrefl | by left | intros ? Hi; by apply not_elem_of_nil in Hi]. }
  destruct (IH (max_priority klt best (priority x))) as (Hge & Hin & Hall).
  set (k := foldl _ _ _) in *. unfold max_priority in *.
  destruct (klt best (priority x)) eqn:E.
  - split_and!.
    + apply (sw_negtrans best (priority x) k); [by apply sw_asym | done].
    + right. destruct Hin as [->|(item & ? & ->)].
      * exists x. split; [apply list_elem_of_here | done].
      * exists item. split; [by apply list_elem_of_further | done].
    + intros item [->|Hi]%elem_of_cons; [done | by apply Hall].
  - split_and!; [done | |].
    + destruct Hin as [->|(item & ? & ->)]; [by left|]. right. exists item.
      split; [by apply list_elem_of_further | done].
    + intros item [->|Hi]%elem_of_cons; [|by apply Hall].
      by apply (sw_negtrans (priority x) best k).
Qed.

(** [k] is the priority of a member and no member's is higher. *)
Definition highest (g : list T) (k : K) : Prop :=
  (exists item, item ∈ g /\ k = priority item) /\
  forall item, item ∈ g -> klt k (priority item) = false.

Lemma group_key_spec g : g <> [] -> exists k, group_key priority klt g = Some k /\ highest g k.
Proof.
  destruct g as [|x g]; [done|]. intros _. unfold group_key. eexists. split; [reflexivity|].
  destruct (fold_max_spec (x :: g) (priority x)) as (_ & Hin & Hall).
  set (k := foldl _ _ _) in *. split; [|exact Hall].
  destruct Hin as [->|?]; [|done]. exists x. split; [apply list_elem_of_here | done].
Qed.

Lemma group_keys_spec i0 groups :
  Forall (fun g => g <> []) groups ->
  exists keys, group_keys priority klt i0 groups = Some keys /\
    StronglySorted (fun a b : K * nat => (a.2 < b.2)%nat) keys /\
    (snd <$> keys) = seq i0 (length groups) /\
    Forall2 (fun (kg : K * nat) g => highest g kg.1) keys groups.
Proof.
  intros Hne. revert i0. induction Hne as [|g groups Hg Hne IH]; intros i0; simpl.
  { exists []. split_and!; [done | constructor | done | constructor]. }
  destruct (group_key_spec g Hg) as (k & -> & Hk). destruct (IH (S i0)) as (keys & -> & Hs & Hi & Hh).
  simpl. eexists. split; [done|]. split_and!.
  - constructor; [done|]. apply Forall_forall. intros kg Hkg.
    assert (kg.2 ∈ snd <$> keys) as H2 by (apply list_elem_of_fmap; eauto).
    rewrite Hi in H2. apply elem_of_seq in H2. simpl. lia.
  - csimpl. by rewrite Hi.
  - by constructor.
Qed.

(** What the split promises, on the item indices of each group. *)
Definition good_split (items : list T) (gs : list (list nat)) : Prop :=
  mjoin gs ≡ₚ seq 0 (length items) /\
  (forall g, g ∈ gs -> g <> [] /\ StronglySorted lt g) /\
  (forall g i j, g ∈ gs -> i ∈ g -> (j < length items)%nat -> (j ∈ g <-> linked intersect items i j)) /\
  StronglySorted (fun g g' => exists k k',
    highest (at_items items g) k /\ highest (at_items items g') k' /\
    klt k k' = false /\
    (klt k' k = false -> forall i i', head g = Some i -> head g' = Some i' -> (i < i')%nat)) gs.

Lemma reps_sorted rho m : StronglySorted lt (reps rho m).
Proof. apply StronglySorted_filter_seq. Qed.

(** The first member of a group is its root. *)
Lemma members_head (items : list T) rho r :
  (forall x, (x < length items)%nat -> (rho x <= x)%nat) -> rho r = r -> (r < length items)%nat ->
  head (members rho (length items) r) = Some r.
Proof.
  intros Hle Hr Hn. unfold members. rewrite (seq_split r _ Hn), filter_app.
  rewrite (filter_none _ (seq 0 r)); [by rewrite filter_cons_True|].
  intros j Hj. apply elem_of_seq in Hj. pose proof (Hle j ltac:(lia)). lia.
Qed.

Lemma at_items_nonempty (items : list T) g i :
  i ∈ g -> (i < length items)%nat -> at_items items g <> [].
Proof.
  intros Hi Hn Heq. destruct (lookup_lt_is_Some_2 items i Hn) as [x Hx].
  apply (not_elem_of_nil x). rewrite <- Heq. apply list_elem_of_omap. eauto.
Qed.

(** Sorting the keys reorders the groups. *)
Lemma order_groups_spec (items : list T) (gs : list (list nat)) keys :
  StronglySorted (fun a b : K * nat => (a.2 < b.2)%nat) keys ->
  (snd <$> keys) = seq 0 (length gs) ->
  Forall2 (fun (kg : K * nat) g => highest (at_items items g) kg.1) keys gs ->
  exists sorted,
    mapM (fun kg : K * nat => ((at_items items) <$> gs) !! kg.2)
      (stable_sort (fun a b : K * nat => klt b.1 a.1) keys) = Some ((at_items items) <$> sorted) /\
    sorted ≡ₚ gs /\
    StronglySorted (fun g g' => exists k k' i i',
      highest (at_items items g) k /\ highest (at_items items g') k' /\
      gs !! i = Some g /\ gs !! i' = Some g' /\
      klt k k' = false /\ (klt k' k = false -> (i < i')%nat)) sorted.
Proof.
  intros Hs Hidx Hh.
  pose proof (stable_sort_stable (fun a b : K * nat => klt b.1 a.1) _ keys Hs) as Hstab.
  pose proof (stable_sort_perm (fun a b : K * nat => klt b.1 a.1) keys) as Hperm.
  set (sk := stable_sort _ keys) in *.
  assert (Hkey : forall kg, kg ∈ keys -> exists g, gs !! kg.2 = Some g /\ highest (at_items items g) kg.1).
  { intros kg [i Hi]%list_elem_of_lookup.
    destruct (Forall2_lookup_l _ _ _ _ _ Hh Hi) as (g & Hg & Hhi). exists g. split; [|done].
    assert (Hseq : (snd <$> keys) !! i = Some kg.2) by (by rewrite list_lookup_fmap, Hi).
    rewrite Hidx in Hseq. apply lookup_seq in Hseq as [-> _]. done. }
  set (sorted := omap (fun kg : K * nat => gs !! kg.2) sk).
  assert (HF : Forall2 (fun (kg : K * nat) g => gs !! kg.2 = Some g /\ highest (at_items items g) kg.1) sk sorted).
  { assert (Hin : forall kg, kg ∈ sk -> kg ∈ keys) by (intros kg; by rewrite Hperm).
    unfold sorted. clearbody sk. clear Hstab Hperm sorted. induction sk as [|kg sk IH]; [constructor|].
    destruct (Hkey kg (Hin kg (list_elem_of_here _ _))) as (g & Hg & Hk). csimpl. rewrite Hg.
    constructor; [done|]. apply IH. intros kg' Hkg'. apply Hin. by apply list_elem_of_further. }
  exists sorted. split_and!.
  - apply mapM_Some. apply Forall2_fmap_r. eapply Forall2_impl; [exact HF|].
    intros kg g [Hg _]. cbn. by rewrite list_lookup_fmap, Hg.
  - unfold sorted. rewrite Hperm. clear - Hidx Hkey.
    (* in input order the keys enumerate the groups *)
    assert (Hmap : omap (fun kg : K * nat => gs !! kg.2) keys = omap (fun i => gs !! i) (snd <$> keys)).
    { clear. induction keys as [|kg keys IH]; [done|]. csimpl. by rewrite IH. }
    rewrite Hmap, Hidx. clear. induction gs as [|g gs IH] using rev_ind; [done|].
    rewrite length_app, Nat.add_1_r, seq_S, omap_app. simpl.
    rewrite list_lookup_middle by done. f_equiv. rewrite <- IH at 2.
    apply reflexive_eq, list_omap_ext, Forall2_same_length_lookup_2; [done|].
    intros i a b Ha Hb. simplify_eq. apply lookup_seq in Ha as [-> Hlt]. simpl. by rewrite lookup_app_l.
  - eapply StronglySorted_Forall2; [exact HF | exact Hstab |].
    intros [k i] g [k' i'] g' [Hg Hk] [Hg' Hk'] [Hna Htie]. unfold not_after in Hna. simpl in *.
    exists k, k', i, i'. done.
Qed.
End Order.

(** ** The split *)

Section Split.
Context {T K : Type} (intersect : T -> T -> bool) (priority : T -> K) (klt : K -> K -> bool).
Context `{!StrictWeak klt}.

Lemma uf_root_function n p :
  uf_ok n p -> exists rho, (forall x, (x < n)%nat -> root_of p x (rho x)) /\
    (forall x, (x < n)%nat -> (rho x <= x)%nat) /\ (forall x, (x < n)%nat -> rho (rho x) = rho x).
Proof.
  intros Hok. exists (fun x => match find_root p x with Some (r, _) => r | None => x end).
  assert (Hr : forall x, (x < n)%nat -> root_of p x (match find_root p x with Some (r, _) => r | None => x end)).
  { intros x Hx. by destruct (find_root_spec n p x Hok Hx) as (r & p' & -> & Hr & _). }
  split_and!; [done | |].
  - intros x Hx. eapply root_of_le; [done|]. by apply Hr.
  - intros x Hx. pose proof (Hr x Hx) as H1. set (r := match find_root p x with Some (r, _) => r | None => x end) in *.
    pose proof (root_of_le n p x r Hok H1). eapply root_of_lookup; [by eapply root_is_root | apply Hr; lia].
Qed.

Lemma index_groups_good items p rho :
  uf_ok (length items) p ->
  (forall x y, same_tree p x y <-> linked intersect items x y) ->
  (forall x, (x < length items)%nat -> root_of p x (rho x)) ->
  (forall x, (x < length items)%nat -> (rho x <= x)%nat) ->
  (forall x, (x < length items)%nat -> rho (rho x) = rho x) ->
  forall g, g ∈ index_groups items rho ->
    g <> [] /\ StronglySorted lt g /\ at_items items g <> [] /\
    (forall i j, i ∈ g -> (j < length items)%nat -> (j ∈ g <-> linked intersect items i j)).
Proof.
  intros Hok Htree Hroot Hle Hid g Hg. apply list_elem_of_fmap in Hg as (r & -> & Hr).
  apply elem_of_reps in Hr as [Hr Hrn].
  assert (Hmem : r ∈ members rho (length items) r) by (by apply elem_of_members).
  split_and!.
  - intros Heq. rewrite Heq in Hmem. by apply not_elem_of_nil in Hmem.
  - apply StronglySorted_filter_seq.
  - by eapply at_items_nonempty.
  - intros i j Hi Hj. apply elem_of_members in Hi as [Hi Hin]. rewrite elem_of_members, <- Htree. split.
    + intros [Hjr _]. right. exists r. rewrite <- Hi at 1. rewrite <- Hjr. by split; apply Hroot.
    + intros [<-|(r' & H1 & H2)]; [done|]. split; [|done].
      rewrite (root_of_fun _ _ _ _ (Hroot j Hj) H2), <- (root_of_fun _ _ _ _ (Hroot i Hin) H1). done.
Qed.

Lemma independent_groups_good (items : list T) :
  exists gs, independent_groups intersect priority klt items = Some (at_items items <$> gs) /\
    good_split intersect priority klt items gs.
Proof using All.
  destruct (pair_loops_spec intersect items) as (p & Hp & Hok & Htree).
  destruct (uf_root_function _ p Hok) as (rho & Hroot & Hle & Hid).
  pose proof (index_groups_good items p rho Hok Htree Hroot Hle Hid) as Hgood.
  assert (Hcol : collect_loop items (seq 0 (length items)) p (replicate (length items) (length items)) []
    = Some (at_items items <$> index_groups items rho)).
  { unfold index_groups. rewrite <- list_fmap_compose.
    apply (collect_spec items rho Hle Hid (length items) 0 p); [done..|].
    split; [by rewrite length_replicate|]. intros r Hr. rewrite lookup_replicate_2 by done.
    by rewrite decide_False by lia. }
  destruct (group_keys_spec priority klt 0 (at_items items <$> index_groups items rho))
    as (keys & Hkeys & Hs & Hidx & Hh).
  { apply Forall_forall. intros g (g0 & -> & Hg0)%list_elem_of_fmap. by apply Hgood. }
  rewrite length_fmap in Hidx. rewrite Forall2_fmap_r in Hh.
  destruct (order_groups_spec priority klt items (index_groups items rho) keys Hs Hidx Hh)
    as (gs & Hm & Hperm & Hord).
  exists gs. split.
  { unfold independent_groups. cbv zeta. rewrite Hp. cbn [mbind option_bind].
    rewrite Hcol. cbn [mbind option_bind]. rewrite Hkeys. cbn [mbind option_bind]. exact Hm. }
  split_and!.
  - rewrite Hperm. by apply index_groups_partition.
  - intros g. rewrite Hperm. intros Hg. destruct (Hgood g Hg) as (? & ? & _). done.
  - intros g i j. rewrite Hperm. intros Hg. by apply Hgood.
  - refine (StronglySorted_Forall2 eq _ _ gs gs _ Hord _); [reflexivity|].
    intros g ? g' ? <- <- (k & k' & i & i' & Hk & Hk' & Hgi & Hgi' & Hna & Htie).
    exists k, k'. split_and!; [done..|]. intros Hkk j j' Hj Hj'. specialize (Htie Hkk).
    unfold index_groups in Hgi, Hgi'. rewrite list_lookup_fmap in Hgi, Hgi'.
    destruct (reps rho (length items) !! i) as [r|] eqn:Hr; [|done].
    destruct (reps rho (length items) !! i') as [r'|] eqn:Hr'; [|done]. simplify_eq/=.
    pose proof (list_elem_of_lookup_2 _ _ _ Hr) as [Hrr Hrn]%elem_of_reps.
    pose proof (list_elem_of_lookup_2 _ _ _ Hr') as [Hrr' Hrn']%elem_of_reps.
    rewrite members_head in Hj, Hj' by done. simplify_eq.
    exact (sorted_lookup lt _ i i' j j' (StronglySorted_filter_seq _ _ _) Hr Hr' Htie).
Qed.
(** C32. The spatial split always succeeds (the finds end, no array is
    indexed outside) and is right: it partitions the items; two items share a
    group exactly when a chain of overlaps links them; members keep the input
    order; groups come highest member priority first, and groups of equal
    priority in the order of their first members. *)
Theorem independent_groups_spec (items : list T) :
  exists gs, independent_groups intersect priority klt items = Some (at_items items <$> gs) /\
    good_split intersect priority klt items gs.
Proof using All. apply independent_groups_good. Qed.
End Split.

(** Three boxes on a line: the first and last touch the middle one only;
    another stands alone with a higher priority. *)
Lemma independent_groups_spec_witness :
  independent_groups (fun a b : Z => Z.abs (a - b) <=? 1) (fun a => a / 10) (fun a b => a <? b) [1; 3; 50; 2]
    = Some [[50]; [1; 3; 2]] /\
  exists gs, good_split (fun a b : Z => Z.abs (a - b) <=? 1) (fun a => a / 10) (fun a b => a <? b) [1; 3; 50; 2] gs.
Proof.
  split; [reflexivity|].
  destruct (independent_groups_spec (fun a b : Z => Z.abs (a - b) <=? 1) (fun a => a / 10) (fun a b => a <? b)
    [1; 3; 50; 2]) as (gs & _ & Hg).
  exists gs. exact Hg.
Defined.
