(* ===== verification/PropertyStore.v ===== *)
(** The property cache: [src/core/property_store.hpp] and
    [src/core/property_store.cpp].

    Per object, the list of its properties as the kernel reported them; names
    are resolved to ids by the first match. *)
From S2P Require Import Prelude DrmAbi PlaneRegistry.

Record PropertyInfo := mkInfo { pi_id : Z; pi_name : string; pi_value : Z; pi_flags : Z }.

(** [store_] *)
Abbreviation PropertyStore := (gmap Z (list PropertyInfo)).

Section Store.
Context `{abi : DrmAbi} `{kms : Kms}.

(** The loop of [cache_properties]: unreadable properties are skipped. *)
Definition property_infos (props : list (Z * Z)) : list PropertyInfo :=
  omap (fun pv => match drmModeGetProperty pv.1 with
                  | Some prop => Some (mkInfo pv.1 (prop_name prop) pv.2 (prop_flags prop))
                  | None => None
                  end) props.

Definition cache_properties (object_id : Z) (object_type : object_type) (e : errc)
    (s : PropertyStore) : expected unit * PropertyStore :=
  match drmModeObjectGetProperties object_id object_type with
  | None => (Unexp e, s)   (* [e]: errno *)
  | Some props => (Val tt, <[object_id := property_infos props]> s)
  end.

Definition find_property (name : string) (infos : list PropertyInfo) : option PropertyInfo :=
  snd <$> list_find (fun p => pi_name p = name) infos.

(** The three queries share the lookup. *)
Definition lookup_property {A} (f : PropertyInfo -> A) (object_id : Z) (name : string)
    (s : PropertyStore) : expected A :=
  match s !! object_id with
  | None => Unexp ENOENT
  | Some infos =>
      match find_property name infos with
      | Some p => Val (f p)
      | None => Unexp ENOENT
      end
  end.

Definition property_id (object_id : Z) (name : string) (s : PropertyStore) : expected Z :=
  lookup_property pi_id object_id name s.
Definition property_value (object_id : Z) (name : string) (s : PropertyStore) : expected Z :=
  lookup_property pi_value object_id name s.
Definition is_immutable (object_id : Z) (name : string) (s : PropertyStore) : expected bool :=
  lookup_property (fun p => has_flag (pi_flags p) DRM_MODE_PROP_IMMUTABLE) object_id name s.

Definition store_properties (object_id : Z) (s : PropertyStore) : option (list PropertyInfo) :=
  s !! object_id.
Definition store_clear (s : PropertyStore) : PropertyStore := ∅.

(** The constructor of the allocator caches every plane of the registry. *)
Definition cache_planes (planes : list PlaneCapabilities) (e : errc) (s : PropertyStore)
    : PropertyStore :=
  foldl (fun s p => (cache_properties (id p) OBJECT_PLANE e s).2) s planes.

(** ** What a query answers *)

Lemma find_property_spec name infos p :
  find_property name infos = Some p ->
  exists pre post, infos = pre ++ p :: post /\ pi_name p = name /\
    Forall (fun q => pi_name q <> name) pre.
Proof.
  unfold find_property. destruct (list_find _ infos) as [[i q]|] eqn:Hf; simpl; [|done].
  intros [= ->]. apply list_find_Some in Hf as (Hi & Hn & Hpre).
  exists (take i infos), (drop (S i) infos). split_and!; [|done|].
  - symmetry. by apply take_drop_middle.
  - apply Forall_forall. intros q (j & Hj)%list_elem_of_lookup.
    apply lookup_take_Some in Hj as [Hj Hji]. by apply (Hpre j q).
Qed.

Lemma property_infos_in object props i p :
  In (object, i) props -> drmModeGetProperty object = Some p ->
  mkInfo object (prop_name p) i (prop_flags p) ∈ property_infos props.
Proof.
  intros Hin Hp. apply list_elem_of_omap. exists (object, i). split; [by apply list_elem_of_In|].
  simpl. by rewrite Hp.
Qed.

(** After an object's properties were cached, a name is resolved
    exactly when the kernel lists a readable property with it, to the first such
    one, and all three queries answer from that one property; other objects'
    entries are untouched, and a failed query leaves the cache as it was. *)
Theorem cache_then_query (obj obj' : Z) (ty : object_type) (e : errc) (name : string) (s : PropertyStore) :
  let '(r, s') := cache_properties obj ty e s in
  (obj' <> obj -> s' !! obj' = s !! obj') /\
  match drmModeObjectGetProperties obj ty with
  | None => r = Unexp e /\ s' = s
  | Some props =>
      r = Val tt /\
      match find_property name (property_infos props) with
      | Some p => property_id obj name s' = Val (pi_id p) /\
          property_value obj name s' = Val (pi_value p) /\
          is_immutable obj name s' = Val (has_flag (pi_flags p) DRM_MODE_PROP_IMMUTABLE) /\
          pi_name p = name
      | None => property_id obj name s' = Unexp ENOENT /\
          (forall i v p, (i, v) ∈ props -> drmModeGetProperty i = Some p -> prop_name p <> name)
      end
  end.
Proof.
  unfold cache_properties. destruct (drmModeObjectGetProperties obj ty) as [props|]; [|done].
  split; [intros Hne; by rewrite lookup_insert_ne|]. split; [done|].
  unfold property_id, property_value, is_immutable, lookup_property. rewrite lookup_insert_eq.
  destruct (find_property name (property_infos props)) as [p|] eqn:Hf.
  - split_and!; [done..|]. by destruct (find_property_spec _ _ _ Hf) as (pre & post & _ & Hn & _).
  - split; [done|]. intros i v p Hin Hp Hn. unfold find_property in Hf.
    destruct (list_find _ (property_infos props)) as [[? ?]|] eqn:Hl; [done|].
    apply list_find_None in Hl. rewrite Forall_forall in Hl.
    apply (Hl (mkInfo i (prop_name p) v (prop_flags p))); [|done].
    by apply property_infos_in; [apply list_elem_of_In|].
Qed.
End Store.
