(* ===== verification/Atomic.v ===== *)
(** Atomic requests: [src/modeset/atomic.hpp] and [src/modeset/atomic.cpp].

    The libdrm request object and the kernel behind the ioctl are one
    interface, with the documented behaviour of the request (an append-only
    list with a cursor) as laws.  The debug trace ([trace_], [dump]) is left
    out: it is written only under an environment variable and only logged. *)
From S2P Require Import Prelude DrmAbi.

(** One (object, property, value) write. *)
Record Write := mkWrite { w_object : Z; w_property : Z; w_value : Z }.
#[global] Instance Write_eq_dec : EqDecision Write.
Proof. solve_decision. Defined.

Class Libdrm := {
  drmModeAtomicReq : Type;
  kernel : Type;
  (** What the request would send. *)
  contents : drmModeAtomicReq -> list Write;
  drmModeAtomicAlloc : option drmModeAtomicReq;
  (** A negative return is [-errno]. *)
  drmModeAtomicAddProperty : drmModeAtomicReq -> Write -> Z * drmModeAtomicReq;
  drmModeAtomicGetCursor : drmModeAtomicReq -> Z;
  drmModeAtomicSetCursor : drmModeAtomicReq -> Z -> drmModeAtomicReq;
  (** The ioctl: its return and [errno] after it. *)
  drmModeAtomicCommit : kernel -> drmModeAtomicReq -> Z -> Z * Z * kernel;
  contents_alloc : forall r, drmModeAtomicAlloc = Some r -> contents r = [];
  contents_add : forall r wr ret r', drmModeAtomicAddProperty r wr = (ret, r') ->
    contents r' = if ret <? 0 then contents r else contents r ++ [wr];
  cursor_spec : forall r, drmModeAtomicGetCursor r = Z.of_nat (length (contents r));
  contents_set_cursor : forall r c, 0 <= c <= Z.of_nat (length (contents r)) ->
    contents (drmModeAtomicSetCursor r c) = take (Z.to_nat c) (contents r)
}.

Section Atomic.
Context `{abi : DrmAbi} `{lib : Libdrm}.

(** [req_] is null when the allocation failed; [drm_fd_] may be -1. *)
Record AtomicRequest := mkRequest { req_ : option drmModeAtomicReq; drm_fd_ : Z }.

Definition new_request (fd : Z) : AtomicRequest := mkRequest drmModeAtomicAlloc fd.

Definition valid (r : AtomicRequest) : bool :=
  match req_ r with Some _ => 0 <=? drm_fd_ r | None => false end.

Definition add_property (obj prop val : Z) (r : AtomicRequest) : expected unit * AtomicRequest :=
  match req_ r with
  | None => (Unexp EBADF, r)
  | Some q =>
      let '(ret, q') := drmModeAtomicAddProperty q (mkWrite obj prop val) in
      let r' := mkRequest (Some q') (drm_fd_ r) in
      if ret <? 0 then (Unexp (errno_code (- ret)), r') else (Val tt, r')
  end.

Definition cursor (r : AtomicRequest) : Z :=
  match req_ r with Some q => drmModeAtomicGetCursor q | None => 0 end.

Definition rollback (c : Z) (r : AtomicRequest) : AtomicRequest :=
  match req_ r with
  | None => r
  | Some q => if c <? 0 then r else mkRequest (Some (drmModeAtomicSetCursor q c)) (drm_fd_ r)
  end.

Definition ioctl (r : AtomicRequest) (flags : Z) (k : kernel) : expected unit * kernel :=
  match req_ r with
  | None => (Unexp EBADF, k)
  | Some q =>
      if drm_fd_ r <? 0 then (Unexp EBADF, k)
      else
        let '(ret, errno, k') := drmModeAtomicCommit k q flags in
        if negb (ret =? 0)
        then (Unexp (errno_code (if ret <? 0 then - ret else errno)), k')
        else (Val tt, k')
  end.

(** The event bit is masked and TEST_ONLY added. *)
Definition test_flags (flags : Z) : Z :=
  Z.lor (Z.ldiff (u32 flags) DRM_MODE_PAGE_FLIP_EVENT) DRM_MODE_ATOMIC_TEST_ONLY.

Definition test_request (r : AtomicRequest) (flags : Z) (k : kernel) : expected unit * kernel :=
  ioctl r (test_flags flags) k.

Definition commit_request (r : AtomicRequest) (flags : Z) (k : kernel) : expected unit * kernel :=
  ioctl r flags k.

(** The writes a request carries. *)
Definition writes (r : AtomicRequest) : list Write :=
  match req_ r with Some q => contents q | None => [] end.

Lemma add_property_writes obj prop val r res r' :
  add_property obj prop val r = (res, r') ->
  drm_fd_ r' = drm_fd_ r /\
  (req_ r = None -> res = Unexp EBADF /\ r' = r) /\
  writes r' = if has_value res then writes r ++ [mkWrite obj prop val] else writes r.
Proof.
  unfold add_property, writes. destruct (req_ r) as [q|] eqn:Hq.
  - destruct (drmModeAtomicAddProperty q _) as [ret q'] eqn:Ha.
    pose proof (contents_add _ _ _ _ Ha) as Hc.
    destruct (ret <? 0); intros [= <- <-]; simpl; (split; [done|]; split; [done|]; exact Hc).
  - intros [= <- <-]. rewrite Hq. done.
Qed.

(** Any sequence of additions, failing ones included. *)
Fixpoint add_all (ws : list Write) (r : AtomicRequest) : AtomicRequest :=
  match ws with
  | [] => r
  | wr :: ws' => add_all ws' (add_property (w_object wr) (w_property wr) (w_value wr) r).2
  end.

Lemma add_all_prefix ws r : exists added, writes (add_all ws r) = writes r ++ added /\
  (req_ r = None -> req_ (add_all ws r) = None) /\ (req_ (add_all ws r) = None -> req_ r = None).
Proof.
  revert r. induction ws as [|[o p v] ws IH]; intros r; simpl.
  { exists []. by rewrite app_nil_r. }
  destruct (add_property o p v r) as [res r'] eqn:Ha. simpl.
  destruct (add_property_writes _ _ _ _ _ _ Ha) as (_ & Hnone & Hw).
  destruct (IH r') as (added & Hadd & Hn1 & Hn2).
  assert (Hsome : req_ r' = None -> req_ r = None).
  { unfold add_property in Ha. destruct (req_ r); [|done].
    destruct (drmModeAtomicAddProperty _ _) as [ret q']. by destruct (ret <? 0); injection Ha as <- <-. }
  exists ((if has_value res then [mkWrite o p v] else []) ++ added). split_and!.
  - rewrite Hadd, Hw. destruct (has_value res); simpl; [by rewrite <- app_assoc | done].
  - intros Hr. destruct (Hnone Hr) as [_ ->]. auto.
  - auto.
Qed.

(** C39. Rolling a request back to a cursor drops exactly what was
    added after the cursor was taken: whatever additions happened in between,
    refused ones included, the request carries the writes it carried then. *)
Theorem rollback_restores (r : AtomicRequest) (ws : list Write) :
  writes (rollback (cursor r) (add_all ws r)) = writes r.
Proof.
  destruct (add_all_prefix ws r) as (added & Hw & Hn1 & Hn2).
  unfold rollback, cursor. destruct (req_ r) as [q|] eqn:Hq.
  - destruct (req_ (add_all ws r)) as [q'|] eqn:Hq'; [|by specialize (Hn2 eq_refl)].
    unfold writes in *. rewrite Hq' in Hw. rewrite Hq in *. rewrite cursor_spec.
    rewrite (proj2 (Z.ltb_ge _ _)) by lia. simpl.
    rewrite contents_set_cursor by (rewrite Hw, length_app; lia).
    rewrite Nat2Z.id, Hw. apply take_app_length.
  - specialize (Hn1 eq_refl). rewrite Hn1. unfold writes. by rewrite Hn1, Hq.
Qed.

(** A TEST never asks for a page-flip event, always carries
    TEST_ONLY, and forwards every other flag bit of the caller's. *)
Theorem test_never_asks_for_event (flags : Z) (i : Z) :
  0 <= i -> Z.testbit DRM_MODE_PAGE_FLIP_EVENT i = true ->
  Z.testbit DRM_MODE_ATOMIC_TEST_ONLY i = false ->
  Z.testbit (test_flags flags) i = false /\
  (forall j, 0 <= j < 32 -> Z.testbit DRM_MODE_PAGE_FLIP_EVENT j = false ->
     Z.testbit (test_flags flags) j = Z.testbit flags j || Z.testbit DRM_MODE_ATOMIC_TEST_ONLY j) /\
  Z.land (test_flags flags) DRM_MODE_ATOMIC_TEST_ONLY = DRM_MODE_ATOMIC_TEST_ONLY.
Proof.
  intros Hi He Ht. unfold test_flags. split_and!.
  - by rewrite Z.lor_spec, Z.ldiff_spec, He, Ht, andb_false_r.
  - intros j Hj Hej. rewrite Z.lor_spec, Z.ldiff_spec, Hej, andb_true_r.
    unfold wrap. by rewrite Z.mod_pow2_bits_low by lia.
  - apply Z.bits_inj'. intros n Hn. rewrite Z.land_spec, Z.lor_spec.
    by destruct (Z.testbit DRM_MODE_ATOMIC_TEST_ONLY n); rewrite ?orb_true_r, ?andb_false_r.
Qed.
End Atomic.

(** A request as a plain list, and a kernel that answers by a function of the
    writes and the flags and counts the calls. *)
Definition list_libdrm (answer : list Write -> Z -> Z) : Libdrm.
Proof.
  refine {| drmModeAtomicReq := list Write; kernel := Z;
    contents := fun r => r; drmModeAtomicAlloc := Some [];
    drmModeAtomicAddProperty := fun r wr => (0, r ++ [wr]);
    drmModeAtomicGetCursor := fun r => Z.of_nat (length r);
    drmModeAtomicSetCursor := fun r c => take (Z.to_nat c) r;
    drmModeAtomicCommit := fun k r flags => (- answer r flags, 0, k + 1) |}.
  - by intros r [= <-].
  - intros r wr ret r' [= <- <-]. done.
  - done.
  - done.
Defined.

Lemma test_never_asks_for_event_witness :
  Z.testbit (@test_flags linux_abi 0x201) 0 = false /\ @test_flags linux_abi 0x201 = 0x300.
Proof.
  split; [|reflexivity].
  apply (@test_never_asks_for_event linux_abi 0x201 0); [lia | reflexivity | reflexivity].
Defined.
