(* ===== verification/Assignment.v ===== *)
(** Two containers of the allocator ([src/planes/allocator.hpp] and
    [src/planes/allocator.cpp]): [PlaneAssignment], a vector of (plane id,
    layer) used as a map, and [TestCache], the verdicts of past TEST commits. *)
From S2P Require Import Prelude.

(** ** PlaneAssignment *)

Module PA.
(** [entries_], in insertion order.  A layer pointer is a [positive]. *)
Abbreviation t := (list (Z * positive)).

Fixpoint find (plane_id : Z) (a : t) : option positive :=
  match a with
  | [] => None
  | e :: a' => if e.1 =? plane_id then Some e.2 else find plane_id a'
  end.

Definition count (plane_id : Z) (a : t) : bool :=
  match find plane_id a with Some _ => true | None => false end.

Fixpoint insert_or_assign (plane_id : Z) (layer : positive) (a : t) : t :=
  match a with
  | [] => [(plane_id, layer)]
  | e :: a' =>
      if e.1 =? plane_id then (e.1, layer) :: a' else e :: insert_or_assign plane_id layer a'
  end.

Fixpoint erase (plane_id : Z) (a : t) : t :=
  match a with
  | [] => []
  | e :: a' => if e.1 =? plane_id then a' else e :: erase plane_id a'
  end.

(** The loop [it = cond ? erase(it) : it + 1]. *)
Fixpoint erase_if (cond : Z * positive -> bool) (a : t) : t :=
  match a with
  | [] => []
  | e :: a' => if cond e then erase_if cond a' else e :: erase_if cond a'
  end.

(** ** It is a finite map *)

Definition as_map (a : t) : gmap Z positive := list_to_map a.

Inductive op :=
  | InsertOrAssign (plane_id : Z) (layer : positive)
  | Erase (plane_id : Z)
  | EraseLayer (layer : positive)
  | Clear.

Definition step (a : t) (o : op) : t :=
  match o with
  | InsertOrAssign p l => insert_or_assign p l a
  | Erase p => erase p a
  | EraseLayer l => erase_if (fun e => bool_decide (e.2 = l)) a
  | Clear => []
  end.

Definition map_step (m : gmap Z positive) (o : op) : gmap Z positive :=
  match o with
  | InsertOrAssign p l => <[p := l]> m
  | Erase p => delete p m
  | EraseLayer l => filter (fun e => e.2 <> l) m
  | Clear => ∅
  end.

Lemma find_as_map p a : find p a = as_map a !! p.
Proof.
  unfold as_map. induction a as [|[q l] a IH]; simpl; [done|].
  destruct (Z.eqb_spec q p) as [->|Hne]; [by rewrite lookup_insert_eq | by rewrite lookup_insert_ne].
Qed.

Lemma count_true p a : count p a = true <-> p ∈ a.*1.
Proof.
  unfold count. rewrite find_as_map.
  destruct (as_map a !! p) eqn:E.
  - split; [|done]. intros _. apply elem_of_list_to_map_2 in E.
    apply list_elem_of_fmap. by eexists (_, _).
  - apply not_elem_of_list_to_map in E. split; [done|]. by intros ?.
Qed.

Lemma insert_keys p l a :
  (insert_or_assign p l a).*1 = if count p a then a.*1 else a.*1 ++ [p].
Proof.
  induction a as [|[q k] a IH]; [done|]. unfold count in *. csimpl.
  destruct (Z.eqb_spec q p) as [->|Hne]; [done|]. csimpl. rewrite IH. by destruct (find p a).
Qed.

Lemma insert_fresh p l a : p ∉ a.*1 -> insert_or_assign p l a = a ++ [(p, l)].
Proof.
  induction a as [|[q m] a IH]; [done|]. csimpl. intros Hp. cbn [insert_or_assign fst].
  rewrite (proj2 (Z.eqb_neq _ _)) by (intros ->; set_solver). by rewrite IH by set_solver.
Qed.

Lemma insert_nodup p l a : NoDup a.*1 -> NoDup (insert_or_assign p l a).*1.
Proof.
  intros Ha. rewrite insert_keys. destruct (count p a) eqn:E; [done|].
  apply NoDup_app. split_and!; [done | | apply NoDup_singleton].
  intros q Hq ->%list_elem_of_singleton. apply count_true in Hq. congruence.
Qed.

Lemma insert_as_map p l a : as_map (insert_or_assign p l a) = <[p := l]> (as_map a).
Proof.
  unfold as_map. induction a as [|[q k] a IH]; simpl; [done|].
  destruct (Z.eqb_spec q p) as [->|Hne]; simpl.
  - by rewrite insert_insert_eq.
  - rewrite IH. by rewrite insert_insert_ne.
Qed.

Lemma erase_if_filter c a : erase_if c a = filter (fun e => c e = false) a.
Proof.
  induction a as [|e a IH]; [done|]. cbn [erase_if]. rewrite filter_cons, <- IH.
  destruct (c e) eqn:E; [by rewrite decide_False by congruence | by rewrite decide_True].
Qed.

Lemma erase_filter p a : NoDup a.*1 -> erase p a = filter (fun e => e.1 <> p) a.
Proof.
  induction a as [|[q l] a IH]; [done|]. intros Hnd. cbn [erase]. rewrite filter_cons. cbn [fst].
  apply NoDup_cons in Hnd as [Hq Hnd]. destruct (Z.eqb_spec q p) as [->|Hne].
  - rewrite decide_False by auto. symmetry. apply filter_every. intros [r k] Hr Heq. simpl in Heq.
    subst. apply Hq. apply list_elem_of_fmap. by exists (p, k).
  - by rewrite decide_True, IH.
Qed.

Lemma filter_keys_nodup (P : Z * positive -> Prop) `{forall x, Decision (P x)} (a : t) :
  NoDup a.*1 -> NoDup (filter P a).*1.
Proof.
  induction a as [|e a IH]; [done|]. intros [He Hnd]%NoDup_cons. rewrite filter_cons.
  destruct (decide (P e)); [|by apply IH]. csimpl. apply NoDup_cons. split; [|by apply IH].
  intros (e' & Heq & Hin)%list_elem_of_fmap. apply He. rewrite Heq. apply list_elem_of_fmap.
  exists e'. split; [done|]. by apply list_elem_of_filter in Hin as [_ ?].
Qed.

Lemma filter_as_map (P : Z * positive -> Prop) `{forall x, Decision (P x)} (a : t) :
  NoDup a.*1 -> as_map (filter P a) = filter P (as_map a).
Proof.
  intros Hnd. apply map_eq. intros p. apply option_eq. intros l. unfold as_map.
  rewrite map_lookup_filter_Some, <- !elem_of_list_to_map by (try apply filter_keys_nodup; done).
  rewrite list_elem_of_filter. tauto.
Qed.

Lemma as_map_size a : NoDup a.*1 -> size (as_map a) = length a.
Proof.
  induction a as [|[p l] a IH]; [done|]. intros [Hp Hnd]%NoDup_cons. unfold as_map in *. simpl.
  rewrite map_size_insert_None by by apply not_elem_of_list_to_map_1. by rewrite IH.
Qed.

Lemma step_spec a o :
  NoDup a.*1 -> NoDup (step a o).*1 /\ as_map (step a o) = map_step (as_map a) o.
Proof.
  intros Ha. destruct o as [p l|p|l|]; simpl.
  - split; [by apply insert_nodup | apply insert_as_map].
  - rewrite erase_filter by done. split; [by apply filter_keys_nodup|].
    rewrite filter_as_map by done. apply map_eq. intros q. apply option_eq. intros k.
    rewrite map_lookup_filter_Some, lookup_delete_Some. simpl. naive_solver.
  - rewrite erase_if_filter. split; [by apply filter_keys_nodup|]. rewrite filter_as_map by done.
    apply map_filter_ext. intros q k _. simpl. by rewrite bool_decide_eq_false.
  - split; [constructor | done].
Qed.

(** Whatever is inserted, reassigned and erased, the vector behaves as
    the finite map of those operations: it never holds two entries for one
    plane, [find] and [count] read the map, and [size] is the map's size. *)
Theorem refines_map (ops : list op) (p : Z) :
  let a := foldl step [] ops in
  let m := foldl map_step ∅ ops in
  NoDup a.*1 /\ find p a = m !! p /\ count p a = bool_decide (is_Some (m !! p)) /\
  length a = size m.
Proof.
  cut (NoDup (foldl step [] ops).*1 /\ as_map (foldl step [] ops) = foldl map_step ∅ ops).
  { intros [Hnd Hm]. cbv zeta. rewrite <- Hm. split_and!; [done | apply find_as_map | |].
    - unfold count. rewrite find_as_map. by destruct (as_map _ !! p).
    - by rewrite as_map_size. }
  assert (H0 : NoDup (([] : t).*1) /\ as_map [] = (∅ : gmap Z positive)) by (split; [constructor | done]).
  revert H0. generalize (∅ : gmap Z positive). generalize ([] : t).
  induction ops as [|o ops IH]; intros a m [Ha Hm]; simpl; [done|].
  apply IH. destruct (step_spec a o Ha) as [Hnd Heq]. split; [done|]. by rewrite Heq, Hm.
Qed.
End PA.

Abbreviation PlaneAssignment := PA.t.

(** ** TestCache *)

Module TestCache.
Record Entry := mkEntry { passed : bool; failures : Z }.

(** [cache_], by (plane id, property hash). *)
Definition t : Type := gmap (Z * Z) Entry.

Definition lookup (plane_id prop_hash : Z) (c : t) : option bool :=
  passed <$> (c : gmap (Z * Z) Entry) !! (plane_id, prop_hash).

Definition record (plane_id prop_hash : Z) (ok : bool) (c : t) : t :=
  let entry := default (mkEntry false 0) ((c : gmap (Z * Z) Entry) !! (plane_id, prop_hash)) in
  <[(plane_id, prop_hash) := mkEntry ok (if ok then failures entry else u64 (failures entry + 1))]>
    (c : gmap (Z * Z) Entry).

Definition failure_count (plane_id prop_hash : Z) (c : t) : Z :=
  match (c : gmap (Z * Z) Entry) !! (plane_id, prop_hash) with
  | Some e => if passed e then 0 else failures e
  | None => 0
  end.

Definition clear (c : t) : t := ∅.

Definition empty : t := ∅.

Definition record_all (log : list (Z * Z * bool)) (c : t) : t :=
  foldl (fun c e => record e.1.1 e.1.2 e.2 c) c log.

(** The verdicts recorded for one pair, oldest first. *)
Definition verdicts (p h : Z) (log : list (Z * Z * bool)) : list bool :=
  omap (fun e => if bool_decide (e.1 = (p, h)) then Some e.2 else None) log.

Definition failed (l : list bool) : Z := Z.of_nat (length (filter (fun b => b = false) l)).

Lemma failed_snoc l b : failed (l ++ [b]) = failed l + (if b then 0 else 1).
Proof. unfold failed. rewrite filter_app, length_app, Nat2Z.inj_add. by destruct b. Qed.

Lemma verdicts_snoc p h log e :
  verdicts p h (log ++ [e]) = verdicts p h log ++ (if bool_decide (e.1 = (p, h)) then [e.2] else []).
Proof. unfold verdicts. rewrite omap_app. simpl. by destruct (bool_decide _). Qed.

Lemma verdicts_length p h log : (length (verdicts p h log) <= length log)%nat.
Proof.
  unfold verdicts. induction log as [|e log IH]; [done|]. cbn [omap list_omap].
  destruct (bool_decide _); simpl; lia.
Qed.

Lemma record_all_entry log p h :
  (record_all log empty : gmap (Z * Z) Entry) !! (p, h) =
  b ← last (verdicts p h log); Some (mkEntry b (u64 (failed (verdicts p h log)))).
Proof.
  induction log as [|[[q k] ok] log IH] using rev_ind; [done|].
  unfold record_all in *. rewrite foldl_app, verdicts_snoc. cbn [foldl fst snd]. unfold record at 1.
  destruct (decide ((q, k) = (p, h))) as [[= -> ->]|Hne].
  - rewrite lookup_insert_eq, bool_decide_eq_true_2 by done. rewrite last_snoc, failed_snoc, IH.
    cbn [mbind option_bind]. do 2 f_equal.
    destruct (verdicts p h log) as [|b l] using rev_ind; cbn; [by destruct ok|].
    rewrite last_snoc. cbn. destruct ok; [by rewrite Z.add_0_r|].
    unfold wrap. by rewrite Zplus_mod_idemp_l.
  - rewrite lookup_insert_ne by done. rewrite bool_decide_eq_false_2 by done. by rewrite app_nil_r.
Qed.

(** The verdict looked up for a (plane, hash) pair is the last
    one recorded; its failure count is zero after a success, however many
    failures came before, and otherwise counts every failure recorded for the
    pair since the cache was emptied and no success. *)
Theorem last_verdict_and_count (log : list (Z * Z * bool)) (p h : Z) :
  Z.of_nat (length log) < 2 ^ 64 ->
  let c := record_all log empty in
  lookup p h c = last (verdicts p h log) /\
  failure_count p h c =
    (if decide (last (verdicts p h log) = Some false) then failed (verdicts p h log) else 0) /\
  lookup p h (clear c) = None /\ failure_count p h (clear c) = 0.
Proof.
  intros Hlen c. unfold lookup, failure_count, c. rewrite record_all_entry.
  split_and!; [by destruct (last _) | | done | done].
  destruct (last (verdicts p h log)) as [[]|] eqn:E; cbn [mbind option_bind passed failures]; [done| |done].
  rewrite decide_True by done. apply wrap_small. unfold in_u, failed. split; [lia|].
  pose proof (length_filter (fun b => b = false) (verdicts p h log)).
  pose proof (verdicts_length p h log). lia.
Qed.

Lemma last_verdict_and_count_witness :
  lookup 31 7 (record_all [(31, 7, false); (31, 7, false)] empty) = Some false /\
  failure_count 31 7 (record_all [(31, 7, false); (31, 7, true)] empty) = 0.
Proof.
  split.
  - apply (last_verdict_and_count [(31, 7, false); (31, 7, false)] 31 7). simpl. lia.
  - apply (last_verdict_and_count [(31, 7, false); (31, 7, true)] 31 7). simpl. lia.
Defined.
End TestCache.
