(* ===== verification/Scoring.v ===== *)
(** The pure half of [src/planes/allocator.cpp]: which plane can take which
    layer, how good a pair is, and the two placement orders built from that
    (the bipartite preseed and the ranked candidates), with the spatial split. *)
From S2P Require Import Prelude DrmAbi FormatMod PlaneRegistry Matching Layer Output LayerGroups.
From S2P Require Import Assignment.

(** The allocator only follows pointers of live layers (see [Output.v]); a
    dangling one would read as a default layer here. *)
Definition lay (hp : heap) (p : positive) : Layer := default new_layer (hp !! p).

(** ** Priorities *)

Definition layer_priority (l : Layer) : Z :=
  if bool_decide (content_type_ l = Video) then 100
  else if 30 <? update_hz_ l then 80
  else if 0 <? update_hz_ l then 50
  else 10.

Definition keep_priority (l : Layer) : Z := layer_priority l * 256 + app_priority_ l.

Definition bandwidth_class_bonus (cls : BandwidthClass) : Z :=
  match cls with Compression => 2 | Tiling => 1 | Linear => 0 end.

Definition cost_bias (scanout_bytes : Z) : Z :=
  let k_mb := 1024 * 1024 in
  if 16 * k_mb <=? scanout_bytes then 3
  else if 4 * k_mb <=? scanout_bytes then 2
  else if k_mb <=? scanout_bytes then 1
  else 0.

(** ** Geometry *)

(** In [int64_t], where [int32_t] plus [uint32_t] cannot overflow. *)
Definition layers_intersect (a b : Layer) : bool :=
  let ra := crtc_rect a in
  let rb := crtc_rect b in
  (rx rb <? rx ra + rw ra) && (rx ra <? rx rb + rw rb) &&
  (ry rb <? ry ra + rh ra) && (ry ra <? ry rb + rh rb).

Section Scoring.
Context `{abi : DrmAbi} `{cpp : CppStd}.

(** ** Static compatibility *)

Definition plane_statically_compatible (plane : PlaneCapabilities) (layer : Layer) (crtc_index : Z)
    : bool :=
  if force_composited_ layer || transient_composited_ layer then false
  else if negb (compatible_with_crtc plane crtc_index) then false
  else
    match format layer with
    | None => false
    | Some fmt =>
        if negb (layer_fits_plane (format_table plane) fmt (layer_modifier layer)) then false
        else if negb (rotation layer =? 0)
                && negb (Z.land (rotation_bits plane) (rotation layer) =? rotation layer) then false
        else if requires_scaling layer && negb (supports_scaling plane) then false
        else if bool_decide (type_ plane = CURSOR) then
          if (0 <? cursor_max_w plane) && (cursor_max_w plane <? width layer) then false
          else if (0 <? cursor_max_h plane) && (cursor_max_h plane <? height layer) then false
          else true
        else true
    end.

Definition any_compatible (planes : list PlaneCapabilities) (layer : Layer) (crtc_index : Z) : bool :=
  existsb (fun p => plane_statically_compatible p layer crtc_index) planes.

Fixpoint static_upper_bound (hp : heap) (remaining_layers : list positive)
    (available_planes : list PlaneCapabilities) (crtc_index : Z) : Z :=
  match remaining_layers with
  | [] => 0
  | l :: rest =>
      (if any_compatible available_planes (lay hp l) crtc_index then 1 else 0)
      + static_upper_bound hp rest available_planes crtc_index
  end.

(** ** Scores *)

(** What [score_pair] reads of the allocator. *)
Record Warm := mkWarm {
  w_previous_valid : bool;
  w_previous : PlaneAssignment;
  w_failures : TestCache.t
}.

Definition warm_stability_bonus : Z := 100.

Definition score_pair (w : Warm) (hp : heap) (plane : PlaneCapabilities) (lp : positive) : Z :=
  let layer := lay hp lp in
  let s := 0 in
  let s := match format layer with
           | Some fmt =>
               if layer_fits_plane (format_table plane) fmt (layer_modifier layer) then s + 4 else s
           | None => s
           end in
  let s := if is_composition_layer_ layer && bool_decide (type_ plane = PRIMARY) then s + 8 else s in
  let s :=
    if negb (is_composition_layer_ layer) && bool_decide (type_ plane = PRIMARY) then
      match property Zpos layer with
      | Some z =>
          if bool_decide (zpos_min plane = Some z) then s + 10
          else if bool_decide (zpos_min plane = None) && (z =? 0) then s + 10
          else s
      | None => s
      end
    else s in
  let s :=
    if negb (is_composition_layer_ layer) && bool_decide (type_ plane = OVERLAY) then
      let s := s + 2 in
      match property Zpos layer with
      | Some z => if bool_decide (zpos_min plane = None) && (0 <? z) then s + 8 else s
      | None => s
      end
    else s in
  let s := match format layer with
           | Some fmt =>
               let cls := bandwidth_class plane (layer_modifier layer) in
               s + bandwidth_class_bonus cls
                 + cost_bias (scanout_cost_bytes (width layer) (height layer) fmt cls ratio_default)
           | None => s
           end in
  let s := s + layer_priority layer / 10 in
  let s :=
    if w_previous_valid w then
      match PA.find (id plane) (w_previous w) with
      | Some l => if bool_decide (l = lp) then s + warm_stability_bonus else s
      | None => s
      end
    else s in
  s - to_i32 (TestCache.failure_count (id plane) (compute_hash layer) (w_failures w)).

(** ** The bipartite preseed *)

(** The edges, in the order of the double loop. *)
Definition preseed_edges (w : Warm) (hp : heap) (layers : list positive)
    (planes : list PlaneCapabilities) (crtc_index : Z) : list (nat * nat * Z) :=
  mjoin (imap (fun i l =>
    mjoin (imap (fun j p =>
      if plane_statically_compatible p (lay hp l) crtc_index
      then [(i, j, score_pair w hp p l)] else []) planes)) layers).

(** [scratch_matching_] is a member reused across calls; [reset] forgets what
    was in it ([Matching.reset_is_construct]). *)
Definition preseed_solve (w : Warm) (hp : heap) (layers : list positive)
    (planes : list PlaneCapabilities) (crtc_index : Z) : option BipartiteMatching :=
  m ← add_edges (reset (construct 0 0) (length layers) (length planes))
        (preseed_edges w hp layers planes crtc_index);
  snd <$> solve m.

(** The reading loop, [layers.at(i)] and [planes.at(m)] included. *)
Definition preseed_pairs (m : BipartiteMatching) (layers : list positive)
    (planes : list PlaneCapabilities) : option (list (positive * PlaneCapabilities)) :=
  mapM (fun uv => l ← layers !! uv.1; p ← planes !! uv.2; Some (l, p))
    (omap (fun i => pair i <$> match_for_left m i) (seq 0 (length layers))).

Definition bipartite_preseed_group (w : Warm) (hp : heap) (layers : list positive)
    (planes : list PlaneCapabilities) (crtc_index : Z)
    : option (list (positive * PlaneCapabilities)) :=
  if bool_decide (layers = []) || bool_decide (planes = []) then Some []
  else
    m ← preseed_solve w hp layers planes crtc_index;
    preseed_pairs m layers planes.

(** ** The ranked candidates *)

Record CandidatePair := mkCandidate {
  c_plane : PlaneCapabilities; c_layer : positive; c_score : Z }.

Definition candidates (w : Warm) (hp : heap) (layers : list positive)
    (planes : list PlaneCapabilities) (crtc_index : Z) : list CandidatePair :=
  mjoin ((fun p =>
    omap (fun l => if plane_statically_compatible p (lay hp l) crtc_index
                   then Some (mkCandidate p l (score_pair w hp p l)) else None) layers) <$> planes).

Definition rank_candidates_group (w : Warm) (hp : heap) (layers : list positive)
    (planes : list PlaneCapabilities) (crtc_index : Z) : list CandidatePair :=
  std_sort (fun a b => c_score b <? c_score a) (candidates w hp layers planes crtc_index).

(** ** The victim of the partial fallback *)

Definition compatible_count (planes : list PlaneCapabilities) (layer : Layer) (crtc_index : Z) : Z :=
  Z.of_nat (length (filter (fun p => plane_statically_compatible p layer crtc_index = true) planes)).

Definition SIZE_MAX : Z := 2 ^ 64 - 1.
Definition INT_MAX : Z := 2 ^ 31 - 1.

Fixpoint pick_loop (hp : heap) (layers : list positive) (planes : list PlaneCapabilities)
    (crtc_index : Z) (worst : option positive) (worst_count worst_keep : Z) : option positive :=
  match layers with
  | [] => worst
  | l :: rest =>
      let count := compatible_count planes (lay hp l) crtc_index in
      let keep := keep_priority (lay hp l) in
      if (count <? worst_count) || ((count =? worst_count) && (keep <? worst_keep))
      then pick_loop hp rest planes crtc_index (Some l) count keep
      else pick_loop hp rest planes crtc_index worst worst_count worst_keep
  end.

Definition pick_most_constrained (hp : heap) (layers : list positive)
    (planes : list PlaneCapabilities) (crtc_index : Z) : option positive :=
  pick_loop hp layers planes crtc_index None SIZE_MAX INT_MAX.

(** ** The spatial split, by overlap and [keep_priority] *)

Definition split_independent_groups (hp : heap) (layers : list positive)
    : option (list (list positive)) :=
  if bool_decide (layers = []) then Some []
  else independent_groups (fun a b => layers_intersect (lay hp a) (lay hp b))
         (fun l => keep_priority (lay hp l)) Z.ltb layers.
End Scoring.

(** ** Priorities are lexicographic *)

Lemma layer_priority_range l : 10 <= layer_priority l <= 100.
Proof. unfold layer_priority. repeat case_match; lia. Qed.

(** [keep_priority] orders layers by content class first and by the
    application's hint (a byte) only within a class, and fits an [int]. *)
Theorem keep_priority_lexicographic (a b : Layer) :
  in_u 8 (app_priority_ a) -> in_u 8 (app_priority_ b) ->
  (keep_priority a < keep_priority b <->
   layer_priority a < layer_priority b \/
   (layer_priority a = layer_priority b /\ app_priority_ a < app_priority_ b)) /\
  0 <= keep_priority a <= INT_MAX.
Proof.
  unfold in_u, keep_priority, INT_MAX. intros Ha Hb.
  pose proof (layer_priority_range a). pose proof (layer_priority_range b). lia.
Qed.

Lemma keep_priority_lexicographic_witness :
  let video := set_content_type Video new_layer in
  let idle := set_app_priority 255 new_layer in
  keep_priority idle < keep_priority video.
Proof.
  intros video idle. apply (keep_priority_lexicographic idle video).
  - unfold in_u. simpl. lia.
  - unfold in_u. simpl. lia.
  - left. reflexivity.
Defined.

(** ** Overlap is sharing a pixel *)

Definition in_rect (r : Rect) (x y : Z) : Prop :=
  rx r <= x < rx r + rw r /\ ry r <= y < ry r + rh r.

Lemma layers_intersect_sym a b : layers_intersect a b = layers_intersect b a.
Proof.
  unfold layers_intersect. cbv zeta. apply eq_bool_prop_intro. rewrite !Is_true_true.
  rewrite !andb_true_iff, !Z.ltb_lt. lia.
Qed.

Lemma layers_intersect_pixel a b x y :
  in_rect (crtc_rect a) x y -> in_rect (crtc_rect b) x y -> layers_intersect a b = true.
Proof.
  unfold in_rect, layers_intersect. cbv zeta. intros [Hax Hay] [Hbx Hby].
  rewrite !andb_true_iff, !Z.ltb_lt. lia.
Qed.

(** For layers with a size, that is all it is. *)
Lemma layers_intersect_iff a b :
  0 < rw (crtc_rect a) -> 0 < rh (crtc_rect a) -> 0 < rw (crtc_rect b) -> 0 < rh (crtc_rect b) ->
  layers_intersect a b = true <->
  exists x y, in_rect (crtc_rect a) x y /\ in_rect (crtc_rect b) x y.
Proof.
  intros Ha1 Ha2 Hb1 Hb2. split.
  - unfold layers_intersect, in_rect. cbv zeta. intros Hi. bool_simpl.
    exists (Z.max (rx (crtc_rect a)) (rx (crtc_rect b))), (Z.max (ry (crtc_rect a)) (ry (crtc_rect b))).
    lia.
  - intros (x & y & Hx & Hy). by eapply layers_intersect_pixel.
Qed.

(** ** The spatial split *)

Lemma at_items_elem {A} (items : list A) g x :
  x ∈ at_items items g <-> exists i, i ∈ g /\ items !! i = Some x.
Proof. unfold at_items. rewrite list_elem_of_omap. done. Qed.

Lemma at_items_all {A} (items : list A) : at_items items (seq 0 (length items)) = items.
Proof.
  unfold at_items. induction items as [|x l IH] using rev_ind; [done|].
  rewrite length_app, Nat.add_1_r, seq_S, omap_app. simpl. rewrite list_lookup_middle by done.
  f_equal. rewrite <- IH at 2. apply list_omap_ext, Forall2_same_length_lookup_2; [done|].
  intros i a b Ha Hb. simplify_eq. apply lookup_seq in Ha as [-> Hlt]. by rewrite lookup_app_l.
Qed.

Lemma at_items_mjoin {A} (items : list A) gs : mjoin (at_items items <$> gs) = at_items items (mjoin gs).
Proof. unfold at_items. induction gs as [|g gs IH]; [done|]. csimpl. by rewrite omap_app, IH. Qed.

(** A duplicate-free concatenation keeps its parts apart. *)
Lemma mjoin_apart {A} (gs : list (list A)) i j g g' x :
  NoDup (mjoin gs) -> gs !! i = Some g -> gs !! j = Some g' -> (i < j)%nat -> x ∈ g -> x ∈ g' -> False.
Proof.
  revert i j. induction gs as [|h gs IH]; intros i j Hnd Hi Hj Hij Hx Hx'; [done|].
  csimpl in *. apply NoDup_app in Hnd as (_ & Hdis & Hnd). destruct j as [|j]; [lia|].
  destruct i as [|i]; simpl in *.
  - simplify_eq. apply (Hdis x Hx). apply list_elem_of_join. exists g'. split; [done|].
    by eapply list_elem_of_lookup_2.
  - apply (IH i j); [done..|lia | done | done].
Qed.

Lemma overlap_linked hp layers ia ib a b x y :
  layers !! ia = Some a -> layers !! ib = Some b ->
  in_rect (crtc_rect (lay hp a)) x y -> in_rect (crtc_rect (lay hp b)) x y ->
  linked (fun a b => layers_intersect (lay hp a) (lay hp b)) layers ia ib.
Proof.
  intros Ha Hb Hax Hbx. unfold linked, connected.
  pose proof (layers_intersect_pixel _ _ x y Hax Hbx).
  pose proof (layers_intersect_pixel _ _ x y Hbx Hax).
  destruct (Nat.lt_trichotomy ia ib) as [Hlt|[->|Hlt]].
  - apply Relation_Operators.rst_step. split; [done|]. by exists a, b.
  - apply Relation_Operators.rst_refl.
  - apply Relation_Operators.rst_sym, Relation_Operators.rst_step. split; [done|]. by exists b, a.
Qed.

(** The split loses no layer. *)
Lemma split_groups_perm (hp : heap) (layers : list positive) :
  exists groups, split_independent_groups hp layers = Some groups /\ mjoin groups ≡ₚ layers.
Proof.
  unfold split_independent_groups. case_bool_decide as Hl; [subst; by exists []|].
  assert (Hsw : StrictWeak Z.ltb) by (split; intros *; rewrite ?Z.ltb_lt, ?Z.ltb_ge; lia).
  destruct (independent_groups_good (fun a b => layers_intersect (lay hp a) (lay hp b))
    (fun l => keep_priority (lay hp l)) Z.ltb layers) as (gs & Hgs & Hperm & _).
  exists (at_items layers <$> gs). split; [done|].
  rewrite at_items_mjoin. rewrite <- (at_items_all layers) at 2. unfold at_items. by rewrite Hperm.
Qed.

(** The spatial split of the layers never fails and loses none; no
    pixel is covered by layers of two groups; and of two groups the earlier
    has a member that matters at least as much as every member of the later. *)
Theorem split_groups_disjoint (hp : heap) (layers : list positive) :
  exists groups, split_independent_groups hp layers = Some groups /\ mjoin groups ≡ₚ layers /\
    forall i j g g', groups !! i = Some g -> groups !! j = Some g' -> (i < j)%nat ->
      (forall a b x y, a ∈ g -> b ∈ g' ->
         ~ (in_rect (crtc_rect (lay hp a)) x y /\ in_rect (crtc_rect (lay hp b)) x y)) /\
      exists a, a ∈ g /\ forall b, b ∈ g' -> keep_priority (lay hp b) <= keep_priority (lay hp a).
Proof.
  unfold split_independent_groups. case_bool_decide as Hl.
  { subst. exists []. split_and!; [done..|]. intros i j g g' Hi. done. }
  assert (Hsw : StrictWeak Z.ltb) by (split; intros *; rewrite ?Z.ltb_lt, ?Z.ltb_ge; lia).
  destruct (independent_groups_good (fun a b => layers_intersect (lay hp a) (lay hp b))
    (fun l => keep_priority (lay hp l)) Z.ltb layers) as (gs & Hgs & Hperm & Hne & Hlink & Hord).
  exists (at_items layers <$> gs). split; [done|]. split.
  { destruct (split_groups_perm hp layers) as (gs' & Hgs' & Hp). unfold split_independent_groups in Hgs'.
    rewrite bool_decide_eq_false_2 in Hgs' by done. congruence. }
  intros i j g g' Hi Hj Hij. rewrite list_lookup_fmap in Hi, Hj.
  destruct (gs !! i) as [gi|] eqn:Hgi; [|done]. destruct (gs !! j) as [gj|] eqn:Hgj; [|done].
  simpl in Hi, Hj. simplify_eq. split.
  - intros a b x y (ia & Hia & Ha)%at_items_elem (ib & Hib & Hb)%at_items_elem [Hax Hbx].
    assert (Hnd : NoDup (mjoin gs)) by (rewrite Hperm; apply NoDup_seq).
    apply (mjoin_apart gs i j gi gj ib Hnd Hgi Hgj Hij); [|done].
    apply (Hlink gi ia ib); [by eapply list_elem_of_lookup_2 | done | by eapply lookup_lt_Some |].
    by eapply (overlap_linked hp layers).
  - destruct (sorted_lookup _ gs i j gi gj Hord Hgi Hgj Hij) as (k & k' & [[a [Ha ->]] _] & [_ Hk'] & Hkk & _).
    exists a. split; [done|]. intros b Hb. specialize (Hk' b Hb). apply Z.ltb_ge in Hkk, Hk'. lia.
Qed.

Section ScoringFacts.
Context `{abi : DrmAbi} `{cpp : CppStd}.

(** ** Scores *)

Lemma bonus_range cls : 0 <= bandwidth_class_bonus cls <= 2.
Proof. destruct cls; simpl; lia. Qed.

Lemma cost_bias_range n : 0 <= cost_bias n <= 3.
Proof. unfold cost_bias. repeat case_match; lia. Qed.

Definition held_before (w : Warm) (plane : PlaneCapabilities) (lp : positive) : bool :=
  w_previous_valid w && bool_decide (PA.find (id plane) (w_previous w) = Some lp).

Lemma score_pair_structure w hp plane lp :
  exists structural, 0 <= structural <= 19 /\
    score_pair w hp plane lp =
      structural + layer_priority (lay hp lp) / 10 +
      (if held_before w plane lp then warm_stability_bonus else 0) -
      to_i32 (TestCache.failure_count (id plane) (compute_hash (lay hp lp)) (w_failures w)).
Proof.
  unfold score_pair. cbv zeta. set (l := lay hp lp). set (f := to_i32 _). clearbody f.
  set (s1 := match format l with Some _ => if layer_fits_plane _ _ _ then _ else _ | None => 0 end).
  assert (H1 : 0 <= s1 <= 4) by (unfold s1; repeat case_match; lia). clearbody s1.
  set (s2 := if is_composition_layer_ l && bool_decide (type_ plane = PRIMARY) then s1 + 8 else s1).
  set (s3 := if negb (is_composition_layer_ l) && bool_decide (type_ plane = PRIMARY) then _ else s2).
  set (s4 := if negb (is_composition_layer_ l) && bool_decide (type_ plane = OVERLAY) then _ else s3).
  assert (H4 : s1 <= s4 <= s1 + 10).
  { unfold s4, s3, s2. destruct (is_composition_layer_ l), (type_ plane); simpl; try lia;
      (destruct (property Zpos l) as [z|]; [|lia]); repeat case_match; lia. }
  clearbody s4. clear s2 s3.
  set (s5 := match format l with Some _ => _ | None => s4 end).
  assert (H5 : s4 <= s5 <= s4 + 5).
  { unfold s5. destruct (format l) as [fmt|]; [|lia].
    pose proof (bonus_range (bandwidth_class plane (layer_modifier l))).
    pose proof (cost_bias_range (scanout_cost_bytes (width l) (height l) fmt
      (bandwidth_class plane (layer_modifier l)) ratio_default)). lia. }
  clearbody s5. exists s5. split; [lia|]. unfold held_before.
  destruct (w_previous_valid w); cbn [andb]; [|lia].
  destruct (PA.find (id plane) (w_previous w)) as [k|]; [|rewrite bool_decide_eq_false_2 by done; lia].
  destruct (decide (k = lp)) as [->|Hne].
  - rewrite !bool_decide_eq_true_2 by done. lia.
  - rewrite !bool_decide_eq_false_2 by congruence. lia.
Qed.

Lemma to_i32_small z : 0 <= z < 2 ^ 31 -> to_i32 z = z.
Proof.
  intros Hz. unfold to_i32. rewrite wrap_small by (unfold in_u; lia). cbv zeta.
  by rewrite (proj2 (Z.ltb_lt _ _)) by lia.
Qed.

(** The plane a layer held in the last accepted allocation outscores
    every other plane for it, whatever the formats, zpos hints, types and
    sizes, unless it failed at least 81 times more often there. *)
Theorem score_prefers_previous (w : Warm) (hp : heap) (plane other : PlaneCapabilities) (lp : positive) :
  let failures p := TestCache.failure_count (id p) (compute_hash (lay hp lp)) (w_failures w) in
  w_previous_valid w = true ->
  PA.find (id plane) (w_previous w) = Some lp ->
  PA.find (id other) (w_previous w) <> Some lp ->
  0 <= failures plane < 2 ^ 31 -> 0 <= failures other < 2 ^ 31 ->
  failures plane < failures other + 81 ->
  score_pair w hp other lp < score_pair w hp plane lp.
Proof.
  cbv zeta. intros Hv Hp Ho Hfp Hfo Hf.
  destruct (score_pair_structure w hp plane lp) as (sp & Hsp & ->).
  destruct (score_pair_structure w hp other lp) as (so & Hso & ->).
  rewrite !to_i32_small by done. unfold held_before. rewrite Hv, Hp. cbn [andb].
  rewrite (bool_decide_eq_false_2 _ Ho), (bool_decide_eq_true_2 (Some lp = Some lp)) by done.
  cbn [andb]. unfold warm_stability_bonus. cbv beta in *. lia.
Qed.

(** ** The preseed is a maximum matching *)

Lemma elem_of_mjoin_imap {A B} (f : nat -> A -> list B) (l : list A) b :
  b ∈ mjoin (imap f l) <-> exists i a, l !! i = Some a /\ b ∈ f i a.
Proof.
  rewrite list_elem_of_join. setoid_rewrite elem_of_lookup_imap. naive_solver.
Qed.

Lemma elem_of_preseed_edges w hp layers planes c i j s :
  (i, j, s) ∈ preseed_edges w hp layers planes c <->
  exists l p, layers !! i = Some l /\ planes !! j = Some p /\
    plane_statically_compatible p (lay hp l) c = true /\ s = score_pair w hp p l.
Proof.
  unfold preseed_edges. rewrite elem_of_mjoin_imap. split.
  - intros (i' & l & Hl & (j' & p & Hp & Hin)%elem_of_mjoin_imap).
    destruct (plane_statically_compatible p (lay hp l) c) eqn:E; [|by apply not_elem_of_nil in Hin].
    apply list_elem_of_singleton in Hin. simplify_eq. eauto 10.
  - intros (l & p & Hl & Hp & E & ->). exists i, l. split; [done|].
    apply elem_of_mjoin_imap. exists j, p. split; [done|]. rewrite E. apply list_elem_of_here.
Qed.

Lemma preseed_edges_range w hp layers planes c :
  in_range (length layers) (length planes) (preseed_edges w hp layers planes c).
Proof.
  apply Forall_forall. intros [[i j] s] (l & p & Hl & Hp & _)%elem_of_preseed_edges. simpl.
  split; by eapply lookup_lt_Some.
Qed.

(** Static compatibility between positions. *)
Definition compatible_at (hp : heap) (layers : list positive) (planes : list PlaneCapabilities) (c : Z)
    (i j : nat) : Prop :=
  exists l p, layers !! i = Some l /\ planes !! j = Some p /\
    plane_statically_compatible p (lay hp l) c = true.

Lemma preseed_pairs_some hp (layers : list positive) (planes : list PlaneCapabilities) c (idx : list (nat * nat)) :
  (forall i j, (i, j) ∈ idx -> compatible_at hp layers planes c i j) ->
  exists pairs,
    mapM (fun uv : nat * nat => l ← layers !! uv.1; p ← planes !! uv.2; Some (l, p)) idx = Some pairs /\
    Forall2 (fun uv lp => layers !! uv.1 = Some lp.1 /\ planes !! uv.2 = Some lp.2 /\
      plane_statically_compatible lp.2 (lay hp lp.1) c = true) idx pairs.
Proof.
  induction idx as [|[i j] idx IH]; intros Hidx; [by exists []|].
  destruct (Hidx i j (list_elem_of_here _ _)) as (l & p & Hl & Hp & Hc).
  destruct IH as (pairs & HM & HF); [intros i' j' Hin; apply Hidx; by apply list_elem_of_further|].
  exists ((l, p) :: pairs). split; [|by constructor].
  cbn [mapM fst snd]. rewrite Hl. cbn [mbind option_bind]. rewrite Hp. cbn [mbind option_bind].
  by rewrite HM.
Qed.

(** The preseed is a maximum matching of the compatibility graph. *)
Lemma preseed_pairs_maximum (w : Warm) (hp : heap) (layers : list positive)
    (planes : list PlaneCapabilities) (c : Z) :
  exists pairs idx, bipartite_preseed_group w hp layers planes c = Some pairs /\
    Forall2 (fun uv lp => layers !! uv.1 = Some lp.1 /\ planes !! uv.2 = Some lp.2 /\
      plane_statically_compatible lp.2 (lay hp lp.1) c = true) idx pairs /\
    NoDup idx.*1 /\ NoDup idx.*2 /\
    forall M : list (nat * nat), NoDup M.*1 -> NoDup M.*2 ->
      (forall i j, (i, j) ∈ M -> compatible_at hp layers planes c i j) ->
      (length M <= length pairs)%nat.
Proof.
  unfold bipartite_preseed_group. destruct (bool_decide (layers = []) || _) eqn:Hempty.
  { exists [], []. split_and!; [done | constructor | constructor | constructor |].
    intros [|[i j] M] _ _ HM; [simpl; lia|].
    destruct (HM i j (list_elem_of_here _ _)) as (l & p & Hl & Hp & _).
    bool_simpl. destruct Hempty; bool_simpl; by subst. }
  clear Hempty. unfold preseed_solve.
  destruct (build_graph (construct 0 0) _ _ _ (preseed_edges_range w hp layers planes c))
    as (g & Hb & Hg & Hgl & He). rewrite Hb. cbn [mbind option_bind].
  destruct (solve_result g Hg) as (k & m' & Hsol & Hl & _ & _ & _ & (Hn1 & Hn2 & Hm) & Hk & Hmax).
  rewrite Hsol. cbn [fmap option_fmap option_map mbind option_bind snd]. unfold preseed_pairs.
  assert (Hpairs : omap (fun i => pair i <$> match_for_left m' i) (seq 0 (length layers)) = result_pairs m').
  { unfold result_pairs. by rewrite Hl, Hgl. }
  rewrite Hpairs.
  assert (Hcompat : forall i j, edge g i j -> compatible_at hp layers planes c i j).
  { intros i j (s & (l & p & ? & ? & ? & _)%elem_of_preseed_edges)%He. by exists l, p. }
  destruct (preseed_pairs_some hp layers planes c (result_pairs m')) as (pairs & Hmap & HF).
  { intros i j Hij. apply Hcompat. by apply Hm. }
  exists pairs, (result_pairs m'). split_and!; [done..|].
  intros M H1 H2 HM. rewrite <- (Forall2_length _ _ _ HF), <- Hk. apply Hmax. split_and!; [done..|].
  intros i j Hij. destruct (HM i j Hij) as (l & p & Hli & Hp & Hc). split.
  - rewrite Hgl. by eapply lookup_lt_Some.
  - apply He. exists (score_pair w hp p l). apply elem_of_preseed_edges. eauto 10.
Qed.

(** The preseed always succeeds (no index out of range, the
    matching terminates), pairs layers with planes they are statically
    compatible with, uses no layer and no plane twice, and pairs as many as
    any such pairing can. *)
Theorem preseed_maximum (w : Warm) (hp : heap) (layers : list positive)
    (planes : list PlaneCapabilities) (c : Z) :
  exists pairs idx, bipartite_preseed_group w hp layers planes c = Some pairs /\
    Forall2 (fun uv lp => layers !! uv.1 = Some lp.1 /\ planes !! uv.2 = Some lp.2 /\
      plane_statically_compatible lp.2 (lay hp lp.1) c = true) idx pairs /\
    NoDup idx.*1 /\ NoDup idx.*2 /\
    forall M : list (nat * nat), NoDup M.*1 -> NoDup M.*2 ->
      (forall i j, (i, j) ∈ M -> compatible_at hp layers planes c i j) ->
      (length M <= length pairs)%nat.
Proof. apply preseed_pairs_maximum. Qed.

(** ** The candidates *)

Lemma ranked_elem w hp layers planes c cand :
  cand ∈ rank_candidates_group w hp layers planes c <->
  c_plane cand ∈ planes /\ c_layer cand ∈ layers /\
  plane_statically_compatible (c_plane cand) (lay hp (c_layer cand)) c = true /\
  c_score cand = score_pair w hp (c_plane cand) (c_layer cand).
Proof.
  unfold rank_candidates_group. rewrite std_sort_perm. unfold candidates. rewrite list_elem_of_join. split.
  - intros (? & Hin & (p & -> & Hp)%list_elem_of_fmap).
    apply list_elem_of_omap in Hin as (l & Hl & Heq).
    destruct (plane_statically_compatible p (lay hp l) c) eqn:E; [|done]. by simplify_eq/=.
  - destruct cand as [p l s]. simpl. intros (Hp & Hl & E & ->). eexists. split.
    2: { apply list_elem_of_fmap. exists p. split; [reflexivity | done]. }
    apply list_elem_of_omap. exists l. split; [done|]. by rewrite E.
Qed.

(** The ranked candidates are exactly the statically compatible pairs
    of the given planes and layers with their scores, best score first. *)
Theorem rank_candidates_spec (w : Warm) (hp : heap) (layers : list positive)
    (planes : list PlaneCapabilities) (c : Z) :
  let r := rank_candidates_group w hp layers planes c in
  (forall cand, cand ∈ r <->
     c_plane cand ∈ planes /\ c_layer cand ∈ layers /\
     plane_statically_compatible (c_plane cand) (lay hp (c_layer cand)) c = true /\
     c_score cand = score_pair w hp (c_plane cand) (c_layer cand)) /\
  (forall i j a b, r !! i = Some a -> r !! j = Some b -> (i < j)%nat -> c_score b <= c_score a).
Proof.
  cbv zeta. split; [intros cand; apply ranked_elem|]. intros i j a b Ha Hb Hij.
  assert (Hsw : StrictWeak (fun a b : CandidatePair => c_score b <? c_score a)) by apply key_gt_strict_weak.
  pose proof (sorted_lookup _ _ i j a b (std_sort_sorted _ _ Hsw) Ha Hb Hij) as Hna.
  unfold not_after in Hna. apply Z.ltb_ge in Hna. lia.
Qed.

(** ** The victim *)

Definition constraint (hp : heap) (planes : list PlaneCapabilities) (c : Z) (l : positive) : Z * Z :=
  (compatible_count planes (lay hp l) c, keep_priority (lay hp l)).

Definition lex_lt (a b : Z * Z) : Prop := a.1 < b.1 \/ (a.1 = b.1 /\ a.2 < b.2).

Lemma pick_loop_spec hp layers planes c worst wc wk :
  let r := pick_loop hp layers planes c worst wc wk in
  (forall l, worst = Some l -> constraint hp planes c l = (wc, wk)) ->
  (r = worst /\ (forall l, l ∈ layers -> ~ lex_lt (constraint hp planes c l) (wc, wk))) \/
  (exists pre l post, r = Some l /\ layers = pre ++ l :: post /\
     lex_lt (constraint hp planes c l) (wc, wk) /\
     (forall x, x ∈ pre -> lex_lt (constraint hp planes c l) (constraint hp planes c x)) /\
     (forall x, x ∈ post -> ~ lex_lt (constraint hp planes c x) (constraint hp planes c l))).
Proof.
  cbv zeta. revert worst wc wk. induction layers as [|x rest IH]; intros worst wc wk Hw; cbn [pick_loop].
  { left. split; [done|]. intros l Hl. by apply not_elem_of_nil in Hl. }
  destruct ((_ <? wc) || _) eqn:E.
  - assert (Hlt : lex_lt (constraint hp planes c x) (wc, wk)).
    { unfold lex_lt. simpl. bool_simpl. destruct E as [E|E]; bool_simpl; [by left | by right]. }
    right. destruct (IH (Some x) (constraint hp planes c x).1 (constraint hp planes c x).2)
      as [[Hr Hno]|(pre & l & post & Hr & -> & Hl & Hpre & Hpost)].
    { by intros l [= <-]. }
    + exists [], x, rest. split_and!; [exact Hr | done | done | |].
      * intros y Hy. by apply not_elem_of_nil in Hy.
      * intros y Hy Hyx. by apply (Hno y Hy).
    + exists (x :: pre), l, post. split_and!; [exact Hr | done | | | done].
      * unfold lex_lt in *. simpl in *. lia.
      * intros y [->|Hy]%elem_of_cons; [done | by apply Hpre].
  - assert (Hge : ~ lex_lt (constraint hp planes c x) (wc, wk)).
    { unfold lex_lt. simpl. bool_simpl. destruct (Z.eqb_spec (compatible_count planes (lay hp x) c) wc);
        simpl in *; bool_simpl; lia. }
    destruct (IH worst wc wk Hw) as [[Hr Hno]|(pre & l & post & Hr & -> & Hl & Hpre & Hpost)].
    + left. split; [done|]. intros y [->|Hy]%elem_of_cons; [done | by apply Hno].
    + right. exists (x :: pre), l, post. split_and!; [done | done | done | | done].
      intros y [->|Hy]%elem_of_cons; [|by apply Hpre]. unfold lex_lt in *. simpl in *. lia.
Qed.

(** The layer the partial fallback gives up first is one with the
    fewest compatible planes, of those one with the lowest keep priority, of
    those the first in the list; there is one whenever a layer is left. *)
Theorem pick_most_constrained_spec (hp : heap) (layers : list positive)
    (planes : list PlaneCapabilities) (c : Z) :
  Z.of_nat (length planes) < SIZE_MAX -> layers <> [] ->
  exists pre l post, pick_most_constrained hp layers planes c = Some l /\ layers = pre ++ l :: post /\
    (forall x, x ∈ pre -> lex_lt (constraint hp planes c l) (constraint hp planes c x)) /\
    (forall x, x ∈ post -> ~ lex_lt (constraint hp planes c x) (constraint hp planes c l)).
Proof.
  intros Hlen Hne. unfold pick_most_constrained.
  destruct (pick_loop_spec hp layers planes c None SIZE_MAX INT_MAX) as [[_ Hno]|(pre & l & post & H)].
  - done.
  - exfalso. destruct layers as [|x rest]; [done|]. apply (Hno x (list_elem_of_here _ _)).
    left. simpl. unfold compatible_count.
    pose proof (length_filter (fun p => plane_statically_compatible p (lay hp x) c = true) planes). lia.
  - exists pre, l, post. tauto.
Qed.
End ScoringFacts.

(** ** Concrete runs *)

Definition two_planes : PlaneCapabilities * PlaneCapabilities :=
  (default_caps {{ id := 31 }}, default_caps {{ id := 32; type_ := PRIMARY }}).
Definition warm_sample : Warm := mkWarm true [(31, 1%positive)] TestCache.empty.

Lemma score_prefers_previous_witness :
  PA.find 31 (w_previous warm_sample) = Some 1%positive /\
  @score_pair linux_abi libstdcxx warm_sample ∅ two_planes.2 1%positive <
  @score_pair linux_abi libstdcxx warm_sample ∅ two_planes.1 1%positive.
Proof.
  split; [reflexivity|].
  apply (@score_prefers_previous linux_abi libstdcxx warm_sample ∅ two_planes.1 two_planes.2 1%positive).
  - reflexivity.
  - reflexivity.
  - vm_compute. discriminate.
  - vm_compute. split; congruence.
  - vm_compute. split; congruence.
  - vm_compute. reflexivity.
Defined.

Lemma pick_most_constrained_spec_witness :
  exists pre l post, @pick_most_constrained linux_abi ∅ [1%positive; 2%positive] [two_planes.1] 0 = Some l /\
    [1%positive; 2%positive] = pre ++ l :: post.
Proof.
  destruct (@pick_most_constrained_spec linux_abi ∅ [1%positive; 2%positive] [two_planes.1] 0)
    as (pre & l & post & Hr & Hl & _).
  - vm_compute. reflexivity.
  - discriminate.
  - exists pre, l, post. split; [exact Hr | exact Hl].
Defined.
