(* ===== verification/AllocState.v ===== *)
(** The allocator's members ([src/planes/allocator.hpp]) and the queries on
    them that change nothing: the plane views, the capabilities of a plane,
    the stacking and multirect rules on a partial assignment, and the modifier
    verdicts. *)
From S2P Require Import Prelude DrmAbi FormatMod Multirect PlaneRegistry PropertyStore ZposOrder.
From S2P Require Import Layer Output Assignment Scoring.

Record Diagnostics := mkDiagnostics {
  properties_written : Z;
  fbs_attached : Z;
  test_commits_issued : Z;
  fb_delta_fast_path : bool
}.
Definition no_diagnostics : Diagnostics := mkDiagnostics 0 0 0 false.

(** What the kernel has on a plane; the layer pointer is null after
    [forget_layer]. *)
Record LastCommitted := mkLast {
  lc_layer : option positive;
  lc_properties : PropertySnapshot;
  lc_hash : Z
}.

Record Allocator := mkAllocator {
  registry_ : PlaneRegistry;
  prop_store_ : PropertyStore;
  cached_crtc_index_ : option Z;
  cached_crtc_index_id_ : Z;
  previous_allocation_valid_ : bool;
  previous_allocation_ : PlaneAssignment;
  canvas_plane_ : option Z;
  previous_canvas_plane_ : option Z;
  canvas_zpos_ : option Z;
  zpos_stack_ : list (Z * Z);
  committed_layer_count_ : nat;
  failure_cache_ : TestCache.t;
  probe_cache_ : ModifierProbeCache.entries;
  max_test_commits_ : nat;
  test_commits_this_frame_ : nat;
  external_reserved_ : list Z;
  last_committed_ : gmap Z LastCommitted;
  foreign_lit_ : list Z;
  force_full_writes_ : bool;
  scratch_placeable_ : list positive;
  scratch_over_limit_ : list positive;
  scratch_current_set_ : list positive;
  diagnostics_ : Diagnostics
}.

(** The constructor: the member initialisers, and every plane's properties
    cached ([e]: errno, should a query fail). *)
Definition make_allocator `{DrmAbi} `{Kms} (r : PlaneRegistry) (e : errc) : Allocator :=
  mkAllocator r (cache_planes (planes_ r) e ∅) None 0 false [] None None None [] 0 TestCache.empty []
    16 0 [] ∅ [] false [] [] [] no_diagnostics.

(** What [score_pair] reads. *)
Definition warm (a : Allocator) : Warm :=
  mkWarm (previous_allocation_valid_ a) (previous_allocation_ a) (failure_cache_ a).

(** [for_crtc]: the registry's view of a CRTC (its cache is transparent, see
    [PlaneRegistry.v]), and [all]. *)
Definition for_crtc_planes (a : Allocator) (crtc_index : Z) : list PlaneCapabilities :=
  deref (registry_ a) (for_crtc (registry_ a) crtc_index).1.

Definition all_planes (a : Allocator) : list PlaneCapabilities := planes_ (registry_ a).

Definition is_cursor (p : PlaneCapabilities) : bool := bool_decide (type_ p = CURSOR).

(** [caps_of]: the first plane with the id. *)
Definition caps_of (a : Allocator) (plane_id : Z) : option PlaneCapabilities :=
  List.find (fun p => id p =? plane_id) (all_planes a).

(** The loop of [fits_stacking] does not stop at the first match. *)
Fixpoint last_caps (plane_id : Z) (ps : list PlaneCapabilities) (caps : option PlaneCapabilities)
    : option PlaneCapabilities :=
  match ps with
  | [] => caps
  | p :: ps' => last_caps plane_id ps' (if id p =? plane_id then Some p else caps)
  end.

Definition zpos_is_fixed (a : Allocator) (plane_id : Z) : bool :=
  match caps_of a plane_id with Some p => zpos_fixed p | None => false end.

(** [assignment] never holds a null layer. *)
Definition fits_stacking (a : Allocator) (hp : heap) (assignment : PlaneAssignment) (plane_id : Z)
    (layer : positive) : bool :=
  match last_caps plane_id (all_planes a) None with
  | None => true
  | Some caps =>
      let z := property Zpos (lay hp layer) in
      forallb (fun e : Z * positive =>
        if e.1 =? plane_id then true
        else forallb (fun p =>
          negb ((id p =? e.1)
                && negb (stacking_consistent caps z p (property Zpos (lay hp e.2)))))
          (all_planes a)) assignment
  end.

Definition stacking_all (a : Allocator) (hp : heap) (assignment : PlaneAssignment) : bool :=
  forallb (fun e : Z * positive => fits_stacking a hp assignment e.1 e.2) assignment.

Definition fits_multirect (a : Allocator) (assignment : PlaneAssignment) (plane_id : Z) : bool :=
  match caps_of a plane_id with
  | None => true
  | Some caps => multirect_pairing_ok (multirect_parent caps) (fun parent => PA.count parent assignment)
  end.

Definition multirect_complete (a : Allocator) (assignment : PlaneAssignment) : bool :=
  forallb (fun e : Z * positive => fits_multirect a assignment e.1) assignment.

Definition probe_rejected `{DrmAbi} (a : Allocator) (hp : heap) (crtc_index plane_id : Z)
    (layer : positive) : bool :=
  match format (lay hp layer) with
  | None => false
  | Some fourcc =>
      bool_decide (ModifierProbeCache.lookup crtc_index plane_id fourcc (layer_modifier (lay hp layer))
                     (probe_cache_ a) = ModifierProbeCache.Rejected)
  end.

(** [std::none_of] over the planes other than cursors. *)
Definition stacks_by_plane_id (a : Allocator) (crtc_index : Z) : bool :=
  let planes := for_crtc_planes a crtc_index in
  negb (bool_decide (planes = [])) &&
  negb (existsb (fun p => negb (is_cursor p) && bool_decide (is_Some (zpos_min p))) planes).

Definition is_foreign_lit (a : Allocator) (plane_id : Z) : bool :=
  bool_decide (plane_id ∈ foreign_lit_ a).

Definition drop_foreign_lit (plane_id : Z) (a : Allocator) : Allocator :=
  a {{ foreign_lit_ ::= filter (fun i => i <> plane_id) }}.

(** [clamp_to_plane]: only alpha has a per-plane range. *)
Definition clamp_to_plane (a : Allocator) (plane_id : Z) (name : string) (value : Z) : Z :=
  if negb (String.eqb name "alpha") then value
  else match caps_of a plane_id with
       | Some caps => rescale_alpha value (alpha_max caps)
       | None => value
       end.

(** ** Setters of the public interface *)

Definition set_max_test_commits (n : nat) (a : Allocator) : Allocator := a {{ max_test_commits_ := n }}.
Definition set_force_full_property_writes (force : bool) (a : Allocator) : Allocator :=
  a {{ force_full_writes_ := force }}.
Definition invalidate_allocation (a : Allocator) : Allocator := a {{ previous_allocation_valid_ := false }}.

Definition forget_layer (layer : option positive) (a : Allocator) : Allocator :=
  match layer with
  | None => a
  | Some l =>
      let a := a {{ last_committed_ ::= fmap (fun s : LastCommitted =>
                      if bool_decide (lc_layer s = Some l)
                      then mkLast None (lc_properties s) (lc_hash s) else s);
                    previous_allocation_ ::= PA.erase_if (fun e => bool_decide (e.2 = l)) }} in
      if bool_decide (previous_allocation_ a = []) then a {{ previous_allocation_valid_ := false }} else a
  end.

(** Once a layer is forgotten the allocator holds no pointer to it,
    neither in the snapshots nor in the warm-start allocation; the snapshots
    keep their properties, so the plane it was on is still known to be lit, and
    every other layer's placement is kept. *)
Theorem forget_layer_spec (l : positive) (a : Allocator) (plane_id : Z) :
  let a' := forget_layer (Some l) a in
  (forall s, last_committed_ a' !! plane_id = Some s -> lc_layer s <> Some l) /\
  (lc_properties <$> last_committed_ a' !! plane_id) = (lc_properties <$> last_committed_ a !! plane_id) /\
  (forall l', (plane_id, l') ∈ previous_allocation_ a' <->
              (plane_id, l') ∈ previous_allocation_ a /\ l' <> l) /\
  (previous_allocation_valid_ a' = true -> previous_allocation_ a' <> []).
Proof.
  cbv zeta. set (a' := forget_layer (Some l) a).
  assert (Hlc : last_committed_ a' = (fun s : LastCommitted =>
    if bool_decide (lc_layer s = Some l) then mkLast None (lc_properties s) (lc_hash s) else s)
    <$> last_committed_ a).
  { unfold a', forget_layer. cbv zeta. by destruct (bool_decide _). }
  assert (Hprev : previous_allocation_ a' =
    PA.erase_if (fun e => bool_decide (e.2 = l)) (previous_allocation_ a)).
  { unfold a', forget_layer. cbv zeta. by destruct (bool_decide _). }
  rewrite Hlc, lookup_fmap. split_and!.
  - intros s (s0 & _ & ->)%fmap_Some. case_bool_decide as Hl; [done | exact Hl].
  - destruct (last_committed_ a !! plane_id) as [s|]; [|done]. simpl. by case_bool_decide.
  - intros l'. rewrite Hprev, PA.erase_if_filter, list_elem_of_filter. simpl.
    rewrite bool_decide_eq_false. tauto.
  - unfold a', forget_layer. cbv zeta. case_bool_decide as Hb; [done|]. intros _. exact Hb.
Qed.
