(* ===== verification/Canvas.v ===== *)
(** The composition canvas in [src/planes/allocator.cpp]: where one canvas can
    sit among the placed layers ([canvas_bounds]), which placed layers give
    way when it can sit nowhere ([resolve_canvas_bounds]), and the zpos numbers
    of the stack with a slot kept for it ([stacked_zpos]). *)
From S2P Require Import Prelude DrmAbi FormatMod Multirect PlaneRegistry ZposOrder Layer Output Assignment.
From S2P Require Import Scoring AllocState.

Record CanvasBounds := mkBounds { below : option Z; above : option Z }.

Definition feasible (b : CanvasBounds) : bool :=
  match below b, above b with
  | Some lo, Some hi => lo <? hi
  | _, _ => true
  end.

Record ZposStack := mkZposStack {
  renumbered : list (Z * Z);
  stack_written : list (Z * Z);
  canvas : option Z
}.

Section Canvas.
Context `{cpp : CppStd}.

Definition in_assignment (assignment : PlaneAssignment) (l : positive) : bool :=
  existsb (fun e : Z * positive => bool_decide (e.2 = l)) assignment.

(** A pinned layer whose plane the assignment leaves alone. *)
Definition pinned_plane (hp : heap) (assignment : PlaneAssignment) (l : positive) : option Z :=
  if pinned_ (lay hp l) then
    match assigned_plane_ (lay hp l) with
    | Some p => if PA.count p assignment then None else Some p
    | None => None
    end
  else None.

(** The loop over [scratch_current_set_]: it fills [scratch_bounds_placed_]
    and [scratch_bounds_composited_]. *)
Fixpoint classify_current (hp : heap) (assignment : PlaneAssignment) (ls : list positive)
    (placed composited : list positive) : list positive * list positive :=
  match ls with
  | [] => (placed, composited)
  | l :: ls' =>
      if is_composition_layer_ (lay hp l) || externally_bound_ (lay hp l)
      then classify_current hp assignment ls' placed composited
      else if pinned_ (lay hp l) then
        match pinned_plane hp assignment l with
        | Some _ => classify_current hp assignment ls' (placed ++ [l]) composited
        | None => classify_current hp assignment ls' placed composited
        end
      else if negb (in_assignment assignment l)
      then classify_current hp assignment ls' placed (composited ++ [l])
      else classify_current hp assignment ls' placed composited
  end.

Definition bounds_sets (a : Allocator) (hp : heap) (assignment : PlaneAssignment)
    : list positive * list positive :=
  classify_current hp assignment (unordered_iter (scratch_current_set_ a)) assignment.*2 [].

(** One (placed, composited) pair. *)
Definition bounds_step (hp : heap) (zp : Z) (placed : positive) (b : CanvasBounds)
    (composited : positive) : CanvasBounds :=
  match property Zpos (lay hp composited) with
  | None => b
  | Some zc =>
      if (zc =? zp) || negb (layers_intersect (lay hp placed) (lay hp composited)) then b
      else if zc <? zp then mkBounds (below b) (Some (Z.min (value_or zp (above b)) zp))
      else mkBounds (Some (Z.max (value_or zp (below b)) zp)) (above b)
  end.

Definition bounds_of (hp : heap) (placed composited : list positive) : CanvasBounds :=
  foldl (fun b p =>
    match property Zpos (lay hp p) with
    | None => b
    | Some zp => foldl (bounds_step hp zp p) b composited
    end) (mkBounds None None) placed.

Definition canvas_bounds (a : Allocator) (hp : heap) (assignment : PlaneAssignment) : CanvasBounds :=
  let sets := bounds_sets a hp assignment in bounds_of hp sets.1 sets.2.

(** ** Composited layers caught between *)

Definition caught (hp : heap) (composited : list positive) (lo hi : Z) (l : positive) : bool :=
  match property Zpos (lay hp l) with
  | None => false
  | Some z =>
      negb ((z <? lo) || (hi <? z)) &&
      existsb (fun c => match property Zpos (lay hp c) with
                        | Some zc => negb (zc =? z) && layers_intersect (lay hp l) (lay hp c)
                        | None => false
                        end) composited
  end.

Fixpoint pick_victim (hp : heap) (composited : list positive) (lo hi : Z) (es : PlaneAssignment)
    (victim : option Z) (victim_keep : Z) : option Z :=
  match es with
  | [] => victim
  | e :: es' =>
      if negb (caught hp composited lo hi e.2) then pick_victim hp composited lo hi es' victim victim_keep
      else
        let keep := keep_priority (lay hp e.2) in
        if bool_decide (victim = None) || (keep <? victim_keep)
        then pick_victim hp composited lo hi es' (Some e.1) keep
        else pick_victim hp composited lo hi es' victim victim_keep
  end.

(** Erase the victim, then every multirect child it leaves without a parent. *)
Definition drop_victim (a : Allocator) (victim : Z) (assignment : PlaneAssignment) : PlaneAssignment :=
  PA.erase_if (fun e => match caps_of a e.1 with
                        | Some c => bool_decide (multirect_parent c = Some victim)
                        | None => false
                        end) (PA.erase victim assignment).

(** The loop; [None] is fuel running out. *)
Fixpoint resolve_loop (fuel : nat) (a : Allocator) (hp : heap) (assignment : PlaneAssignment)
    : option (bool * PlaneAssignment) :=
  match fuel with
  | O => None
  | S fuel' =>
      let sets := bounds_sets a hp assignment in
      let bounds := bounds_of hp sets.1 sets.2 in
      if feasible bounds then Some (true, assignment)
      else
        match above bounds, below bounds with
        | Some hi, Some lo =>
            match pick_victim hp sets.2 hi lo assignment None 0 with
            | None => Some (false, assignment)
            | Some victim => resolve_loop fuel' a hp (drop_victim a victim assignment)
            end
        | _, _ => Some (true, assignment)
        end
  end.

Definition resolve_canvas_bounds (a : Allocator) (hp : heap) (assignment : PlaneAssignment)
    : option (bool * PlaneAssignment) :=
  resolve_loop (S (length assignment)) a hp assignment.

(** ** The numbered stack *)

Definition widen_slot (slot p : PlaneCapabilities) : PlaneCapabilities :=
  match zpos_min p, zpos_max p with
  | Some lo, Some hi =>
      if is_cursor p || (lo =? hi) then slot
      else slot {{ zpos_min := Some (Z.min (value_or lo (zpos_min slot)) lo);
                   zpos_max := Some (Z.max (value_or hi (zpos_max slot)) hi) }}
  | _, _ => slot
  end.

Definition canvas_slot (a : Allocator) : PlaneCapabilities :=
  match cached_crtc_index_ a with
  | None => default_caps
  | Some c => foldl widen_slot default_caps (for_crtc_planes a c)
  end.

(** The entries with their plane ids: the assignment, then the pinned layers. *)
Definition stack_entries (a : Allocator) (hp : heap) (assignment : PlaneAssignment)
    : list (Z * StackEntry) :=
  ((fun e : Z * positive =>
      (e.1, mkEntry (caps_of a e.1) (property Zpos (lay hp e.2)) None false)) <$> assignment) ++
  omap (fun l => (fun p => (p, mkEntry (caps_of a p) (property Zpos (lay hp l)) None false))
                   <$> pinned_plane hp assignment l)
    (unordered_iter (scratch_current_set_ a)).

(** Collect the outcome: [entries] may hold one more entry, the slot's. *)
Definition read_stack (fits : bool) (ids : list Z) (entries : list StackEntry) : ZposStack :=
  let rows := zip ids entries in
  mkZposStack
    (omap (fun r : Z * StackEntry =>
       w ← written r.2;
       if fits && negb (bool_decide (Some w = requested r.2)) then Some (r.1, w) else None) rows)
    (omap (fun r : Z * StackEntry => w ← written r.2; Some (r.1, w)) rows)
    (if fits && (length ids <? length entries)%nat then last entries ≫= written else None).

Definition stacked_zpos (a : Allocator) (hp : heap) (assignment : PlaneAssignment) : ZposStack :=
  let rows := stack_entries a hp assignment in
  let ids := rows.*1 in
  let entries := rows.*2 in
  let slot := canvas_slot a in
  let bounds := canvas_bounds a hp assignment in
  let with_slot :=
    bool_decide (is_Some (zpos_min slot)) && bool_decide (is_Some (above bounds)) && feasible bounds in
  if with_slot then
    let '(fits, out) := stack_zpos (entries ++ [mkEntry (Some slot) (above bounds) None true]) in
    if fits then read_stack true ids out
    else let '(fits, out) := stack_zpos entries in read_stack fits ids out
  else let '(fits, out) := stack_zpos entries in read_stack fits ids out.

(** [zpos_in]: the first match. *)
Definition zpos_in (stack : list (Z * Z)) (plane_id : Z) : option Z :=
  snd <$> List.find (fun e : Z * Z => e.1 =? plane_id) stack.

Definition record_stack (stack : ZposStack) (any_composited : bool) (a : Allocator) : Allocator :=
  a {{ zpos_stack_ := stack_written stack;
       canvas_zpos_ := if any_composited then canvas stack else None }}.
End Canvas.

(** ** What the bounds mean *)

(** A placed and a composited layer that overlap and ask for different zpos. *)
Definition conflict (hp : heap) (p c : positive) (zp zc : Z) : Prop :=
  property Zpos (lay hp p) = Some zp /\ property Zpos (lay hp c) = Some zc /\ zc <> zp /\
  layers_intersect (lay hp p) (lay hp c) = true.

Section BoundsFacts.
Context (hp : heap).

(** [b] is exact for the pairs [S] seen so far. *)
Definition bounds_inv (S : positive -> positive -> Prop) (b : CanvasBounds) : Prop :=
  (forall z, above b = Some z -> exists p c zc, S p c /\ conflict hp p c z zc /\ zc < z) /\
  (forall z, below b = Some z -> exists p c zc, S p c /\ conflict hp p c z zc /\ z < zc) /\
  (forall p c zp zc, S p c -> conflict hp p c zp zc ->
     (zc < zp -> exists z, above b = Some z /\ z <= zp) /\
     (zp < zc -> exists z, below b = Some z /\ zp <= z)).

Lemma bounds_inv_iff S S' b : (forall p c, S p c <-> S' p c) -> bounds_inv S b -> bounds_inv S' b.
Proof. unfold bounds_inv. intros HS (H1 & H2 & H3). setoid_rewrite HS in H1. setoid_rewrite HS in H2.
  setoid_rewrite HS in H3. done. Qed.

Lemma bounds_inv_step S b p c zp :
  property Zpos (lay hp p) = Some zp -> bounds_inv S b ->
  bounds_inv (fun x y => S x y \/ (x = p /\ y = c)) (bounds_step hp zp p b c).
Proof.
  intros Hzp (Ha & Hb & Hall).
  assert (Hskip : (forall zp' zc, ~ conflict hp p c zp' zc) ->
    bounds_inv (fun x y => S x y \/ (x = p /\ y = c)) b).
  { intros Hno. split_and!; [naive_solver..|].
    intros p' c' zp' zc [HS|[-> ->]] Hc; [by apply (Hall p' c') | by destruct (Hno zp' zc)]. }
  unfold bounds_step. destruct (property Zpos (lay hp c)) as [zc|] eqn:Hzc.
  2: { apply Hskip. intros zp' zc' (_ & Hc & _). congruence. }
  destruct ((zc =? zp) || negb _) eqn:E.
  { apply Hskip. intros zp' zc' (Hp' & Hc' & Hne & Hi). simplify_eq. rewrite Hi in E. bool_simpl.
    destruct E as [E|E]; bool_simpl. by apply Hne. }
  bool_simpl. assert (Hconf : conflict hp p c zp zc) by (by repeat split).
  assert (Hfun : forall zp' zc', conflict hp p c zp' zc' -> zp' = zp /\ zc' = zc).
  { intros zp' zc' (H1 & H2 & _). split; congruence. }
  destruct (Z.ltb_spec zc zp) as [Hlt|Hge]; (split_and!; cbn [above below]).
  - intros z [= <-]. destruct (above b) as [z0|] eqn:Hz0; simpl.
    + destruct (Z.min_spec z0 zp) as [[_ ->]|[_ ->]]; [|by eauto 10].
      destruct (Ha z0 eq_refl) as (p' & c' & zc' & ? & ?). eauto 10.
    + rewrite Z.min_id. eauto 10.
  - intros z Hz. destruct (Hb z Hz) as (p' & c' & zc' & ? & ?). eauto 10.
  - intros p' c' zp' zc' [HS|[-> ->]] Hc.
    + destruct (Hall p' c' zp' zc' HS Hc) as [H1 H2]. split; [|done]. intros Hz.
      destruct (H1 Hz) as (z & -> & Hle). eexists. split; [done|]. simpl. lia.
    + destruct (Hfun _ _ Hc) as [-> ->]. split; [|lia]. intros _. eexists. split; [done|]. lia.
  - intros z Hz. destruct (Ha z Hz) as (p' & c' & zc' & ? & ?). eauto 10.
  - intros z [= <-]. assert (zp < zc) by lia. destruct (below b) as [z0|] eqn:Hz0; simpl.
    + destruct (Z.max_spec z0 zp) as [[_ ->]|[_ ->]]; [by eauto 10|].
      destruct (Hb z0 eq_refl) as (p' & c' & zc' & ? & ?). eauto 10.
    + rewrite Z.max_id. eauto 10.
  - intros p' c' zp' zc' [HS|[-> ->]] Hc.
    + destruct (Hall p' c' zp' zc' HS Hc) as [H1 H2]. split; [done|]. intros Hz.
      destruct (H2 Hz) as (z & -> & Hle). eexists. split; [done|]. simpl. lia.
    + destruct (Hfun _ _ Hc) as [-> ->]. split; [lia|]. intros _. eexists. split; [done|]. lia.
Qed.

Lemma bounds_inv_inner S b p zp cs :
  property Zpos (lay hp p) = Some zp -> bounds_inv S b ->
  bounds_inv (fun x y => S x y \/ (x = p /\ y ∈ cs)) (foldl (bounds_step hp zp p) b cs).
Proof.
  intros Hzp. revert S b. induction cs as [|c cs IH]; intros S b Hb; cbn [foldl].
  { eapply bounds_inv_iff; [|exact Hb]. intros x y. rewrite elem_of_nil. tauto. }
  eapply bounds_inv_iff; [|apply IH, bounds_inv_step; [exact Hzp | exact Hb]].
  intros x y. simpl. rewrite elem_of_cons. tauto.
Qed.

Lemma bounds_of_inv placed composited :
  bounds_inv (fun x y => x ∈ placed /\ y ∈ composited) (bounds_of hp placed composited).
Proof.
  unfold bounds_of.
  cut (forall S b, bounds_inv S b -> bounds_inv (fun x y => S x y \/ (x ∈ placed /\ y ∈ composited))
    (foldl (fun b p => match property Zpos (lay hp p) with
       | None => b | Some zp => foldl (bounds_step hp zp p) b composited end) b placed)).
  { intros Hcut. eapply bounds_inv_iff; [|apply (Hcut (fun _ _ => False))].
    - intros x y. simpl. tauto.
    - split_and!; [done | done |]. intros p c zp zc []. }
  induction placed as [|p ps IH]; intros S b Hb; cbn [foldl].
  { eapply bounds_inv_iff; [|exact Hb]. intros x y. rewrite elem_of_nil. tauto. }
  destruct (property Zpos (lay hp p)) as [zp|] eqn:Hzp.
  - eapply bounds_inv_iff; [|apply IH, (bounds_inv_inner S b p zp composited Hzp Hb)].
    intros x y. simpl. rewrite elem_of_cons. naive_solver.
  - destruct (IH S b Hb) as (H1 & H2 & H3). split_and!.
    + intros z Hz. destruct (H1 z Hz) as (p' & c' & zc & HS & ?). exists p', c', zc. split; [|done].
      rewrite elem_of_cons. tauto.
    + intros z Hz. destruct (H2 z Hz) as (p' & c' & zc & HS & ?). exists p', c', zc. split; [|done].
      rewrite elem_of_cons. tauto.
    + intros p' c' zp zc HS Hc. apply (H3 p' c'); [|done]. rewrite elem_of_cons in HS.
      destruct HS as [?|[[->|?] ?]]; [tauto | | tauto]. destruct Hc as [Hc _]. congruence.
Qed.

(** A canvas can be slotted in: one cut of the zpos axis with every placed
    layer that must cover a composited one at or above it, and every placed
    layer a composited one must cover below it. *)
Definition separable (placed composited : positive -> Prop) : Prop :=
  exists cut, forall p c zp zc, placed p -> composited c -> conflict hp p c zp zc ->
    (zc < zp -> cut <= zp) /\ (zp < zc -> zp < cut).

Lemma feasible_separable placed composited b :
  bounds_inv (fun x y => placed x /\ composited y) b ->
  feasible b = true <-> separable placed composited.
Proof.
  intros (Ha & Hb & Hall). unfold feasible, separable. split.
  - intros Hf. exists (match above b, below b with Some z, _ => z | None, Some z => z + 1 | _, _ => 0 end).
    intros p c zp zc Hp Hc Hx. destruct (Hall p c zp zc (conj Hp Hc) Hx) as [H1 H2]. split; intros Hz.
    + destruct (H1 Hz) as (z & -> & Hle). done.
    + destruct (H2 Hz) as (z & Hbz & Hle). rewrite Hbz in *. destruct (above b); bool_simpl; lia.
  - intros [cut Hcut]. destruct (below b) as [lo|] eqn:Hlo; [|done].
    destruct (above b) as [hi|] eqn:Hhi; [|done]. apply Z.ltb_lt.
    destruct (Ha hi eq_refl) as (p & c & zc & [Hp Hc] & Hx & Hz).
    destruct (Hb lo eq_refl) as (p' & c' & zc' & [Hp' Hc'] & Hx' & Hz').
    destruct (Hcut p c hi zc Hp Hc Hx). destruct (Hcut p' c' lo zc' Hp' Hc' Hx'). lia.
Qed.
End BoundsFacts.

Section CanvasFacts.
Context `{cpp : CppStd}.

(** Scanned out from a plane this frame: by the assignment, or pinned. *)
Definition is_placed (a : Allocator) (hp : heap) (asg : PlaneAssignment) (l : positive) : Prop :=
  l ∈ asg.*2 \/
  (l ∈ scratch_current_set_ a /\ is_composition_layer_ (lay hp l) = false /\
   externally_bound_ (lay hp l) = false /\ is_Some (pinned_plane hp asg l)).

(** Left to the canvas. *)
Definition is_composited (a : Allocator) (hp : heap) (asg : PlaneAssignment) (l : positive) : Prop :=
  l ∈ scratch_current_set_ a /\ is_composition_layer_ (lay hp l) = false /\
  externally_bound_ (lay hp l) = false /\ pinned_ (lay hp l) = false /\ l ∉ asg.*2.

Lemma in_assignment_true asg l : in_assignment asg l = true <-> l ∈ asg.*2.
Proof.
  unfold in_assignment. rewrite existsb_exists, list_elem_of_fmap. split.
  - intros (e & He & Hb). bool_simpl. exists e. by rewrite list_elem_of_In.
  - intros (e & -> & He). exists e. by rewrite bool_decide_eq_true, <- list_elem_of_In.
Qed.

Lemma classify_current_elem hp asg ls placed composited l :
  let r := classify_current hp asg ls placed composited in
  (l ∈ r.1 <-> l ∈ placed \/ (l ∈ ls /\ is_composition_layer_ (lay hp l) = false /\
     externally_bound_ (lay hp l) = false /\ is_Some (pinned_plane hp asg l))) /\
  (l ∈ r.2 <-> l ∈ composited \/ (l ∈ ls /\ is_composition_layer_ (lay hp l) = false /\
     externally_bound_ (lay hp l) = false /\ pinned_ (lay hp l) = false /\ l ∉ asg.*2)).
Proof.
  cbv zeta. revert placed composited. induction ls as [|x ls IH]; intros placed composited;
    cbn [classify_current].
  { rewrite !elem_of_nil. simpl. tauto. }
  destruct (is_composition_layer_ (lay hp x) || _) eqn:E.
  { destruct (IH placed composited) as [-> ->]. rewrite !elem_of_cons.
    apply orb_true_iff in E. split; (split; [tauto|]);
      intros [?|[[->|?] (? & ? & ?)]]; [tauto | destruct E; congruence | tauto..| destruct E; congruence | tauto]. }
  bool_simpl. destruct (pinned_ (lay hp x)) eqn:Hp.
  - destruct (pinned_plane hp asg x) as [q|] eqn:Hq.
    + destruct (IH (placed ++ [x]) composited) as [-> ->]. rewrite elem_of_app, !elem_of_cons, elem_of_nil.
      split; split; [intros [[?|[->|[]]]|?]; [tauto | right; eauto 10 | tauto]
        | intros [?|[[->|?] ?]]; tauto | tauto | intros [?|[[->|?] (? & ? & ? & ?)]]; [tauto|congruence|tauto]].
    + destruct (IH placed composited) as [-> ->]. rewrite !elem_of_cons.
      split; split; [tauto | intros [?|[[->|?] (? & ? & [? ?])]]; [tauto|congruence|eauto 10] | tauto
        | intros [?|[[->|?] (? & ? & ? & ?)]]; [tauto|congruence|tauto]].
  - assert (Hnp : pinned_plane hp asg x = None) by (unfold pinned_plane; by rewrite Hp).
    destruct (in_assignment asg x) eqn:Hin; cbn [negb].
    + apply in_assignment_true in Hin. destruct (IH placed composited) as [-> ->]. rewrite !elem_of_cons.
      split; split; [tauto | intros [?|[[->|?] (? & ? & [? ?])]]; [tauto|congruence|eauto 10] | tauto
        | intros [?|[[->|?] (? & ? & ? & ?)]]; tauto].
    + assert (Hni : x ∉ asg.*2) by (rewrite <- in_assignment_true; congruence).
      destruct (IH placed (composited ++ [x])) as [-> ->]. rewrite elem_of_app, !elem_of_cons, elem_of_nil.
      split; split; [tauto | intros [?|[[->|?] (? & ? & [? ?])]]; [tauto|congruence|eauto 10]
        | intros [[?|[->|[]]]|?]; tauto | intros [?|[[->|?] ?]]; tauto].
Qed.

Lemma bounds_sets_elem a hp asg l :
  (l ∈ (bounds_sets a hp asg).1 <-> is_placed a hp asg l) /\
  (l ∈ (bounds_sets a hp asg).2 <-> is_composited a hp asg l).
Proof.
  unfold bounds_sets, is_placed, is_composited.
  destruct (classify_current_elem hp asg (unordered_iter (scratch_current_set_ a)) asg.*2 [] l) as [-> ->].
  rewrite unordered_iter_perm, elem_of_nil. tauto.
Qed.

Lemma canvas_bounds_inv a hp asg :
  bounds_inv hp (fun p c => is_placed a hp asg p /\ is_composited a hp asg c) (canvas_bounds a hp asg).
Proof.
  unfold canvas_bounds. eapply bounds_inv_iff; [|apply bounds_of_inv].
  intros p c. simpl. destruct (bounds_sets_elem a hp asg p) as [-> _].
  by destruct (bounds_sets_elem a hp asg c) as [_ ->].
Qed.

(** One canvas can carry the composited layers exactly when the
    bounds are feasible: there is a cut of the zpos axis with every placed
    layer that must cover an overlapping composited layer on one side and
    every placed layer that must stay under one on the other, whatever order
    the unordered layer set is walked in. *)
Theorem canvas_feasible_iff (a : Allocator) (hp : heap) (asg : PlaneAssignment) :
  feasible (canvas_bounds a hp asg) = true <->
  exists cut, forall p c zp zc, is_placed a hp asg p -> is_composited a hp asg c ->
    conflict hp p c zp zc -> (zc < zp -> cut <= zp) /\ (zp < zc -> zp < cut).
Proof. apply feasible_separable, canvas_bounds_inv. Qed.
End CanvasFacts.

(** ** Giving way to the canvas *)

Section ResolveFacts.
Context `{cpp : CppStd}.

Lemma pick_victim_elem hp cs lo hi es v k :
  forall r, pick_victim hp cs lo hi es v k = Some r -> v = Some r \/ r ∈ es.*1.
Proof.
  revert v k. induction es as [|e es IH]; intros v k r; cbn [pick_victim]; [by left|].
  destruct (negb _); [|destruct (bool_decide (v = None) || _)].
  - intros [?|?]%IH; [by left | right]. by apply list_elem_of_further.
  - intros [[= <-]|?]%IH; right; [apply list_elem_of_here | by apply list_elem_of_further].
  - intros [?|?]%IH; [by left | right]. by apply list_elem_of_further.
Qed.

Lemma erase_sublist p (asg : PlaneAssignment) : PA.erase p asg `sublist_of` asg.
Proof.
  induction asg as [|e asg IH]; [done|]. cbn [PA.erase]. destruct (e.1 =? p).
  - by apply sublist_cons.
  - by apply sublist_skip.
Qed.

Lemma erase_length p (asg : PlaneAssignment) : p ∈ asg.*1 -> S (length (PA.erase p asg)) = length asg.
Proof.
  induction asg as [|e asg IH]; [by intros ?%not_elem_of_nil|]. cbn [PA.erase]. csimpl.
  rewrite elem_of_cons. destruct (Z.eqb_spec e.1 p) as [Heq|Hne]; [done|].
  intros [?|Hp]; [congruence|]. simpl. by rewrite IH.
Qed.

Lemma erase_if_sublist c (asg : PlaneAssignment) : PA.erase_if c asg `sublist_of` asg.
Proof.
  induction asg as [|e asg IH]; [done|]. cbn [PA.erase_if]. destruct (c e).
  - by apply sublist_cons.
  - by apply sublist_skip.
Qed.

Lemma drop_victim_sublist a v asg : drop_victim a v asg `sublist_of` asg.
Proof. unfold drop_victim. etrans; [apply erase_if_sublist | apply erase_sublist]. Qed.

Lemma drop_victim_length a v asg :
  v ∈ asg.*1 -> (length (drop_victim a v asg) < length asg)%nat.
Proof.
  intros Hv. apply erase_length in Hv. unfold drop_victim.
  match goal with |- context [PA.erase_if ?c ?l] => pose proof (sublist_length _ _ (erase_if_sublist c l)) end.
  lia.
Qed.

(** The loop ends, having erased victims. *)
Lemma resolve_loop_spec (P : PlaneAssignment -> Prop) fuel a hp asg :
  (length asg < fuel)%nat -> P asg ->
  (forall asg v, P asg -> P (drop_victim a v asg)) ->
  exists ok out, resolve_loop fuel a hp asg = Some (ok, out) /\ P out /\ out `sublist_of` asg /\
    (ok = true -> feasible (canvas_bounds a hp out) = true).
Proof.
  intros Hf HP Hstep. revert asg Hf HP. induction fuel as [|fuel IH]; intros asg Hf HP; [lia|].
  cbn [resolve_loop]. fold (canvas_bounds a hp asg).
  destruct (feasible (canvas_bounds a hp asg)) eqn:Hfe; [by exists true, asg|].
  assert (Hboth : exists hi lo, above (canvas_bounds a hp asg) = Some hi /\ below (canvas_bounds a hp asg) = Some lo).
  { unfold feasible in Hfe. destruct (below _), (above _); eauto; done. }
  destruct Hboth as (hi & lo & -> & ->).
  destruct (pick_victim _ _ hi lo asg None 0) as [v|] eqn:Hv; [|by exists false, asg].
  apply pick_victim_elem in Hv as [?|Hv]; [done|].
  destruct (IH (drop_victim a v asg)) as (ok & out & Hr & HPo & Hsub & Hok).
  { apply (drop_victim_length a) in Hv. lia. }
  { by apply Hstep. }
  exists ok, out. split_and!; [done | done | | done]. etrans; [exact Hsub | apply drop_victim_sublist].
Qed.

Lemma forallb_sublist {A} (f : A -> bool) l l' :
  l `sublist_of` l' -> forallb f l' = true -> forallb f l = true.
Proof.
  rewrite !forallb_forall. intros Hs Hf x Hx. apply Hf. rewrite <- list_elem_of_In in *.
  by eapply elem_of_sublist.
Qed.

Lemma fits_stacking_sublist a hp asg asg' p l :
  asg `sublist_of` asg' -> fits_stacking a hp asg' p l = true -> fits_stacking a hp asg p l = true.
Proof.
  unfold fits_stacking. destruct (last_caps _ _ _); [|done]. intros Hs. by apply forallb_sublist.
Qed.

Lemma stacking_all_sublist a hp asg asg' :
  asg `sublist_of` asg' -> stacking_all a hp asg' = true -> stacking_all a hp asg = true.
Proof.
  unfold stacking_all. intros Hs Hf. pose proof (forallb_sublist _ _ _ Hs Hf) as Hf'.
  rewrite !forallb_forall in *. intros e He. by eapply fits_stacking_sublist, Hf'.
Qed.

(** No plane is the virtual half of a virtual plane. *)
Definition flat_multirect (a : Allocator) : Prop :=
  forall p q cp cq, caps_of a p = Some cp -> multirect_parent cp = Some q ->
    caps_of a q = Some cq -> multirect_parent cq = None.

Lemma multirect_complete_drop a v asg :
  flat_multirect a -> NoDup asg.*1 -> multirect_complete a asg = true ->
  multirect_complete a (drop_victim a v asg) = true.
Proof.
  intros Hflat Hnd. unfold multirect_complete. rewrite !forallb_forall. intros Hc e He.
  unfold drop_victim in He. rewrite PA.erase_if_filter, PA.erase_filter in He by done.
  apply list_elem_of_In, list_elem_of_filter in He as [Hkeep [Hne He]%list_elem_of_filter].
  specialize (Hc e (proj1 (list_elem_of_In _ _) He)). unfold fits_multirect in *.
  destruct (caps_of a e.1) as [cp|] eqn:Hcp; [|done].
  unfold multirect_pairing_ok in *. destruct (multirect_parent cp) as [q|] eqn:Hq; [|done].
  apply PA.count_true. apply PA.count_true, list_elem_of_fmap in Hc as (e' & -> & He').
  apply list_elem_of_fmap. exists e'. split; [done|].
  unfold drop_victim. rewrite PA.erase_if_filter, PA.erase_filter by done.
  rewrite !list_elem_of_filter. bool_simpl. split_and!; [|congruence | done].
  destruct (caps_of a e'.1) as [cq|] eqn:Hcq; [|done].
  rewrite (Hflat e.1 e'.1 cp cq Hcp Hq Hcq). by apply bool_decide_eq_false.
Qed.

Lemma drop_victim_nodup a v asg : NoDup asg.*1 -> NoDup (drop_victim a v asg).*1.
Proof.
  intros Hnd. unfold drop_victim. rewrite PA.erase_if_filter, PA.erase_filter by done.
  by do 2 apply PA.filter_keys_nodup.
Qed.

(** C35. Resolving the canvas bounds ends within one round per placed
    layer; it only takes layers off planes; on success one canvas fits; and it
    breaks neither the stacking rule nor the multirect pairing. *)
Theorem resolve_canvas_bounds_spec (a : Allocator) (hp : heap) (asg : PlaneAssignment) :
  flat_multirect a -> NoDup asg.*1 ->
  exists ok out, resolve_canvas_bounds a hp asg = Some (ok, out) /\ out `sublist_of` asg /\
    (ok = true -> feasible (canvas_bounds a hp out) = true) /\
    (stacking_all a hp asg = true -> stacking_all a hp out = true) /\
    (multirect_complete a asg = true -> multirect_complete a out = true).
Proof.
  intros Hflat Hnd.
  destruct (resolve_loop_spec (fun out => NoDup out.*1 /\
    (multirect_complete a asg = true -> multirect_complete a out = true)) (S (length asg)) a hp asg)
    as (ok & out & Hr & [_ Hm] & Hs & Hok).
  - lia.
  - done.
  - intros asg' v [Hnd' Hm]. split; [by apply drop_victim_nodup|]. intros H.
    apply multirect_complete_drop; auto.
  - exists ok, out. split_and!; [done..| | done]. by apply stacking_all_sublist.
Qed.

(** ** The canvas's number *)

Lemma read_stack_written fits ids es i p e v :
  ids !! i = Some p -> es !! i = Some e -> written e = Some v ->
  (p, v) ∈ stack_written (read_stack fits ids es).
Proof.
  intros Hi He Hv. unfold read_stack. cbn [stack_written]. apply list_elem_of_omap.
  exists (p, e). simpl. rewrite Hv. split; [|done].
  apply list_elem_of_lookup. exists i. by rewrite lookup_zip_with, Hi, He.
Qed.

Definition zpos_range_ok (p : PlaneCapabilities) : Prop :=
  forall lo hi, zpos_min p = Some lo -> zpos_max p = Some hi -> 0 <= lo /\ hi < 2 ^ 64 - 1.

Lemma caps_of_elem a i p : caps_of a i = Some p -> p ∈ all_planes a /\ id p = i.
Proof.
  unfold caps_of. intros [Hin Hid]%List.find_some. bool_simpl.
  by rewrite list_elem_of_In.
Qed.

(** Both ends of the slot's range, or neither. *)
Definition slot_ok (s : PlaneCapabilities) : Prop :=
  (zpos_min s = None /\ zpos_max s = None) \/
  exists lo hi, zpos_min s = Some lo /\ zpos_max s = Some hi /\ 0 <= lo /\ hi < 2 ^ 64 - 1.

Lemma widen_slot_ok s p : slot_ok s -> zpos_range_ok p -> slot_ok (widen_slot s p).
Proof.
  intros Hs Hp. unfold widen_slot.
  destruct (zpos_min p) as [lo|] eqn:Hlo; [|done]. destruct (zpos_max p) as [hi|] eqn:Hhi; [|done].
  destruct (is_cursor p || _); [done|]. destruct (Hp lo hi Hlo Hhi). right.
  destruct Hs as [[H1 H2]|(l & h & H1 & H2 & ? & ?)]; rewrite H1, H2;
    (eexists _, _; split_and!; [done | done | simpl; lia | simpl; lia]).
Qed.

Lemma canvas_slot_ok a : Forall zpos_range_ok (all_planes a) -> slot_ok (canvas_slot a).
Proof.
  intros Hall. unfold canvas_slot. destruct (cached_crtc_index_ a) as [c|]; [|by left].
  assert (Hv : Forall zpos_range_ok (for_crtc_planes a c)).
  { rewrite Forall_forall in *. intros p (i & _ & Hp)%list_elem_of_omap. apply Hall.
    by eapply list_elem_of_lookup_2. }
  assert (H0 : slot_ok default_caps) by (by left). revert H0. generalize default_caps.
  induction Hv as [|p ps Hp Hv IH]; intros s Hs; [done|]. cbn [foldl]. by apply IH, widen_slot_ok.
Qed.

Lemma entry_range_some e p z lo hi :
  se_plane e = Some p -> requested e = Some z -> zpos_min p = Some lo -> zpos_max p = Some hi ->
  entry_range e = Some (lo, hi).
Proof. intros H1 H2 H3 H4. unfold entry_range, rank_entry. by rewrite H1, H2, H3, H4. Qed.

Lemma entry_range_inv e lo hi :
  entry_range e = Some (lo, hi) ->
  exists p, se_plane e = Some p /\ zpos_min p = Some lo /\ zpos_max p = Some hi.
Proof.
  unfold entry_range, rank_entry. destruct (se_plane e) as [p|]; [|done].
  destruct (requested e); [|done]. destruct (zpos_min p) eqn:?; [|done].
  destruct (zpos_max p) eqn:?; [|done]. intros [= <- <-]. eauto.
Qed.

Lemma stack_entries_ok a hp asg :
  Forall zpos_range_ok (all_planes a) -> entries_ok (stack_entries a hp asg).*2.
Proof.
  rewrite Forall_forall. intros Hall e lo hi He (p & Hp & Hlo & Hhi)%entry_range_inv.
  assert (exists i, se_plane e = caps_of a i) as [i Hi].
  { apply list_elem_of_fmap in He as (r & -> & [Hr|Hr]%elem_of_app).
    - apply list_elem_of_fmap in Hr as (x & -> & _). by eexists.
    - apply list_elem_of_omap in Hr as (l & _ & (q & _ & ->)%fmap_Some). by eexists. }
  rewrite Hp in Hi. symmetry in Hi. destruct (caps_of_elem a i p Hi) as [Hin _].
  by apply (Hall p Hin).
Qed.

Lemma stack_entries_at a hp asg i pid l :
  asg !! i = Some (pid, l) ->
  stack_entries a hp asg !! i =
    Some (pid, mkEntry (caps_of a pid) (property Zpos (lay hp l)) None false).
Proof.
  intros Hi. unfold stack_entries. rewrite lookup_app_l.
  - by rewrite list_lookup_fmap, Hi.
  - rewrite length_fmap. by eapply lookup_lt_Some.
Qed.

(** Only the branch with the slot reports a canvas number. *)
Lemma stacked_zpos_canvas a hp asg zc :
  let rows := stack_entries a hp asg in
  canvas (stacked_zpos a hp asg) = Some zc ->
  Forall zpos_range_ok (all_planes a) ->
  exists slot_lo slot_hi hi out,
    zpos_min (canvas_slot a) = Some slot_lo /\ zpos_max (canvas_slot a) = Some slot_hi /\
    above (canvas_bounds a hp asg) = Some hi /\ feasible (canvas_bounds a hp asg) = true /\
    stack_zpos (rows.*2 ++ [mkEntry (Some (canvas_slot a)) (Some hi) None true]) = (true, out) /\
    stacked_zpos a hp asg = read_stack true rows.*1 out /\
    (last out ≫= written) = Some zc.
Proof.
  cbv zeta. intros Hc Hall. pose proof (canvas_slot_ok a Hall) as Hslot.
  assert (Hno : forall es, entries_ok es -> length es = length (stack_entries a hp asg).*1 ->
    canvas (let '(fits, out) := stack_zpos es in read_stack fits (stack_entries a hp asg).*1 out) = None).
  { intros es Hok Hlen. pose proof (stack_zpos_numbers es Hok) as H.
    destruct (stack_zpos es) as [ok out]. destruct H as [Hl _]. unfold read_stack. cbn [canvas].
    rewrite Hl, Hlen, Nat.ltb_irrefl, andb_false_r. done. }
  specialize (Hno (stack_entries a hp asg).*2 (stack_entries_ok a hp asg Hall)
    ltac:(by rewrite !length_fmap)).
  unfold stacked_zpos in *. cbv zeta in *.
  destruct (bool_decide (is_Some (zpos_min (canvas_slot a))) && _ && _) eqn:E; [|congruence].
  bool_simpl. destruct Hslot as [[Hn _]|(lo & hi' & Hlo & Hhi & _)].
  { rewrite Hn in *. by match goal with H : is_Some None |- _ => destruct H end. }
  match goal with H : is_Some (above _) |- _ => destruct H as [hi Hab] end.
  rewrite Hab in *. destruct (stack_zpos (_ ++ _)) as [[] out] eqn:Hs; [|congruence].
  exists lo, hi', hi, out. split_and!; [done..|]. unfold read_stack in Hc. cbn [canvas] in Hc.
  by destruct (_ && _).
Qed.

Lemma zpos_number_at a hp asg i pid l cp lo hi out :
  asg !! i = Some (pid, l) -> caps_of a pid = Some cp -> zpos_min cp = Some lo -> zpos_max cp = Some hi ->
  stacked_zpos a hp asg = read_stack true (stack_entries a hp asg).*1 out ->
  forall e v, out !! i = Some e -> written e = Some v -> (pid, v) ∈ stack_written (stacked_zpos a hp asg).
Proof.
  intros Hi Hcp Hlo Hhi -> e v He Hv. eapply read_stack_written; [|exact He | exact Hv].
  by rewrite list_lookup_fmap, (stack_entries_at _ _ _ _ _ _ Hi).
Qed.

End ResolveFacts.

(** ** A concrete frame: a placed layer over a composited one *)

Definition box (zpos x : Z) : Layer :=
  set_property CrtcH 10 (set_property CrtcW 10 (set_property CrtcX x (set_property Zpos zpos new_layer))).

Definition frame_planes : list PlaneCapabilities :=
  [(ZposOrder.sample_plane 40 0 9) {{ type_ := PRIMARY; possible_crtcs := 1 }};
   (ZposOrder.sample_plane 41 0 9) {{ possible_crtcs := 1 }};
   (ZposOrder.sample_plane 42 0 9) {{ possible_crtcs := 1; multirect_parent := Some 41 }}].

Definition frame_allocator (current : list positive) : Allocator :=
  (@make_allocator linux_abi sample_kms (mkRegistry frame_planes ∅ [] ∅) EAGAIN)
    {{ cached_crtc_index_ := Some 0; scratch_current_set_ := current }}.

(** Layer 1 asks for zpos 5 and layer 3 for 2; both overlap layer 2, at zpos 4. *)
Definition frame_heap : heap :=
  <[1%positive := box 5 0]> (<[2%positive := box 4 5]> (<[3%positive := box 2 8]> ∅)).

Lemma frame_planes_ok : Forall zpos_range_ok frame_planes.
Proof.
  repeat (apply Forall_cons; split; [intros lo hi Hlo Hhi; simpl in Hlo, Hhi; simplify_eq; lia|]).
  constructor.
Qed.


Lemma resolve_canvas_bounds_spec_witness :
  let a := frame_allocator [1%positive; 2%positive; 3%positive] in
  exists ok out, @resolve_canvas_bounds libstdcxx a frame_heap [(40, 1%positive); (41, 3%positive)] = Some (ok, out) /\
    (ok = true -> feasible (@canvas_bounds libstdcxx a frame_heap out) = true).
Proof.
  intros a.
  destruct (@resolve_canvas_bounds_spec libstdcxx a frame_heap [(40, 1%positive); (41, 3%positive)])
    as (ok & out & Hr & _ & Hf & _).
  - intros p q cp cq Hp Hq Hcq. unfold caps_of, a in *. simpl in *.
    repeat case_match; simplify_eq/=; try done.
  - repeat constructor; set_solver.
  - exists ok, out. split; [exact Hr | exact Hf].
Defined.
