(* ===== verification/Writes.v ===== *)
(** Writing a placement into an atomic request: the second half of
    [src/planes/allocator.cpp] ([apply_layer_to_plane],
    [apply_layer_to_plane_real], [disable_unused_planes], [read_foreign_lit]).

    The real commit writes only what differs from the snapshot of the last one;
    the theorems say when that leaves the kernel where writing everything
    would. *)
From S2P Require Import Prelude DrmAbi FormatMod PlaneRegistry PropertyStore ZposOrder Layer Output.
From S2P Require Import Assignment Scoring AllocState Canvas Atomic.

Section Writes.
Context `{abi : DrmAbi} `{cpp : CppStd} `{lib : Libdrm}.

Definition expected_or {A} (d : A) (r : expected A) : A := match r with Val v => v | Unexp _ => d end.

(** ** The TEST variant: every advertised property of the layer *)

Fixpoint apply_properties (a : Allocator) (plane_id : Z) (zpos : option Z) (props : list (string * Z))
    (req : AtomicRequest) : expected unit * AtomicRequest :=
  match props with
  | [] => (Val tt, req)
  | (name, value) :: props' =>
      let value := if String.eqb name "zpos" then value_or value zpos else value in
      match property_id plane_id name (prop_store_ a) with
      | Unexp _ => apply_properties a plane_id zpos props' req
      | Val prop_id =>
          if expected_or false (is_immutable plane_id name (prop_store_ a))
          then apply_properties a plane_id zpos props' req
          else if String.eqb name "zpos" && zpos_is_fixed a plane_id
          then apply_properties a plane_id zpos props' req
          else
            match add_property plane_id prop_id (clamp_to_plane a plane_id name value) req with
            | (Val _, req) => apply_properties a plane_id zpos props' req
            | (Unexp e, req) => (Unexp e, req)
            end
      end
  end.

Definition apply_layer_to_plane (a : Allocator) (layer : Layer) (plane_id : Z) (req : AtomicRequest)
    (zpos : option Z) : expected unit * AtomicRequest :=
  apply_properties a plane_id zpos (properties layer) req.

(** ** The real variant *)

Definition count_written (is_fb : bool) (a : Allocator) : Allocator :=
  a {{ diagnostics_ ::= fun d =>
         d {{ properties_written ::= fun n => n + 1; fbs_attached ::= fun n => if is_fb then n + 1 else n }} }}.

(** Zero the driver-private properties of a plane written in full. *)
Fixpoint reset_on_arm (plane_id : Z) (props : list Z) (a : Allocator) (req : AtomicRequest)
    : expected unit * Allocator * AtomicRequest :=
  match props with
  | [] => (Val tt, a, req)
  | p :: props' =>
      match add_property plane_id p 0 req with
      | (Val _, req) => reset_on_arm plane_id props' (count_written false a) req
      | (Unexp e, req) => (Unexp e, a, req)
      end
  end.

(** The id a tag is written under, when it is written at all. *)
Definition writable (a : Allocator) (plane_id : Z) (tag : PropTag) : option Z :=
  match property_id plane_id (Layer.prop_name tag) (prop_store_ a) with
  | Unexp _ => None
  | Val prop_id =>
      if expected_or false (is_immutable plane_id (Layer.prop_name tag) (prop_store_ a)) then None
      else if bool_decide (tag = Zpos) && zpos_is_fixed a plane_id then None
      else Some prop_id
  end.

(** The value a tag is written with. *)
Definition written_value (layer : Layer) (zpos : option Z) (tag : PropTag) : Z :=
  if bool_decide (tag = Zpos) then value_or (value_at layer (idx_of tag)) zpos
  else value_at layer (idx_of tag).

Definition snap_test (s : PropertySnapshot) (i : nat) : bool := default false (snap_mask s !! i).
Definition snap_value (s : PropertySnapshot) (i : nat) : Z := default 0 (snap_values s !! i).

(** [snap]: what to diff against; [None] is a full write. *)
Definition need_write (snap : option PropertySnapshot) (tag : PropTag) (value : Z) : bool :=
  match snap with
  | None => true
  | Some s => negb (snap_test s (idx_of tag)) || negb (snap_value s (idx_of tag) =? value)
  end || bool_decide (prop_class tag = Content).

(** The loop over the tags. *)
Fixpoint real_loop (layer : Layer) (plane_id : Z) (zpos : option Z) (snap : option PropertySnapshot)
    (tags : list PropTag) (a : Allocator) (req : AtomicRequest)
    : expected unit * Allocator * AtomicRequest :=
  match tags with
  | [] => (Val tt, a, req)
  | tag :: tags' =>
      if negb (test layer (idx_of tag)) then real_loop layer plane_id zpos snap tags' a req
      else
        let value := written_value layer zpos tag in
        match writable a plane_id tag with
        | None => real_loop layer plane_id zpos snap tags' a req
        | Some prop_id =>
            if externally_bound_ layer && bool_decide (tag = FbId)
            then real_loop layer plane_id zpos snap tags' a req
            else if negb (need_write snap tag value)
            then real_loop layer plane_id zpos snap tags' a req
            else
              match add_property plane_id prop_id (clamp_to_plane a plane_id (Layer.prop_name tag) value) req with
              | (Val _, req) =>
                  real_loop layer plane_id zpos snap tags'
                    (count_written (bool_decide (tag = FbId)) a) req
              | (Unexp e, req) => (Unexp e, a, req)
              end
        end
  end.

(** The snapshot recorded: the layer's, with the zpos that was written. *)
Definition committed_snapshot (layer : Layer) (zpos : option Z) : PropertySnapshot :=
  let snap := snapshot layer in
  match zpos with
  | Some z =>
      if snap_test snap (idx_of Zpos)
      then mkSnapshot (<[idx_of Zpos := z]> (snap_values snap)) (snap_mask snap) else snap
  | None => snap
  end.

(** What the write diffs against: nothing on a forced, first or reassigned
    activation. *)
Definition diff_base (a : Allocator) (lp : positive) (plane_id : Z) : option PropertySnapshot :=
  match last_committed_ a !! plane_id with
  | None => None
  | Some lc =>
      if force_full_writes_ a || negb (bool_decide (lc_layer lc = Some lp)) then None
      else Some (lc_properties lc)
  end.

Definition reset_props (a : Allocator) (plane_id : Z) : list Z :=
  match caps_of a plane_id with Some caps => reset_on_arm_props caps | None => [] end.

Definition apply_layer_to_plane_real (hp : heap) (lp : positive) (plane_id : Z) (test_only : bool)
    (zpos : option Z) (a : Allocator) (req : AtomicRequest) : expected unit * Allocator * AtomicRequest :=
  let layer := lay hp lp in
  let snap := diff_base a lp plane_id in
  let '(r, a, req) :=
    match snap with
    | None => reset_on_arm plane_id (reset_props a plane_id) a req
    | Some _ => (Val tt, a, req)
    end in
  match r with
  | Unexp e => (Unexp e, a, req)
  | Val _ =>
      let '(r, a, req) := real_loop layer plane_id zpos snap all_tags a req in
      match r with
      | Unexp e => (Unexp e, a, req)
      | Val _ =>
          if test_only then (Val tt, a, req)
          else
            (Val tt,
             drop_foreign_lit plane_id
               (a {{ last_committed_ ::= <[plane_id :=
                       mkLast (Some lp) (committed_snapshot layer zpos) (compute_hash layer)]> }}),
             req)
      end
  end.

(** ** Arming an assignment

    The loop of the warm start and of the full search; they differ in whether
    the layer's fields are set before or after its properties are written. *)
Definition place_layer (plane_id : Z) (lp : positive) (hp : heap) : heap :=
  alter (fun l => l {{ assigned_plane_ := Some plane_id; needs_composition_ := false }}) lp hp.

Fixpoint arm_loop (before : bool) (stack : list (Z * Z)) (test_only : bool) (es : PlaneAssignment)
    (a : Allocator) (hp : heap) (req : AtomicRequest) : expected unit * Allocator * heap * AtomicRequest :=
  match es with
  | [] => (Val tt, a, hp, req)
  | (plane_id, lp) :: es' =>
      let hp := if before then place_layer plane_id lp hp else hp in
      match apply_layer_to_plane_real hp lp plane_id test_only (zpos_in stack plane_id) a req with
      | (Unexp e, a, req) => (Unexp e, a, hp, req)
      | (Val _, a, req) =>
          let hp := if before then hp else place_layer plane_id lp hp in
          arm_loop before stack test_only es' a hp req
      end
  end.

(** ** Disabling what is not used *)

(** The kernel has nothing on the plane, as far as the snapshots know. *)
Definition already_off (a : Allocator) (plane_id : Z) : bool :=
  match last_committed_ a !! plane_id with
  | None => negb (is_foreign_lit a plane_id)
  | Some lc =>
      negb (snap_test (lc_properties lc) (idx_of FbId)) || (snap_value (lc_properties lc) (idx_of FbId) =? 0)
  end.

(** One [add_property(plane, property, 0)] of the pass; a refusal is dropped. *)
Definition write_zero (plane_id : Z) (name : string) (track_state is_fb : bool) (a : Allocator)
    (req : AtomicRequest) : Allocator * AtomicRequest :=
  match property_id plane_id name (prop_store_ a) with
  | Unexp _ => (a, req)
  | Val prop =>
      let '(r, req) := add_property plane_id prop 0 req in
      (if has_value r && track_state then count_written is_fb a else a, req)
  end.

Definition disable_plane (plane_id : Z) (track_state test_only : bool) (a : Allocator)
    (req : AtomicRequest) : Allocator * AtomicRequest :=
  let '(a, req) := write_zero plane_id "FB_ID" track_state true a req in
  let '(a, req) := write_zero plane_id "CRTC_ID" track_state false a req in
  if track_state && negb test_only
  then (drop_foreign_lit plane_id (a {{ last_committed_ ::= delete plane_id }}), req)
  else (a, req).

(** Cursor planes, the planes kept and the caller's reservations are left
    alone. *)
Definition spared (a : Allocator) (keep : PlaneAssignment) (p : PlaneCapabilities) : bool :=
  is_cursor p || PA.count (id p) keep || bool_decide (id p ∈ external_reserved_ a).

Fixpoint disable_loop (keep : PlaneAssignment) (track_state test_only : bool)
    (planes : list PlaneCapabilities) (a : Allocator) (req : AtomicRequest) : Allocator * AtomicRequest :=
  match planes with
  | [] => (a, req)
  | p :: planes' =>
      if spared a keep p then disable_loop keep track_state test_only planes' a req
      else if track_state && negb (force_full_writes_ a) && already_off a (id p)
      then disable_loop keep track_state test_only planes' a req
      else
        let '(a, req) := disable_plane (id p) track_state test_only a req in
        disable_loop keep track_state test_only planes' a req
  end.

Definition disable_unused_planes (crtc_index : Z) (keep : PlaneAssignment) (track_state test_only : bool)
    (a : Allocator) (req : AtomicRequest) : Allocator * AtomicRequest :=
  disable_loop keep track_state test_only (for_crtc_planes a crtc_index) a req.

(** [drmModeGetPlane]: what is on a plane, [(fb_id, crtc_id)]. *)
Context (drmModeGetPlane_state : Z -> option (Z * Z)).

Definition read_foreign_lit (crtc_index crtc_id : Z) (a : Allocator) : Allocator :=
  a {{ foreign_lit_ :=
    omap (fun p =>
      if is_cursor p then None
      else match drmModeGetPlane_state (id p) with
           | Some (fb, crtc) => if negb (fb =? 0) && (crtc =? crtc_id) then Some (id p) else None
           | None => None
           end) (for_crtc_planes a crtc_index) }}.
End Writes.

(** ** The kernel's side of a commit *)

(** What each property of each object holds. *)
Abbreviation kstate := (gmap (Z * Z) Z).

Definition commit_write (k : kstate) (w : Write) : kstate :=
  <[(w_object w, w_property w) := w_value w]> k.
Definition commit_writes (ws : list Write) (k : kstate) : kstate := foldl commit_write k ws.

Lemma commit_writes_app ws ws' k : commit_writes (ws ++ ws') k = commit_writes ws' (commit_writes ws k).
Proof. apply foldl_app. Qed.

Definition w_key (w : Write) : Z * Z := (w_object w, w_property w).

Lemma commit_miss ws k key : (forall w, w ∈ ws -> w_key w <> key) -> commit_writes ws k !! key = k !! key.
Proof.
  revert k. induction ws as [|w ws IH]; intros k Hk; [done|]. cbn [commit_writes foldl].
  fold (commit_writes ws (commit_write k w)). rewrite IH.
  - unfold commit_write. rewrite lookup_insert_ne; [done|]. apply (Hk w), list_elem_of_here.
  - intros w' Hw'. apply Hk. by apply list_elem_of_further.
Qed.

Lemma commit_hit ws k key v :
  (exists w, w ∈ ws /\ w_key w = key) -> (forall w, w ∈ ws -> w_key w = key -> w_value w = v) ->
  commit_writes ws k !! key = Some v.
Proof.
  revert k. induction ws as [|w ws IH] using rev_ind; intros k [w0 [Hw0 Hk0]] Hv.
  { by apply not_elem_of_nil in Hw0. }
  rewrite commit_writes_app. cbn [commit_writes foldl]. unfold commit_write.
  destruct (decide (w_key w = key)) as [<-|Hne].
  - rewrite lookup_insert_eq. f_equal. apply Hv; [|done]. apply elem_of_app. right. apply list_elem_of_here.
  - rewrite lookup_insert_ne by done. apply IH.
    + exists w0. split; [|done]. apply elem_of_app in Hw0 as [?| ->%list_elem_of_singleton]; done.
    + intros w' Hw'. apply Hv, elem_of_app. by left.
Qed.

Section Minimise.
Context `{abi : DrmAbi} `{cpp : CppStd} `{lib : Libdrm}.

(** Memory for the request does not run out. *)
Definition adds_succeed : Prop := forall r wr, 0 <= (drmModeAtomicAddProperty r wr).1.

Definition live (r : AtomicRequest) : Prop := is_Some (req_ r).

(** [a'] is [a] but for its counters. *)
Definition recounted (a a' : Allocator) : Prop := a' = a {{ diagnostics_ := diagnostics_ a' }}.

Lemma recounted_refl a : recounted a a.
Proof. unfold recounted. by destruct a. Qed.

Lemma recounted_trans a b c : recounted a b -> recounted b c -> recounted a c.
Proof. unfold recounted. intros -> ->. reflexivity. Qed.

Lemma recounted_count a is_fb : recounted a (count_written is_fb a).
Proof. reflexivity. Qed.

Context (Hadds : adds_succeed).

Lemma add_property_ok o p v r :
  live r -> exists r', add_property o p v r = (Val tt, r') /\ live r' /\ writes r' = writes r ++ [mkWrite o p v].
Proof.
  intros [q Hq]. pose proof (Hadds q (mkWrite o p v)) as Hret.
  destruct (add_property o p v r) as [res r'] eqn:Ha.
  destruct (add_property_writes _ _ _ _ _ _ Ha) as (_ & _ & Hw).
  unfold add_property in Ha. rewrite Hq in Ha.
  destruct (drmModeAtomicAddProperty q _) as [ret q']. simpl in Hret.
  rewrite (proj2 (Z.ltb_ge _ _)) in Ha by lia. injection Ha as <- <-.
  eexists. split_and!; [done | by eexists | exact Hw].
Qed.

Lemma reset_on_arm_ok pid props a req :
  live req -> exists a' req', reset_on_arm pid props a req = (Val tt, a', req') /\ live req' /\
    recounted a a' /\ writes req' = writes req ++ ((fun p => mkWrite pid p 0) <$> props).
Proof.
  revert a req. induction props as [|p props IH]; intros a req Hl; cbn [reset_on_arm].
  { exists a, req. split_and!; [done | done | apply recounted_refl | by rewrite app_nil_r]. }
  destruct (add_property_ok pid p 0 req Hl) as (req1 & -> & Hl1 & Hw1).
  destruct (IH (count_written false a) req1 Hl1) as (a' & req' & -> & Hl' & Hr & Hw).
  exists a', req'. split_and!; [done | done | exact (recounted_trans _ _ _ (recounted_count a _) Hr) |].
  by rewrite Hw, Hw1, <- app_assoc.
Qed.

(** The write the loop makes for one tag. *)
Definition tag_write (a : Allocator) (layer : Layer) (pid : Z) (zpos : option Z)
    (snap : option PropertySnapshot) (tag : PropTag) : option Write :=
  if test layer (idx_of tag) then
    i ← writable a pid tag;
    if externally_bound_ layer && bool_decide (tag = FbId) then None
    else if need_write snap tag (written_value layer zpos tag)
    then Some (mkWrite pid i (clamp_to_plane a pid (Layer.prop_name tag) (written_value layer zpos tag)))
    else None
  else None.

Lemma tag_write_recounted a a' layer pid zpos snap tag :
  recounted a a' -> tag_write a' layer pid zpos snap tag = tag_write a layer pid zpos snap tag.
Proof. intros ->. reflexivity. Qed.

Lemma real_loop_ok layer pid zpos snap tags a req :
  live req -> exists a' req', real_loop layer pid zpos snap tags a req = (Val tt, a', req') /\ live req' /\
    recounted a a' /\ writes req' = writes req ++ omap (tag_write a layer pid zpos snap) tags.
Proof.
  revert a req. induction tags as [|tag tags IH]; intros a req Hl; cbn [real_loop].
  { exists a, req. split_and!; [done | done | apply recounted_refl | by rewrite app_nil_r]. }
  assert (Hskip : tag_write a layer pid zpos snap tag = None ->
    exists a' req', real_loop layer pid zpos snap tags a req = (Val tt, a', req') /\ live req' /\
      recounted a a' /\ writes req' = writes req ++ omap (tag_write a layer pid zpos snap) (tag :: tags)).
  { intros Hn. destruct (IH a req Hl) as (a' & req' & -> & Hl' & Hr & Hw). exists a', req'.
    split_and!; [done..|]. csimpl. by rewrite Hn. }
  unfold tag_write at 1 in Hskip. destruct (test layer (idx_of tag)) eqn:Ht; cbn [negb]; [|by apply Hskip].
  destruct (writable a pid tag) as [i|] eqn:Hi; [|by apply Hskip]. cbn [mbind option_bind] in Hskip.
  destruct (externally_bound_ layer && _) eqn:He; [by apply Hskip|].
  destruct (need_write snap tag _) eqn:Hn; cbn [negb]; [|by apply Hskip].
  destruct (add_property_ok pid i (clamp_to_plane a pid (Layer.prop_name tag) (written_value layer zpos tag)) req Hl)
    as (req1 & -> & Hl1 & Hw1).
  destruct (IH (count_written (bool_decide (tag = FbId)) a) req1 Hl1) as (a' & req' & -> & Hl' & Hr & Hw).
  exists a', req'. split_and!; [done | done | exact (recounted_trans _ _ _ (recounted_count a _) Hr) |].
  rewrite Hw, Hw1, <- app_assoc. f_equal. csimpl.
  unfold tag_write at 2. rewrite Ht, Hi. cbn [mbind option_bind]. rewrite He, Hn. reflexivity.
Qed.

(** Everything one activation writes, and what it records. *)
Definition plane_writes (a : Allocator) (hp : heap) (lp : positive) (pid : Z) (zpos : option Z) : list Write :=
  match diff_base a lp pid with
  | None => (fun p => mkWrite pid p 0) <$> reset_props a pid
  | Some _ => []
  end ++ omap (tag_write a (lay hp lp) pid zpos (diff_base a lp pid)) all_tags.

Definition record_commit (hp : heap) (lp : positive) (pid : Z) (zpos : option Z) (a : Allocator) : Allocator :=
  drop_foreign_lit pid
    (a {{ last_committed_ ::= <[pid :=
            mkLast (Some lp) (committed_snapshot (lay hp lp) zpos) (compute_hash (lay hp lp))]> }}).

Lemma apply_real_ok hp lp pid zpos a req :
  live req -> exists a' req', apply_layer_to_plane_real hp lp pid false zpos a req = (Val tt, a', req') /\
    live req' /\ recounted (record_commit hp lp pid zpos a) a' /\
    writes req' = writes req ++ plane_writes a hp lp pid zpos.
Proof.
  intros Hl. unfold apply_layer_to_plane_real, plane_writes. cbv zeta.
  assert (Hpre : exists a0 req0,
    match diff_base a lp pid with
    | None => reset_on_arm pid (reset_props a pid) a req
    | Some _ => (Val tt, a, req)
    end = (Val tt, a0, req0) /\ live req0 /\ recounted a a0 /\
    writes req0 = writes req ++ match diff_base a lp pid with
      | None => (fun p => mkWrite pid p 0) <$> reset_props a pid | Some _ => [] end).
  { destruct (diff_base a lp pid); [|by apply reset_on_arm_ok].
    exists a, req. split_and!; [done | done | apply recounted_refl | by rewrite app_nil_r]. }
  destruct Hpre as (a0 & req0 & -> & Hl0 & Hr0 & Hw0).
  destruct (real_loop_ok (lay hp lp) pid zpos (diff_base a lp pid) all_tags a0 req0 Hl0)
    as (a1 & req1 & -> & Hl1 & Hr1 & Hw1).
  eexists _, req1. split; [reflexivity|]. split_and!; [done | |].
  - pose proof (recounted_trans _ _ _ Hr0 Hr1) as Hr. rewrite Hr. reflexivity.
  - rewrite Hw1, Hw0, <- app_assoc. do 2 f_equal. apply list_omap_ext, Forall2_same_length_lookup_2; [done|].
    intros i x y Hx Hy. simplify_eq. by apply tag_write_recounted.
Qed.
End Minimise.

(** ** When minimised writes are enough *)

Section Sound.
Context `{abi : DrmAbi} `{cpp : CppStd} `{lib : Libdrm}.

(** KMS gives each property of a plane its own id. *)
Definition ids_distinct (a : Allocator) : Prop :=
  (forall pid t t' i, writable a pid t = Some i -> writable a pid t' = Some i -> t = t') /\
  (forall pid t i, writable a pid t = Some i -> i ∉ reset_props a pid).

(** The snapshots describe the kernel: on a recorded plane every placement
    property of the snapshot, and the driver-private ones zeroed on arming. *)
Definition snapshots_sound (a : Allocator) (k : kstate) : Prop :=
  forall pid lc, last_committed_ a !! pid = Some lc ->
    (forall tag i, prop_class tag = Placement -> snap_test (lc_properties lc) (idx_of tag) = true ->
       writable a pid tag = Some i ->
       k !! (pid, i) = Some (clamp_to_plane a pid (Layer.prop_name tag)
                               (snap_value (lc_properties lc) (idx_of tag)))) /\
    (forall q, q ∈ reset_props a pid -> k !! (pid, q) = Some 0).

(** A plane of the view taken for off is off. *)
Definition dark_sound (a : Allocator) (k : kstate) (crtc_index : Z) : Prop :=
  forall p name i, p ∈ for_crtc_planes a crtc_index -> already_off a (id p) = true ->
    name = "FB_ID"%string \/ name = "CRTC_ID"%string ->
    property_id (id p) name (prop_store_ a) = Val i -> k !! (id p, i) = Some 0.

Definition forced (a : Allocator) : Allocator := set_force_full_property_writes true a.

(** The other run: it writes everything, for the same planes.  Its snapshots
    may differ, since it also disables planes that are off. *)
Record writes_fully (a af : Allocator) : Prop := {
  wf_force : force_full_writes_ af = true;
  wf_registry : registry_ af = registry_ a;
  wf_store : prop_store_ af = prop_store_ a;
  wf_reserved : external_reserved_ af = external_reserved_ a
}.

Lemma diff_base_forced a lp pid : diff_base (forced a) lp pid = None.
Proof. unfold diff_base. by destruct (last_committed_ (forced a) !! pid). Qed.

(** The tags an activation is responsible for. *)
Definition governs (a : Allocator) (layer : Layer) (pid : Z) (tag : PropTag) (q : Z) : Prop :=
  test layer (idx_of tag) = true /\ writable a pid tag = Some q /\
  (externally_bound_ layer && bool_decide (tag = FbId)) = false.

Lemma tag_write_inv a layer pid zpos snap tag w :
  tag_write a layer pid zpos snap tag = Some w ->
  w_object w = pid /\ governs a layer pid tag (w_property w) /\
  w_value w = clamp_to_plane a pid (Layer.prop_name tag) (written_value layer zpos tag) /\
  need_write snap tag (written_value layer zpos tag) = true.
Proof.
  unfold tag_write, governs. destruct (test layer (idx_of tag)); [|done].
  destruct (writable a pid tag) as [i|]; [|done]. cbn [mbind option_bind].
  destruct (externally_bound_ layer && _); [done|].
  destruct (need_write snap tag _) eqn:E; [|done]. by intros [= <-].
Qed.

Lemma tag_write_some a layer pid zpos snap tag q :
  governs a layer pid tag q -> need_write snap tag (written_value layer zpos tag) = true ->
  tag_write a layer pid zpos snap tag =
    Some (mkWrite pid q (clamp_to_plane a pid (Layer.prop_name tag) (written_value layer zpos tag))).
Proof.
  unfold tag_write, governs. intros (-> & -> & He) Hn. cbn [mbind option_bind]. by rewrite He, Hn.
Qed.

Lemma all_tags_elem tag : tag ∈ all_tags.
Proof. eapply list_elem_of_lookup_2. apply all_tags_lookup. Qed.

Lemma plane_writes_object a hp lp pid zpos w : w ∈ plane_writes a hp lp pid zpos -> w_object w = pid.
Proof.
  unfold plane_writes. intros [Hw|(t & _ & Hw)%list_elem_of_omap]%elem_of_app.
  - destruct (diff_base a lp pid); [by apply not_elem_of_nil in Hw|].
    by apply list_elem_of_fmap in Hw as (q & -> & _).
  - by apply tag_write_inv in Hw as [? _].
Qed.

Section Plane.
Context (a : Allocator) (hp : heap) (lp : positive) (pid : Z) (zpos : option Z) (k : kstate).
Context (Hids : ids_distinct a).
Let layer := lay hp lp.
Let value (tag : PropTag) : Z := clamp_to_plane a pid (Layer.prop_name tag) (written_value layer zpos tag).
Let final := commit_writes (plane_writes a hp lp pid zpos) k.

Lemma plane_writes_governed w tag q :
  governs a layer pid tag q -> w ∈ plane_writes a hp lp pid zpos -> w_key w = (pid, q) -> w_value w = value tag.
Proof.
  intros (Ht & Hq & He) Hw [= Ho Hp]. destruct Hids as [Hinj Hreset].
  unfold plane_writes in Hw. apply elem_of_app in Hw as [Hw|(t & _ & Hw)%list_elem_of_omap].
  - destruct (diff_base a lp pid); [by apply not_elem_of_nil in Hw|].
    apply list_elem_of_fmap in Hw as (r & -> & Hr). simpl in Hp. subst.
    by destruct (Hreset pid tag q Hq).
  - apply tag_write_inv in Hw as (_ & (_ & Hwq & _) & Hv & _).
    rewrite Hp in Hwq. by rewrite (Hinj _ _ _ _ Hq Hwq).
Qed.

Lemma tag_write_in w tag :
  tag_write a layer pid zpos (diff_base a lp pid) tag = Some w -> w ∈ plane_writes a hp lp pid zpos.
Proof.
  intros Hw. apply elem_of_app. right. apply list_elem_of_omap. exists tag. split; [apply all_tags_elem | done].
Qed.

(** A property the activation governs ends at the layer's value, written or
    not. *)
Lemma governed_value tag q :
  snapshots_sound a k -> governs a layer pid tag q -> final !! (pid, q) = Some (value tag).
Proof.
  intros Hs Hg. unfold final.
  destruct (need_write (diff_base a lp pid) tag (written_value layer zpos tag)) eqn:Hn.
  - apply commit_hit.
    + eexists. split; [eapply tag_write_in, tag_write_some; [exact Hg | exact Hn] | done].
    + intros w Hw Hk. by apply (plane_writes_governed w tag q).
  - rewrite commit_miss.
    + unfold need_write in Hn. destruct (diff_base a lp pid) as [s|] eqn:Hd; [|done].
      unfold diff_base in Hd. destruct (last_committed_ a !! pid) as [lc|] eqn:Hlc; [|done].
      destruct (force_full_writes_ a || _); [done|]. injection Hd as <-.
      bool_simpl. destruct (Hs pid lc Hlc) as [Hp _]. destruct Hg as (_ & Hq & _).
      rewrite (Hp tag q); [unfold value; by f_equal; f_equal | by destruct (prop_class tag) | done | done].
    + intros w Hw Hk. apply elem_of_app in Hw as [Hw|(t & _ & Hw)%list_elem_of_omap].
      * destruct (diff_base a lp pid) as [s|]; [by apply not_elem_of_nil in Hw|done].
      * apply tag_write_inv in Hw as (_ & (_ & Hwq & _) & _ & Hnw).
        injection Hk as Ho Hq'. rewrite Hq' in Hwq. destruct Hids as [Hinj _]. destruct Hg as (_ & Hq & _).
        rewrite (Hinj _ _ _ _ Hq Hwq) in Hn. unfold layer in Hn; congruence.
Qed.

(** A driver-private property ends at zero. *)
Lemma reset_value q : snapshots_sound a k -> q ∈ reset_props a pid -> final !! (pid, q) = Some 0.
Proof.
  intros Hs Hq. unfold final. destruct Hids as [_ Hdis]. destruct (diff_base a lp pid) as [s|] eqn:Hd.
  - rewrite commit_miss.
    + unfold diff_base in Hd. destruct (last_committed_ a !! pid) as [lc|] eqn:Hlc; [|done].
      by apply (Hs pid lc Hlc).
    + intros w Hw [= Ho Hp]. unfold plane_writes in Hw. rewrite Hd in Hw.
      apply elem_of_app in Hw as [Hw|(t & _ & Hw)%list_elem_of_omap]; [by apply not_elem_of_nil in Hw|].
      apply tag_write_inv in Hw as (_ & (_ & Hwq & _) & _). rewrite Hp in Hwq. by apply (Hdis pid t q).
  - apply commit_hit.
    + exists (mkWrite pid q 0). split; [|done]. unfold plane_writes. rewrite Hd. apply elem_of_app. left.
      apply list_elem_of_fmap. by exists q.
    + intros w Hw [= Ho Hp]. unfold plane_writes in Hw. rewrite Hd in Hw.
      apply elem_of_app in Hw as [(r & -> & _)%list_elem_of_fmap|(t & _ & Hw)%list_elem_of_omap]; [done|].
      apply tag_write_inv in Hw as (_ & (_ & Hwq & _) & _). rewrite Hp in Hwq. by destruct (Hdis pid t q).
Qed.

(** Nothing else is touched. *)
Lemma other_value o q :
  (o = pid -> (forall tag, ~ governs a layer pid tag q) /\ q ∉ reset_props a pid) ->
  final !! (o, q) = k !! (o, q).
Proof.
  intros Hno. unfold final. apply commit_miss. intros w Hw [= Ho Hp].
  pose proof (plane_writes_object _ _ _ _ _ _ Hw) as Hob. destruct (Hno ltac:(congruence)) as [Hg Hr].
  unfold plane_writes in Hw. apply elem_of_app in Hw as [Hw|(t & _ & Hw)%list_elem_of_omap].
  - destruct (diff_base a lp pid); [by apply not_elem_of_nil in Hw|].
    apply list_elem_of_fmap in Hw as (r & -> & Hr'). by subst.
  - apply tag_write_inv in Hw as (_ & Hgw & _). rewrite Hp in Hgw. by apply (Hg t).
Qed.
End Plane.

(** Does the activation govern a property id?  Decidable over the tags. *)
Lemma governs_dec a layer pid q : (exists tag, governs a layer pid tag q) \/ (forall tag, ~ governs a layer pid tag q).
Proof.
  destruct (existsb (fun tag => test layer (idx_of tag) && bool_decide (writable a pid tag = Some q) &&
    negb (externally_bound_ layer && bool_decide (tag = FbId))) all_tags) eqn:E.
  - left. apply existsb_exists in E as (tag & _ & E). rewrite !andb_true_iff in E.
    destruct E as [[Ht Hq] He]. apply negb_true_iff in He. apply bool_decide_eq_true in Hq.
    by exists tag.
  - right. intros tag (Ht & Hq & He). rewrite <- not_true_iff_false, existsb_exists in E. apply E.
    exists tag. split; [apply list_elem_of_In, all_tags_elem|]. rewrite Ht, He, bool_decide_eq_true_2 by done. done.
Qed.

(** One plane: the minimised writes take the kernel where the full ones do. *)
Lemma plane_writes_equiv a hp lp pid zpos k :
  ids_distinct a -> snapshots_sound a k ->
  commit_writes (plane_writes a hp lp pid zpos) k = commit_writes (plane_writes (forced a) hp lp pid zpos) k.
Proof.
  intros Hids Hs. set (af := forced a).
  assert (Hidf : ids_distinct af) by exact Hids. assert (Hsf : snapshots_sound af k) by exact Hs.
  apply map_eq. intros [o q]. destruct (decide (o = pid)) as [->|Hne].
  - destruct (governs_dec a (lay hp lp) pid q) as [[tag Hg]|Hno].
    + rewrite (governed_value a hp lp pid zpos k Hids tag q Hs Hg).
      by rewrite (governed_value af hp lp pid zpos k Hidf tag q Hsf Hg).
    + destruct (decide (q ∈ reset_props a pid)) as [Hq|Hq].
      * rewrite (reset_value a hp lp pid zpos k Hids q Hs Hq).
        by rewrite (reset_value af hp lp pid zpos k Hidf q Hsf Hq).
      * rewrite (other_value a), (other_value af); [done|intros _; split; [exact Hno | exact Hq]..].
  - rewrite (other_value a), (other_value af) by done. done.
Qed.

Lemma writes_fully_plane a af hp lp pid zpos :
  writes_fully a af -> plane_writes af hp lp pid zpos = plane_writes (forced a) hp lp pid zpos.
Proof.
  intros [Hf Hr Hst _].
  assert (Hd : diff_base af lp pid = None).
  { unfold diff_base. rewrite Hf. by destruct (last_committed_ af !! pid). }
  unfold plane_writes. rewrite diff_base_forced, Hd.
  assert (Hrs : reset_props af pid = reset_props (forced a) pid).
  { unfold reset_props, caps_of, all_planes. by rewrite Hr. }
  rewrite Hrs. f_equal. apply list_omap_ext, Forall2_same_length_lookup_2; [done|].
  intros i x y Hx Hy. simplify_eq.
  unfold tag_write, writable, zpos_is_fixed, clamp_to_plane, caps_of, all_planes. rewrite Hr, Hst. done.
Qed.

(** ... and never more of them. *)
Lemma plane_writes_fewer a hp lp pid zpos :
  (length (plane_writes a hp lp pid zpos) <= length (plane_writes (forced a) hp lp pid zpos))%nat.
Proof.
  unfold plane_writes. rewrite diff_base_forced. rewrite !length_app. apply Nat.add_le_mono.
  - destruct (diff_base a lp pid); [apply Nat.le_0_l | done].
  - generalize all_tags. intros tags. induction tags as [|t tags IH]; [done|]. csimpl.
    destruct (tag_write a (lay hp lp) pid zpos (diff_base a lp pid) t) as [w|] eqn:E.
    + apply tag_write_inv in E as (_ & Hg & _).
      assert (Hg' : governs (forced a) (lay hp lp) pid t (w_property w)) by exact Hg.
      rewrite (tag_write_some _ _ _ zpos None t _ Hg') by done. csimpl. lia.
    + destruct (tag_write (forced a) (lay hp lp) pid zpos None t); csimpl; lia.
Qed.

Lemma snapshot_lookup layer zpos tag :
  layer_wf layer -> test layer (idx_of tag) = true ->
  snap_test (committed_snapshot layer zpos) (idx_of tag) = true /\
  snap_value (committed_snapshot layer zpos) (idx_of tag) = written_value layer zpos tag.
Proof.
  intros [Hv Hm] Ht. unfold committed_snapshot, written_value, snap_test, snap_value. cbv zeta.
  change (snap_mask (snapshot layer)) with (set_mask_ layer).
  change (snap_values (snapshot layer)) with (values_ layer).
  destruct zpos as [z|]; [|split; [exact Ht|]; simpl; by case_bool_decide].
  case_bool_decide as Hz.
  - subst. fold (test layer (idx_of Zpos)). rewrite Ht. cbn [snap_mask snap_values]. split; [exact Ht|].
    rewrite list_lookup_insert_eq; [done|]. rewrite Hv. apply idx_of_bound.
  - destruct (default false (set_mask_ layer !! idx_of Zpos)); (split; [exact Ht|]); [|done].
    cbn [snap_values]. rewrite list_lookup_insert_ne; [done|]. intros Heq. apply Hz. symmetry. by apply idx_of_inj.
Qed.

Lemma snapshot_test_only layer zpos i :
  snap_test (committed_snapshot layer zpos) i = test layer i.
Proof. unfold committed_snapshot. cbv zeta. destruct zpos; [|done]. by destruct (snap_test (snapshot layer) (idx_of Zpos)). Qed.

(** Recording keeps the snapshots sound. *)
Lemma record_sound a hp lp pid zpos k :
  ids_distinct a -> snapshots_sound a k -> layer_wf (lay hp lp) ->
  snapshots_sound (record_commit hp lp pid zpos a) (commit_writes (plane_writes a hp lp pid zpos) k).
Proof.
  intros Hids Hs Hwf p lc Hlc. change (last_committed_ (record_commit hp lp pid zpos a)) with
    (<[pid := mkLast (Some lp) (committed_snapshot (lay hp lp) zpos) (compute_hash (lay hp lp))]> (last_committed_ a)) in Hlc.
  change (reset_props (record_commit hp lp pid zpos a) p) with (reset_props a p).
  change (writable (record_commit hp lp pid zpos a) p) with (writable a p).
  change (clamp_to_plane (record_commit hp lp pid zpos a) p) with (clamp_to_plane a p).
  apply lookup_insert_Some in Hlc as [[<- <-]|[Hne Hlc]]; cbn [lc_properties].
  - split; [|intros q Hq; by apply reset_value]. intros tag i Hcl Ht Hi.
    rewrite snapshot_test_only in Ht. destruct (snapshot_lookup (lay hp lp) zpos tag Hwf Ht) as [_ ->].
    apply governed_value; [done..|]. split_and!; [done..|]. apply andb_false_iff. right.
    apply bool_decide_eq_false. by intros ->.
  - destruct (Hs p lc Hlc) as [Hp Hr]. split.
    + intros tag i Hcl Ht Hi. rewrite other_value by done. by apply Hp.
    + intros q Hq. rewrite other_value by done. by apply Hr.
Qed.

(** A recorded plane is lit when its layer has a framebuffer. *)
Definition has_framebuffer (l : Layer) : Prop := exists fb, property FbId l = Some fb /\ fb <> 0.

Lemma record_dark a hp lp pid zpos k c :
  dark_sound a k c -> layer_wf (lay hp lp) -> has_framebuffer (lay hp lp) ->
  dark_sound (record_commit hp lp pid zpos a) (commit_writes (plane_writes a hp lp pid zpos) k) c.
Proof.
  intros Hd Hwf (fb & Hfb & Hne) p name i Hp Hoff Hname Hi.
  change (for_crtc_planes (record_commit hp lp pid zpos a) c) with (for_crtc_planes a c) in Hp.
  change (prop_store_ (record_commit hp lp pid zpos a)) with (prop_store_ a) in Hi.
  unfold already_off in Hoff. change (last_committed_ (record_commit hp lp pid zpos a)) with
    (<[pid := mkLast (Some lp) (committed_snapshot (lay hp lp) zpos) (compute_hash (lay hp lp))]> (last_committed_ a)) in Hoff.
  destruct (decide (id p = pid)) as [<-|Hpid].
  - exfalso. rewrite lookup_insert_eq in Hoff. cbn [lc_properties] in Hoff.
    unfold property in Hfb. destruct (test (lay hp lp) (idx_of FbId)) eqn:Ht; [|done]. injection Hfb as Hfb.
    destruct (snapshot_lookup (lay hp lp) zpos FbId Hwf Ht) as [H1 H2]. rewrite H1, H2 in Hoff.
    unfold written_value in Hoff. rewrite bool_decide_eq_false_2 in Hoff by done. simpl in Hoff, Hfb. rewrite Hfb in Hoff.
    bool_simpl. done.
  - rewrite lookup_insert_ne in Hoff by done. rewrite other_value by done.
    apply (Hd p name i Hp); [|done|done]. unfold already_off.
    destruct (last_committed_ a !! id p); [exact Hoff|]. unfold is_foreign_lit in *. bool_simpl.
    apply negb_true_iff, bool_decide_eq_false. intros Hin. apply Hoff.
    apply list_elem_of_filter. by split.
Qed.

Lemma lay_place pid lp hp l :
  values_ (lay (place_layer pid lp hp) l) = values_ (lay hp l) /\
  set_mask_ (lay (place_layer pid lp hp) l) = set_mask_ (lay hp l).
Proof.
  unfold lay, place_layer. destruct (decide (l = lp)) as [->|Hne].
  - rewrite lookup_alter_eq. by destruct (hp !! lp).
  - by rewrite lookup_alter_ne.
Qed.

Definition armable (hp : heap) (l : positive) : Prop := layer_wf (lay hp l) /\ has_framebuffer (lay hp l).

Lemma armable_place pid lp hp l : armable hp l -> armable (place_layer pid lp hp) l.
Proof.
  destruct (lay_place pid lp hp l) as [Hv Hm]. unfold armable, layer_wf, has_framebuffer, property, test, value_at.
  by rewrite Hv, Hm.
Qed.

(** The invariant a frame starts from and ends with. *)
Record frame_sound (a : Allocator) (k : kstate) (c : Z) : Prop := {
  fs_ids : ids_distinct a;
  fs_snapshots : snapshots_sound a k;
  fs_dark : dark_sound a k c
}.

Lemma frame_sound_recounted a a' k c : recounted a a' -> frame_sound a k c -> frame_sound a' k c.
Proof. unfold recounted. generalize (diagnostics_ a'). intros d -> [H1 H2 H3]. split; [exact H1 | exact H2 | exact H3]. Qed.

Lemma writes_fully_recounted a a' af af' :
  recounted a a' -> recounted af af' -> writes_fully a af -> writes_fully a' af'.
Proof.
  unfold recounted. generalize (diagnostics_ a') (diagnostics_ af'). intros d d' -> -> [H1 H2 H3 H4].
  by split.
Qed.

Lemma arm_loop_equiv before stack es a af hp r rf k c :
  adds_succeed -> live r -> live rf -> frame_sound a k c -> writes_fully a af ->
  (forall l, l ∈ es.*2 -> armable hp l) ->
  exists a1 a2 hp' r1 r2 ws1 ws2,
    arm_loop before stack false es a hp r = (Val tt, a1, hp', r1) /\
    arm_loop before stack false es af hp rf = (Val tt, a2, hp', r2) /\
    live r1 /\ live r2 /\ writes r1 = writes r ++ ws1 /\ writes r2 = writes rf ++ ws2 /\
    commit_writes ws1 k = commit_writes ws2 k /\ (length ws1 <= length ws2)%nat /\
    frame_sound a1 (commit_writes ws1 k) c /\ writes_fully a1 a2.
Proof.
  intros Hadds. revert a af hp r rf k. induction es as [|[pid lp] es IH]; intros a af hp r rf k Hl Hlf Hs Hf Harm.
  { exists a, af, hp, r, rf, [], []. rewrite !app_nil_r. by split_and!. }
  cbn [arm_loop]. set (hp0 := if before then place_layer pid lp hp else hp).
  assert (Harm0 : forall l, l ∈ ((pid, lp) :: es).*2 -> armable hp0 l).
  { intros l Hin. unfold hp0. destruct before; [apply armable_place|]; by apply Harm. }
  clearbody hp0. destruct (Harm0 lp (list_elem_of_here _ _)) as [Hwf Hfb].
  destruct (apply_real_ok Hadds hp0 lp pid (zpos_in stack pid) a r Hl) as (a' & r' & -> & Hl' & Hr & Hw).
  destruct (apply_real_ok Hadds hp0 lp pid (zpos_in stack pid) af rf Hlf) as (af' & rf' & -> & Hlf' & Hrf & Hwf').
  rewrite (writes_fully_plane a) in Hwf' by done. destruct Hs as [Hids Hsn Hd].
  set (hp1 := if before then hp0 else place_layer pid lp hp0).
  assert (Harm1 : forall l, l ∈ es.*2 -> armable hp1 l).
  { intros l Hin. unfold hp1. destruct before; [|apply armable_place]; apply Harm0; by apply list_elem_of_further. }
  set (w := plane_writes a hp0 lp pid (zpos_in stack pid)) in *.
  destruct (IH a' af' hp1 r' rf' (commit_writes w k)) as (a1 & a2 & hp' & r1 & r2 & ws1 & ws2 & -> & -> & ? & ? & Hw1 & Hw2 & Heq & Hle & Hs' & Hf').
  - done.
  - done.
  - eapply frame_sound_recounted; [exact Hr|]. split; [exact Hids | by apply record_sound | by apply record_dark].
  - eapply writes_fully_recounted; [exact Hr | exact Hrf |]. destruct Hf. by split.
  - exact Harm1.
  - exists a1, a2, hp', r1, r2, (w ++ ws1), (plane_writes (forced a) hp0 lp pid (zpos_in stack pid) ++ ws2).
    rewrite Hw1, Hw, Hw2, Hwf', <- !app_assoc, !commit_writes_app.
    split_and!; [done..| | | |done].
    + unfold w. by rewrite <- plane_writes_equiv.
    + pose proof (plane_writes_fewer a hp0 lp pid (zpos_in stack pid)) as Hfew. unfold w. rewrite !length_app. lia.
    + done.
Qed.
End Sound.

(** ** The disable pass *)

Section DisableFacts.
Context `{abi : DrmAbi} `{cpp : CppStd} `{lib : Libdrm}.
Context (Hadds : adds_succeed).

Definition zero_write (a : Allocator) (pid : Z) (name : string) : list Write :=
  match property_id pid name (prop_store_ a) with Val i => [mkWrite pid i 0] | Unexp _ => [] end.

Definition disable_writes (a : Allocator) (pid : Z) : list Write :=
  zero_write a pid "FB_ID" ++ zero_write a pid "CRTC_ID".

Definition erased (pid : Z) (a : Allocator) : Allocator :=
  drop_foreign_lit pid (a {{ last_committed_ ::= delete pid }}).

Lemma write_zero_ok pid name ts is_fb a req :
  live req -> exists a' req', write_zero pid name ts is_fb a req = (a', req') /\ live req' /\
    recounted a a' /\ writes req' = writes req ++ zero_write a pid name.
Proof.
  intros Hl. unfold write_zero, zero_write. destruct (property_id pid name _) as [i|e].
  - destruct (add_property_ok Hadds pid i 0 req Hl) as (req' & -> & Hl' & Hw).
    eexists _, req'. split; [reflexivity|]. split_and!; [done | | done].
    destruct (_ && ts); [apply recounted_count | apply recounted_refl].
  - exists a, req. split_and!; [done | done | apply recounted_refl | by rewrite app_nil_r].
Qed.

Lemma disable_plane_ok pid a req :
  live req -> exists a' req', disable_plane pid true false a req = (a', req') /\ live req' /\
    recounted (erased pid a) a' /\ writes req' = writes req ++ disable_writes a pid.
Proof.
  intros Hl. unfold disable_plane.
  destruct (write_zero_ok pid "FB_ID" true true a req Hl) as (a0 & r0 & -> & Hl0 & Hr0 & Hw0).
  destruct (write_zero_ok pid "CRTC_ID" true false a0 r0 Hl0) as (a1 & r1 & -> & Hl1 & Hr1 & Hw1).
  cbn [andb negb]. eexists _, r1. split; [reflexivity|]. split_and!; [done | |].
  - pose proof (recounted_trans _ _ _ Hr0 Hr1) as Hr. rewrite Hr. reflexivity.
  - rewrite Hw1, Hw0, <- app_assoc. unfold disable_writes. do 2 f_equal.
    unfold zero_write. by rewrite Hr0.
Qed.

Lemma disable_writes_elem a pid w :
  w ∈ disable_writes a pid <-> exists name i, (name = "FB_ID"%string \/ name = "CRTC_ID"%string) /\
    property_id pid name (prop_store_ a) = Val i /\ w = mkWrite pid i 0.
Proof.
  unfold disable_writes, zero_write. rewrite elem_of_app. split.
  - intros [Hw|Hw]; (destruct (property_id _ _ _) as [i|] eqn:E; [|by apply not_elem_of_nil in Hw]);
      apply list_elem_of_singleton in Hw; eauto 10.
  - intros (name & i & [-> | ->] & -> & ->); [left | right]; apply list_elem_of_here.
Qed.

Lemma disable_writes_zero a pid k name i :
  (name = "FB_ID"%string \/ name = "CRTC_ID"%string) -> property_id pid name (prop_store_ a) = Val i ->
  commit_writes (disable_writes a pid) k !! (pid, i) = Some 0.
Proof.
  intros Hn Hi. apply commit_hit.
  - exists (mkWrite pid i 0). split; [|done]. apply disable_writes_elem. eauto.
  - by intros w (n' & i' & _ & _ & ->)%disable_writes_elem _.
Qed.

Lemma disable_writes_other a pid k o i : o <> pid -> commit_writes (disable_writes a pid) k !! (o, i) = k !! (o, i).
Proof.
  intros Hne. apply commit_miss. intros w (n' & i' & _ & _ & ->)%disable_writes_elem [= Ho _]. by apply Hne.
Qed.

(** Zeroing what is already zero changes nothing. *)
Lemma disable_writes_off a pid k c p :
  dark_sound a k c -> p ∈ for_crtc_planes a c -> id p = pid -> already_off a pid = true ->
  commit_writes (disable_writes a pid) k = k.
Proof.
  intros Hd Hp <- Hoff. apply map_eq. intros [o i].
  destruct (decide ((o, i) ∈ w_key <$> disable_writes a (id p))) as [Hex|Hno].
  2: { apply commit_miss. intros w Hw Hk. apply Hno, list_elem_of_fmap. eauto. }
  apply list_elem_of_fmap in Hex as (w & [= -> ->] & (name & i' & Hn & Hi & ->)%disable_writes_elem).
  cbn [w_object w_property].
  rewrite (disable_writes_zero a (id p) k name i' Hn Hi). symmetry. by eapply Hd.
Qed.

Lemma erased_sound a pid k c :
  frame_sound a k c -> frame_sound (erased pid a) (commit_writes (disable_writes a pid) k) c.
Proof.
  intros [Hids Hs Hd]. split; [exact Hids| |].
  - intros q lc Hlc. change (last_committed_ (erased pid a)) with (delete pid (last_committed_ a)) in Hlc.
    apply lookup_delete_Some in Hlc as [Hne Hlc]. destruct (Hs q lc Hlc) as [Hp Hr]. split.
    + intros tag i Hcl Ht Hi. rewrite disable_writes_other by done. by apply Hp.
    + intros r Hq. rewrite disable_writes_other by done. by apply Hr.
  - intros p name i Hp Hoff Hn Hi. destruct (decide (id p = pid)) as [<-|Hne].
    + by eapply disable_writes_zero.
    + rewrite disable_writes_other by done. apply (Hd p name i Hp); [|done|done].
      unfold already_off in *. change (last_committed_ (erased pid a)) with (delete pid (last_committed_ a)) in Hoff.
      rewrite lookup_delete_ne in Hoff by done. destruct (last_committed_ a !! id p); [exact Hoff|].
      unfold is_foreign_lit in *. apply negb_true_iff, bool_decide_eq_false in Hoff.
      apply negb_true_iff, bool_decide_eq_false. intros Hin. apply Hoff. by apply list_elem_of_filter.
Qed.

Lemma disable_loop_equiv keep planes a af r rf k c :
  live r -> live rf -> frame_sound a k c -> writes_fully a af ->
  (forall p, p ∈ planes -> p ∈ for_crtc_planes a c) ->
  exists a1 a2 r1 r2 ws1 ws2,
    disable_loop keep true false planes a r = (a1, r1) /\
    disable_loop keep true false planes af rf = (a2, r2) /\
    live r1 /\ live r2 /\ writes r1 = writes r ++ ws1 /\ writes r2 = writes rf ++ ws2 /\
    commit_writes ws1 k = commit_writes ws2 k /\ (length ws1 <= length ws2)%nat /\
    frame_sound a1 (commit_writes ws1 k) c /\ writes_fully a1 a2.
Proof using Hadds.
  revert a af r rf k. induction planes as [|p planes IH]; intros a af r rf k Hl Hlf Hs Hf Hin.
  { exists a, af, r, rf, [], []. rewrite !app_nil_r. by split_and!. }
  assert (Hin' : forall q, q ∈ planes -> q ∈ for_crtc_planes a c) by (intros q Hq; apply Hin; by apply list_elem_of_further).
  pose proof (Hin p (list_elem_of_here _ _)) as Hp. cbn [disable_loop].
  assert (Hsp : spared af keep p = spared a keep p) by (unfold spared; by rewrite (wf_reserved _ _ Hf)).
  rewrite Hsp. destruct (spared a keep p); [by apply IH|].
  rewrite (wf_force _ _ Hf). cbn [negb andb].
  destruct (disable_plane_ok (id p) af rf Hlf) as (af' & rf' & -> & Hlf' & Hrf & Hwf').
  assert (Hdw : disable_writes af (id p) = disable_writes a (id p)).
  { unfold disable_writes, zero_write. by rewrite (wf_store _ _ Hf). }
  rewrite Hdw in Hwf'.
  destruct (negb (force_full_writes_ a) && already_off a (id p)) eqn:Hoff.
  - bool_simpl. pose proof (disable_writes_off a (id p) k c p (fs_dark _ _ _ Hs) Hp eq_refl ltac:(done)) as Hk.
    destruct (IH a af' r rf' k) as (a1 & a2 & r1 & r2 & ws1 & ws2 & -> & -> & ? & ? & Hw1 & Hw2 & Heq & Hle & Hs' & Hf');
      [done | done | done | | done |].
    { eapply (writes_fully_recounted a a); [apply recounted_refl | exact Hrf |]. destruct Hf. by split. }
    exists a1, a2, r1, r2, ws1, (disable_writes a (id p) ++ ws2).
    rewrite Hw2, Hwf', <- app_assoc, commit_writes_app, Hk, length_app. split_and!; [done..|lia|done|done].
  - destruct (disable_plane_ok (id p) a r Hl) as (a' & r' & -> & Hl' & Hr & Hw).
    set (d := disable_writes a (id p)) in *.
    assert (Hs0 : frame_sound a' (commit_writes d k) c)
      by (eapply frame_sound_recounted; [exact Hr | by apply erased_sound]).
    assert (Hv : for_crtc_planes a' c = for_crtc_planes a c) by (rewrite Hr; reflexivity).
    destruct (IH a' af' r' rf' (commit_writes d k)) as (a1 & a2 & r1 & r2 & ws1 & ws2 & -> & -> & ? & ? & Hw1 & Hw2 & Heq & Hle & Hs' & Hf');
      [done | done | done | | by rewrite Hv |].
    { eapply writes_fully_recounted; [exact Hr | exact Hrf |]. destruct Hf. by split. }
    exists a1, a2, r1, r2, (d ++ ws1), (d ++ ws2).
    rewrite Hw1, Hw2, Hw, Hwf', <- !app_assoc, !commit_writes_app, !length_app.
    split_and!; [done..|lia|done|done].
Qed.

(** C3. A frame's property minimisation is invisible to the kernel.  The
    warm start's writes (disable what is unused, arm what is kept), minimised
    against snapshots that describe the kernel, leave every property of every
    object as writing everything would, are never more writes, and leave the
    snapshots describing the kernel again. *)
Theorem warm_frame_refines (c : Z) (stack : list (Z * Z)) (keep : PlaneAssignment) (a : Allocator)
    (hp : heap) (r : AtomicRequest) (k : kstate) :
  live r -> frame_sound a k c -> (forall l, l ∈ keep.*2 -> armable hp l) ->
  let frame a :=
    let '(a, r) := disable_unused_planes c keep true false a r in
    arm_loop false stack false keep a hp r in
  exists a1 a2 hp' r1 r2 ws1 ws2,
    frame a = (Val tt, a1, hp', r1) /\ frame (forced a) = (Val tt, a2, hp', r2) /\
    writes r1 = writes r ++ ws1 /\ writes r2 = writes r ++ ws2 /\
    commit_writes ws1 k = commit_writes ws2 k /\ (length ws1 <= length ws2)%nat /\
    frame_sound a1 (commit_writes ws1 k) c.
Proof using Hadds.
  intros Hl Hs Harm frame. unfold frame, disable_unused_planes.
  assert (Hf : writes_fully a (forced a)) by by split.
  destruct (disable_loop_equiv keep (for_crtc_planes a c) a (forced a) r r k c Hl Hl Hs Hf ltac:(done))
    as (a1 & a2 & r1 & r2 & ws1 & ws2 & Hd1 & Hd2 & Hl1 & Hl2 & Hw1 & Hw2 & Heq & Hle & Hs1 & Hf1).
  change (for_crtc_planes (forced a) c) with (for_crtc_planes a c). rewrite Hd1, Hd2.
  destruct (arm_loop_equiv false stack keep a1 a2 hp r1 r2 (commit_writes ws1 k) c Hadds Hl1 Hl2 Hs1 Hf1 Harm)
    as (b1 & b2 & hp' & q1 & q2 & vs1 & vs2 & -> & -> & _ & _ & Hv1 & Hv2 & Hveq & Hvle & Hs2 & _).
  exists b1, b2, hp', q1, q2, (ws1 ++ vs1), (ws2 ++ vs2).
  rewrite Hv1, Hv2, Hw1, Hw2, <- !app_assoc, !commit_writes_app, !length_app, <- Heq.
  split_and!; [done..|lia|done].
Qed.

(** The same for the full search's order: arm first, then disable
    what [in_use] does not hold. *)
Theorem search_frame_refines (c : Z) (stack : list (Z * Z)) (best in_use : PlaneAssignment)
    (a : Allocator) (hp : heap) (r : AtomicRequest) (k : kstate) :
  live r -> frame_sound a k c -> (forall l, l ∈ best.*2 -> armable hp l) ->
  let frame a :=
    match arm_loop true stack false best a hp r with
    | (Val _, a, hp, r) => let '(a, r) := disable_unused_planes c in_use true false a r in (Val tt, a, hp, r)
    | failed => failed
    end in
  exists a1 a2 hp' r1 r2 ws1 ws2,
    frame a = (Val tt, a1, hp', r1) /\ frame (forced a) = (Val tt, a2, hp', r2) /\
    writes r1 = writes r ++ ws1 /\ writes r2 = writes r ++ ws2 /\
    commit_writes ws1 k = commit_writes ws2 k /\ (length ws1 <= length ws2)%nat /\
    frame_sound a1 (commit_writes ws1 k) c.
Proof using Hadds.
  intros Hl Hs Harm frame. unfold frame.
  assert (Hf : writes_fully a (forced a)) by by split.
  destruct (arm_loop_equiv true stack best a (forced a) hp r r k c Hadds Hl Hl Hs Hf Harm)
    as (b1 & b2 & hp' & q1 & q2 & vs1 & vs2 & -> & -> & Hl1 & Hl2 & Hv1 & Hv2 & Hveq & Hvle & Hs1 & Hf1).
  unfold disable_unused_planes.
  assert (Hview : for_crtc_planes b2 c = for_crtc_planes b1 c).
  { unfold for_crtc_planes. by rewrite (wf_registry _ _ Hf1). }
  rewrite Hview.
  destruct (disable_loop_equiv in_use (for_crtc_planes b1 c) b1 b2 q1 q2 _ c Hl1 Hl2 Hs1 Hf1 ltac:(done))
    as (a1 & a2 & r1 & r2 & ws1 & ws2 & -> & -> & _ & _ & Hw1 & Hw2 & Heq & Hle & Hs2 & _).
  exists a1, a2, hp', r1, r2, (vs1 ++ ws1), (vs2 ++ ws2).
  rewrite Hw1, Hw2, Hv1, Hv2, <- !app_assoc, !commit_writes_app, !length_app, <- Hveq.
  split_and!; [done..|lia|done].
Qed.
End DisableFacts.

Section DisableSpec.
Context `{abi : DrmAbi} `{cpp : CppStd} `{lib : Libdrm}.
Context (Hadds : adds_succeed).

Lemma zeros_keep ws k key :
  (forall w, w ∈ ws -> w_value w = 0) -> k !! key = Some 0 -> commit_writes ws k !! key = Some 0.
Proof.
  intros Hz Hk. destruct (decide (key ∈ w_key <$> ws)) as [Hin|Hno].
  - apply list_elem_of_fmap in Hin as (w & -> & Hw). apply commit_hit; [by exists w|].
    intros w' Hw' _. by apply Hz.
  - rewrite commit_miss; [done|]. intros w Hw Heq. apply Hno, list_elem_of_fmap. by exists w.
Qed.

Lemma disable_loop_spec keep planes a r k c :
  live r -> frame_sound a k c -> (forall p, p ∈ planes -> p ∈ for_crtc_planes a c) ->
  exists a' r' ws, disable_loop keep true false planes a r = (a', r') /\ writes r' = writes r ++ ws /\
    (forall w, w ∈ ws -> w_value w = 0 /\ exists p, p ∈ planes /\ spared a keep p = false /\ w_object w = id p) /\
    (forall p name i, p ∈ planes -> spared a keep p = false ->
       name = "FB_ID"%string \/ name = "CRTC_ID"%string -> property_id (id p) name (prop_store_ a) = Val i ->
       commit_writes ws k !! (id p, i) = Some 0).
Proof using Hadds.
  revert a r k. induction planes as [|p planes IH]; intros a r k Hl Hs Hin.
  { exists a, r, []. rewrite app_nil_r. split_and!; [done | done | |]; intros *; by intros ?%not_elem_of_nil. }
  assert (Hin' : forall q, q ∈ planes -> q ∈ for_crtc_planes a c) by (intros q Hq; apply Hin; by apply list_elem_of_further).
  pose proof (Hin p (list_elem_of_here _ _)) as Hp. cbn [disable_loop].
  destruct (spared a keep p) eqn:Hsp.
  { destruct (IH a r k Hl Hs Hin') as (a' & r' & ws & -> & Hw & Hz & Hoff). exists a', r', ws.
    split_and!; [done | done | |].
    - intros w Hw'. destruct (Hz w Hw') as [? (q & ? & ?)]. split; [done|]. exists q.
      split; [by apply list_elem_of_further | done].
    - intros q name i [->|Hq]%elem_of_cons Hsq; [congruence | by apply Hoff]. }
  destruct (true && negb (force_full_writes_ a) && already_off a (id p)) eqn:Hskip.
  { destruct (IH a r k Hl Hs Hin') as (a' & r' & ws & -> & Hw & Hz & Hoff). exists a', r', ws.
    split_and!; [done | done | |].
    - intros w Hw'. destruct (Hz w Hw') as [? (q & ? & ?)]. split; [done|]. exists q.
      split; [by apply list_elem_of_further | done].
    - intros q name i [->|Hq]%elem_of_cons Hsq Hn Hi; [|by eapply Hoff].
      apply zeros_keep; [intros w Hw'; by apply Hz|]. bool_simpl. by eapply (fs_dark _ _ _ Hs p). }
  destruct (disable_plane_ok Hadds (id p) a r Hl) as (a0 & r0 & -> & Hl0 & Hr & Hw0).
  assert (Hs0 : frame_sound a0 (commit_writes (disable_writes a (id p)) k) c)
    by (eapply frame_sound_recounted; [exact Hr | by apply erased_sound]).
  assert (Hv : for_crtc_planes a0 c = for_crtc_planes a c) by (rewrite Hr; reflexivity).
  assert (Hsp0 : forall q, spared a0 keep q = spared a keep q) by (intros q; rewrite Hr; reflexivity).
  assert (Hst0 : prop_store_ a0 = prop_store_ a) by (rewrite Hr; reflexivity).
  destruct (IH a0 r0 _ Hl0 Hs0 ltac:(by rewrite Hv)) as (a' & r' & ws & -> & Hw & Hz & Hoff).
  exists a', r', (disable_writes a (id p) ++ ws). split_and!.
  - done.
  - by rewrite Hw, Hw0, <- app_assoc.
  - intros w [Hw'|Hw']%elem_of_app.
    + apply disable_writes_elem in Hw' as (name & i & _ & _ & ->). split; [done|]. exists p.
      split; [apply list_elem_of_here | done].
    + destruct (Hz w Hw') as [? (q & ? & Hq & ?)]. split; [done|]. exists q. rewrite Hsp0 in Hq.
      split; [by apply list_elem_of_further | done].
  - intros q name i Hq Hsq Hn Hi. rewrite commit_writes_app. apply elem_of_cons in Hq as [->|Hq].
    + apply zeros_keep; [intros w Hw'; by apply Hz | by eapply disable_writes_zero].
    + apply (Hoff q name i Hq); rewrite ?Hsp0, ?Hst0; done.
Qed.

(** C4. The disable pass writes nothing but zeros, only to planes of
    the view that are neither kept nor reserved nor cursors, and after it every
    such plane has no framebuffer and no CRTC, also those whose writes were
    left out as already off. *)
Theorem disable_pass_spec (c : Z) (keep : PlaneAssignment) (a : Allocator) (r : AtomicRequest) (k : kstate) :
  live r -> frame_sound a k c ->
  exists a' r' ws, disable_unused_planes c keep true false a r = (a', r') /\ writes r' = writes r ++ ws /\
    (forall w, w ∈ ws -> w_value w = 0 /\
       exists p, p ∈ for_crtc_planes a c /\ spared a keep p = false /\ w_object w = id p) /\
    (forall p name i, p ∈ for_crtc_planes a c -> spared a keep p = false ->
       name = "FB_ID"%string \/ name = "CRTC_ID"%string -> property_id (id p) name (prop_store_ a) = Val i ->
       commit_writes ws k !! (id p, i) = Some 0).
Proof using Hadds. intros Hl Hs. by apply disable_loop_spec with c. Qed.
End DisableSpec.

(** ** Concrete runs: one overlay plane with FB_ID, CRTC_ID and CRTC_X *)

Definition arm_kms : Kms := {|
  drmModeGetPlaneResources := Val [40];
  cap_cursor_width := None; cap_cursor_height := None;
  drmModeGetPlane := fun _ => None;
  drmModeObjectGetProperties := fun i _ => if i =? 40 then Some [(1, 0); (2, 0); (3, 0)] else None;
  drmModeGetProperty := fun i =>
    if i =? 1 then Some (mkProperty 1 "FB_ID" 0 [] [])
    else if i =? 2 then Some (mkProperty 2 "CRTC_ID" 0 [] [])
    else if i =? 3 then Some (mkProperty 3 "CRTC_X" 0 [] []) else None;
  drmModeGetPropertyBlob := fun _ => None;
  drmModeGetResources := None |}.

Definition arm_plane : PlaneCapabilities := default_caps {{ id := 40; possible_crtcs := 1 }}.
Definition arm_allocator : Allocator :=
  @make_allocator linux_abi arm_kms (mkRegistry [arm_plane] ∅ [] ∅) EAGAIN.
Definition arm_heap (x : Z) : heap :=
  {[ 1%positive := set_property CrtcX x (set_property FbId 77 new_layer) ]}.
Definition dark_kernel : kstate := <[(40, 1) := 0]> (<[(40, 2) := 0]> ∅).

(** A kernel that accepts every request. *)
Definition yes_libdrm : Libdrm := list_libdrm (fun _ _ => 0).
Definition empty_request : @AtomicRequest yes_libdrm := @new_request yes_libdrm 3.

Lemma arm_store pid : prop_store_ arm_allocator !! pid =
  if decide (pid = 40) then Some [mkInfo 1 "FB_ID" 0 0; mkInfo 2 "CRTC_ID" 0 0; mkInfo 3 "CRTC_X" 0 0] else None.
Proof.
  change (prop_store_ arm_allocator) with
    (<[40 := [mkInfo 1 "FB_ID" 0 0; mkInfo 2 "CRTC_ID" 0 0; mkInfo 3 "CRTC_X" 0 0]]> (∅ : PropertyStore)).
  destruct (decide (pid = 40)) as [->|Hne]; [apply lookup_insert_eq | by rewrite lookup_insert_ne].
Qed.

Lemma arm_writable pid t i :
  @writable linux_abi arm_allocator pid t = Some i ->
  pid = 40 /\ (t, i) ∈ [(FbId, 1); (CrtcId, 2); (CrtcX, 3)].
Proof.
  unfold writable, property_id, is_immutable, lookup_property. rewrite arm_store.
  destruct (decide (pid = 40)) as [->|Hne]; [|done]. intros Hw. split; [done|].
  destruct t; vm_compute in Hw; try discriminate; injection Hw as <-; set_solver.
Qed.

Lemma arm_frame_sound : @frame_sound linux_abi arm_allocator dark_kernel 0.
Proof.
  split.
  - split.
    + intros pid t t' i [_ H1]%arm_writable [_ H2]%arm_writable. set_solver.
    + intros pid t i [-> _]%arm_writable Hr. by apply not_elem_of_nil in Hr.
  - intros pid lc Hlc. done.
  - intros p name i Hp _ Hn Hi. assert (p = arm_plane) as ->.
    { vm_compute in Hp. apply list_elem_of_singleton in Hp. exact Hp. }
    destruct Hn as [-> | ->]; vm_compute in Hi; injection Hi as <-; reflexivity.
Qed.

Lemma arm_armable l : l ∈ [(40, 1%positive)].*2 -> armable (arm_heap 5) l.
Proof.
  intros ->%list_elem_of_singleton. split; [by split|]. exists 77. split; [reflexivity | lia].
Qed.

Lemma warm_frame_refines_witness :
  let frame a :=
    let '(a, r) := @disable_unused_planes yes_libdrm 0 [(40, 1%positive)] true false a empty_request in
    @arm_loop linux_abi libstdcxx yes_libdrm false [] false [(40, 1%positive)] a (arm_heap 5) r in
  exists a1 a2 hp' r1 r2, frame arm_allocator = (Val tt, a1, hp', r1) /\
    frame (forced arm_allocator) = (Val tt, a2, hp', r2).
Proof.
  intros frame.
  destruct (@warm_frame_refines linux_abi libstdcxx yes_libdrm (fun _ _ => Z.le_refl 0) 0 [] [(40, 1%positive)]
    arm_allocator (arm_heap 5) empty_request dark_kernel (ex_intro _ _ eq_refl) arm_frame_sound arm_armable)
    as (a1 & a2 & hp' & r1 & r2 & _ & _ & H1 & H2 & _).
  exists a1, a2, hp', r1, r2. split; [exact H1 | exact H2].
Defined.

Lemma search_frame_refines_witness :
  let frame a :=
    match @arm_loop linux_abi libstdcxx yes_libdrm true [] false [(40, 1%positive)] a (arm_heap 5) empty_request with
    | (Val _, a, hp, r) =>
        let '(a, r) := @disable_unused_planes yes_libdrm 0 [(40, 1%positive)] true false a r in (Val tt, a, hp, r)
    | failed => failed
    end in
  exists a1 a2 hp' r1 r2, frame arm_allocator = (Val tt, a1, hp', r1) /\
    frame (forced arm_allocator) = (Val tt, a2, hp', r2).
Proof.
  intros frame.
  destruct (@search_frame_refines linux_abi libstdcxx yes_libdrm (fun _ _ => Z.le_refl 0) 0 [] [(40, 1%positive)]
    [(40, 1%positive)] arm_allocator (arm_heap 5) empty_request dark_kernel (ex_intro _ _ eq_refl)
    arm_frame_sound arm_armable) as (a1 & a2 & hp' & r1 & r2 & _ & _ & H1 & H2 & _).
  exists a1, a2, hp', r1, r2. split; [exact H1 | exact H2].
Defined.

Lemma disable_pass_spec_witness :
  exists a' r' ws,
    @disable_unused_planes yes_libdrm 0 [] true false arm_allocator empty_request = (a', r') /\
    @writes yes_libdrm r' = [] ++ ws /\ commit_writes ws dark_kernel !! (40, 1) = Some 0.
Proof.
  destruct (@disable_pass_spec linux_abi yes_libdrm (fun _ _ => Z.le_refl 0) 0 [] arm_allocator empty_request
    dark_kernel (ex_intro _ _ eq_refl) arm_frame_sound) as (a' & r' & ws & H1 & H2 & _ & H3).
  exists a', r', ws. split; [exact H1|]. split; [exact H2|].
  apply (H3 arm_plane "FB_ID"%string 1); [|reflexivity | by left | reflexivity].
  vm_compute. apply list_elem_of_here.
Defined.

(** The hypothesis matters, and the allocator does not keep it: snapshots are
    recorded when the request is filled.  Frame 1 commits a layer at x = 5; the
    kernel refuses frame 2, which moves it to 7; frame 3 finds nothing to move
    and writes the framebuffer alone, so the layer stays at 5. *)
Definition one_frame (x : Z) (a : Allocator) : Allocator * list Write :=
  match @arm_loop linux_abi libstdcxx yes_libdrm false [] false [(40, 1%positive)] a (arm_heap x) empty_request with
  | (_, a, _, r) => (a, @writes yes_libdrm r)
  end.

Lemma refused_commit_loses_the_move :
  let '(a1, ws1) := one_frame 5 arm_allocator in
  let k1 := commit_writes ws1 dark_kernel in
  let '(a2, ws2) := one_frame 7 a1 in   (* refused: the kernel stays at k1 *)
  let '(_, ws3) := one_frame 7 a2 in
  let '(_, full3) := one_frame 7 (forced a2) in
  commit_writes ws3 k1 !! (40, 3) = Some 5 /\ commit_writes full3 k1 !! (40, 3) = Some 7.
Proof. vm_compute. split; reflexivity. Qed.
