(* ===== verification/PlaneOrder.v ===== *)
(** CRTCs whose stacking is the plane id order ([place_in_plane_order] and
    [plane_order_consistent] in [src/planes/allocator.cpp]): the pure part.

    Layers [0, a) go to the lowest planes that fit, layers [b, n) to the
    highest, and the run [a, b) is composited on a canvas plane in between. *)
From S2P Require Import Prelude DrmAbi FormatMod Multirect PlaneRegistry Layer Output Assignment Scoring.
From S2P Require Import AllocState.

Section PlaneOrder.
Context `{abi : DrmAbi} `{cpp : CppStd}.

(** Planes in stacking order, without multirect virtual planes and cursors. *)
Definition stacking_planes (planes : list PlaneCapabilities) : list PlaneCapabilities :=
  std_sort (fun a b => id a <? id b)
    (filter (fun p => multirect_parent p = None /\ type_ p <> CURSOR) planes).

(** The lambda [fits], on the layer and the plane. *)
Definition fits_plane (a : Allocator) (hp : heap) (crtc_index : Z) (layer : positive)
    (plane : PlaneCapabilities) : bool :=
  if negb (plane_statically_compatible plane (lay hp layer) crtc_index)
     || probe_rejected a hp crtc_index (id plane) layer then false
  else
    match TestCache.lookup (id plane) (compute_hash (lay hp layer)) (failure_cache_ a) with
    | None => true
    | Some ok => ok
    end.

(** ... and on indices: [fits l j] is [fits_at] of the layer at hand. *)
Definition fits_at (a : Allocator) (hp : heap) (crtc_index : Z) (by_id : list PlaneCapabilities)
    (layer : positive) (j : nat) : bool :=
  match by_id !! j with Some p => fits_plane a hp crtc_index layer p | None => false end.

Section Runs.
Context (fits : positive -> nat -> bool) (m : nat).

(** [for (j = from; j < m; ++j) if (fits(i, j)) ...] over [count] planes. *)
Fixpoint first_fit (l : positive) (j count : nat) : option nat :=
  match count with
  | O => None
  | S count' => if fits l j then Some j else first_fit l (S j) count'
  end.

(** [for (j = below; j > 0; --j) if (fits(i, j - 1)) ...]. *)
Fixpoint last_fit (l : positive) (below : nat) : option nat :=
  match below with
  | O => None
  | S j => if fits l j then Some j else last_fit l j
  end.

(** [pre] and [pre_plane]; [None] is [npos].  [cur] is [pre[i]]. *)
Fixpoint pre_from (ls : list positive) (cur : option nat) : list (option nat) * list (option nat) :=
  match ls with
  | [] => ([cur], [])
  | l :: ls' =>
      let at_plane := match cur with Some j => first_fit l j (m - j) | None => None end in
      let '(p, q) := pre_from ls' (S <$> at_plane) in
      (cur :: p, at_plane :: q)
  end.

(** [suf] and [suf_plane], from the top. *)
Fixpoint suf_from (ls : list positive) : list (option nat) * list (option nat) :=
  match ls with
  | [] => ([Some m], [])
  | l :: ls' =>
      let '(s, q) := suf_from ls' in
      let at_plane := match mjoin (head s) with Some j => last_fit l j | None => None end in
      (at_plane :: s, at_plane :: q)
  end.
End Runs.

Definition forced_layer (l : Layer) : bool := force_composited_ l || transient_composited_ l.

(** [first_forced] ([n] when none) and [last_forced] (0 when none). *)
Fixpoint forced_range (hp : heap) (ls : list positive) (i first last : nat) : nat * nat :=
  match ls with
  | [] => (first, last)
  | l :: ls' =>
      if forced_layer (lay hp l) then forced_range hp ls' (S i) (Nat.min first i) i
      else forced_range hp ls' (S i) first last
  end.

Record Choice := mkChoice { ch_a : nat; ch_b : nat; ch_canvas : option nat }.

(** Total [keep_priority] of layers [a, b). *)
Definition run_cost (hp : heap) (ls : list positive) (a b : nat) : Z :=
  foldr (fun l acc => keep_priority (lay hp l) + acc) 0 (take (b - a) (drop a ls)).

(** Topmost canvas host among planes [lo, hi). *)
Fixpoint topmost_host (hosts : nat -> bool) (lo hi : nat) : option nat :=
  match hi with
  | O => None
  | S j => if (lo <? hi)%nat then if hosts j then Some j else topmost_host hosts lo j else None
  end.

Record OrderInput := mkOrderInput {
  oi_n : nat;
  oi_pre : list (option nat);
  oi_suf : list (option nat);
  oi_first_forced : nat;
  oi_last_forced : nat;
  oi_with_canvas : bool;
  oi_hosts : nat -> bool;
  oi_cost : nat -> nat -> Z
}.

(** The canvas of the run [a, b): [None] when the run is impossible. *)
Definition run_canvas (o : OrderInput) (a b lo hi : nat) : option (option nat) :=
  if (a =? b)%nat then if (hi <? lo)%nat then None else Some None
  else if oi_with_canvas o then
    match topmost_host (oi_hosts o) lo hi with Some j => Some (Some j) | None => None end
  else if (hi <? lo)%nat then None else Some None.

(** The body of the inner loop; [best] is the choice with its count and cost. *)
Definition consider (o : OrderInput) (max_placed a lo : nat) (best : option (Choice * nat * Z)) (b : nat)
    : option (Choice * nat * Z) :=
  match mjoin (oi_suf o !! b) with
  | None => best
  | Some hi =>
      if (oi_first_forced o <? oi_n o)%nat &&
         ((oi_first_forced o <? a)%nat || (b <=? oi_last_forced o)%nat) then best
      else
        let placed := (oi_n o - (b - a))%nat in
        if (max_placed <? placed)%nat then best
        else
          match run_canvas o a b lo hi with
          | None => best
          | Some canvas =>
              let cost := oi_cost o a b in
              match best with
              | None => Some (mkChoice a b canvas, placed, cost)
              | Some (_, best_placed, best_cost) =>
                  if (best_placed <? placed)%nat || ((placed =? best_placed)%nat && (cost <? best_cost))
                  then Some (mkChoice a b canvas, placed, cost) else best
              end
          end
  end.

(** The outer loop stops at the first [a] whose prefix does not fit. *)
Fixpoint choose_loop (o : OrderInput) (max_placed : nat) (as_ : list nat) (best : option (Choice * nat * Z))
    : option (Choice * nat * Z) :=
  match as_ with
  | [] => best
  | a :: as' =>
      match mjoin (oi_pre o !! a) with
      | None => best
      | Some lo =>
          choose_loop o max_placed as' (foldl (consider o max_placed a lo) best (seq a (S (oi_n o) - a)))
      end
  end.

Definition choose (o : OrderInput) (max_placed : nat) : option Choice :=
  (fun r => r.1.1) <$> choose_loop o max_placed (seq 0 (S (oi_n o))) None.

(** What the search for a run works on: [pre], [suf] and the forced range of
    [layers], over [m] planes. *)
Definition order_input (fits : positive -> nat -> bool) (m : nat) (hp : heap) (layers : list positive)
    (with_canvas : bool) (hosts : nat -> bool) : OrderInput :=
  let n := length layers in
  let forced := forced_range hp layers 0 n 0 in
  mkOrderInput n (pre_from fits m layers (Some 0%nat)).1 (suf_from fits m layers).1
    forced.1 forced.2 with_canvas hosts (run_cost hp layers).

(** [assignment.insert_or_assign(by_id[planes[i]]->id, layers[i])] over a range. *)
Fixpoint insert_layers (by_id : list PlaneCapabilities) (layers : list positive) (planes : list (option nat))
    (assignment : PlaneAssignment) : PlaneAssignment :=
  match layers, planes with
  | l :: layers', j :: planes' =>
      let assignment :=
        match j ≫= fun j => by_id !! j with
        | Some p => PA.insert_or_assign (id p) l assignment
        | None => assignment
        end in
      insert_layers by_id layers' planes' assignment
  | _, _ => assignment
  end.

Definition choice_assignment (fits : positive -> nat -> bool) (by_id : list PlaneCapabilities)
    (layers : list positive) (c : Choice) : PlaneAssignment :=
  let m := length by_id in
  insert_layers by_id (drop (ch_b c) layers) (drop (ch_b c) (suf_from fits m layers).2)
    (insert_layers by_id (take (ch_a c) layers) (take (ch_a c) (pre_from fits m layers (Some 0%nat)).2) []).

Definition choice_canvas (by_id : list PlaneCapabilities) (c : Choice) : option Z :=
  j ← ch_canvas c; id <$> by_id !! j.

(** ** [plane_order_consistent] *)

Definition canvas_or_plane (assignment : PlaneAssignment) (canvas : option Z) (l : positive)
    : option Z * bool :=
  match List.find (fun e : Z * positive => bool_decide (e.2 = l)) assignment with
  | Some e => (Some e.1, false)
  | None => (canvas, true)
  end.

(** (zpos, plane, on the canvas) of every placeable layer. *)
Definition order_positions (hp : heap) (layers : list positive) (assignment : PlaneAssignment)
    (canvas : option Z) : list (Z * option Z * bool) :=
  omap (fun l =>
    if is_composition_layer_ (lay hp l) || externally_bound_ (lay hp l) || pinned_ (lay hp l) then None
    else
      let '(plane, on_canvas) := canvas_or_plane assignment canvas l in
      Some (value_or 0 (property Zpos (lay hp l)), plane, on_canvas)) layers.

Definition order_pair_ok (x y : Z * option Z * bool) : bool :=
  if y.1.1 <=? x.1.1 then true
  else
    match x.1.2, y.1.2 with
    | Some px, Some py => negb ((py <? px) || ((px =? py) && negb (x.2 && y.2)))
    | _, _ => false
    end.

Definition plane_order_consistent (hp : heap) (layers : list positive) (assignment : PlaneAssignment)
    (canvas : option Z) : bool :=
  let pos := order_positions hp layers assignment canvas in
  forallb (fun x => forallb (order_pair_ok x) pos) pos.
End PlaneOrder.

(** ** The greedy runs *)

Section RunFacts.
Context (fits : positive -> nat -> bool) (m : nat).

Lemma first_fit_spec l j count r :
  first_fit fits l j count = Some r ->
  (j <= r < j + count)%nat /\ fits l r = true /\ (forall x, (j <= x < r)%nat -> fits l x = false).
Proof.
  revert j. induction count as [|count IH]; intros j; simpl; [done|].
  destruct (fits l j) eqn:E.
  - intros [= <-]. split_and!; [lia | lia | done | lia].
  - intros (H1 & H2 & H3)%IH. split_and!; [lia | lia | done |]. intros x Hx.
    destruct (decide (x = j)) as [->|]; [done|]. apply H3. lia.
Qed.

Lemma last_fit_spec l below r :
  last_fit fits l below = Some r ->
  (r < below)%nat /\ fits l r = true /\ (forall x, (r < x < below)%nat -> fits l x = false).
Proof.
  induction below as [|j IH]; simpl; [done|]. destruct (fits l j) eqn:E.
  - intros [= <-]. split_and!; [lia | done | lia].
  - intros (H1 & H2 & H3)%IH. split_and!; [lia | done |]. intros x Hx.
    destruct (decide (x = j)) as [->|]; [done|]. apply H3. lia.
Qed.

(** Planes [js] carry the layers [ls] upwards, from [lo] on and below [hi]. *)
Inductive climbs : list positive -> list nat -> nat -> nat -> Prop :=
  | climb_nil lo hi : (lo <= hi)%nat -> climbs [] [] lo hi
  | climb_cons l ls j js lo hi :
      (lo <= j)%nat -> (j < m)%nat -> fits l j = true -> climbs ls js (S j) hi -> climbs (l :: ls) (j :: js) lo hi.

Lemma climbs_le ls js lo hi : climbs ls js lo hi -> (lo <= hi)%nat.
Proof. induction 1; lia. Qed.

Lemma climbs_weaken ls js lo lo' hi : (lo' <= lo)%nat -> climbs ls js lo hi -> climbs ls js lo' hi.
Proof. intros Hle Hc. destruct Hc; constructor; try done; lia. Qed.

Lemma climbs_range ls js lo hi : climbs ls js lo hi -> Forall (fun j => (lo <= j < hi)%nat) js.
Proof.
  induction 1 as [|l ls j js lo hi Hj Hm Hf Hc IH]; [constructor|].
  pose proof (climbs_le _ _ _ _ Hc). constructor; [lia|].
  eapply Forall_impl; [exact IH|]. simpl. lia.
Qed.

Lemma climbs_sorted ls js lo hi : climbs ls js lo hi -> StronglySorted lt js.
Proof.
  induction 1 as [|l ls j js lo hi Hj Hm Hf Hc IH]; [constructor|]. constructor; [done|].
  eapply Forall_impl; [by eapply climbs_range|]. simpl. lia.
Qed.

(** The prefix of [a] layers that [pre] promises. *)
Lemma pre_from_length ls cur :
  length (pre_from fits m ls cur).1 = S (length ls) /\ length (pre_from fits m ls cur).2 = length ls.
Proof.
  revert cur. induction ls as [|l ls IH]; intros cur; [done|]. cbn [pre_from].
  destruct (pre_from fits m ls _) as [p q] eqn:E.
  match type of E with pre_from _ _ _ ?c = _ => destruct (IH c) as [H1 H2] end.
  rewrite E in H1, H2. simpl in *. lia.
Qed.

Lemma pre_from_climbs ls cur a lo hi :
  cur = Some lo -> (a <= length ls)%nat -> (pre_from fits m ls cur).1 !! a = Some (Some hi) ->
  exists js, take a (pre_from fits m ls cur).2 = Some <$> js /\ climbs (take a ls) js lo hi.
Proof.
  revert cur a lo. induction ls as [|l ls IH]; intros cur a lo Hcur Ha; cbn [pre_from].
  { destruct a; [|simpl in Ha; lia]. simpl. rewrite Hcur. intros [= ->]. exists []. split; [done | by constructor]. }
  destruct (pre_from fits m ls _) as [p q] eqn:E. cbn [fst snd]. rewrite Hcur in *.
  destruct a as [|a]; simpl.
  { intros [= ->]. exists []. split; [done | by constructor]. }
  intros Hp. destruct (first_fit fits l lo (m - lo)) as [j|] eqn:Hj.
  - destruct (first_fit_spec _ _ _ _ Hj) as (Hr & Hf & _).
    cbn [fmap option_fmap option_map] in E.
    destruct (IH (Some (S j)) a (S j) eq_refl) as (js & Htake & Hc); [simpl in Ha; lia | by rewrite E |].
    rewrite E in Htake. simpl in Htake. exists (j :: js). simpl. rewrite Htake. split; [done|].
    constructor; [lia | lia | done | done].
  - exfalso. clear IH Ha. cbn in E. revert a p q E Hp.
    assert (Hnone : forall ls a p q, pre_from fits m ls None = (p, q) -> p !! a <> Some (Some hi)).
    { clear. induction ls as [|l ls IH]; intros a p q; simpl.
      - intros [= <- <-]. by destruct a.
      - destruct (pre_from fits m ls None) as [p' q'] eqn:E. intros [= <- <-].
        destruct a; simpl; [done|]. by eapply IH. }
    intros a p q E Hp. by eapply Hnone.
Qed.

Lemma suf_from_length ls :
  length (suf_from fits m ls).1 = S (length ls) /\ length (suf_from fits m ls).2 = length ls.
Proof.
  induction ls as [|l ls IH]; [done|]. cbn [suf_from].
  destruct (suf_from fits m ls) as [s q]. simpl in *. lia.
Qed.

(** The suffix from layer [b] that [suf] promises. *)
Lemma suf_from_climbs ls b lo :
  (b <= length ls)%nat -> (suf_from fits m ls).1 !! b = Some (Some lo) ->
  (lo <= m)%nat /\
  exists js, drop b (suf_from fits m ls).2 = Some <$> js /\ climbs (drop b ls) js lo m.
Proof.
  revert b lo. induction ls as [|l ls IH]; intros b lo Hb; cbn [suf_from].
  { destruct b; [|simpl in Hb; lia]. simpl. intros [= <-]. split; [lia|]. exists [].
    split; [done | by constructor]. }
  destruct (suf_from fits m ls) as [s q] eqn:E. cbn [fst snd] in *.
  destruct b as [|b]; simpl; [|intros Hs; apply IH; [simpl in Hb; lia | done]].
  destruct (mjoin (head s)) as [j|] eqn:Hh; [|done]. intros [= Hl].
  destruct (last_fit_spec _ _ _ Hl) as (Hlt & Hf & _).
  assert (Hs0 : s !! 0%nat = Some (Some j)).
  { destruct s as [|x s]; simpl in *; [done|]. by subst. }
  destruct (IH 0%nat j ltac:(lia) Hs0) as (Hjm & js & Hq & Hc). simpl in Hq, Hc.
  rewrite !drop_0 in *. split; [lia|]. exists (lo :: js). rewrite Hl, Hq. split; [done|].
  constructor; [lia | lia | done |]. eapply climbs_weaken; [|exact Hc]. lia.
Qed.
End RunFacts.

(** ** The run chosen *)

Section Choose.
Context (o : OrderInput).

(** A run [a, b) that may be composited with at most [max] layers placed. *)
Definition run_ok (max : nat) (a b : nat) (canvas : option nat) : Prop :=
  exists lo hi, oi_pre o !! a = Some (Some lo) /\ oi_suf o !! b = Some (Some hi) /\
    (a <= b <= oi_n o)%nat /\
    ((oi_first_forced o < oi_n o)%nat -> (a <= oi_first_forced o)%nat /\ (oi_last_forced o < b)%nat) /\
    (oi_n o - (b - a) <= max)%nat /\ run_canvas o a b lo hi = Some canvas.

(** More layers placed, then less priority composited. *)
Definition run_le (a b : nat) (placed : nat) (cost : Z) : Prop :=
  (oi_n o - (b - a) < placed)%nat \/ ((oi_n o - (b - a))%nat = placed /\ cost <= oi_cost o a b).

(** [best] is a run of [S], and the best of them. *)
Definition best_of (max : nat) (S : nat -> nat -> Prop) (best : option (Choice * nat * Z)) : Prop :=
  match best with
  | None => forall a b canvas, S a b -> ~ run_ok max a b canvas
  | Some (c, placed, cost) =>
      run_ok max (ch_a c) (ch_b c) (ch_canvas c) /\ placed = (oi_n o - (ch_b c - ch_a c))%nat /\
      cost = oi_cost o (ch_a c) (ch_b c) /\
      forall a b canvas, S a b -> run_ok max a b canvas -> run_le a b placed cost
  end.

Lemma best_of_weaken max S S' best :
  (forall a b canvas, S' a b -> run_ok max a b canvas -> S a b) -> best_of max S best -> best_of max S' best.
Proof.
  intros HS. unfold best_of. destruct best as [[[c placed] cost]|].
  - intros (H1 & H2 & H3 & H4). split_and!; [done..|]. intros a b canvas Hs Hr. eapply H4; [|done]. by eapply HS.
  - intros H a b canvas Hs Hr. eapply H; [|done]. by eapply HS.
Qed.

Lemma consider_best max a lo S best b :
  oi_pre o !! a = Some (Some lo) -> (a <= b <= oi_n o)%nat -> best_of max S best ->
  best_of max (fun x y => S x y \/ (x = a /\ y = b)) (consider o max a lo best b).
Proof.
  intros Hlo Hab Hb.
  assert (Hskip : (forall canvas, ~ run_ok max a b canvas) ->
    best_of max (fun x y => S x y \/ (x = a /\ y = b)) best).
  { intros Hno. eapply best_of_weaken; [|exact Hb].
    intros x y canvas [?|[-> ->]] Hr; [done | by destruct (Hno canvas)]. }
  unfold consider. destruct (oi_suf o !! b) as [[hi|]|] eqn:Hhi; cbn [mjoin option_join].
  2, 3: apply Hskip; intros canvas (lo' & hi' & _ & Hs & _); congruence.
  destruct (_ && _) eqn:Hforced.
  { apply Hskip. intros canvas (lo' & hi' & _ & _ & _ & Hf & _). apply andb_true_iff in Hforced as [H1 H2].
    apply Nat.ltb_lt in H1. destruct (Hf H1) as [? ?]. apply orb_true_iff in H2 as [H2|H2];
      [apply Nat.ltb_lt in H2 | apply Nat.leb_le in H2]; lia. }
  destruct (Nat.ltb_spec max (oi_n o - (b - a))) as [Hmax|Hmax].
  { apply Hskip. intros canvas (lo' & hi' & _ & _ & _ & _ & Hm & _). lia. }
  destruct (run_canvas o a b lo hi) as [canvas|] eqn:Hc.
  2: { apply Hskip. intros canvas (lo' & hi' & ? & ? & _ & _ & _ & Hrc). by simplify_eq. }
  assert (Hok : run_ok max a b canvas).
  { exists lo, hi. split_and!; [done | done | lia | lia | | done | done]. intros Hn.
    apply andb_false_iff in Hforced as [H|H]; [apply Nat.ltb_ge in H; lia|].
    apply orb_false_iff in H as [H1 H2]. apply Nat.ltb_ge in H1. apply Nat.leb_gt in H2. lia. }
  unfold best_of in *. destruct best as [[[c placed] cost]|].
  - destruct Hb as (H1 & H2 & H3 & H4). unfold run_le in *. clear Hskip Hforced.
    destruct ((placed <? _)%nat || _) eqn:E.
    + assert (Hbetter : run_le (ch_a c) (ch_b c) (oi_n o - (b - a)) (oi_cost o a b)).
      { unfold run_le. apply orb_true_iff in E as [E|E]; [apply Nat.ltb_lt in E; lia|].
        apply andb_true_iff in E as [E1 E2]. apply Nat.eqb_eq in E1. bool_simpl. lia. }
      unfold run_le in Hbetter. cbn [ch_a ch_b ch_canvas]. split_and!; [done..|].
      intros x y cv [Hs|[-> ->]] Hr; [|lia]. destruct (H4 x y cv Hs Hr); lia.
    + split_and!; [done..|]. intros x y cv [Hs|[-> ->]] Hr; [by eapply H4|].
      apply orb_false_iff in E as [E1 E2]. apply Nat.ltb_ge in E1. apply andb_false_iff in E2 as [E2|E2].
      * apply Nat.eqb_neq in E2. lia.
      * bool_simpl. lia.
  - cbn [ch_a ch_b ch_canvas]. split_and!; [done..|]. intros x y cv [Hs|[-> ->]] Hr.
    + by destruct (Hb x y cv Hs).
    + unfold run_le. lia.
Qed.

Lemma consider_row max a lo S best bs :
  oi_pre o !! a = Some (Some lo) -> (forall b, b ∈ bs -> (a <= b <= oi_n o)%nat) -> best_of max S best ->
  best_of max (fun x y => S x y \/ (x = a /\ y ∈ bs)) (foldl (consider o max a lo) best bs).
Proof.
  intros Hlo. revert S best. induction bs as [|b bs IH]; intros S best Hbs Hb; cbn [foldl].
  { eapply best_of_weaken; [|exact Hb]. intros x y cv [?|[_ Hn]]; [done | by apply not_elem_of_nil in Hn]. }
  eapply best_of_weaken; [|apply IH, consider_best; [|exact Hlo | | exact Hb]].
  - intros x y cv [?|[-> Hy]] _; [by left; left|]. apply elem_of_cons in Hy as [->|Hy]; auto.
  - intros y Hy. apply Hbs. by apply list_elem_of_further.
  - apply Hbs, list_elem_of_here.
Qed.

(** Once a prefix does not fit, no longer one does. *)
Definition pre_closed : Prop :=
  forall a a' lo, (a <= a')%nat -> oi_pre o !! a' = Some (Some lo) -> exists lo', oi_pre o !! a = Some (Some lo').

Lemma choose_loop_best max from count S best :
  pre_closed -> (from + count <= Datatypes.S (oi_n o))%nat -> best_of max S best ->
  best_of max (fun x y => S x y \/ (from <= x < from + count)%nat) (choose_loop o max (seq from count) best).
Proof.
  intros Hpre. revert from S best. induction count as [|count IH]; intros from S best Hle Hb; cbn [seq choose_loop].
  { eapply best_of_weaken; [|exact Hb]. intros x y cv [?|?] _; [done | lia]. }
  destruct (oi_pre o !! from) as [[lo|]|] eqn:Hlo; cbn [mjoin option_join].
  2, 3: eapply best_of_weaken; [|exact Hb];
    (intros x y cv [?|Hx] (lo' & hi & Hp & _); [done|]);
    destruct (Hpre from x lo' ltac:(lia) Hp) as [lo'' H]; congruence.
  eapply best_of_weaken; [|apply IH; [lia | apply (consider_row max from lo S best _ Hlo); [|exact Hb]]].
  - intros x y cv [?|Hx] (lo' & hi & _ & _ & Hxy & _); [by left; left|].
    destruct (decide (x = from)) as [->|Hne]; [|right; lia].
    left. right. split; [done|]. apply elem_of_seq. lia.
  - intros b Hb'%elem_of_seq. lia.
Qed.

Lemma choose_best max :
  pre_closed ->
  match choose o max with
  | None => forall a b canvas, ~ run_ok max a b canvas
  | Some c =>
      run_ok max (ch_a c) (ch_b c) (ch_canvas c) /\
      forall a b canvas, run_ok max a b canvas ->
        run_le a b (oi_n o - (ch_b c - ch_a c)) (oi_cost o (ch_a c) (ch_b c))
  end.
Proof.
  intros Hpre. unfold choose.
  pose proof (choose_loop_best max 0 (S (oi_n o)) (fun _ _ => False) None Hpre ltac:(lia)) as H.
  assert (H0 : best_of max (fun _ _ => False) None) by (intros a b cv []).
  specialize (H H0). unfold best_of in H.
  destruct (choose_loop _ _ _ _) as [[[c placed] cost]|]; simpl.
  - destruct H as (H1 & -> & -> & H4). split; [done|]. intros a b cv Hr. apply (H4 a b cv); [|done].
    right. destruct Hr as (? & ? & _ & _ & Hab & _). lia.
  - intros a b cv Hr. apply (H a b cv); [|done]. right. destruct Hr as (? & ? & _ & _ & Hab & _). lia.
Qed.
End Choose.

Section ChoiceFacts.
Context (fits : positive -> nat -> bool) (m : nat).

Lemma pre_none ls i x : (pre_from fits m ls None).1 !! i <> Some (Some x).
Proof.
  revert i. induction ls as [|l ls IH]; intros i; cbn [pre_from]; [by destruct i|].
  destruct (pre_from fits m ls (S <$> None)) as [p q] eqn:E. destruct i; simpl; [done|].
  intros H. apply (IH i). change (@None nat) with (S <$> @None nat). by rewrite E.
Qed.

Lemma pre_from_closed ls cur a a' hi :
  (a <= a')%nat -> (pre_from fits m ls cur).1 !! a' = Some (Some hi) ->
  exists lo, (pre_from fits m ls cur).1 !! a = Some (Some lo).
Proof.
  revert cur a a'. induction ls as [|l ls IH]; intros cur a a' Hle.
  { intros Hp. assert (a' = 0 /\ a = 0)%nat as [-> ->]; [|eauto].
    apply lookup_lt_Some in Hp. simpl in Hp. lia. }
  destruct cur as [lo|]; [|intros Hp; by apply pre_none in Hp]. cbn [pre_from].
  destruct (pre_from fits m ls _) as [p q] eqn:E. cbn [fst].
  destruct a as [|a]; [by eauto|]. destruct a' as [|a']; [lia|]. simpl. intros Hp.
  match type of E with pre_from _ _ _ ?c = _ => destruct (IH c a a' ltac:(lia)) as [x Hx]; [by rewrite E|] end.
  rewrite E in Hx. eauto.
Qed.

Lemma forced_range_spec hp ls i first last :
  let r := forced_range hp ls i first last in
  (r.1 <= first)%nat /\
  ((forall k l, ls !! k = Some l -> forced_layer (lay hp l) = true -> (r.1 <= i + k <= r.2)%nat)) /\
  (last <= i -> last <= r.2)%nat.
Proof.
  cbv zeta. revert i first last. induction ls as [|l ls IH]; intros i first last; cbn [forced_range].
  { cbn [fst snd]. split_and!; [lia | done | lia]. }
  destruct (forced_layer (lay hp l)) eqn:Hf.
  - destruct (IH (S i) (Nat.min first i) i) as (H1 & H2 & H3). split_and!; [lia | | lia].
    intros [|k] x Hx Hfx; [simpl; lia|]. replace (i + S k)%nat with (S i + k)%nat by lia. by apply (H2 k x).
  - destruct (IH (S i) first last) as (H1 & H2 & H3). split_and!; [lia | | lia].
    intros [|k] x Hx Hfx; [simpl in Hx; simplify_eq; congruence|].
    replace (i + S k)%nat with (S i + k)%nat by lia. by apply (H2 k x).
Qed.

Lemma topmost_host_spec hosts lo hi j :
  topmost_host hosts lo hi = Some j -> (lo <= j < hi)%nat /\ hosts j = true.
Proof.
  induction hi as [|k IH]; simpl; [done|]. destruct (Nat.ltb_spec lo (S k)); [|done].
  destruct (hosts k) eqn:E.
  - intros [= <-]. split; [lia | done].
  - intros (H1 & H2)%IH. split; [lia | done].
Qed.

Lemma climbs_fits ls js lo hi : climbs fits m ls js lo hi -> Forall2 (fun l j => fits l j = true) ls js.
Proof. induction 1; constructor; done. Qed.

Lemma sorted_join (js ks : list nat) (canvas : option nat) (lo hi : nat) :
  StronglySorted lt js -> StronglySorted lt ks -> Forall (fun j => (j < lo)%nat) js ->
  Forall (fun k => (hi <= k)%nat) ks -> (lo <= hi)%nat -> (forall c, canvas = Some c -> (lo <= c < hi)%nat) ->
  StronglySorted lt (js ++ option_list canvas ++ ks).
Proof.
  intros Hjs Hks Hlo Hhi Hle Hc.
  assert (Htail : StronglySorted lt (option_list canvas ++ ks)).
  { destruct canvas as [c|]; [|done]. constructor; [done|]. specialize (Hc c eq_refl).
    eapply Forall_impl; [exact Hhi|]. simpl. lia. }
  induction Hjs as [|j js Hjs IH Hj]; [exact Htail|]. apply Forall_cons in Hlo as [Hjlo Hlo]. simpl.
  constructor; [by apply IH|]. apply Forall_app. split; [done|]. apply Forall_app. split.
  - destruct canvas as [c|]; [|constructor]. specialize (Hc c eq_refl). repeat constructor. lia.
  - eapply Forall_impl; [exact Hhi|]. simpl. lia.
Qed.

Lemma run_canvas_spec o a b lo hi canvas :
  run_canvas o a b lo hi = Some canvas -> (a <= b)%nat ->
  (lo <= hi)%nat /\ (forall c, canvas = Some c -> (lo <= c < hi)%nat /\ oi_hosts o c = true) /\
  (a = b -> canvas = None) /\ (oi_with_canvas o = true -> (a < b)%nat -> is_Some canvas).
Proof.
  unfold run_canvas. intros Hr Hab. destruct (Nat.eqb_spec a b) as [->|Hne].
  - destruct (Nat.ltb_spec hi lo); [done|]. injection Hr as <-. split_and!; [lia | done | done | lia].
  - destruct (oi_with_canvas o) eqn:Hw.
    + destruct (topmost_host _ _ _) as [j|] eqn:Hj; [|done]. injection Hr as <-.
      destruct (topmost_host_spec _ _ _ _ Hj) as [Hjr Hjh].
      split_and!; [lia | by intros c [= <-] | lia | by eexists].
    + destruct (Nat.ltb_spec hi lo); [done|]. injection Hr as <-. split_and!; [lia | done | lia | done].
Qed.

(** The run chosen, in terms of plane indices. *)
Lemma plane_order_choice_spec (hp : heap) (layers : list positive) (with_canvas : bool) (hosts : nat -> bool)
    (max : nat) (c : Choice) :
  let o := order_input fits m hp layers with_canvas hosts in
  choose o max = Some c ->
  (exists js ks,
     take (ch_a c) (pre_from fits m layers (Some 0%nat)).2 = Some <$> js /\
     drop (ch_b c) (suf_from fits m layers).2 = Some <$> ks /\
     Forall2 (fun l j => fits l j = true) (take (ch_a c) layers) js /\
     Forall2 (fun l j => fits l j = true) (drop (ch_b c) layers) ks /\
     StronglySorted lt (js ++ option_list (ch_canvas c) ++ ks)) /\
  (ch_a c <= ch_b c <= length layers)%nat /\ (length layers - (ch_b c - ch_a c) <= max)%nat /\
  (forall j, ch_canvas c = Some j -> hosts j = true) /\
  (with_canvas = true -> (ch_a c < ch_b c)%nat -> is_Some (ch_canvas c)) /\
  (forall i l, layers !! i = Some l -> forced_layer (lay hp l) = true -> (ch_a c <= i < ch_b c)%nat) /\
  (forall a b canvas, run_ok o max a b canvas ->
     run_le o a b (length layers - (ch_b c - ch_a c)) (run_cost hp layers (ch_a c) (ch_b c))).
Proof.
  intros o Hc.
  assert (Hpre : pre_closed o) by (intros a a' lo Hle Hp; by eapply pre_from_closed).
  pose proof (choose_best o max Hpre) as H. rewrite Hc in H. destruct H as [(lo & hi & Hlo & Hhi & Hab & Hf & Hm & Hrc) Hbest].
  assert (Hn : oi_n o = length layers) by done. rewrite Hn in *.
  destruct (run_canvas_spec _ _ _ _ _ _ Hrc ltac:(lia)) as (Hle & Hcv & _ & Hwc).
  destruct (pre_from_climbs fits m layers (Some 0%nat) (ch_a c) 0 lo eq_refl ltac:(lia) Hlo) as (js & Hjs & Hcj).
  destruct (suf_from_climbs fits m layers (ch_b c) hi ltac:(lia) Hhi) as (_ & ks & Hks & Hck).
  split_and!; [|lia | lia | lia | intros j Hj; exact (proj2 (Hcv j Hj)) | exact Hwc | | exact Hbest].
  - exists js, ks. split_and!; [done | done | by eapply climbs_fits | by eapply climbs_fits |].
    eapply (sorted_join _ _ _ lo hi); [by eapply climbs_sorted | by eapply climbs_sorted | | | done |].
    + eapply Forall_impl; [by eapply climbs_range|]. simpl. lia.
    + eapply Forall_impl; [by eapply climbs_range|]. simpl. lia.
    + intros j Hj. by apply Hcv.
  - intros i l Hi Hfl. destruct (forced_range_spec hp layers 0 (length layers) 0) as (_ & Hr & _).
    specialize (Hr i l Hi Hfl). apply lookup_lt_Some in Hi.
    change (oi_first_forced o) with (forced_range hp layers 0 (length layers) 0).1 in Hf.
    change (oi_last_forced o) with (forced_range hp layers 0 (length layers) 0).2 in Hf. lia.
Qed.

End ChoiceFacts.

(** ** The assignment of a choice *)

Section ChoiceOrder.
Context (by_id : list PlaneCapabilities).
Context (Hby_id : StronglySorted (fun p q => id p < id q) by_id).

Definition id_at (j : nat) : Z := match by_id !! j with Some p => id p | None => 0 end.

(** Every one of [js] is a plane. *)
Definition planes_at (js : list nat) : Prop := forall j, j ∈ js -> is_Some (by_id !! j).

Lemma id_at_mono i j : (i < j)%nat -> is_Some (by_id !! i) -> is_Some (by_id !! j) -> id_at i < id_at j.
Proof using Hby_id.
  intros Hij [p Hp] [q Hq]. unfold id_at. rewrite Hp, Hq.
  exact (sorted_lookup _ _ _ _ _ _ Hby_id Hp Hq Hij).
Qed.

Lemma ids_sorted js : planes_at js -> StronglySorted lt js -> StronglySorted Z.lt (id_at <$> js).
Proof using Hby_id.
  intros Hp. induction 1 as [|j js Hs IH Hj]; [constructor|]. csimpl.
  constructor; [apply IH; intros x Hx; apply Hp; by apply list_elem_of_further|].
  apply Forall_fmap, Forall_forall. intros x Hx. rewrite Forall_forall in Hj. apply id_at_mono.
  - by apply Hj.
  - apply Hp, list_elem_of_here.
  - apply Hp. by apply list_elem_of_further.
Qed.

Lemma strict_NoDup (l : list Z) : StronglySorted Z.lt l -> NoDup l.
Proof.
  induction 1 as [|x l Hs IH Hx]; [constructor|]. apply NoDup_cons. split; [|done].
  intros Hin. rewrite Forall_forall in Hx. specialize (Hx x Hin). lia.
Qed.

Definition entries (ls : list positive) (js : list nat) : PlaneAssignment :=
  zip_with (fun l j => (id_at j, l)) ls js.

Lemma insert_layers_fresh ls js asg :
  length ls = length js -> planes_at js -> NoDup (asg.*1 ++ (id_at <$> js)) ->
  insert_layers by_id ls (Some <$> js) asg = asg ++ entries ls js.
Proof.
  revert js asg. induction ls as [|l ls IH]; intros [|j js] asg Hlen Hp Hnd; try done.
  { by rewrite app_nil_r. }
  csimpl in Hnd. destruct (Hp j (list_elem_of_here _ _)) as [p Hpj].
  assert (Hid : id_at j = id p) by (unfold id_at; by rewrite Hpj).
  csimpl. cbn [insert_layers mbind option_bind]. rewrite Hpj, PA.insert_fresh.
  - rewrite IH; [| by simpl in Hlen; lia | intros x Hx; apply Hp; by apply list_elem_of_further |].
    + unfold entries. cbn [zip_with]. by rewrite <- app_assoc, Hid.
    + rewrite fmap_app, <- app_assoc. csimpl. by rewrite <- Hid.
  - apply NoDup_app in Hnd as (_ & Hdis & _). intros Hin. apply (Hdis _ Hin). rewrite Hid. apply list_elem_of_here.
Qed.

Lemma entries_elem ls js p l :
  (p, l) ∈ entries ls js <-> exists i j, ls !! i = Some l /\ js !! i = Some j /\ p = id_at j.
Proof.
  unfold entries. rewrite elem_of_lookup_zip_with. naive_solver.
Qed.
End ChoiceOrder.

(** ** Reading the assignment back *)

Lemma find_layer_some (asg : PlaneAssignment) p l :
  NoDup asg.*2 -> (p, l) ∈ asg ->
  List.find (fun e : Z * positive => bool_decide (e.2 = l)) asg = Some (p, l).
Proof.
  induction asg as [|[q m] asg IH]; [by intros _ ?%not_elem_of_nil|]. csimpl.
  intros [Hm Hnd]%NoDup_cons [[= -> ->]|Hin]%elem_of_cons; cbn [List.find snd].
  - by rewrite bool_decide_eq_true_2.
  - rewrite bool_decide_eq_false_2; [by apply IH|]. intros ->. apply Hm.
    by apply (list_elem_of_fmap_2 snd) in Hin.
Qed.

Lemma find_layer_none (asg : PlaneAssignment) l :
  l ∉ asg.*2 -> List.find (fun e : Z * positive => bool_decide (e.2 = l)) asg = None.
Proof.
  induction asg as [|[q m] asg IH]; [done|]. csimpl. intros Hl. cbn [List.find snd].
  rewrite bool_decide_eq_false_2 by set_solver. apply IH. set_solver.
Qed.

(** [x] stacks below [y], or both are on the canvas. *)
Definition stacks_below (x y : option Z * bool) : Prop :=
  exists p q, x.1 = Some p /\ y.1 = Some q /\ (p < q \/ (p = q /\ x.2 = true /\ y.2 = true)).

Record order_ok (hp : heap) (layers : list positive) (with_canvas : bool) (fits : positive -> nat -> bool)
    (by_id : list PlaneCapabilities) (asg : PlaneAssignment) (canvas : option Z) : Prop := {
  oo_planes : NoDup asg.*1;
  oo_layers : NoDup asg.*2;
  oo_fits : forall p l, (p, l) ∈ asg -> l ∈ layers /\ forced_layer (lay hp l) = false /\
    exists j plane, by_id !! j = Some plane /\ id plane = p /\ fits l j = true;
  oo_order : with_canvas = true -> forall i j l m, layers !! i = Some l -> layers !! j = Some m -> (i < j)%nat ->
    stacks_below (canvas_or_plane asg canvas l) (canvas_or_plane asg canvas m)
}.

Section ChoiceOk.
Context (by_id : list PlaneCapabilities).
Context (Hby_id : StronglySorted (fun p q => id p < id q) by_id).
Context (layers : list positive) (Hlayers : NoDup layers).
Context (a b : nat) (Hab : (a <= b <= length layers)%nat) (js ks : list nat) (canvas : option nat).
Context (Hjs : length js = a) (Hks : length ks = (length layers - b)%nat).
Context (Hsorted : StronglySorted lt (js ++ option_list canvas ++ ks)).
Context (Hplanes : planes_at by_id (js ++ option_list canvas ++ ks)).

Definition run_entries : PlaneAssignment :=
  entries by_id (take a layers) js ++ entries by_id (drop b layers) ks.

Lemma run_entries_elem p l :
  (p, l) ∈ run_entries <-> exists i j, layers !! i = Some l /\ p = id_at by_id j /\
    ((i < a /\ js !! i = Some j) \/ (b <= i /\ ks !! (i - b) = Some j))%nat.
Proof using Hjs Hks Hab.
  unfold run_entries. rewrite elem_of_app, !entries_elem. split.
  - intros [(i & j & Hi & Hj & ->)|(i & j & Hi & Hj & ->)].
    + apply lookup_take_Some in Hi as [Hi ?]. exists i, j. split_and!; [done..|]. by left.
    + rewrite lookup_drop in Hi. exists (b + i)%nat, j. split_and!; [done..|]. right.
      split; [lia|]. by replace (b + i - b)%nat with i by lia.
  - intros (i & j & Hi & -> & [[Hlt Hj]|[Hle Hj]]); [left|right].
    + exists i, j. split_and!; [|done..]. by apply lookup_take_Some.
    + exists (i - b)%nat, j. split_and!; [|done..]. rewrite lookup_drop. by replace (b + (i - b))%nat with i by lia.
Qed.

Lemma entries_keys ls js' : length ls = length js' -> (entries by_id ls js').*1 = id_at by_id <$> js'.
Proof.
  revert js'. induction ls as [|l ls IH]; intros [|j js'] Hl; try done. unfold entries in *. csimpl. f_equal.
  apply IH. simpl in Hl. lia.
Qed.

Lemma run_entries_keys : run_entries.*1 = (id_at by_id <$> js) ++ (id_at by_id <$> ks).
Proof using Hjs Hks Hab.
  unfold run_entries.
  by rewrite fmap_app, !entries_keys by (rewrite ?length_drop, ?length_take; lia).
Qed.

Lemma run_entries_nodup : NoDup run_entries.*1 /\ NoDup run_entries.*2.
Proof using All.
  split.
  - rewrite run_entries_keys, <- fmap_app. apply strict_NoDup, ids_sorted; [done| |].
    + intros j Hj. apply Hplanes. rewrite !elem_of_app in *. tauto.
    + clear -Hsorted. rewrite app_assoc in Hsorted. revert Hsorted. generalize (option_list canvas). intros cs.
      rewrite <- app_assoc. revert js. induction js as [|j js' IH]; intros Hs.
      * induction cs as [|x cs IHc]; [done|]. apply IHc. by apply StronglySorted_inv in Hs as [? _].
      * apply StronglySorted_inv in Hs as [Hs Hj]. simpl. constructor; [by apply IH|].
        rewrite !Forall_app in *. tauto.
  - assert (H : forall ls js, length ls = length js -> (entries by_id ls js).*2 = ls).
    { clear. induction ls as [|l ls IH]; intros [|j js] Hl; try done. unfold entries in *. csimpl. f_equal.
      apply IH. simpl in Hl. lia. }
    unfold run_entries. rewrite fmap_app, !H by (rewrite ?length_drop, ?length_take; lia).
    apply NoDup_app. split_and!.
    + eapply sublist_NoDup; [exact Hlayers | apply sublist_take].
    + intros l [i [Hi Hlt]%lookup_take_Some]%list_elem_of_lookup [j Hj]%list_elem_of_lookup.
      rewrite lookup_drop in Hj. pose proof (NoDup_lookup _ _ _ _ Hlayers Hi Hj). lia.
    + eapply sublist_NoDup; [exact Hlayers | apply sublist_drop].
Qed.

Lemma insert_runs :
  insert_layers by_id (drop b layers) (Some <$> ks) (insert_layers by_id (take a layers) (Some <$> js) []) =
  run_entries.
Proof using All.
  destruct run_entries_nodup as [Hn _]. rewrite run_entries_keys in Hn.
  pose proof Hn as (Hnj & _ & _)%NoDup_app.
  assert (Hpj : planes_at by_id js) by (intros j Hj; apply Hplanes, elem_of_app; by left).
  assert (Hpk : planes_at by_id ks) by (intros j Hj; apply Hplanes; rewrite !elem_of_app; by right; right).
  assert (He : insert_layers by_id (take a layers) (Some <$> js) [] = entries by_id (take a layers) js).
  { by rewrite insert_layers_fresh by (done || rewrite ?length_take; lia). }
  rewrite He, insert_layers_fresh; [done | rewrite length_drop; lia | done |].
  by rewrite entries_keys by (rewrite length_take; lia).
Qed.

(** Where layer [i] stands in [js ++ canvas ++ ks]. *)
Definition slot (i : nat) : nat :=
  if (i <? a)%nat then i else if (i <? b)%nat then a else (a + length (option_list canvas) + (i - b))%nat.

Lemma run_entries_slot i l :
  is_Some canvas \/ a = b -> layers !! i = Some l ->
  exists r, (js ++ option_list canvas ++ ks) !! slot i = Some r /\
    canvas_or_plane run_entries (j ← canvas; id <$> by_id !! j) l =
      (Some (id_at by_id r), bool_decide (a <= i < b)%nat).
Proof using All.
  intros Hc Hi. pose proof (lookup_lt_Some _ _ _ Hi) as Hlt. destruct run_entries_nodup as [_ Hnd].
  unfold slot, canvas_or_plane.
  destruct (Nat.ltb_spec i a) as [Hia|Hia].
  { destruct (lookup_lt_is_Some_2 js i) as [r Hr]; [lia|]. exists r. split; [by apply lookup_app_l_Some|].
    rewrite (find_layer_some _ (id_at by_id r) l) by (done || apply run_entries_elem; eauto 10).
    by rewrite bool_decide_eq_false_2 by lia. }
  destruct (Nat.ltb_spec i b) as [Hib|Hib].
  { destruct Hc as [[r ->]|]; [|lia]. cbn [option_list app mbind option_bind]. exists r. split.
    - by rewrite lookup_app_r, Hjs, Nat.sub_diag by lia.
    - rewrite find_layer_none.
      + destruct (Hplanes r) as [p Hp]; [rewrite !elem_of_app; cbn [option_list]; set_solver|].
        unfold id_at. rewrite Hp. by rewrite bool_decide_eq_true_2 by lia.
      + intros ((p & l') & -> & (i' & j & Hi' & _ & Hr)%run_entries_elem)%list_elem_of_fmap. simpl in *.
        pose proof (NoDup_lookup _ _ _ _ Hlayers Hi Hi'). lia. }
  destruct (lookup_lt_is_Some_2 ks (i - b)) as [r Hr]; [lia|]. exists r. split.
  - rewrite lookup_app_r by lia. rewrite lookup_app_r by lia. rewrite <- Hr. f_equal. lia.
  - rewrite (find_layer_some _ (id_at by_id r) l) by (done || apply run_entries_elem; eauto 10).
    by rewrite bool_decide_eq_false_2 by lia.
Qed.

Lemma run_entries_order i j l m :
  is_Some canvas \/ a = b -> layers !! i = Some l -> layers !! j = Some m -> (i < j)%nat ->
  let cv := k ← canvas; id <$> by_id !! k in
  stacks_below (canvas_or_plane run_entries cv l) (canvas_or_plane run_entries cv m).
Proof using All.
  intros Hc Hi Hj Hij cv. destruct (run_entries_slot i l Hc Hi) as (r & Hr & Hl).
  destruct (run_entries_slot j m Hc Hj) as (r' & Hr' & Hm). fold cv in Hl, Hm. rewrite Hl, Hm.
  exists (id_at by_id r), (id_at by_id r'). split_and!; [done..|]. simpl.
  destruct (decide (slot i < slot j)%nat) as [Hlt|Hge].
  - left. apply id_at_mono; [done| | |].
    + exact (sorted_lookup _ _ _ _ _ _ Hsorted Hr Hr' Hlt).
    + apply Hplanes. by eapply list_elem_of_lookup_2.
    + apply Hplanes. by eapply list_elem_of_lookup_2.
  - right. assert (Hrun : (a <= i < b)%nat /\ (a <= j < b)%nat).
    { assert (is_Some canvas -> length (option_list canvas) = 1%nat) by by intros [? ->].
      unfold slot in Hge. destruct Hc as [Hc|Hc]; [specialize (H Hc)|];
        destruct (Nat.ltb_spec i a), (Nat.ltb_spec i b), (Nat.ltb_spec j a), (Nat.ltb_spec j b); lia. }
    assert (slot i = slot j) as Heq.
    { unfold slot. destruct (Nat.ltb_spec i a), (Nat.ltb_spec i b), (Nat.ltb_spec j a), (Nat.ltb_spec j b); lia. }
    rewrite !bool_decide_eq_true_2 by lia. split_and!; [|done..]. congruence.
Qed.
End ChoiceOk.

Lemma choice_ok hp layers with_canvas hosts fits by_id max c :
  StronglySorted (fun p q => id p < id q) by_id -> NoDup layers ->
  (forall l j, fits l j = true -> is_Some (by_id !! j)) -> (forall j, hosts j = true -> is_Some (by_id !! j)) ->
  choose (order_input fits (length by_id) hp layers with_canvas hosts) max = Some c ->
  let asg := choice_assignment fits by_id layers c in
  order_ok hp layers with_canvas fits by_id asg (choice_canvas by_id c) /\ (length asg <= max)%nat.
Proof.
  intros Hid Hnd Hfits Hhosts Hc.
  destruct (plane_order_choice_spec fits (length by_id) hp layers with_canvas hosts max c Hc)
    as ((js & ks & Hjs & Hks & Hfj & Hfk & Hsorted) & Hab & Hmax & Hcv & Hwc & Hforced & _).
  destruct c as [a b canvas]. unfold choice_assignment, choice_canvas. cbn [ch_a ch_b ch_canvas] in *.
  pose proof (Forall2_length _ _ _ Hfj) as Hlj. rewrite length_take in Hlj.
  pose proof (Forall2_length _ _ _ Hfk) as Hlk. rewrite length_drop in Hlk.
  assert (Hplanes : planes_at by_id (js ++ option_list canvas ++ ks)).
  { intros j. rewrite !elem_of_app. intros [Hj|[Hj|Hj]].
    - apply list_elem_of_lookup in Hj as [i Hi]. destruct (Forall2_lookup_r _ _ _ _ _ Hfj Hi) as (l & _ & Hf). eauto.
    - destruct canvas as [x|]; [|by apply not_elem_of_nil in Hj]. apply list_elem_of_singleton in Hj as ->. eauto.
    - apply list_elem_of_lookup in Hj as [i Hi]. destruct (Forall2_lookup_r _ _ _ _ _ Hfk Hi) as (l & _ & Hf). eauto. }
  assert (Ha : length js = a) by lia. assert (Hb : length ks = (length layers - b)%nat) by lia.
  destruct (run_entries_nodup by_id Hid layers Hnd a b Hab js ks canvas Ha Hb Hsorted Hplanes) as [Hn1 Hn2].
  rewrite Hjs, Hks, (insert_runs by_id Hid layers Hnd a b Hab js ks canvas Ha Hb Hsorted Hplanes).
  cbv zeta. split.
  - split; [done | done | |].
    + intros p l (i & j & Hi & -> & Hside)%run_entries_elem; [|done..].
      split; [by eapply list_elem_of_lookup_2|]. split.
      { destruct (forced_layer (lay hp l)) eqn:Hf; [|done]. specialize (Hforced i l Hi Hf). destruct Hside; lia. }
      assert (Hfit : fits l j = true).
      { destruct Hside as [[Hlt Hj]|[Hle Hj]].
        - destruct (Forall2_lookup_r _ _ _ _ _ Hfj Hj) as (l' & Hl' & Hf). apply lookup_take_Some in Hl' as [? _]. congruence.
        - destruct (Forall2_lookup_r _ _ _ _ _ Hfk Hj) as (l' & Hl' & Hf). rewrite lookup_drop in Hl'.
          replace (b + (i - b))%nat with i in Hl' by lia. congruence. }
      destruct (Hfits l j Hfit) as [plane Hp]. exists j, plane. split_and!; [done | | done].
      unfold id_at. by rewrite Hp.
    + intros Hw i j l m Hi Hj Hij.
      eapply (run_entries_order by_id Hid layers Hnd a b Hab js ks canvas Ha Hb Hsorted Hplanes); eauto.
      destruct (decide (a = b)); [by right|]. left. apply Hwc; [done | lia].
  - unfold run_entries. unfold entries. rewrite length_app, !length_zip_with, length_take, length_drop. lia.
Qed.

