(* ===== verification/Search.v ===== *)
(** The tested half of the placement search in [src/planes/allocator.cpp]:
    [try_test_commit], [place_group], [place_in_plane_order],
    [place_around_run], [cap_to_blend_limit] and [backtrack].

    Each step passes the allocator's state and the kernel along; the kernel is
    only ever reached through a TEST_ONLY commit. *)
From S2P Require Import Prelude DrmAbi FormatMod Multirect PlaneRegistry PropertyStore ZposOrder Layer Output.
From S2P Require Import Assignment Scoring AllocState Canvas Atomic Writes PlaneOrder.

Section Search.
Context `{abi : DrmAbi} `{cpp : CppStd} `{lib : Libdrm}.

(** The device's fd, and the two callbacks the scene may install
    ([set_test_preparer], [set_canvas_host_filter]). *)
Context (dev_fd : Z).
Context (test_preparer : option (AtomicRequest -> Z -> expected unit * AtomicRequest)).
Context (canvas_host : option (PlaneCapabilities -> bool)).

(** ** One TEST *)

Fixpoint apply_assignment (hp : heap) (stack : list (Z * Z)) (es : PlaneAssignment) (a : Allocator)
    (req : AtomicRequest) : expected unit * AtomicRequest :=
  match es with
  | [] => (Val tt, req)
  | (plane_id, l) :: es' =>
      match apply_layer_to_plane a (lay hp l) plane_id req (zpos_in stack plane_id) with
      | (Unexp e, req) => (Unexp e, req)
      | (Val _, req) => apply_assignment hp stack es' a req
      end
  end.

(** The verdicts recorded after a TEST. *)
Definition record_verdicts (hp : heap) (crtc_index : Z) (assignment : PlaneAssignment) (ok : bool)
    (a : Allocator) : Allocator :=
  let a := a {{ failure_cache_ ::= fun c =>
    foldl (fun c (e : Z * positive) => TestCache.record e.1 (compute_hash (lay hp e.2)) ok c) c assignment }} in
  match assignment with
  | [(plane_id, l)] =>
      match format (lay hp l) with
      | Some fourcc =>
          a {{ probe_cache_ ::=
                 ModifierProbeCache.record crtc_index plane_id fourcc (layer_modifier (lay hp l)) ok }}
      | None => a
      end
  | _ => a
  end.

Definition count_test (a : Allocator) : Allocator :=
  a {{ test_commits_this_frame_ ::= S;
       diagnostics_ ::= fun d => d {{ test_commits_issued ::= fun n => n + 1 }} }}.

Definition prepare_test (flags : Z) (req : AtomicRequest) : expected unit * AtomicRequest :=
  match test_preparer with Some f => f req flags | None => (Val tt, req) end.

(** [None] is success ([std::error_code{}]). *)
Definition try_test_commit (hp : heap) (assignment : PlaneAssignment) (flags crtc_index : Z)
    (a : Allocator) (k : kernel) : option errc * Allocator * kernel :=
  if (max_test_commits_ a <=? test_commits_this_frame_ a)%nat then (Some EAGAIN, a, k)
  else
    let req := new_request dev_fd in
    match prepare_test flags req with
    | (Unexp e, _) => (Some e, a, k)
    | (Val _, req) =>
        let '(a, req) := disable_unused_planes crtc_index assignment false true a req in
        let stack := stacked_zpos a hp assignment in
        match apply_assignment hp (renumbered stack) assignment a req with
        | (Unexp e, _) => (Some e, a, k)
        | (Val _, req) =>
            let a := count_test a in
            let '(result, k) := test_request req flags k in
            let a := record_verdicts hp crtc_index assignment (has_value result) a in
            (match result with Val _ => None | Unexp e => Some e end, a, k)
        end
    end.

(** ** One group *)

Definition passed_test (r : option errc) : bool := match r with None => true | Some _ => false end.

(** One candidate of one pass of the greedy placement. *)
Definition greedy_step (hp : heap) (crtc_index : Z) (a : Allocator) (virtual_pass : bool)
    (s : PlaneAssignment * list Z * list positive) (cand : CandidatePair)
    : PlaneAssignment * list Z * list positive :=
  let '(assignment, used_planes, assigned_layers) := s in
  let plane := c_plane cand in
  let layer := c_layer cand in
  if negb (Bool.eqb (bool_decide (is_Some (multirect_parent plane))) virtual_pass) then s
  else if bool_decide (id plane ∈ used_planes) then s
  else if bool_decide (layer ∈ assigned_layers) then s
  else if bool_decide (TestCache.lookup (id plane) (compute_hash (lay hp layer)) (failure_cache_ a) = Some false)
  then s
  else if probe_rejected a hp crtc_index (id plane) layer then s
  else if negb (fits_stacking a hp assignment (id plane) layer)
          || negb (fits_multirect a assignment (id plane)) then s
  else (PA.insert_or_assign (id plane) layer assignment, id plane :: used_planes, layer :: assigned_layers).

Definition greedy (hp : heap) (crtc_index : Z) (a : Allocator) (cands : list CandidatePair)
    : PlaneAssignment :=
  let s := foldl (greedy_step hp crtc_index a false) ([], [], []) cands in
  (foldl (greedy_step hp crtc_index a true) s cands).1.1.

(** Drop one entry and the multirect children it orphans. *)
Definition drop_entry (a : Allocator) (all : PlaneAssignment) (plane_id : Z) (assignment : PlaneAssignment)
    : PlaneAssignment :=
  foldl (fun asg (e : Z * positive) =>
    match caps_of a e.1 with
    | Some c => if bool_decide (multirect_parent c = Some plane_id) then PA.erase e.1 asg else asg
    | None => asg
    end) (PA.erase plane_id assignment) all.

(** The backtracking loop over [assigned_vec]. *)
Fixpoint drop_loop (hp : heap) (flags crtc_index : Z) (all todo : PlaneAssignment)
    (assignment : PlaneAssignment) (a : Allocator) (k : kernel) : PlaneAssignment * Allocator * kernel :=
  match todo with
  | [] => (assignment, a, k)
  | e :: todo' =>
      if negb (PA.count e.1 assignment) then drop_loop hp flags crtc_index all todo' assignment a k
      else
        let assignment := drop_entry a all e.1 assignment in
        let '(r, a, k) := try_test_commit hp assignment flags crtc_index a k in
        if passed_test r then (assignment, a, k)
        else if (max_test_commits_ a <=? test_commits_this_frame_ a)%nat then (assignment, a, k)
        else drop_loop hp flags crtc_index all todo' assignment a k
  end.

Definition by_keep (hp : heap) (x y : positive) : bool :=
  keep_priority (lay hp y) <? keep_priority (lay hp x).

(** The preseed never fails ([Scoring.preseed_maximum]). *)
Definition preseed_assignment (hp : heap) (ordered : list positive) (planes : list PlaneCapabilities)
    (crtc_index : Z) (a : Allocator) : PlaneAssignment :=
  foldl (fun asg (lp : positive * PlaneCapabilities) => PA.insert_or_assign (id lp.2) lp.1 asg) []
    (default [] (bipartite_preseed_group (warm a) hp ordered planes crtc_index)).

Definition place_group (hp : heap) (layers : list positive) (planes : list PlaneCapabilities)
    (flags crtc_index : Z) (a : Allocator) (k : kernel) : PlaneAssignment * Allocator * kernel :=
  let ordered := stable_sort (by_keep hp) layers in
  let assignment := preseed_assignment hp ordered planes crtc_index a in
  if bool_decide (assignment = []) then (assignment, a, k)
  else
    let preseed_stacks := stacking_all a hp assignment && multirect_complete a assignment in
    let '(preseed_ok, a, k) :=
      if preseed_stacks then
        let '(r, a, k) := try_test_commit hp assignment flags crtc_index a k in (passed_test r, a, k)
      else (false, a, k) in
    if preseed_ok then (assignment, a, k)
    else
      let cands := rank_candidates_group (warm a) hp ordered planes crtc_index in
      let assignment := greedy hp crtc_index a cands in
      let '(r, a, k) := try_test_commit hp assignment flags crtc_index a k in
      if passed_test r then (assignment, a, k)
      else
        let assigned_vec :=
          std_sort (fun x y : Z * positive => keep_priority (lay hp x.2) <? keep_priority (lay hp y.2))
            assignment in
        drop_loop hp flags crtc_index assigned_vec assigned_vec assignment a k.

(** ** The blend-stage cap *)

Fixpoint blend_held (hp : heap) (ls : list positive) (held : nat) (composites : bool) : nat * bool :=
  match ls with
  | [] => (held, composites)
  | l :: ls' =>
      let x := lay hp l in
      if is_composition_layer_ x then blend_held hp ls' held composites
      else if pinned_ x || externally_bound_ x then blend_held hp ls' (S held) composites
      else if force_composited_ x || transient_composited_ x then blend_held hp ls' held true
      else blend_held hp ls' held composites
  end.

Definition blend_budget (limit held placeable : nat) (composites : bool) : nat :=
  let composites := composites || (limit <? held + placeable)%nat in
  let stages := if (held <? limit)%nat then (limit - held)%nat else 0%nat in
  if composites && (0 <? stages)%nat then (stages - 1)%nat else stages.

Definition cap_to_blend_limit (hp : heap) (layers : list positive) (crtc_index : Z) (a : Allocator)
    : Allocator :=
  let a := a {{ scratch_over_limit_ := [] }} in
  match blend_limit (registry_ a) crtc_index with
  | None => a
  | Some limit =>
      if stacks_by_plane_id a crtc_index then a
      else
        let '(held, composites) := blend_held hp layers 0 false in
        let budget := blend_budget (Z.to_nat limit) held (length (scratch_placeable_ a)) composites in
        if (length (scratch_placeable_ a) <=? budget)%nat then a
        else
          let ranked := stable_sort (by_keep hp) (scratch_placeable_ a) in
          let over := drop budget ranked in
          a {{ scratch_over_limit_ := over;
               scratch_placeable_ ::= filter (fun l => l ∉ over) }}
  end.

(** ** Stacking by plane id *)

Definition hosts_canvas (by_id : list PlaneCapabilities) (j : nat) : bool :=
  match canvas_host, by_id !! j with
  | Some f, Some p => f p
  | None, Some _ => true
  | _, None => false
  end.

(** The retry loop; [None] is fuel running out. *)
Fixpoint plane_order_loop (fuel : nat) (hp : heap) (flags crtc_index : Z) (layers : list positive)
    (by_id : list PlaneCapabilities) (fits : positive -> nat -> bool) (o : OrderInput)
    (max_placed : nat) (a : Allocator) (k : kernel) : option (PlaneAssignment * Allocator * kernel) :=
  match fuel with
  | O => None
  | S fuel' =>
      match choose o max_placed with
      | None => Some ([], a, k)
      | Some c =>
          let assignment := choice_assignment fits by_id layers c in
          let a := a {{ canvas_plane_ := choice_canvas by_id c }} in
          if bool_decide (assignment = []) then Some (assignment, a, k)
          else
            let '(r, a, k) := try_test_commit hp assignment flags crtc_index a k in
            if passed_test r then Some (assignment, a, k)
            else if (max_test_commits_ a <=? test_commits_this_frame_ a)%nat then
              let canvas := match choose o 0 with Some all => choice_canvas by_id all | None => None end in
              Some ([], a {{ canvas_plane_ := canvas }}, k)
            else plane_order_loop fuel' hp flags crtc_index layers by_id fits o (length assignment - 1) a k
      end
  end.

(** [fits] reads the caches as they stand when the arrays are filled. *)
Definition place_in_plane_order (hp : heap) (layers : list positive) (planes : list PlaneCapabilities)
    (with_canvas : bool) (flags crtc_index : Z) (a : Allocator) (k : kernel)
    : option (PlaneAssignment * Allocator * kernel) :=
  let by_id := stacking_planes planes in
  if bool_decide (layers = []) then Some ([], a, k)
  else
    let fits := fits_at a hp crtc_index by_id in
    let o := order_input fits (length by_id) hp layers with_canvas (hosts_canvas by_id) in
    plane_order_loop (S (length layers)) hp flags crtc_index layers by_id fits o (length layers) a k.

(** ** One contiguous composited run *)

Fixpoint cheapest_run (hp : heap) (ls : list positive) (n w first_forced last_forced : nat)
    (as_ : list nat) (best : option (nat * Z)) : option (nat * Z) :=
  match as_ with
  | [] => best
  | a :: as' =>
      if (first_forced <? n)%nat && ((first_forced <? a)%nat || (a + w <=? last_forced)%nat)
      then cheapest_run hp ls n w first_forced last_forced as' best
      else
        let cost := run_cost hp ls a (a + w) in
        let better := match best with None => true | Some (_, best_cost) => cost <=? best_cost end in
        cheapest_run hp ls n w first_forced last_forced as' (if better then Some (a, cost) else best)
  end.

(** [for (w = from; w < n; ++w)] over [ws]. *)
Fixpoint run_loop (hp : heap) (ls : list positive) (planes : list PlaneCapabilities) (flags crtc_index : Z)
    (first_forced last_forced : nat) (ws : list nat) (a : Allocator) (k : kernel)
    : option PlaneAssignment * Allocator * kernel :=
  match ws with
  | [] => (None, a, k)
  | w :: ws' =>
      if (max_test_commits_ a <=? test_commits_this_frame_ a)%nat then (None, a, k)
      else
        let n := length ls in
        match cheapest_run hp ls n w first_forced last_forced (seq 0 (S n - w)) None with
        | None => run_loop hp ls planes flags crtc_index first_forced last_forced ws' a k
        | Some (best, _) =>
            let outside := take best ls ++ drop (best + w) ls in
            let '(assignment, a, k) := place_group hp outside planes flags crtc_index a k in
            if negb (bool_decide (assignment = [])) && feasible (canvas_bounds a hp assignment)
            then (Some assignment, a, k)
            else run_loop hp ls planes flags crtc_index first_forced last_forced ws' a k
        end
  end.

(** Not the composition layer, not bound out of band, not pinned. *)
Definition searchable (hp : heap) (l : positive) : bool :=
  negb (is_composition_layer_ (lay hp l)) && negb (externally_bound_ (lay hp l)) && negb (pinned_ (lay hp l)).

Definition place_around_run (hp : heap) (all_layers : list positive) (placed : nat)
    (planes : list PlaneCapabilities) (flags crtc_index : Z) (a : Allocator) (k : kernel)
    : option PlaneAssignment * Allocator * kernel :=
  let layers := filter (fun l => searchable hp l = true) all_layers in
  let n := length layers in
  let '(first_forced, last_forced) := forced_range hp layers 0 n 0 in
  let from := Nat.max (n - Nat.min placed n) 1 in
  run_loop hp layers planes flags crtc_index first_forced last_forced (seq from (n - from)) a k.

(** ** What the search does to the allocator and to the kernel *)

(** [n] TEST_ONLY commits. *)
Inductive probed : nat -> kernel -> kernel -> Prop :=
  | probed_none k : probed 0 k k
  | probed_more n req flags k k' : probed n (test_request req flags k).2 k' -> probed (S n) k k'.

Lemma probed_trans n m k k' k'' : probed n k k' -> probed m k' k'' -> probed (n + m) k k''.
Proof. induction 1; intros Hm; simpl; [done|]. econstructor. eauto. Qed.

(** The members a search leaves alone are all but the caches, the counters
    and the canvas choice. *)
Definition same_but_caches (a a' : Allocator) : Prop :=
  a' = a {{ failure_cache_ := failure_cache_ a'; probe_cache_ := probe_cache_ a';
            test_commits_this_frame_ := test_commits_this_frame_ a'; diagnostics_ := diagnostics_ a';
            canvas_plane_ := canvas_plane_ a' }}.

Lemma same_but_caches_trans a b c : same_but_caches a b -> same_but_caches b c -> same_but_caches a c.
Proof. unfold same_but_caches. intros -> ->. reflexivity. Qed.

(** One stretch of a search: it only TESTs, counts every TEST, and stays in
    the budget. *)
Record searched (a : Allocator) (k : kernel) (a' : Allocator) (k' : kernel) : Prop := {
  searched_tests : exists n, probed n k k' /\
    test_commits_this_frame_ a' = (n + test_commits_this_frame_ a)%nat /\
    test_commits_issued (diagnostics_ a') = Z.of_nat n + test_commits_issued (diagnostics_ a);
  searched_budget :
    (test_commits_this_frame_ a' <= Nat.max (test_commits_this_frame_ a) (max_test_commits_ a))%nat;
  searched_same : same_but_caches a a'
}.

Lemma searched_refl a k : searched a k a k.
Proof.
  split; [|lia | unfold same_but_caches; by destruct a]. exists 0%nat. split_and!; [constructor | done | lia].
Qed.

Lemma searched_trans a k b k' c k'' : searched a k b k' -> searched b k' c k'' -> searched a k c k''.
Proof.
  intros [(n & Hn & Hnt & Hni) Hb Hs] [(m & Hm & Hmt & Hmi) Hb' Hs']. split.
  - exists (n + m)%nat. split_and!; [by eapply probed_trans | lia | lia].
  - assert (max_test_commits_ b = max_test_commits_ a) as Heq by by rewrite Hs. lia.
  - by eapply same_but_caches_trans.
Qed.

Lemma searched_canvas a k a' k' c : searched a k a' k' -> searched a k (a' {{ canvas_plane_ := c }}) k'.
Proof.
  intros [Ht Hb Hs]. split; [exact Ht | exact Hb |]. unfold same_but_caches in *. rewrite Hs. reflexivity.
Qed.

Lemma disable_loop_untracked keep test_only planes a req :
  (disable_loop keep false test_only planes a req).1 = a.
Proof.
  revert req. induction planes as [|p planes IH]; intros req; [done|]. cbn [disable_loop andb].
  destruct (spared a keep p); [done|]. unfold disable_plane, write_zero.
  destruct (property_id (id p) "FB_ID" _) as [i|]; [destruct (add_property _ _ _ req) as [r1 req1]|];
    (destruct (property_id (id p) "CRTC_ID" _) as [j|];
      [match goal with |- context [add_property _ j 0 ?q] => destruct (add_property (id p) j 0 q) as [r2 req2] end|]);
    rewrite ?andb_false_r; cbn [andb]; apply IH.
Qed.

Lemma record_verdicts_same hp c asg ok a :
  same_but_caches a (record_verdicts hp c asg ok a) /\
  test_commits_this_frame_ (record_verdicts hp c asg ok a) = test_commits_this_frame_ a /\
  diagnostics_ (record_verdicts hp c asg ok a) = diagnostics_ a.
Proof.
  unfold record_verdicts, same_but_caches. cbv zeta.
  destruct asg as [|[p l] [|e asg]]; [done | destruct (format _); done | done].
Qed.

(** One TEST: refused for lack of budget, or at most one ioctl. *)
Lemma try_test_commit_searched hp asg flags c a k :
  let '(r, a', k') := try_test_commit hp asg flags c a k in searched a k a' k'.
Proof.
  unfold try_test_commit.
  destruct (Nat.leb_spec (max_test_commits_ a) (test_commits_this_frame_ a)) as [Hle|Hlt];
    [apply searched_refl|].
  destruct (prepare_test _ _) as [[_|e] req]; [|apply searched_refl].
  pose proof (disable_loop_untracked asg true (for_crtc_planes a c) a req) as Hd.
  unfold disable_unused_planes. destruct (disable_loop _ _ _ _ _ _) as [a1 req1]. simpl in Hd. subst a1.
  destruct (apply_assignment _ _ _ _ _) as [[_|e] req2]; [|apply searched_refl].
  destruct (test_request req2 flags k) as [res k'] eqn:Hk.
  destruct (record_verdicts_same hp c asg (has_value res) (count_test a)) as (Hs & Ht & Hi).
  split; rewrite ?Ht, ?Hi.
  - exists 1%nat. split_and!; [| done | change (test_commits_issued (diagnostics_ a) + 1 = 1 + test_commits_issued (diagnostics_ a)); lia].
    econstructor. rewrite Hk. constructor.
  - change (test_commits_this_frame_ (count_test a)) with (S (test_commits_this_frame_ a)). lia.
  - by eapply same_but_caches_trans; [|exact Hs].
Qed.

(** ** What a placement may hold *)

Record placement_ok (a : Allocator) (hp : heap) (c : Z) (layers : list positive)
    (planes : list PlaneCapabilities) (asg : PlaneAssignment) : Prop := {
  po_planes : NoDup asg.*1;
  po_layers : NoDup asg.*2;
  po_pairs : forall p l, (p, l) ∈ asg -> l ∈ layers /\
    exists plane, plane ∈ planes /\ id plane = p /\ plane_statically_compatible plane (lay hp l) c = true;
  po_stacks : stacking_all a hp asg = true;
  po_multirect : multirect_complete a asg = true
}.

(** The stacking and multirect rules read the registry alone. *)
Lemma rules_registry a a' hp asg :
  registry_ a' = registry_ a ->
  stacking_all a' hp asg = stacking_all a hp asg /\ multirect_complete a' asg = multirect_complete a asg.
Proof.
  intros Hr. unfold stacking_all, fits_stacking, multirect_complete, fits_multirect, caps_of, all_planes.
  by rewrite Hr.
Qed.

Lemma placement_ok_registry a a' hp c ls ps asg :
  registry_ a' = registry_ a -> placement_ok a hp c ls ps asg -> placement_ok a' hp c ls ps asg.
Proof.
  intros Hr [H1 H2 H3 H4 H5]. destruct (rules_registry a a' hp asg Hr) as [Hs Hm].
  by split; rewrite ?Hs, ?Hm.
Qed.

Lemma placement_ok_layers a hp c ls ls' ps asg :
  ls ≡ₚ ls' -> placement_ok a hp c ls ps asg -> placement_ok a hp c ls' ps asg.
Proof. intros Hp [H1 H2 H3 H4 H5]. split; try done. intros p l Hin. rewrite <- Hp. by apply H3. Qed.

Lemma placement_ok_nil a hp c ls ps : placement_ok a hp c ls ps [].
Proof. split; [apply NoDup_nil_2 | apply NoDup_nil_2 | by intros p l ?%not_elem_of_nil | done | done]. Qed.

Lemma placement_ok_drop a hp c ls ps v asg :
  flat_multirect a -> placement_ok a hp c ls ps asg -> placement_ok a hp c ls ps (drop_victim a v asg).
Proof.
  intros Hflat [H1 H2 H3 H4 H5]. pose proof (drop_victim_sublist a v asg) as Hsub. split.
  - by apply drop_victim_nodup.
  - eapply sublist_NoDup; [exact H2|]. by apply fmap_sublist.
  - intros p l Hin. apply H3. by eapply elem_of_sublist.
  - by eapply stacking_all_sublist.
  - by apply multirect_complete_drop.
Qed.

(** The stacking rule is symmetric when plane ids are distinct. *)
Definition distinct_planes (a : Allocator) : Prop := NoDup (id <$> all_planes a).

Lemma last_caps_spec i ps caps :
  match last_caps i ps caps with
  | Some r => caps = Some r \/ (r ∈ ps /\ id r = i)
  | None => caps = None /\ forall p, p ∈ ps -> id p <> i
  end.
Proof.
  revert caps. induction ps as [|p ps IH]; intros caps; cbn [last_caps].
  { destruct caps; [by left|]. split; [done|]. by intros p ?%not_elem_of_nil. }
  specialize (IH (if id p =? i then Some p else caps)).
  destruct (last_caps _ _ _) as [r|]; setoid_rewrite elem_of_cons;
    (destruct (Z.eqb_spec (id p) i) as [Hi|Hi]; naive_solver).
Qed.

Definition pair_stacks (a : Allocator) (hp : heap) (p : Z) (l : positive) (q : Z) (m : positive) : Prop :=
  forall cp cq, cp ∈ all_planes a -> cq ∈ all_planes a -> id cp = p -> id cq = q -> p <> q ->
    stacking_consistent cp (property Zpos (lay hp l)) cq (property Zpos (lay hp m)) = true.

Lemma pair_stacks_sym a hp p l q m : pair_stacks a hp p l q m -> pair_stacks a hp q m p l.
Proof. intros H cq cp Hq Hp ? ? ?. rewrite stacking_consistent_sym. by apply H. Qed.

Lemma fits_stacking_iff a hp asg p l :
  distinct_planes a ->
  fits_stacking a hp asg p l = true <-> forall e, e ∈ asg -> pair_stacks a hp p l e.1 e.2.
Proof.
  intros Hd. unfold fits_stacking. pose proof (last_caps_spec p (all_planes a) None) as Hc.
  assert (Huniq : forall x y, x ∈ all_planes a -> y ∈ all_planes a -> id x = id y -> x = y).
  { intros x y [i Hx]%list_elem_of_lookup [j Hy]%list_elem_of_lookup Heq.
    assert (i = j) as ->; [|congruence].
    eapply NoDup_lookup; [exact Hd | by rewrite list_lookup_fmap, Hx | by rewrite list_lookup_fmap, Hy, Heq]. }
  destruct (last_caps _ _ _) as [caps|].
  - destruct Hc as [?|[Hin Hid]]; [done|]. rewrite forallb_forall. setoid_rewrite <- list_elem_of_In. split.
    + intros H e He cp cq Hcp Hcq <- Hq Hne. specialize (H e He).
      rewrite (proj2 (Z.eqb_neq _ _)) in H by congruence. rewrite forallb_forall in H.
      specialize (H cq (proj1 (list_elem_of_In _ _) Hcq)). rewrite Hq, Z.eqb_refl in H. simpl in H.
      rewrite (Huniq cp caps) by congruence. by destruct (stacking_consistent _ _ _ _).
    + intros H e He. destruct (Z.eqb_spec e.1 p) as [|Hne]; [done|]. apply forallb_forall.
      intros cq Hcq%list_elem_of_In. destruct (Z.eqb_spec (id cq) e.1) as [Hq|]; [|done].
      by rewrite (H e He caps cq) by (done || congruence).
  - split; [|done]. intros _ e He cp cq Hcp _ Hid. destruct Hc as [_ Hc]. by destruct (Hc cp Hcp).
Qed.

Lemma stacking_all_iff a hp asg :
  distinct_planes a ->
  stacking_all a hp asg = true <-> forall e f, e ∈ asg -> f ∈ asg -> pair_stacks a hp e.1 e.2 f.1 f.2.
Proof.
  intros Hd. unfold stacking_all. rewrite forallb_forall. setoid_rewrite <- list_elem_of_In.
  setoid_rewrite fits_stacking_iff; [|done]. naive_solver.
Qed.

Lemma fits_multirect_mono a asg asg' p :
  (forall q, q ∈ asg.*1 -> q ∈ asg'.*1) -> fits_multirect a asg p = true -> fits_multirect a asg' p = true.
Proof.
  intros Hsub. unfold fits_multirect, multirect_pairing_ok. destruct (caps_of a p) as [c|]; [|done].
  destruct (multirect_parent c); [|done]. rewrite !PA.count_true. apply Hsub.
Qed.

(** Taking one more plane. *)
Lemma placement_ok_insert a hp c ls ps asg plane l :
  distinct_planes a -> placement_ok a hp c ls ps asg ->
  plane ∈ ps -> l ∈ ls -> plane_statically_compatible plane (lay hp l) c = true ->
  id plane ∉ asg.*1 -> l ∉ asg.*2 ->
  fits_stacking a hp asg (id plane) l = true -> fits_multirect a asg (id plane) = true ->
  placement_ok a hp c ls ps (PA.insert_or_assign (id plane) l asg).
Proof.
  intros Hd [H1 H2 H3 H4 H5] Hp Hl Hc Hpn Hln Hs Hm. rewrite PA.insert_fresh by done.
  assert (Hsnoc : forall e, e ∈ asg ++ [(id plane, l)] <-> e ∈ asg \/ e = (id plane, l)).
  { intros e. by rewrite elem_of_app, list_elem_of_singleton. }
  split.
  - rewrite fmap_app. apply NoDup_app. split_and!; [done | set_solver | apply NoDup_singleton].
  - rewrite fmap_app. apply NoDup_app. split_and!; [done | set_solver | apply NoDup_singleton].
  - intros p' l' [Hin|[= -> ->]]%Hsnoc; [by apply H3|]. split; [done|]. by exists plane.
  - apply stacking_all_iff; [done|]. pose proof (proj1 (stacking_all_iff a hp asg Hd) H4) as Hall.
    pose proof (proj1 (fits_stacking_iff a hp asg _ l Hd) Hs) as Hnew.
    intros e f [He| ->]%Hsnoc [Hf| ->]%Hsnoc; simpl; [by apply Hall | by apply pair_stacks_sym, Hnew | by apply Hnew |].
    by intros ? ? ? ? ? ?.
  - unfold multirect_complete in *. rewrite forallb_forall in *. intros e He%list_elem_of_In.
    apply (fits_multirect_mono a asg); [rewrite fmap_app; set_solver|].
    apply Hsnoc in He as [He| ->]; [by apply H5, list_elem_of_In | done].
Qed.

(** ** The greedy placement *)

Definition greedy_inv (a : Allocator) (hp : heap) (c : Z) (ls : list positive) (ps : list PlaneCapabilities)
    (s : PlaneAssignment * list Z * list positive) : Prop :=
  placement_ok a hp c ls ps s.1.1 /\ (forall p, p ∈ s.1.1.*1 -> p ∈ s.1.2) /\ (forall l, l ∈ s.1.1.*2 -> l ∈ s.2).

Lemma greedy_step_inv a hp c ls ps pass s cand :
  distinct_planes a -> cand ∈ rank_candidates_group (warm a) hp ls ps c ->
  greedy_inv a hp c ls ps s -> greedy_inv a hp c ls ps (greedy_step hp c a pass s cand).
Proof.
  intros Hd (Hp & Hl & Hc & _)%ranked_elem Hs. destruct s as [[asg used] assigned]. unfold greedy_step.
  destruct (negb (Bool.eqb _ _)); [done|]. case_bool_decide as Hu; [done|]. case_bool_decide as Ha; [done|].
  case_bool_decide; [done|]. destruct (probe_rejected _ _ _ _ _); [done|].
  destruct (negb (fits_stacking _ _ _ _ _) || _) eqn:Hfit; [done|]. bool_simpl.
  destruct Hs as (Hok & Hk & Hv). cbn [fst snd] in *. unfold greedy_inv. cbn [fst snd]. split_and!.
  - apply placement_ok_insert; auto.
  - intros p. rewrite PA.insert_fresh by auto. rewrite fmap_app. set_solver.
  - intros l. rewrite PA.insert_fresh by auto. rewrite fmap_app. set_solver.
Qed.

Lemma greedy_fold_inv a hp c ls ps pass cands s :
  distinct_planes a -> (forall cand, cand ∈ cands -> cand ∈ rank_candidates_group (warm a) hp ls ps c) ->
  greedy_inv a hp c ls ps s -> greedy_inv a hp c ls ps (foldl (greedy_step hp c a pass) s cands).
Proof.
  intros Hd. revert s. induction cands as [|cand cands IH]; intros s Hin Hs; [done|]. cbn [foldl].
  apply IH; [intros x Hx; apply Hin; by apply list_elem_of_further|].
  apply greedy_step_inv; [done | apply Hin, list_elem_of_here | done].
Qed.

Lemma greedy_ok a hp c ls ps :
  distinct_planes a ->
  placement_ok a hp c ls ps (greedy hp c a (rank_candidates_group (warm a) hp ls ps c)).
Proof.
  intros Hd. unfold greedy. apply greedy_fold_inv; [done..|]. apply greedy_fold_inv; [done..|].
  split_and!; [apply placement_ok_nil | by intros p ?%not_elem_of_nil..].
Qed.

(** ** The preseed *)

Lemma insert_pairs asg (pairs : list (positive * PlaneCapabilities)) :
  NoDup (asg.*1 ++ ((fun lp => id lp.2) <$> pairs)) ->
  foldl (fun asg (lp : positive * PlaneCapabilities) => PA.insert_or_assign (id lp.2) lp.1 asg) asg pairs =
  asg ++ ((fun lp => (id lp.2, lp.1)) <$> pairs).
Proof.
  revert asg. induction pairs as [|[l p] pairs IH]; intros asg Hnd; [by rewrite app_nil_r|].
  cbn [foldl]. csimpl. csimpl in Hnd. rewrite PA.insert_fresh.
  - rewrite IH; [by rewrite <- app_assoc|]. rewrite fmap_app. csimpl. by rewrite <- app_assoc.
  - apply NoDup_app in Hnd as (_ & Hdis & _). intros Hin. apply (Hdis _ Hin), list_elem_of_here.
Qed.

(** Distinct positions of a duplicate-free list hold distinct elements. *)
Lemma Forall2_lookup_NoDup {A B} (xs : list A) (ix : list nat) (ys : list B) (f : B -> A) :
  NoDup xs -> NoDup ix -> Forall2 (fun i y => xs !! i = Some (f y)) ix ys -> NoDup (f <$> ys).
Proof.
  intros Hxs His HF. induction HF as [|i y ix ys Hy HF IH]; [constructor|].
  apply NoDup_cons in His as [Hi His]. csimpl. apply NoDup_cons. split; [|by apply IH].
  intros (y' & Heq & [k Hk]%list_elem_of_lookup)%list_elem_of_fmap.
  destruct (Forall2_lookup_r _ _ _ _ _ HF Hk) as (i' & Hi' & Hxi').
  apply Hi. rewrite (NoDup_lookup _ _ _ _ Hxs Hy (eq_trans Hxi' (f_equal Some (eq_sym Heq)))).
  by eapply list_elem_of_lookup_2.
Qed.

Lemma preseed_ok a hp c ls ps :
  NoDup ls -> NoDup (id <$> ps) ->
  let asg := preseed_assignment hp ls ps c a in
  stacking_all a hp asg = true -> multirect_complete a asg = true -> placement_ok a hp c ls ps asg.
Proof.
  intros Hls Hps. unfold preseed_assignment.
  destruct (preseed_pairs_maximum (warm a) hp ls ps c) as (pairs & idx & -> & HF & H1 & H2 & _).
  cbn [default]. cbv zeta.
  assert (Hids : NoDup ((fun lp : positive * PlaneCapabilities => id lp.2) <$> pairs)).
  { eapply (Forall2_lookup_NoDup (id <$> ps) idx.*2); [done | exact H2 |]. apply Forall2_fmap_l.
    eapply Forall2_impl; [exact HF|]. intros uv lp (_ & Hp & _). simpl. by rewrite list_lookup_fmap, Hp. }
  rewrite insert_pairs by exact Hids. intros Hs Hm. cbn [app] in *. split; [| | | exact Hs | exact Hm].
  - by rewrite <- list_fmap_compose.
  - rewrite <- list_fmap_compose. eapply (Forall2_lookup_NoDup ls idx.*1); [done | exact H1 |].
    apply Forall2_fmap_l. eapply Forall2_impl; [exact HF|]. by intros uv lp (Hl & _ & _).
  - intros p l ((l' & plane) & [= -> ->] & [k Hk]%list_elem_of_lookup)%list_elem_of_fmap.
    destruct (Forall2_lookup_r _ _ _ _ _ HF Hk) as (uv & _ & Hl & Hp & Hc). simpl in *.
    split; [by eapply list_elem_of_lookup_2|]. exists plane. split_and!; [by eapply list_elem_of_lookup_2 | done..].
Qed.

(** ** Dropping entries until a TEST passes *)

Lemma drop_entry_victim a all v asg :
  NoDup asg.*1 -> (forall e, e ∈ asg -> e.1 ∈ all.*1) -> drop_entry a all v asg = drop_victim a v asg.
Proof.
  intros Hnd Hall. unfold drop_entry, drop_victim. rewrite PA.erase_if_filter.
  assert (Hnd' : NoDup (PA.erase v asg).*1) by (rewrite PA.erase_filter by done; by apply PA.filter_keys_nodup).
  assert (Hall' : forall e, e ∈ PA.erase v asg -> e.1 ∈ all.*1)
    by (intros e He; apply Hall; eapply elem_of_sublist; [exact He | apply erase_sublist]).
  revert Hnd' Hall'. generalize (PA.erase v asg). clear. intros asg Hnd Hall.
  set (child := fun e : Z * positive => match caps_of a e.1 with
    | Some c => bool_decide (multirect_parent c = Some v) | None => false end).
  assert (Hfold : foldl (fun asg (e : Z * positive) =>
      match caps_of a e.1 with
      | Some c => if bool_decide (multirect_parent c = Some v) then PA.erase e.1 asg else asg
      | None => asg
      end) asg all = filter (fun e => ~ (child e = true /\ e.1 ∈ all.*1)) asg).
  { clear Hall. revert asg Hnd. induction all as [|e all IH]; intros asg Hnd; cbn [foldl].
    - symmetry. apply filter_every. intros x _ [_ ?%not_elem_of_nil]. done.
    - assert (Hstep : (match caps_of a e.1 with
        | Some c => if bool_decide (multirect_parent c = Some v) then PA.erase e.1 asg else asg
        | None => asg end) = filter (fun x => ~ (child x = true /\ x.1 = e.1)) asg).
      { destruct (child e) eqn:E; unfold child in E.
        - destruct (caps_of a e.1) as [cp|] eqn:Hcp; [|done]. rewrite E, PA.erase_filter by done.
          apply filter_ext_elem. intros x _. unfold child. split; [tauto|]. intros H Hx. apply H.
          by rewrite Hx, Hcp.
        - transitivity asg; [destruct (caps_of a e.1); [by rewrite E | done]|]. symmetry. apply filter_every.
          intros x _ [Hx Heq]. unfold child in Hx. rewrite Heq in Hx. congruence. }
      rewrite Hstep, IH by by apply PA.filter_keys_nodup. rewrite list_filter_filter.
      apply filter_ext_elem. intros x _. csimpl. rewrite elem_of_cons. tauto. }
  rewrite Hfold. apply filter_ext_elem. intros x Hx. specialize (Hall x Hx). fold (child x).
  destruct (child x); naive_solver.
Qed.

(** Why a placement is handed back. *)
Definition settled (hp : heap) (flags c : Z) (asg : PlaneAssignment) (a : Allocator) (k : kernel) : Prop :=
  asg = [] \/
  (exists a0 k0, try_test_commit hp asg flags c a0 k0 = (None, a, k)) \/
  (max_test_commits_ a <= test_commits_this_frame_ a)%nat.

Lemma try_test_settled hp asg flags c a0 k0 r a k :
  try_test_commit hp asg flags c a0 k0 = (r, a, k) -> passed_test r = true -> settled hp flags c asg a k.
Proof. destruct r; [done|]. intros H _. right. left. eauto. Qed.

Lemma drop_loop_spec hp flags c all ls ps todo asg a k :
  flat_multirect a -> placement_ok a hp c ls ps asg ->
  (forall p, p ∈ asg.*1 -> p ∈ todo.*1) -> (forall p, p ∈ todo.*1 -> p ∈ all.*1) ->
  let '(out, a', k') := drop_loop hp flags c all todo asg a k in
  searched a k a' k' /\ placement_ok a' hp c ls ps out /\ settled hp flags c out a' k'.
Proof.
  revert asg a k. induction todo as [|e todo IH]; intros asg a k Hflat Hok Hsub Hall; cbn [drop_loop].
  { split_and!; [apply searched_refl | done |]. left. destruct asg as [|e asg]; [done|].
    by specialize (Hsub e.1 (list_elem_of_here _ _)) as ?%not_elem_of_nil. }
  destruct (PA.count e.1 asg) eqn:Hcount; cbn [negb].
  2: { apply IH; [done | done | | intros p Hp; apply Hall; by apply list_elem_of_further].
       intros p Hp. specialize (Hsub p Hp). csimpl in Hsub. apply elem_of_cons in Hsub as [->|?]; [|done].
       apply PA.count_true in Hp. congruence. }
  assert (Hin : forall x, x ∈ asg -> x.1 ∈ all.*1).
  { intros x Hx. apply Hall, Hsub. by apply list_elem_of_fmap_2. }
  rewrite drop_entry_victim by (done || by destruct Hok).
  pose proof (placement_ok_drop a hp c ls ps e.1 asg Hflat Hok) as Hok'.
  assert (Hsub' : forall p, p ∈ (drop_victim a e.1 asg).*1 -> p ∈ todo.*1).
  { intros p (x & -> & Hx)%list_elem_of_fmap. unfold drop_victim in Hx.
    rewrite PA.erase_if_filter, PA.erase_filter in Hx by by destruct Hok.
    apply list_elem_of_filter in Hx as [_ [Hne Hx]%list_elem_of_filter].
    specialize (Hsub x.1 (list_elem_of_fmap_2 _ _ _ Hx)). csimpl in Hsub.
    apply elem_of_cons in Hsub as [?|?]; done. }
  pose proof (try_test_commit_searched hp (drop_victim a e.1 asg) flags c a k) as Hs.
  destruct (try_test_commit _ _ _ _ a k) as [[r a1] k1] eqn:Ht.
  assert (Hreg : registry_ a1 = registry_ a) by by rewrite (searched_same _ _ _ _ Hs).
  apply (placement_ok_registry a a1) in Hok'; [|done].
  destruct (passed_test r) eqn:Hr; [split_and!; [done | done | by eapply try_test_settled]|].
  destruct (Nat.leb_spec (max_test_commits_ a1) (test_commits_this_frame_ a1)).
  { split_and!; [done | done | by right; right]. }
  specialize (IH (drop_victim a e.1 asg) a1 k1).
  destruct (drop_loop _ _ _ _ _ _ a1 k1) as [[out a2] k2].
  destruct IH as (Hs' & Ho & Hst).
  - unfold flat_multirect, caps_of, all_planes in *. by rewrite Hreg.
  - done.
  - done.
  - intros p Hp. apply Hall. by apply list_elem_of_further.
  - split_and!; [by eapply searched_trans | done | done].
Qed.

Lemma placement_ok_same a a' hp c ls ps asg :
  same_but_caches a a' -> placement_ok a hp c ls ps asg -> placement_ok a' hp c ls ps asg.
Proof. intros Hs. apply placement_ok_registry. by rewrite Hs. Qed.

Lemma greedy_and_drop hp flags c ls ps a k :
  distinct_planes a -> flat_multirect a ->
  let asg := greedy hp c a (rank_candidates_group (warm a) hp ls ps c) in
  let '(r, a1, k1) := try_test_commit hp asg flags c a k in
  let vec := std_sort (fun x y : Z * positive => keep_priority (lay hp x.2) <? keep_priority (lay hp y.2)) asg in
  let '(out, a', k') := if passed_test r then (asg, a1, k1) else drop_loop hp flags c vec vec asg a1 k1 in
  searched a k a' k' /\ placement_ok a' hp c ls ps out /\ settled hp flags c out a' k'.
Proof.
  intros Hd Hflat asg. pose proof (greedy_ok a hp c ls ps Hd) as Hok. fold asg in Hok.
  pose proof (try_test_commit_searched hp asg flags c a k) as Hs.
  destruct (try_test_commit hp asg flags c a k) as [[r a1] k1] eqn:Ht. cbv zeta.
  apply (placement_ok_same a a1) in Hok; [|by destruct Hs].
  destruct (passed_test r) eqn:Hr; [split_and!; [done | done | by eapply try_test_settled]|].
  pose proof (drop_loop_spec hp flags c) as Hdrop.
  match goal with |- context [drop_loop _ _ _ ?v _ _ _ _] => specialize (Hdrop v ls ps v asg a1 k1) end.
  destruct (drop_loop _ _ _ _ _ _ a1 k1) as [[out a2] k2]. destruct Hdrop as (Hs' & Ho & Hst).
  - destruct Hs as [_ _ Hs]. unfold flat_multirect, caps_of, all_planes in *. by rewrite Hs.
  - done.
  - intros p. by rewrite std_sort_perm.
  - done.
  - split_and!; [by eapply searched_trans | done | done].
Qed.

Lemma place_group_ok hp ls ps flags c a k :
  NoDup ls -> NoDup (id <$> ps) -> distinct_planes a -> flat_multirect a ->
  let '(out, a', k') := place_group hp ls ps flags c a k in
  searched a k a' k' /\ placement_ok a' hp c ls ps out /\ settled hp flags c out a' k'.
Proof.
  intros Hls Hps Hd Hflat. unfold place_group. cbv zeta. set (ordered := stable_sort (by_keep hp) ls).
  assert (Hord : ordered ≡ₚ ls) by apply stable_sort_perm.
  case_bool_decide as Hnil.
  { rewrite Hnil. split_and!; [apply searched_refl | apply placement_ok_nil | by left]. }
  pose proof (preseed_ok a hp c ordered ps ltac:(by rewrite Hord) Hps) as Hpre. cbv zeta in Hpre.
  set (asg := preseed_assignment hp ordered ps c a) in *.
  assert (Hfirst : let '(ok, a1, k1) :=
      if stacking_all a hp asg && multirect_complete a asg
      then let '(r, a1, k1) := try_test_commit hp asg flags c a k in (passed_test r, a1, k1)
      else (false, a, k) in
    searched a k a1 k1 /\
    (ok = true -> placement_ok a1 hp c ordered ps asg /\ settled hp flags c asg a1 k1)).
  { destruct (stacking_all a hp asg && _) eqn:Hrules; [|by split; [apply searched_refl|]]. bool_simpl.
    pose proof (try_test_commit_searched hp asg flags c a k) as Hs.
    destruct (try_test_commit hp asg flags c a k) as [[r a1] k1] eqn:Ht. split; [done|]. intros Hr. split.
    - apply (placement_ok_same a a1); [by destruct Hs | by apply Hpre].
    - by eapply try_test_settled. }
  destruct (if stacking_all a hp asg && _ then _ else _) as [[ok a1] k1]. destruct Hfirst as [Hs1 Hok].
  destruct ok.
  { destruct (Hok eq_refl) as [Ho Hst]. split_and!; [done | by eapply placement_ok_layers | done]. }
  assert (Hsame := searched_same _ _ _ _ Hs1).
  pose proof (greedy_and_drop hp flags c ordered ps a1 k1) as Hgd. cbv zeta in Hgd.
  destruct (try_test_commit hp _ flags c a1 k1) as [[r a2] k2].
  match goal with |- let '(_, _) := ?x in _ => destruct x as [[out a'] k'] end.
  destruct Hgd as (Hs2 & Ho & Hst).
  - unfold distinct_planes, all_planes in *. by rewrite Hsame.
  - unfold flat_multirect, caps_of, all_planes in *. by rewrite Hsame.
  - split_and!; [by eapply searched_trans | by eapply placement_ok_layers | done].
Qed.

(** C5. Placing a group only ever TESTs, counts every TEST and stays in the
    budget.  What it returns puts each layer on one plane and each plane under
    one layer, only on planes the layer is statically compatible with, never
    inverts a stack of fixed-slot planes and never arms a multirect virtual
    plane without its parent; and it is empty, or exactly what the last TEST
    accepted, or the TEST budget is spent. *)
Theorem place_group_sound (hp : heap) (layers : list positive) (planes : list PlaneCapabilities)
    (flags crtc_index : Z) (a : Allocator) (k : kernel) :
  NoDup layers -> NoDup (id <$> planes) -> distinct_planes a -> flat_multirect a ->
  let '(assignment, a', k') := place_group hp layers planes flags crtc_index a k in
  searched a k a' k' /\ placement_ok a' hp crtc_index layers planes assignment /\
  settled hp flags crtc_index assignment a' k'.
Proof. apply place_group_ok. Qed.

(** ** The ordered pass *)

Lemma try_test_commit_canvas hp asg flags c a k :
  canvas_plane_ (try_test_commit hp asg flags c a k).1.2 = canvas_plane_ a.
Proof.
  unfold try_test_commit. destruct (_ <=? _)%nat; [done|]. destruct (prepare_test _ _) as [[_|e] req]; [|done].
  pose proof (disable_loop_untracked asg true (for_crtc_planes a c) a req) as Hd.
  unfold disable_unused_planes. destruct (disable_loop _ _ _ _ _ _) as [a1 req1]. simpl in Hd. subst a1.
  destruct (apply_assignment _ _ _ _ _) as [[_|e] req2]; [|done].
  destruct (test_request req2 flags k) as [res k']. simpl. unfold record_verdicts.
  destruct asg as [|[p l] [|e asg]]; [done | by destruct (format _) | done].
Qed.

Lemma stacking_planes_sorted planes :
  NoDup (id <$> planes) -> StronglySorted (fun p q => id p < id q) (stacking_planes planes).
Proof.
  intros Hnd. unfold stacking_planes.
  set (kept := filter (fun p => multirect_parent p = None /\ type_ p <> CURSOR) planes).
  assert (Hk : NoDup (id <$> kept)).
  { eapply sublist_NoDup; [exact Hnd|]. apply fmap_sublist, sublist_filter. }
  assert (Hs : StronglySorted (not_after (fun a b => id a <? id b)) (std_sort (fun a b => id a <? id b) kept)).
  { apply std_sort_sorted, key_lt_strict_weak. }
  rewrite <- (std_sort_perm (fun a b => id a <? id b) kept) in Hk. revert Hs Hk.
  generalize (std_sort (fun a b => id a <? id b) kept). clear.
  induction 1 as [|p l Hs IH Hp]; [constructor|]. csimpl. intros [Hin Hnd]%NoDup_cons.
  constructor; [by apply IH|]. rewrite Forall_forall in *. intros q Hq. specialize (Hp q Hq).
  unfold not_after in Hp. apply Z.ltb_ge in Hp.
  assert (id q <> id p); [|lia]. intros Heq. apply Hin. rewrite <- Heq. by apply list_elem_of_fmap_2.
Qed.

Lemma fits_at_plane a hp c by_id l j : fits_at a hp c by_id l j = true -> is_Some (by_id !! j).
Proof. unfold fits_at. by destruct (by_id !! j). Qed.

Lemma hosts_canvas_plane by_id j : hosts_canvas by_id j = true -> is_Some (by_id !! j).
Proof. unfold hosts_canvas. by destruct canvas_host, (by_id !! j). Qed.

Definition accepted (hp : heap) (flags c : Z) (asg : PlaneAssignment) (a : Allocator) (k : kernel) : Prop :=
  exists a0 k0, try_test_commit hp asg flags c a0 k0 = (None, a, k).

(** What the ordered pass answers. *)
Definition order_placed (hp : heap) (flags c : Z) (layers : list positive) (with_canvas : bool)
    (fits : positive -> nat -> bool) (by_id : list PlaneCapabilities) (out : PlaneAssignment)
    (a : Allocator) (k : kernel) : Prop :=
  out = [] \/
  (accepted hp flags c out a k /\ order_ok hp layers with_canvas fits by_id out (canvas_plane_ a)).

Lemma plane_order_loop_spec fuel hp flags c layers by_id fits with_canvas max a k :
  StronglySorted (fun p q => id p < id q) by_id -> NoDup layers ->
  (forall l j, fits l j = true -> is_Some (by_id !! j)) -> (max < fuel)%nat ->
  let o := order_input fits (length by_id) hp layers with_canvas (hosts_canvas by_id) in
  exists out a' k', plane_order_loop fuel hp flags c layers by_id fits o max a k = Some (out, a', k') /\
    searched a k a' k' /\ order_placed hp flags c layers with_canvas fits by_id out a' k'.
Proof.
  intros Hid Hnd Hfits Hfuel. cbv zeta. revert max a k Hfuel.
  induction fuel as [|fuel IH]; intros max a k Hfuel; [lia|]. cbn [plane_order_loop].
  destruct (choose _ max) as [ch|] eqn:Hch.
  2: { exists [], a, k. split_and!; [done | apply searched_refl | by left]. }
  destruct (choice_ok hp layers with_canvas _ fits by_id max ch Hid Hnd Hfits (hosts_canvas_plane by_id) Hch)
    as [Hok Hlen]. cbv zeta.
  set (asg := choice_assignment fits by_id layers ch) in *.
  set (a0 := a {{ canvas_plane_ := choice_canvas by_id ch }}).
  assert (H0 : searched a k a0 k) by apply searched_canvas, searched_refl.
  case_bool_decide as Hnil.
  { exists asg, a0, k. split_and!; [done | done | by left]. }
  pose proof (try_test_commit_searched hp asg flags c a0 k) as Hs.
  pose proof (try_test_commit_canvas hp asg flags c a0 k) as Hcv.
  destruct (try_test_commit hp asg flags c a0 k) as [[r a1] k1] eqn:Ht. cbn [fst snd] in Hcv.
  assert (H1 : searched a k a1 k1) by by eapply searched_trans.
  destruct (passed_test r) eqn:Hr.
  { destruct r; [done|]. exists asg, a1, k1. split_and!; [done | done |]. right. split; [by exists a0, k|].
    by rewrite Hcv. }
  destruct (_ <=? _)%nat.
  { eexists [], _, k1. split_and!; [done | by apply searched_canvas | by left]. }
  destruct (IH (length asg - 1)%nat a1 k1) as (out & a2 & k2 & Heq & Hs2 & Hp2).
  - destruct asg; simpl in *; [done | lia].
  - exists out, a2, k2. split_and!; [done | by eapply searched_trans | done].
Qed.

Lemma place_in_plane_order_ok (hp : heap) (layers : list positive) (planes : list PlaneCapabilities)
    (with_canvas : bool) (flags crtc_index : Z) (a : Allocator) (k : kernel) :
  NoDup layers -> NoDup (id <$> planes) ->
  exists out a' k',
    place_in_plane_order hp layers planes with_canvas flags crtc_index a k = Some (out, a', k') /\
    searched a k a' k' /\
    order_placed hp flags crtc_index layers with_canvas
      (fits_at a hp crtc_index (stacking_planes planes)) (stacking_planes planes) out a' k'.
Proof.
  intros Hl Hp. unfold place_in_plane_order. cbv zeta. case_bool_decide.
  { exists [], a, k. split_and!; [done | apply searched_refl | by left]. }
  apply plane_order_loop_spec; [by apply stacking_planes_sorted | done | intros l j; apply fits_at_plane | lia].
Qed.

(** C6. On a CRTC that stacks by plane id the placement always ends, within one
    TEST per layer.  Unless it gives up and composites everything, the kernel
    accepted exactly what it returns; every plane fits its layer; no forced
    layer is placed; and, with a canvas, any two layers given in stacking order
    end up on planes, or on a plane and the canvas, in that order. *)
Theorem place_in_plane_order_sound (hp : heap) (layers : list positive) (planes : list PlaneCapabilities)
    (with_canvas : bool) (flags crtc_index : Z) (a : Allocator) (k : kernel) :
  NoDup layers -> NoDup (id <$> planes) ->
  exists out a' k',
    place_in_plane_order hp layers planes with_canvas flags crtc_index a k = Some (out, a', k') /\
    searched a k a' k' /\
    order_placed hp flags crtc_index layers with_canvas
      (fits_at a hp crtc_index (stacking_planes planes)) (stacking_planes planes) out a' k'.
Proof. apply place_in_plane_order_ok. Qed.

(** ** The blend-stage cap *)

Lemma sorted_drop_le (f : positive -> Z) (l : list positive) n x y :
  StronglySorted (not_after (fun x y => f y <? f x)) l -> x ∈ take n l -> y ∈ drop n l -> f y <= f x.
Proof.
  intros Hs [i [Hi Hlt]%lookup_take_Some]%list_elem_of_lookup [j Hj]%list_elem_of_lookup.
  rewrite lookup_drop in Hj. pose proof (sorted_lookup _ _ i (n + j) x y Hs Hi Hj ltac:(lia)) as H.
  unfold not_after in H. apply Z.ltb_ge in H. lia.
Qed.

Lemma filter_notin_drop (l ranked : list positive) n :
  NoDup l -> ranked ≡ₚ l -> filter (fun x => x ∉ drop n ranked) l ≡ₚ take n ranked.
Proof.
  intros Hnd Hp. assert (Hr : NoDup ranked) by by rewrite Hp.
  apply NoDup_Permutation; [by apply NoDup_filter | by eapply sublist_NoDup, sublist_take |].
  intros x. rewrite list_elem_of_filter, <- Hp. rewrite <- (take_drop n ranked) in Hr at 1.
  apply NoDup_app in Hr as (_ & Hdis & _).
  assert (Hx : x ∈ ranked <-> x ∈ take n ranked \/ x ∈ drop n ranked)
    by by rewrite <- elem_of_app, take_drop.
  rewrite Hx. specialize (Hdis x). tauto.
Qed.

Lemma blend_budget_fits limit held n composites :
  Z.of_nat held < limit ->
  (held + blend_budget (Z.to_nat limit) held n composites +
     (if composites || (Z.to_nat limit <? held + n)%nat then 1 else 0) <= Z.to_nat limit)%nat.
Proof.
  intros Hlt. unfold blend_budget. destruct (Nat.ltb_spec held (Z.to_nat limit)); [|lia].
  destruct (composites || _); cbn [andb]; [|lia]. destruct (Nat.ltb_spec 0 (Z.to_nat limit - held)); lia.
Qed.

Lemma blend_budget_over limit held n composites :
  Z.of_nat held < limit -> (blend_budget (Z.to_nat limit) held n composites < n)%nat ->
  composites || (Z.to_nat limit <? held + n)%nat = true.
Proof.
  intros Hlt. destruct composites; [done|]. unfold blend_budget. cbn [orb].
  destruct (Nat.ltb_spec (Z.to_nat limit) (held + n)); [done|]. cbn [andb].
  destruct (Nat.ltb_spec held (Z.to_nat limit)); lia.
Qed.


(** ** Around one composited run *)

Lemma placement_ok_incl a hp c ls ls' ps asg :
  (forall l, l ∈ ls -> l ∈ ls') -> placement_ok a hp c ls ps asg -> placement_ok a hp c ls' ps asg.
Proof. intros Hp [H1 H2 H3 H4 H5]. split; try done. intros p l Hin. destruct (H3 p l Hin). auto. Qed.

Definition run_placed (hp : heap) (flags c : Z) (ls : list positive) (ps : list PlaneCapabilities)
    (r : option PlaneAssignment) (a : Allocator) (k : kernel) : Prop :=
  forall asg, r = Some asg -> asg <> [] /\ placement_ok a hp c ls ps asg /\
    settled hp flags c asg a k /\ feasible (canvas_bounds a hp asg) = true.

Lemma registry_facts a a' :
  same_but_caches a a' -> distinct_planes a -> flat_multirect a -> distinct_planes a' /\ flat_multirect a'.
Proof.
  intros Hs. unfold distinct_planes, flat_multirect, caps_of, all_planes. by rewrite Hs.
Qed.

Lemma run_loop_ok hp ls ps flags c ff lf ws a k :
  NoDup ls -> NoDup (id <$> ps) -> distinct_planes a -> flat_multirect a ->
  let '(r, a', k') := run_loop hp ls ps flags c ff lf ws a k in
  searched a k a' k' /\ run_placed hp flags c ls ps r a' k'.
Proof.
  intros Hls Hps. revert a k. induction ws as [|w ws IH]; intros a k Hd Hflat; cbn [run_loop].
  { split; [apply searched_refl | done]. }
  destruct (_ <=? _)%nat; [split; [apply searched_refl | done]|]. cbv zeta.
  destruct (cheapest_run _ _ _ _ _ _ _ _) as [[best cost]|]; [|by apply IH].
  set (outside := take best ls ++ drop (best + w) ls).
  assert (Hsub : outside `sublist_of` ls).
  { unfold outside. rewrite <- (take_drop best ls) at 3. apply sublist_app; [done|].
    rewrite <- drop_drop. apply sublist_drop. }
  pose proof (place_group_ok hp outside ps flags c a k ltac:(by eapply sublist_NoDup) Hps Hd Hflat) as Hg.
  destruct (place_group _ _ _ _ _ a k) as [[asg a1] k1]. destruct Hg as (Hs & Hok & Hst).
  destruct (negb _ && _) eqn:Hgood.
  - bool_simpl. split; [done|]. intros asg' [= <-]. split_and!; [done | | done | done].
    eapply placement_ok_incl; [|exact Hok]. intros l Hl. by eapply elem_of_sublist.
  - destruct (registry_facts a a1 (searched_same _ _ _ _ Hs) Hd Hflat) as [Hd1 Hf1].
    specialize (IH a1 k1 Hd1 Hf1). destruct (run_loop _ _ _ _ _ _ _ ws a1 k1) as [[r a2] k2].
    destruct IH as [Hs2 Hr]. split; [by eapply searched_trans | done].
Qed.

Lemma place_around_run_ok hp all placed ps flags c a k :
  NoDup all -> NoDup (id <$> ps) -> distinct_planes a -> flat_multirect a ->
  let '(r, a', k') := place_around_run hp all placed ps flags c a k in
  searched a k a' k' /\ run_placed hp flags c (filter (fun l => searchable hp l = true) all) ps r a' k'.
Proof.
  intros Hls Hps Hd Hf. unfold place_around_run. cbv zeta. destruct (forced_range _ _ _ _ _) as [ff lf].
  apply run_loop_ok; [by apply NoDup_filter | done..].
Qed.
End Search.

(** ** Concrete runs *)

Definition scan_plane (i : Z) : PlaneCapabilities :=
  default_caps {{ id := i; possible_crtcs := 1; type_ := OVERLAY;
                  format_table := @from_pairs libstdcxx [(875713112, 0)] }}.

Definition scan_planes : list PlaneCapabilities := [scan_plane 31; scan_plane 32].

Definition scan_layer (z : Z) : Layer :=
  set_property PixelFormat 875713112 (set_property Zpos z (set_property FbId 77 new_layer)).

Definition scan_allocator (budget : nat) : Allocator :=
  set_max_test_commits budget
    (@make_allocator linux_abi sample_kms (mkRegistry scan_planes {[ 0 := 2 ]} [] ∅) EAGAIN).

Definition scan_heap : heap := <[1%positive := scan_layer 1]> (<[2%positive := scan_layer 2]> ∅).

(** A kernel that answers [-EINVAL] to every request. *)
Definition no_libdrm : Libdrm := list_libdrm (fun _ _ => 22).

Lemma scan_distinct n : distinct_planes (scan_allocator n) /\ flat_multirect (scan_allocator n).
Proof.
  split.
  - apply (bool_decide_unpack _). vm_compute. exact I.
  - intros p q cp cq Hp Hq _. unfold caps_of in Hp. simpl in Hp.
    repeat case_match; simplify_eq/=; done.
Qed.

Lemma place_group_sound_witness :
  let '(assignment, a', k') := @place_group linux_abi libstdcxx yes_libdrm 3 None scan_heap
    [1%positive; 2%positive] scan_planes 0 0 (scan_allocator 16) 0 in
  assignment = [(31, 1%positive); (32, 2%positive)] /\ k' = 1 /\
  @placement_ok linux_abi a' scan_heap 0 [1%positive; 2%positive] scan_planes assignment.
Proof.
  pose proof (@place_group_sound linux_abi libstdcxx yes_libdrm 3 None scan_heap [1%positive; 2%positive]
    scan_planes 0 0 (scan_allocator 16) 0) as H.
  destruct (@place_group _ _ _ _ _ _ _ _ _ _ _ _) as [[asg a'] k'] eqn:E in H.
  destruct H as (_ & Hok & _).
  - apply (bool_decide_unpack _). vm_compute. exact I.
  - apply (bool_decide_unpack _). vm_compute. exact I.
  - apply scan_distinct.
  - apply scan_distinct.
  - rewrite E. vm_compute in E. injection E as <- _ <-. split; [reflexivity|]. split; [reflexivity|]. exact Hok.
Defined.

(** The header promises an empty result when the TEST budget runs out; the
    loop hands back an assignment no TEST accepted. *)
Lemma place_group_untested :
  let '(assignment, a', k') := @place_group linux_abi libstdcxx no_libdrm 3 None scan_heap
    [1%positive; 2%positive] scan_planes 0 0 (scan_allocator 2) 0 in
  assignment = [(32, 1%positive)] /\ k' = 2 /\ test_commits_this_frame_ a' = 2%nat.
Proof. vm_compute. split_and!; reflexivity. Qed.

Lemma place_in_plane_order_sound_witness :
  exists out a' k', @place_in_plane_order linux_abi libstdcxx yes_libdrm 3 None None scan_heap
      [1%positive; 2%positive] scan_planes true 0 0 (scan_allocator 16) 0 = Some (out, a', k') /\
    (out = [] \/ @accepted linux_abi libstdcxx yes_libdrm 3 None scan_heap 0 0 out a' k').
Proof.
  destruct (@place_in_plane_order_sound linux_abi libstdcxx yes_libdrm 3 None None scan_heap
    [1%positive; 2%positive] scan_planes true 0 0 (scan_allocator 16) 0) as (out & a' & k' & H & _ & Hp).
  - apply (bool_decide_unpack _). vm_compute. exact I.
  - apply (bool_decide_unpack _). vm_compute. exact I.
  - exists out, a', k'. split; [exact H|]. destruct Hp as [Hp|[Hp _]]; [left; exact Hp | right; exact Hp].
Defined.

(** Two layers of which one must be composited, and a limit of two stages. *)
Definition cap_heap : heap :=
  <[1%positive := set_content_type Video (set_composited (scan_layer 1))]> (<[2%positive := scan_layer 2]> ∅).
Definition cap_allocator : Allocator :=
  (@make_allocator linux_abi sample_kms
     (mkRegistry [(scan_plane 31) {{ zpos_min := Some 0; zpos_max := Some 9 }}] {[ 0 := 2 ]} [] ∅) EAGAIN)
    {{ scratch_placeable_ := [1%positive; 2%positive] }}.

(** The forced layer is counted against the planes it can never take, so the
    other one is composited too. *)
Lemma cap_counts_forced_layers :
  let a' := cap_to_blend_limit cap_heap [1%positive; 2%positive] 0 cap_allocator in
  scratch_placeable_ a' = [1%positive] /\ scratch_over_limit_ a' = [2%positive] /\
  force_composited_ (lay cap_heap 1%positive) = true.
Proof. vm_compute. split_and!; reflexivity. Qed.

