(* ===== verification/Allocator.v ===== *)
(** The allocator's entry point: [apply], [is_fb_only_frame],
    [apply_previous_allocation] and [full_search] of
    [src/planes/allocator.cpp], composed from the search ([Search.v]) and the
    writes ([Writes.v]).

    A frame passes the allocator, the layers' heap, the caller's request and
    the kernel along.  Where the search could run out of fuel the result is an
    option; [apply_total] shows it never is [None]. *)
From S2P Require Import Prelude DrmAbi FormatMod Multirect PlaneRegistry PropertyStore ZposOrder Layer Output.
From S2P Require Import LayerGroups Assignment Scoring AllocState Canvas Atomic Writes PlaneOrder Search.

Section Frame.
Context `{abi : DrmAbi} `{cpp : CppStd} `{lib : Libdrm}.
Context (dev_fd : Z).
Context (test_preparer : option (AtomicRequest -> Z -> expected unit * AtomicRequest)).
Context (canvas_host : option (PlaneCapabilities -> bool)).
(** [drmModeGetPlane] (what is on a plane) and [drmModeGetResources] (the
    CRTC ids, in order). *)
Context (drmModeGetPlane_state : Z -> option (Z * Z)).
Context (drmModeGetResources_crtcs : option (list Z)).

Abbreviation result := (expected nat * Allocator * heap * AtomicRequest * kernel)%type.

(** ** Flags on the layers *)

(** Neither the composition layer, nor bound out of band, nor pinned. *)
Definition owned_by_scene (l : Layer) : bool :=
  is_composition_layer_ l || externally_bound_ l || pinned_ l.

Definition mark_composited (ls : list positive) (hp : heap) : heap :=
  foldl (fun hp l =>
    if bool_decide (assigned_plane_ (lay hp l) = None) && negb (owned_by_scene (lay hp l))
    then alter (fun x => x {{ needs_composition_ := true }}) l hp else hp) hp ls.

Definition any_composited (hp : heap) (ls : list positive) : bool :=
  existsb (fun l => needs_composition_ (lay hp l)) ls.

Definition reset_layer (l : Layer) : Layer :=
  let l := l {{ needs_composition_ := false }} in
  if pinned_ l then l else l {{ assigned_plane_ := None }}.

Definition reset_layers (ls : list positive) (hp : heap) : heap :=
  foldl (fun hp l => alter reset_layer l hp) hp ls.

(** The output's layers are alive ([Output.v]). *)
Definition clean (o : Output) (hp : heap) : heap := default hp (output_mark_clean o hp).

(** ** Warm start *)

(** Entries whose layer left the scene are erased. *)
Definition keep_current (a : Allocator) : Allocator :=
  a {{ previous_allocation_ ::=
         PA.erase_if (fun e => negb (bool_decide (e.2 ∈ scratch_current_set_ a))) }}.

Definition reserved_overlap (a : Allocator) : bool :=
  existsb (fun e : Z * positive => bool_decide (e.1 ∈ external_reserved_ a)) (previous_allocation_ a).

(** Whether last frame's placement still respects the stacking rules. *)
Definition previous_consistent (hp : heap) (o : Output) (crtc_index : Z) (a : Allocator) : bool :=
  let prev := previous_allocation_ a in
  let by_plane_id := stacks_by_plane_id a crtc_index in
  stacking_all a hp prev && multirect_complete a prev &&
  (negb by_plane_id || plane_order_consistent hp (layer_ptrs_ o) prev (previous_canvas_plane_ a)) &&
  (by_plane_id || feasible (canvas_bounds a hp prev)).

(** The commit half: the tested state goes into the caller's request. *)
Definition commit_previous (o : Output) (crtc_index : Z) (test_only : bool) (a : Allocator) (hp : heap)
    (req : AtomicRequest) (k : kernel) : result :=
  let prev := previous_allocation_ a in
  let '(a, req) := disable_unused_planes crtc_index prev true test_only a req in
  let stack := stacked_zpos a hp prev in
  let '(r, a, hp, req) := arm_loop false (renumbered stack) test_only prev a hp req in
  match r with
  | Unexp e => (Unexp e, a, hp, req, k)
  | Val _ =>
      let hp := mark_composited (layer_ptrs_ o) hp in
      let a := if stacks_by_plane_id a crtc_index
               then a {{ canvas_plane_ := previous_canvas_plane_ a }} else a in
      let a := record_stack stack (any_composited hp (layer_ptrs_ o)) a in
      (Val (length prev), a, clean o hp, req, k)
  end.

Definition apply_previous_allocation (o : Output) (flags crtc_index : Z) (test_only skip_test : bool)
    (a : Allocator) (hp : heap) (req : AtomicRequest) (k : kernel) : result :=
  if reserved_overlap a then (Unexp EAGAIN, a, hp, req, k)
  else
    let a := keep_current a in
    if bool_decide (previous_allocation_ a = []) then (Unexp EAGAIN, a, hp, req, k)
    else if negb (previous_consistent hp o crtc_index a) then (Unexp EAGAIN, a, hp, req, k)
    else
      let '(r, a, k) :=
        if skip_test then (None, a, k)
        else try_test_commit dev_fd test_preparer hp (previous_allocation_ a) flags crtc_index a k in
      match r with
      | Some e => (Unexp (if decide (e = EACCES) then e else EAGAIN), a, hp, req, k)
      | None => commit_previous o crtc_index test_only a hp req k
      end.

(** ** Full search *)

Definition placeable_layer (l : Layer) : bool :=
  negb (externally_bound_ l || transient_composited_ l || pinned_ l).

(** The loop over the groups; each takes its planes out of the pool. *)
Fixpoint group_loop (hp : heap) (flags crtc_index : Z) (groups : list (list positive))
    (available : list PlaneCapabilities) (best : PlaneAssignment) (total : nat) (a : Allocator) (k : kernel)
    : PlaneAssignment * nat * Allocator * kernel :=
  match groups with
  | [] => (best, total, a, k)
  | group :: groups' =>
      let '(assignment, a, k) :=
        place_group dev_fd test_preparer hp group available flags crtc_index a k in
      let best := foldl (fun b (e : Z * positive) => PA.insert_or_assign e.1 e.2 b) best assignment in
      let available := filter (fun p => PA.count (id p) assignment = false) available in
      group_loop hp flags crtc_index groups' available best (total + length assignment) a k
  end.

(** [placeable.erase(std::find(...))]. *)
Fixpoint erase_first (x : positive) (l : list positive) : list positive :=
  match l with
  | [] => []
  | y :: l' => if decide (y = x) then l' else y :: erase_first x l'
  end.

(** The partial fallback; [None] is fuel running out. *)
Fixpoint fallback_loop (fuel : nat) (hp : heap) (flags crtc_index : Z) (placeable : list positive)
    (planes : list PlaneCapabilities) (a : Allocator) (k : kernel)
    : option (PlaneAssignment * Allocator * kernel) :=
  match fuel with
  | O => None
  | S fuel' =>
      if bool_decide (placeable = []) || (max_test_commits_ a <=? test_commits_this_frame_ a)%nat
      then Some ([], a, k)
      else
        let '(attempt, a, k) := place_group dev_fd test_preparer hp placeable planes flags crtc_index a k in
        if negb (bool_decide (attempt = [])) then Some (attempt, a, k)
        else
          match pick_most_constrained hp placeable planes crtc_index with
          | None => Some ([], a, k)
          | Some victim => fallback_loop fuel' hp flags crtc_index (erase_first victim placeable) planes a k
          end
  end.

Definition fallback_layers (hp : heap) (a : Allocator) (ls : list positive) : list positive :=
  filter (fun l => force_composited_ (lay hp l) || transient_composited_ (lay hp l)
                   || owned_by_scene (lay hp l) || bool_decide (l ∈ scratch_over_limit_ a) = false) ls.

(** One canvas stacks at one zpos: move layers until one zpos serves. *)
Definition settle_canvas (hp : heap) (flags crtc_index : Z) (ls : list positive)
    (planes : list PlaneCapabilities) (best : PlaneAssignment) (total : nat) (a : Allocator) (k : kernel)
    : option (PlaneAssignment * nat * Allocator * kernel) :=
  if feasible (canvas_bounds a hp best) then Some (best, total, a, k)
  else
    let '(run, a, k) :=
      place_around_run dev_fd test_preparer hp ls (length best) planes flags crtc_index a k in
    match run with
    | Some asg => Some (asg, length asg, a, k)
    | None =>
        '(ok, resolved) ← resolve_canvas_bounds a hp best;
        if negb ok then Some (best, length best, a, k)
        else if bool_decide (resolved = []) then Some (resolved, length resolved, a, k)
        else if (max_test_commits_ a <=? test_commits_this_frame_ a)%nat then Some (best, length best, a, k)
        else
          let '(r, a, k) := try_test_commit dev_fd test_preparer hp resolved flags crtc_index a k in
          let best := if passed_test r then resolved else best in Some (best, length best, a, k)
    end.

(** Planes that are not reserved by the caller. *)
Definition available_planes (a : Allocator) (crtc_index : Z) : list PlaneCapabilities :=
  filter (fun p => id p ∉ external_reserved_ a) (for_crtc_planes a crtc_index).

(** The zpos path: groups, then the fallback, then the canvas. *)
Definition search_by_zpos (hp : heap) (flags crtc_index : Z) (ls : list positive) (a : Allocator) (k : kernel)
    : option (PlaneAssignment * nat * Allocator * kernel) :=
  groups ← split_independent_groups hp (scratch_placeable_ a);
  let available := available_planes a crtc_index in
  let '(best, total, a, k) := group_loop hp flags crtc_index groups available [] 0 a k in
  '(best, total, a, k) ←
    (if (total =? 0)%nat then
       let placeable := fallback_layers hp a ls in
       '(attempt, a, k) ← fallback_loop (S (length placeable)) hp flags crtc_index placeable available a k;
       Some (if bool_decide (attempt = []) then (best, total) else (attempt, length attempt), a, k)
     else Some (best, total, a, k));
  settle_canvas hp flags crtc_index ls available best total a k.

Definition search_placement (hp : heap) (o : Output) (flags crtc_index : Z) (a : Allocator) (k : kernel)
    : option (PlaneAssignment * nat * Allocator * kernel) :=
  let ls := layer_ptrs_ o in
  let a := a {{ scratch_placeable_ := filter (fun l => placeable_layer (lay hp l) = true) ls }} in
  let a := cap_to_blend_limit hp ls crtc_index a in
  if stacks_by_plane_id a crtc_index then
    '(best, a, k) ←
      place_in_plane_order dev_fd test_preparer canvas_host hp (filter (fun l => searchable hp l = true) ls)
        (available_planes a crtc_index) (bool_decide (is_Some (composition_layer_ o))) flags crtc_index a k;
    Some (best, length best, a, k)
  else search_by_zpos hp flags crtc_index ls a k.

(** The first free PRIMARY takes the composition layer. *)
Definition free_primary (crtc_index : Z) (best : PlaneAssignment) (a : Allocator) : option PlaneCapabilities :=
  List.find (fun p => bool_decide (type_ p = PRIMARY) && negb (PA.count (id p) best))
    (for_crtc_planes a crtc_index).

Definition arm_composition (o : Output) (crtc_index : Z) (composited : bool) (best : PlaneAssignment)
    (a : Allocator) (hp : heap) (req : AtomicRequest) : expected PlaneAssignment * heap * AtomicRequest :=
  match composition_layer_ o with
  | Some c =>
      if composited && negb (stacks_by_plane_id a crtc_index) then
        match free_primary crtc_index best a with
        | Some p =>
            let hp := alter (fun l => l {{ assigned_plane_ := Some (id p) }}) c hp in
            match apply_layer_to_plane a (lay hp c) (id p) req None with
            | (Unexp e, req) => (Unexp e, hp, req)
            | (Val _, req) => (Val (PA.insert_or_assign (id p) c best), hp, req)
            end
        | None => (Val best, hp, req)
        end
      else (Val best, hp, req)
  | None => (Val best, hp, req)
  end.

Definition has_scene_layers (hp : heap) (ls : list positive) : bool :=
  existsb (fun l => negb (is_composition_layer_ (lay hp l))) ls.

(** The commit half of the full search. *)
Definition commit_search (o : Output) (crtc_index : Z) (test_only committed_before : bool)
    (best : PlaneAssignment) (total : nat) (a : Allocator) (hp : heap) (req : AtomicRequest) (k : kernel)
    : result :=
  let ls := layer_ptrs_ o in
  let stack := stacked_zpos a hp best in
  let '(r, a, hp, req) := arm_loop true (renumbered stack) test_only best a hp req in
  match r with
  | Unexp e => (Unexp e, a, hp, req, k)
  | Val _ =>
      let hp := mark_composited ls hp in
      let composited := any_composited hp ls in
      let '(r, hp, req) := arm_composition o crtc_index composited best a hp req in
      match r with
      | Unexp e => (Unexp e, a, hp, req, k)
      | Val in_use =>
          let '(a, req) :=
            if (committed_before || negb (bool_decide (foreign_lit_ a = []))) && has_scene_layers hp ls
            then disable_unused_planes crtc_index in_use true test_only a req else (a, req) in
          let a := if composited then a else a {{ canvas_plane_ := None }} in
          let a := record_stack stack composited a in
          let a := a {{ previous_allocation_ := best;
                        previous_allocation_valid_ := negb (bool_decide (best = []));
                        previous_canvas_plane_ := canvas_plane_ a }} in
          (Val total, a, clean o hp, req, k)
      end
  end.

Definition full_search (o : Output) (flags crtc_index : Z) (test_only : bool) (a : Allocator) (hp : heap)
    (req : AtomicRequest) (k : kernel) : option (result * Output) :=
  let committed_before := negb (bool_decide (last_committed_ a = ∅)) in
  let o := sort_layers_by_zpos o hp in
  '(best, total, a, k) ← search_placement hp o flags crtc_index a k;
  Some (commit_search o crtc_index test_only committed_before best total a hp req k, o).

(** ** [apply] *)

(** The scan for new layers, with its break. *)
Fixpoint scan_layers (hp : heap) (prev : list positive) (ls : list positive) (composited : bool) : bool * bool :=
  match ls with
  | [] => (false, composited)
  | l :: ls' =>
      let x := lay hp l in
      if owned_by_scene x then scan_layers hp prev ls' composited
      else if negb (bool_decide (l ∈ prev)) && negb (needs_composition_ x) then (true, composited)
      else scan_layers hp prev ls' (composited || needs_composition_ x)
  end.

Fixpoint index_of (x : Z) (l : list Z) (i : nat) : option nat :=
  match l with
  | [] => None
  | y :: l' => if y =? x then Some i else index_of x l' (S i)
  end.

(** The legacy heuristic: the first index some plane is compatible with. *)
Fixpoint first_compatible (ps : list PlaneCapabilities) (idx : Z) (count : nat) : option Z :=
  match count with
  | O => None
  | S count' =>
      if existsb (fun p => compatible_with_crtc p idx) ps then Some idx
      else first_compatible ps (idx + 1) count'
  end.

Definition resolve_crtc_index (target_crtc : Z) (a : Allocator) : Allocator :=
  if bool_decide (is_Some (cached_crtc_index_ a)) && (cached_crtc_index_id_ a =? target_crtc) then a
  else
    let found := crtcs ← drmModeGetResources_crtcs; Z.of_nat <$> index_of target_crtc crtcs 0 in
    let idx := match found with
               | Some i => i
               | None => value_or 0 (first_compatible (all_planes a) 0 32)
               end in
    a {{ cached_crtc_index_ := Some idx; cached_crtc_index_id_ := target_crtc }}.

Definition is_fb_only_frame (hp : heap) (a : Allocator) : bool :=
  negb (bool_decide (previous_allocation_ a = [])) &&
  forallb (fun e : Z * positive =>
    bool_decide (e.2 ∈ scratch_current_set_ a) &&
    match last_committed_ a !! e.1 with
    | None => false
    | Some lc => bool_decide (lc_layer lc = Some e.2) && (lc_hash lc =? compute_hash (lay hp e.2))
    end) (previous_allocation_ a).

(** What is recomputed at the top of every [apply]; the result says whether a
    full search is forced. *)
Definition begin_frame (o : Output) (external_reserved : list Z) (test_only : bool) (a : Allocator) (hp : heap)
    : bool * Allocator * heap :=
  let ls := layer_ptrs_ o in
  let a := a {{ test_commits_this_frame_ := 0%nat; diagnostics_ := no_diagnostics;
                external_reserved_ := external_reserved; canvas_plane_ := None }} in
  let '(has_new_layer, composited) :=
    if previous_allocation_valid_ a then scan_layers hp (previous_allocation_ a).*2 ls false
    else (false, false) in
  let shrank := (length ls <? committed_layer_count_ a)%nat in
  let a := if test_only then a else a {{ committed_layer_count_ := length ls }} in
  let force_search := has_new_layer || (shrank && composited) in
  let hp := reset_layers ls hp in
  let a := a {{ scratch_current_set_ := remove_dups ls }} in
  let a := resolve_crtc_index (crtc_id_ o) a in
  let a := if bool_decide (last_committed_ a = ∅) && negb (bool_decide (ls = []))
           then read_foreign_lit drmModeGetPlane_state (value_or 0 (cached_crtc_index_ a)) (crtc_id_ o) a else a in
  (force_search, a, hp).

(** A result that ends [apply]: success, or the loss of DRM master. *)
Definition final_result (r : expected nat) : bool :=
  match r with Val _ => true | Unexp e => bool_decide (e = EACCES) end.

Definition unreserve (a : Allocator) : Allocator := a {{ external_reserved_ := [] }}.

Definition finish (r : result) (o : Output) : result * Output :=
  let '(res, a, hp, req, k) := r in
  ((res, unreserve a, (if has_value res then clean o hp else hp), req, k), o).

(** The three attempts after the frame is set up. *)
Definition warm_then_search (o : Output) (flags crtc_index : Z) (test_only force_search : bool)
    (a : Allocator) (hp : heap) (req : AtomicRequest) (k : kernel) : option (result * Output) :=
  let search a hp req k :=
    '(r, o) ← full_search o flags crtc_index test_only a hp req k;
    let '(res, a, hp, req, k) := r : result in Some ((res, unreserve a, hp, req, k), o) in
  let warm a hp req k :=
    if previous_allocation_valid_ a && negb force_search then
      let '(res, a, hp, req, k) := apply_previous_allocation o flags crtc_index test_only false a hp req k in
      if final_result res then Some (finish (res, a, hp, req, k) o) else search a hp req k
    else search a hp req k in
  if negb (default false (any_layer_dirty o hp)) && previous_allocation_valid_ a && negb force_search then
    let '(res, a, hp, req, k) := apply_previous_allocation o flags crtc_index test_only false a hp req k in
    if final_result res then Some ((res, unreserve a, hp, req, k), o) else warm a hp req k
  else warm a hp req k.

Definition apply (o : Output) (commit_flags : Z) (external_reserved : list Z) (test_only : bool)
    (a : Allocator) (hp : heap) (req : AtomicRequest) (k : kernel) : option (result * Output) :=
  let '(force_search, a, hp) := begin_frame o external_reserved test_only a hp in
  let crtc_index := value_or 0 (cached_crtc_index_ a) in
  if negb test_only && previous_allocation_valid_ a && negb force_search && is_fb_only_frame hp a then
    let '(res, a, hp, req, k) := apply_previous_allocation o commit_flags crtc_index false true a hp req k in
    match res with
    | Val n =>
        Some (finish (Val n, a {{ diagnostics_ ::= fun d => d {{ fb_delta_fast_path := true }} }}, hp, req, k) o)
    | Unexp e =>
        if decide (e = EACCES) then Some ((Unexp e, unreserve a, hp, req, k), o)
        else warm_then_search o commit_flags crtc_index test_only force_search a hp req k
    end
  else warm_then_search o commit_flags crtc_index test_only force_search a hp req k.
End Frame.
