(* ===== verification/Frames.v ===== *)
(** Theorems on a whole frame: what [apply] ([Allocator.v]) does to the kernel,
    to the allocator's snapshots and to the layers. *)
From S2P Require Import Prelude DrmAbi FormatMod Multirect PlaneRegistry PropertyStore ZposOrder Layer Output.
From S2P Require Import LayerGroups Assignment Scoring AllocState Canvas Atomic Writes PlaneOrder Search.
From S2P Require Import Allocator.

Section Frames.
Context `{abi : DrmAbi} `{cpp : CppStd} `{lib : Libdrm}.

(** ** The writes change the snapshots, the foreign planes and the counters *)

Definition same_but_writes (a a' : Allocator) : Prop :=
  a' = a {{ last_committed_ := last_committed_ a'; foreign_lit_ := foreign_lit_ a';
            diagnostics_ := diagnostics_ a' }}.

(** ... and the snapshots only when it is for real. *)
Definition written (test_only : bool) (a a' : Allocator) : Prop :=
  same_but_writes a a' /\ (test_only = true -> last_committed_ a' = last_committed_ a).

Lemma written_refl t a : written t a a.
Proof. split; [unfold same_but_writes; by destruct a | done]. Qed.

Lemma written_trans t a b c : written t a b -> written t b c -> written t a c.
Proof.
  unfold written, same_but_writes. intros [H1 H2] [H3 H4]. split; [|intros Ht; rewrite H4, H2 by done; done].
  rewrite H3, H1. reflexivity.
Qed.

Lemma written_count t b a : written t a (count_written b a).
Proof. by split. Qed.

Lemma write_zero_written t pid name ts b a req : written t a (write_zero pid name ts b a req).1.
Proof.
  unfold write_zero. destruct (property_id _ _ _); [|apply written_refl].
  destruct (add_property _ _ _ _) as [r req']. simpl. destruct (_ && ts); [apply written_count | apply written_refl].
Qed.

Lemma disable_loop_written t keep planes a req : written t a (disable_loop keep true t planes a req).1.
Proof.
  revert a req. induction planes as [|p planes IH]; intros a req; cbn [disable_loop]; [apply written_refl|].
  destruct (spared a keep p); [apply IH|]. destruct (_ && _ && _); [apply IH|]. unfold disable_plane.
  pose proof (write_zero_written t (id p) "FB_ID" true true a req) as H1.
  destruct (write_zero (id p) "FB_ID" _ _ a req) as [a1 r1].
  pose proof (write_zero_written t (id p) "CRTC_ID" true false a1 r1) as H2.
  destruct (write_zero (id p) "CRTC_ID" _ _ a1 r1) as [a2 r2]. cbn [fst] in *. cbn [andb].
  assert (H12 := written_trans _ _ _ _ H1 H2). destruct t; cbn [negb].
  - by eapply written_trans.
  - eapply written_trans; [exact H12|]. eapply written_trans; [|apply IH]. by split.
Qed.

Lemma reset_on_arm_written t pid ps a req : written t a (reset_on_arm pid ps a req).1.2.
Proof.
  revert a req. induction ps as [|p ps IH]; intros a req; cbn [reset_on_arm]; [apply written_refl|].
  destruct (add_property _ _ _ _) as [[u|e] req']; [|apply written_refl].
  eapply written_trans; [apply written_count | apply IH].
Qed.

Lemma real_loop_written t layer pid zpos snap tags a req : written t a (real_loop layer pid zpos snap tags a req).1.2.
Proof.
  revert a req. induction tags as [|tag tags IH]; intros a req; cbn [real_loop]; [apply written_refl|].
  destruct (negb (test _ _)); [apply IH|]. cbv zeta. destruct (writable _ _ _); [|apply IH].
  destruct (externally_bound_ _ && _); [apply IH|]. destruct (negb (need_write _ _ _)); [apply IH|].
  destruct (add_property _ _ _ _) as [[u|e] req']; [|apply written_refl].
  eapply written_trans; [apply written_count | apply IH].
Qed.

Lemma apply_real_written t hp lp pid zpos a req :
  written t a (apply_layer_to_plane_real hp lp pid t zpos a req).1.2.
Proof.
  unfold apply_layer_to_plane_real. cbv zeta.
  assert (H1 : written t a (match diff_base a lp pid with
    | None => reset_on_arm pid (reset_props a pid) a req | Some _ => (Val tt, a, req) end).1.2).
  { destruct (diff_base a lp pid); [apply written_refl | apply reset_on_arm_written]. }
  destruct (match diff_base a lp pid with Some _ => _ | None => _ end) as [[[u|e] a1] r1]; [|exact H1].
  pose proof (real_loop_written t (lay hp lp) pid zpos (diff_base a lp pid) all_tags a1 r1) as H2.
  destruct (real_loop _ _ _ _ _ _ _) as [[[u2|e2] a2] r2]; [|by eapply written_trans].
  eapply written_trans; [exact H1|]. eapply written_trans; [exact H2|].
  destruct t; [apply written_refl | by split].
Qed.

Definition place_all (es : PlaneAssignment) (hp : heap) : heap :=
  foldl (fun hp (e : Z * positive) => place_layer e.1 e.2 hp) hp es.

Lemma arm_loop_written t before stack es a hp req :
  let '(r, a', hp', req') := arm_loop before stack t es a hp req in
  written t a a' /\ (has_value r = true -> hp' = place_all es hp).
Proof.
  revert a hp req. induction es as [|[pid lp] es IH]; intros a hp req; cbn [arm_loop].
  { split; [apply written_refl | done]. }
  cbv zeta. set (hp1 := if before then place_layer pid lp hp else hp).
  pose proof (apply_real_written t hp1 lp pid (zpos_in stack pid) a req) as H1.
  destruct (apply_layer_to_plane_real _ _ _ _ _ _ _) as [[[u|e] a1] r1]; cbn [fst snd] in H1; [|done].
  replace (if before then hp1 else place_layer pid lp hp1) with (place_layer pid lp hp) by by destruct before.
  specialize (IH a1 (place_layer pid lp hp) r1). destruct (arm_loop _ _ _ _ a1 _ r1) as [[[r a2] hp2] r2].
  destruct IH as [H2 Hh]. split; [by eapply written_trans | exact Hh].
Qed.

(** ** The TESTs of a frame *)

Record spent (a : Allocator) (k : kernel) (a' : Allocator) (k' : kernel) : Prop := {
  spent_tests : exists n, probed n k k' /\
    test_commits_this_frame_ a' = (n + test_commits_this_frame_ a)%nat;
  spent_budget :
    (test_commits_this_frame_ a' <= Nat.max (test_commits_this_frame_ a) (max_test_commits_ a))%nat;
  spent_max : max_test_commits_ a' = max_test_commits_ a
}.

Lemma searched_spent a k a' k' : searched a k a' k' -> spent a k a' k'.
Proof.
  intros [(n & Hn & Ht & _) Hb Hs]. split; [by exists n | done | by rewrite Hs].
Qed.

Lemma spent_quiet a a' k :
  test_commits_this_frame_ a' = test_commits_this_frame_ a -> max_test_commits_ a' = max_test_commits_ a ->
  spent a k a' k.
Proof. intros Ht Hm. split; [exists 0%nat; split; [constructor | lia] | lia | done]. Qed.

Lemma spent_trans a k b k' c k'' : spent a k b k' -> spent b k' c k'' -> spent a k c k''.
Proof.
  intros [(n & Hn & Hnt) Hb Hm] [(m & Hp & Hmt) Hb' Hm']. split.
  - exists (n + m)%nat. split; [by eapply probed_trans | lia].
  - lia.
  - congruence.
Qed.

Lemma written_spent t a a' k : written t a a' -> spent a k a' k.
Proof. intros [H _]. apply spent_quiet; by rewrite H. Qed.

(** ** What a search may assign *)

Record assigned_ok (hp : heap) (c : Z) (ls : list positive) (ps : list PlaneCapabilities)
    (asg : PlaneAssignment) : Prop := {
  ao_planes : NoDup asg.*1;
  ao_layers : NoDup asg.*2;
  ao_pairs : forall p l, (p, l) ∈ asg -> l ∈ ls /\
    exists plane, plane ∈ ps /\ id plane = p /\ plane_statically_compatible plane (lay hp l) c = true
}.

Lemma placement_assigned a hp c ls ls' ps asg :
  (forall l, l ∈ ls -> l ∈ ls') -> placement_ok a hp c ls ps asg -> assigned_ok hp c ls' ps asg.
Proof. intros Hsub [H1 H2 H3 _ _]. split; [done..|]. intros p l Hin. destruct (H3 p l Hin). auto. Qed.

Lemma assigned_sublist hp c ls ps asg asg' :
  asg `sublist_of` asg' -> assigned_ok hp c ls ps asg' -> assigned_ok hp c ls ps asg.
Proof.
  intros Hs [H1 H2 H3]. split.
  - eapply sublist_NoDup; [exact H1 | by apply fmap_sublist].
  - eapply sublist_NoDup; [exact H2 | by apply fmap_sublist].
  - intros p l Hin. apply H3. by eapply elem_of_sublist.
Qed.

Lemma assigned_nil hp c ls ps : assigned_ok hp c ls ps [].
Proof. split; [apply NoDup_nil_2 | apply NoDup_nil_2 | by intros p l ?%not_elem_of_nil]. Qed.

Lemma insert_all_fresh (asg best : PlaneAssignment) :
  NoDup (best.*1 ++ asg.*1) ->
  foldl (fun b (e : Z * positive) => PA.insert_or_assign e.1 e.2 b) best asg = best ++ asg.
Proof.
  revert best. induction asg as [|[p l] asg IH]; intros best Hnd; [by rewrite app_nil_r|].
  cbn [foldl fst snd]. csimpl in Hnd. rewrite PA.insert_fresh.
  - rewrite IH; [by rewrite <- app_assoc|]. rewrite fmap_app. csimpl. by rewrite <- app_assoc.
  - apply NoDup_app in Hnd as (_ & Hdis & _). intros Hin. apply (Hdis _ Hin), list_elem_of_here.
Qed.

Context (dev_fd : Z).
Context (test_preparer : option (AtomicRequest -> Z -> expected unit * AtomicRequest)).
Context (canvas_host : option (PlaneCapabilities -> bool)).

(** The planes of the registry have distinct ids, and no virtual plane is the
    parent of another: what [PlaneRegistry::enumerate] reads from the kernel. *)
Definition planes_ok (a : Allocator) : Prop :=
  distinct_planes a /\ flat_multirect a /\ (forall c, NoDup (id <$> for_crtc_planes a c)).

Lemma planes_ok_registry a a' : registry_ a' = registry_ a -> planes_ok a -> planes_ok a'.
Proof.
  intros Hr. unfold planes_ok, distinct_planes, flat_multirect, caps_of, all_planes, for_crtc_planes.
  by rewrite Hr.
Qed.

Lemma searched_planes a k a' k' : searched a k a' k' -> planes_ok a -> planes_ok a'.
Proof. intros [_ _ Hs]. apply planes_ok_registry. by rewrite Hs. Qed.

Lemma available_nodup a c : planes_ok a -> NoDup (id <$> available_planes a c).
Proof.
  intros (_ & _ & Hv). eapply sublist_NoDup; [exact (Hv c)|]. apply fmap_sublist, sublist_filter.
Qed.

(** One more group. *)
Lemma assigned_join a hp c ls group ps available best asg :
  assigned_ok hp c ls ps best -> placement_ok a hp c group available asg ->
  (forall l, l ∈ group -> l ∈ ls /\ l ∉ best.*2) ->
  (forall p, p ∈ available -> p ∈ ps /\ id p ∉ best.*1) ->
  NoDup (best.*1 ++ asg.*1) /\ assigned_ok hp c ls ps (best ++ asg).
Proof.
  intros [H1 H2 H3] [G1 G2 G3 _ _] Hg Hp.
  assert (Hk : NoDup (best.*1 ++ asg.*1)).
  { apply NoDup_app. split_and!; [done | | done]. intros p Hb ((p' & l) & -> & Hin)%list_elem_of_fmap.
    destruct (G3 p' l Hin) as (_ & plane & Hpl & <- & _). by destruct (Hp plane Hpl). }
  split; [done|]. split; [by rewrite fmap_app | |].
  - rewrite fmap_app. apply NoDup_app. split_and!; [done | | done].
    intros l Hb ((p & l') & -> & Hin)%list_elem_of_fmap. destruct (G3 p l' Hin) as [Hl _]. by destruct (Hg l' Hl).
  - intros p l [Hin|Hin]%elem_of_app; [by apply H3|]. destruct (G3 p l Hin) as (Hl & plane & Hpl & Hid & Hc).
    split; [by apply Hg|]. exists plane. split_and!; [by apply Hp | done..].
Qed.

Lemma group_loop_ok hp flags c ls ps groups available best a k :
  NoDup (mjoin groups) -> NoDup (id <$> available) -> planes_ok a -> assigned_ok hp c ls ps best ->
  (forall l, l ∈ mjoin groups -> l ∈ ls /\ l ∉ best.*2) ->
  (forall p, p ∈ available -> p ∈ ps /\ id p ∉ best.*1) ->
  let '(best', total', a', k') :=
    group_loop dev_fd test_preparer hp flags c groups available best (length best) a k in
  searched a k a' k' /\ assigned_ok hp c ls ps best' /\ total' = length best'.
Proof.
  revert available best a k.
  induction groups as [|g groups IH]; intros available best a k Hnd Hav Hpl Hb Hg Hp; cbn [group_loop].
  { split_and!; [apply searched_refl | done | done]. }
  csimpl in Hnd. apply NoDup_app in Hnd as (Hndg & Hdis & Hnd).
  pose proof (place_group_ok dev_fd test_preparer hp g available flags c a k Hndg Hav
    (proj1 Hpl) (proj1 (proj2 Hpl))) as Hok.
  destruct (place_group _ _ _ _ _ _ _ a k) as [[asg a1] k1]. destruct Hok as (Hs & Hok & _).
  destruct (assigned_join a1 hp c ls g ps available best asg Hb Hok) as [Hk Hb'].
  { intros l Hl. apply Hg, elem_of_app. by left. } { exact Hp. }
  cbv zeta. rewrite insert_all_fresh by done. rewrite <- length_app.
  specialize (IH (filter (fun p => PA.count (id p) asg = false) available) (best ++ asg) a1 k1).
  destruct (group_loop _ _ _ _ _ groups _ _ _ a1 k1) as [[[best' total'] a2] k2].
  destruct IH as (Hs2 & Ho2 & Ht2).
  - done.
  - eapply sublist_NoDup; [exact Hav | apply fmap_sublist, sublist_filter].
  - by eapply searched_planes.
  - done.
  - intros l Hl. destruct (Hg l) as [Hls Hlb]; [apply elem_of_app; by right|]. split; [done|].
    rewrite fmap_app, elem_of_app. intros [?|((p & l') & -> & Hin)%list_elem_of_fmap]; [done|].
    destruct (po_pairs _ _ _ _ _ _ Hok p l' Hin) as [Hl' _]. by apply (Hdis l').
  - intros p [Hc Hin]%list_elem_of_filter. destruct (Hp p Hin) as [Hps Hpb]. split; [done|].
    rewrite fmap_app, elem_of_app. intros [?|Hk']; [done|]. apply PA.count_true in Hk'. congruence.
  - split_and!; [by eapply searched_trans | done | done].
Qed.

Lemma erase_first_sublist x l : erase_first x l `sublist_of` l.
Proof.
  induction l as [|y l IH]; [done|]. cbn [erase_first]. case_decide; [by apply sublist_cons|].
  by apply sublist_skip.
Qed.

Lemma erase_first_length x l : x ∈ l -> S (length (erase_first x l)) = length l.
Proof.
  induction l as [|y l IH]; [by intros ?%not_elem_of_nil|]. cbn [erase_first].
  case_decide as Hd; [done|]. intros [Heq|Hx]%elem_of_cons; [congruence|]. simpl. by rewrite IH.
Qed.

Lemma victim_elem hp ls ps c l : pick_most_constrained hp ls ps c = Some l -> l ∈ ls.
Proof.
  unfold pick_most_constrained. intros H.
  destruct (pick_loop_spec hp ls ps c None SIZE_MAX INT_MAX) as [[Hn _]|(pre & x & post & Hr & -> & _)].
  - done.
  - congruence.
  - rewrite H in Hr. injection Hr as ->. rewrite elem_of_app, elem_of_cons. tauto.
Qed.

Lemma fallback_loop_ok fuel hp flags c placeable ps a k :
  (length placeable < fuel)%nat -> NoDup placeable -> NoDup (id <$> ps) -> planes_ok a ->
  exists out a' k', fallback_loop dev_fd test_preparer fuel hp flags c placeable ps a k = Some (out, a', k') /\
    searched a k a' k' /\ assigned_ok hp c placeable ps out.
Proof.
  revert placeable a k. induction fuel as [|fuel IH]; intros placeable a k Hf Hnd Hps Hpl; [lia|].
  cbn [fallback_loop]. destruct (bool_decide _ || _).
  { exists [], a, k. split_and!; [done | apply searched_refl | apply assigned_nil]. }
  pose proof (place_group_ok dev_fd test_preparer hp placeable ps flags c a k Hnd Hps
    (proj1 Hpl) (proj1 (proj2 Hpl))) as Hok.
  destruct (place_group _ _ _ _ _ _ _ a k) as [[asg a1] k1]. destruct Hok as (Hs & Hok & _).
  destruct (negb _).
  { exists asg, a1, k1. split_and!; [done | done | by eapply placement_assigned]. }
  destruct (pick_most_constrained hp placeable ps c) as [victim|] eqn:Hv.
  2: { exists [], a1, k1. split_and!; [done | done | apply assigned_nil]. }
  apply victim_elem in Hv. pose proof (erase_first_length _ _ Hv).
  destruct (IH (erase_first victim placeable) a1 k1) as (out & a2 & k2 & -> & Hs2 & Ho2).
  - lia.
  - eapply sublist_NoDup; [exact Hnd | apply erase_first_sublist].
  - done.
  - by eapply searched_planes.
  - exists out, a2, k2. split_and!; [done | by eapply searched_trans |]. destruct Ho2 as [H1 H2 H3].
    split; [done..|]. intros p l Hin. destruct (H3 p l Hin) as [Hl Hrest]. split; [|done].
    eapply elem_of_sublist; [exact Hl | apply erase_first_sublist].
Qed.

Lemma settle_canvas_ok hp flags c ls ps best total a k :
  NoDup ls -> NoDup (id <$> ps) -> planes_ok a -> assigned_ok hp c ls ps best -> total = length best ->
  exists out a' k',
    settle_canvas dev_fd test_preparer hp flags c ls ps best total a k = Some (out, length out, a', k') /\
    searched a k a' k' /\ assigned_ok hp c ls ps out.
Proof.
  intros Hls Hps Hpl Hb ->. unfold settle_canvas.
  destruct (feasible _); [exists best, a, k; by split_and!; [|apply searched_refl|]|].
  pose proof (place_around_run_ok dev_fd test_preparer hp ls (length best) ps flags c a k Hls Hps
    (proj1 Hpl) (proj1 (proj2 Hpl))) as Hrun.
  destruct (place_around_run _ _ _ _ _ _ _ _ a k) as [[[asg|] a1] k1]; destruct Hrun as [Hs Hr].
  { exists asg, a1, k1. destruct (Hr asg eq_refl) as (_ & Hok & _). split_and!; [done | done |].
    eapply placement_assigned; [|exact Hok]. by intros l [_ ?]%list_elem_of_filter. }
  unfold resolve_canvas_bounds.
  destruct (resolve_loop_spec (fun _ => True) (S (length best)) a1 hp best) as (ok & out & -> & _ & Hsub & _);
    [lia | done | done |]. cbn [mbind option_bind].
  assert (Ho := assigned_sublist _ _ _ _ _ _ Hsub Hb).
  destruct (negb ok); [by exists best, a1, k1|].
  destruct (bool_decide _); [by exists out, a1, k1|].
  destruct (_ <=? _)%nat; [by exists best, a1, k1|].
  pose proof (try_test_commit_searched dev_fd test_preparer hp out flags c a1 k1) as Ht.
  destruct (try_test_commit _ _ _ _ _ _ a1 k1) as [[r a2] k2]. cbv zeta.
  eexists (if passed_test r then out else best), a2, k2.
  split_and!; [done | by eapply searched_trans | by destruct (passed_test r)].
Qed.

Lemma cap_frame hp ls c a :
  exists ov pl, cap_to_blend_limit hp ls c a = a {{ scratch_over_limit_ := ov; scratch_placeable_ := pl }} /\
    pl `sublist_of` scratch_placeable_ a.
Proof.
  unfold cap_to_blend_limit. cbv zeta.
  assert (H0 : exists ov pl, a {{ scratch_over_limit_ := [] }} =
    a {{ scratch_over_limit_ := ov; scratch_placeable_ := pl }} /\ pl `sublist_of` scratch_placeable_ a).
  { exists [], (scratch_placeable_ a). by destruct a. }
  destruct (blend_limit _ _) as [limit|]; [|done]. destruct (stacks_by_plane_id _ _); [done|].
  destruct (blend_held _ _ _ _) as [held composites]. destruct (_ <=? _)%nat; [done|].
  match goal with |- context [drop ?n ?r] =>
    exists (drop n r), (filter (fun l => l ∉ drop n r) (scratch_placeable_ a)) end.
  split; [by destruct a | apply sublist_filter].
Qed.

Lemma search_by_zpos_ok hp flags c ls a k :
  NoDup ls -> scratch_placeable_ a `sublist_of` ls -> planes_ok a ->
  exists out a' k',
    search_by_zpos dev_fd test_preparer hp flags c ls a k = Some (out, length out, a', k') /\
    searched a k a' k' /\ assigned_ok hp c ls (available_planes a c) out.
Proof.
  intros Hls Hsub Hpl. unfold search_by_zpos.
  destruct (split_groups_perm hp (scratch_placeable_ a)) as (groups & -> & Hperm). cbn [mbind option_bind].
  cbv zeta. assert (Hav := available_nodup a c Hpl).
  pose proof (group_loop_ok hp flags c ls (available_planes a c) groups (available_planes a c) [] a k) as Hg.
  destruct (group_loop _ _ _ _ _ groups _ _ _ a k) as [[[best total] a1] k1].
  destruct Hg as (Hs & Hb & Ht).
  { rewrite Hperm. by eapply sublist_NoDup. } { done. } { done. } { apply assigned_nil. }
  { intros l. rewrite Hperm. intros Hl. split; [by eapply elem_of_sublist | apply not_elem_of_nil]. }
  { intros p Hp. split; [done | apply not_elem_of_nil]. }
  assert (Hpl1 := searched_planes _ _ _ _ Hs Hpl).
  assert (Hmid : exists best2 a2 k2, (if (total =? 0)%nat then
       '(attempt, a, k) ← fallback_loop dev_fd test_preparer (S (length (fallback_layers hp a1 ls))) hp flags c
          (fallback_layers hp a1 ls) (available_planes a c) a1 k1;
       Some (if bool_decide (attempt = []) then (best, total) else (attempt, length attempt), a, k)
     else Some (best, total, a1, k1)) = Some (best2, length best2, a2, k2) /\
     searched a1 k1 a2 k2 /\ assigned_ok hp c ls (available_planes a c) best2).
  { destruct (total =? 0)%nat; [|exists best, a1, k1; rewrite Ht; by split_and!; [|apply searched_refl|]].
    destruct (fallback_loop_ok (S (length (fallback_layers hp a1 ls))) hp flags c (fallback_layers hp a1 ls)
      (available_planes a c) a1 k1) as (att & a2 & k2 & -> & Hs2 & Ho2);
      [lia | by apply NoDup_filter | done | done |].
    cbn [mbind option_bind]. exists (if bool_decide (att = []) then best else att), a2, k2.
    split_and!; [by case_bool_decide; rewrite ?Ht | done |]. case_bool_decide; [done|].
    destruct Ho2 as [H1 H2 H3]. split; [done..|]. intros p l Hin. destruct (H3 p l Hin) as [Hl Hr].
    split; [by apply list_elem_of_filter in Hl as [_ ?] | done]. }
  destruct Hmid as (best2 & a2 & k2 & -> & Hs2 & Hb2). cbn [mbind option_bind].
  destruct (settle_canvas_ok hp flags c ls (available_planes a c) best2 (length best2) a2 k2)
    as (out & a3 & k3 & -> & Hs3 & Ho3); [done | done | by eapply searched_planes | done | done |].
  exists out, a3, k3. split_and!; [done | | done]. eapply searched_trans; [exact Hs|]. by eapply searched_trans.
Qed.

Definition same_but_search (a a' : Allocator) : Prop :=
  a' = a {{ failure_cache_ := failure_cache_ a'; probe_cache_ := probe_cache_ a';
            test_commits_this_frame_ := test_commits_this_frame_ a'; diagnostics_ := diagnostics_ a';
            canvas_plane_ := canvas_plane_ a'; scratch_over_limit_ := scratch_over_limit_ a';
            scratch_placeable_ := scratch_placeable_ a' }}.

Lemma searched_after_scratch a k ov pl a' k' :
  searched (a {{ scratch_over_limit_ := ov; scratch_placeable_ := pl }}) k a' k' ->
  spent a k a' k' /\ same_but_search a a'.
Proof.
  intros Hs. split.
  - eapply spent_trans; [|by apply searched_spent]. by apply spent_quiet.
  - destruct Hs as [_ _ Hs]. unfold same_but_search, same_but_caches in *. rewrite Hs. reflexivity.
Qed.

Lemma order_placed_assigned a hp flags c ls with_canvas ps out a' k' :
  order_placed dev_fd test_preparer hp flags c ls with_canvas (fits_at a hp c (stacking_planes ps))
    (stacking_planes ps) out a' k' -> assigned_ok hp c ls ps out.
Proof.
  intros [->|[_ [H1 H2 H3 _]]]; [apply assigned_nil|]. split; [done..|].
  intros p l Hin. destruct (H3 p l Hin) as (Hl & _ & j & plane & Hj & Hid & Hfit). split; [done|].
  exists plane. split_and!; [|done|].
  - apply list_elem_of_lookup_2 in Hj. unfold stacking_planes in Hj. rewrite std_sort_perm in Hj.
    by apply list_elem_of_filter in Hj as [_ ?].
  - unfold fits_at in Hfit. rewrite Hj in Hfit. unfold fits_plane in Hfit.
    destruct (negb (plane_statically_compatible plane (lay hp l) c) || _) eqn:E; [done|]. by bool_simpl.
Qed.

Lemma search_placement_ok hp o flags c a k :
  NoDup (layer_ptrs_ o) -> planes_ok a ->
  exists out a' k',
    search_placement dev_fd test_preparer canvas_host hp o flags c a k = Some (out, length out, a', k') /\
    spent a k a' k' /\ same_but_search a a' /\
    assigned_ok hp c (layer_ptrs_ o) (available_planes a c) out.
Proof.
  intros Hls Hpl. unfold search_placement. cbv zeta. set (ls := layer_ptrs_ o) in *.
  set (pl0 := filter (fun l => placeable_layer (lay hp l) = true) ls).
  destruct (cap_frame hp ls c (a {{ scratch_placeable_ := pl0 }})) as (ov & pl & -> & Hsub).
  change (a {{ scratch_placeable_ := pl0; scratch_over_limit_ := ov; scratch_placeable_ := pl }})
    with (a {{ scratch_over_limit_ := ov; scratch_placeable_ := pl }}).
  set (a0 := a {{ scratch_over_limit_ := ov; scratch_placeable_ := pl }}).
  assert (Hpl0 : planes_ok a0) by exact Hpl.
  change (scratch_placeable_ (a {{ scratch_placeable_ := pl0 }})) with pl0 in Hsub.
  destruct (stacks_by_plane_id a0 c).
  - destruct (place_in_plane_order_ok dev_fd test_preparer canvas_host hp
      (filter (fun l => searchable hp l = true) ls) (available_planes a0 c)
      (bool_decide (is_Some (composition_layer_ o))) flags c a0 k) as (out & a1 & k1 & -> & Hs & Ho).
    { by apply NoDup_filter. } { by apply available_nodup. }
    cbn [mbind option_bind]. apply order_placed_assigned in Ho as [H1 H2 H3].
    destruct (searched_after_scratch _ _ _ _ _ _ Hs) as [Hsp Hsame].
    exists out, a1, k1. split_and!; [done..|]. split; [done..|]. intros p l Hin.
    destruct (H3 p l Hin) as [Hl Hr]. split; [by apply list_elem_of_filter in Hl as [_ ?] | exact Hr].
  - destruct (search_by_zpos_ok hp flags c ls a0 k) as (out & a1 & k1 & -> & Hs & Ho); [done | | done |].
    { change (scratch_placeable_ a0) with pl. etrans; [exact Hsub | apply sublist_filter]. }
    destruct (searched_after_scratch _ _ _ _ _ _ Hs) as [Hsp Hsame]. exists out, a1, k1. by split_and!.
Qed.

(** The warm-start allocation is a one-to-one assignment. *)
Definition prev_ok (a : Allocator) : Prop :=
  NoDup (previous_allocation_ a).*1 /\ NoDup (previous_allocation_ a).*2.

Lemma prev_ok_sublist a a' : previous_allocation_ a' `sublist_of` previous_allocation_ a -> prev_ok a -> prev_ok a'.
Proof.
  intros Hs [H1 H2]. split; [eapply sublist_NoDup; [exact H1|] | eapply sublist_NoDup; [exact H2|]];
    by apply fmap_sublist.
Qed.

(** ** One stage of a frame *)

Record stage (t : bool) (a : Allocator) (k : kernel) (a' : Allocator) (k' : kernel) : Prop := {
  stage_spent : spent a k a' k';
  stage_snapshots : t = true -> last_committed_ a' = last_committed_ a;
  stage_registry : registry_ a' = registry_ a;
  stage_reserved : external_reserved_ a' = external_reserved_ a
}.

Lemma stage_trans t a k b k' c k'' : stage t a k b k' -> stage t b k' c k'' -> stage t a k c k''.
Proof.
  intros [H1 H2 H3 H4] [G1 G2 G3 G4]. split; [by eapply spent_trans | | congruence..].
  intros Ht. rewrite G2, H2; done.
Qed.

Lemma stage_quiet t a a' k :
  test_commits_this_frame_ a' = test_commits_this_frame_ a -> max_test_commits_ a' = max_test_commits_ a ->
  last_committed_ a' = last_committed_ a -> registry_ a' = registry_ a ->
  external_reserved_ a' = external_reserved_ a -> stage t a k a' k.
Proof. intros. split; [by apply spent_quiet | done..]. Qed.

Lemma stage_searched t a k a' k' : searched a k a' k' -> stage t a k a' k'.
Proof. intros Hs. split; [by apply searched_spent | intros _ | |]; destruct Hs as [_ _ ->]; done. Qed.

Lemma stage_written t a a' k : written t a a' -> stage t a k a' k.
Proof.
  intros Hw. split; [by eapply written_spent | by destruct Hw | |]; destruct Hw as [-> _]; done.
Qed.

Lemma stage_found t a k a' k' : spent a k a' k' -> same_but_search a a' -> stage t a k a' k'.
Proof. intros Hs Hf. split; [done | intros _ | |]; by rewrite Hf. Qed.

Lemma disable_written t c keep a req : written t a (disable_unused_planes c keep true t a req).1.
Proof. apply disable_loop_written. Qed.

Lemma commit_previous_stage o c t a hp req k :
  let '(res, a', hp', req', k') := commit_previous o c t a hp req k in
  stage t a k a' k' /\ k' = k /\ test_commits_this_frame_ a' = test_commits_this_frame_ a /\
  previous_allocation_ a' = previous_allocation_ a /\
  previous_allocation_valid_ a' = previous_allocation_valid_ a /\
  (forall n, res = Val n -> n = length (previous_allocation_ a) /\
     hp' = clean o (mark_composited (layer_ptrs_ o) (place_all (previous_allocation_ a) hp))).
Proof.
  unfold commit_previous. cbv zeta.
  pose proof (disable_written t c (previous_allocation_ a) a req) as H1.
  destruct (disable_unused_planes _ _ _ _ a req) as [a1 r1]. cbn [fst] in H1.
  pose proof (arm_loop_written t false (renumbered (stacked_zpos a1 hp (previous_allocation_ a)))
    (previous_allocation_ a) a1 hp r1) as H2.
  destruct (arm_loop _ _ _ _ a1 hp r1) as [[[res a2] hp2] r2]. destruct H2 as [H2 Hhp].
  assert (H12 := written_trans _ _ _ _ H1 H2). assert (Hst := stage_written t a a2 k H12).
  destruct H12 as [Heq _].
  destruct res as [u|e]; [|split_and!; [done | done | by rewrite Heq.. | done]].
  rewrite (Hhp eq_refl). split_and!.
  - eapply stage_trans; [exact Hst|]. destruct (stacks_by_plane_id a2 c); by apply stage_quiet.
  - done.
  - transitivity (test_commits_this_frame_ a2); [|by rewrite Heq]. by destruct (stacks_by_plane_id a2 c).
  - transitivity (previous_allocation_ a2); [|by rewrite Heq]. by destruct (stacks_by_plane_id a2 c).
  - transitivity (previous_allocation_valid_ a2); [|by rewrite Heq]. by destruct (stacks_by_plane_id a2 c).
  - by intros n [= <-].
Qed.

Lemma keep_current_sublist a : previous_allocation_ (keep_current a) `sublist_of` previous_allocation_ a.
Proof. apply erase_if_sublist. Qed.

(** What a warm start answers.  Unless it succeeds or a write failed the
    layers and the request are as they were. *)
Lemma apply_previous_stage o flags c t skip a hp req k :
  let '(res, a', hp', req', k') := apply_previous_allocation dev_fd test_preparer o flags c t skip a hp req k in
  stage t a k a' k' /\ previous_allocation_valid_ a' = previous_allocation_valid_ a /\
  previous_allocation_ a' `sublist_of` previous_allocation_ a /\
  (skip = true -> k' = k /\ test_commits_this_frame_ a' = test_commits_this_frame_ a) /\
  (forall n, res = Val n -> n = length (previous_allocation_ a') /\
     (forall p, p ∈ (previous_allocation_ a').*1 -> p ∉ external_reserved_ a) /\
     hp' = clean o (mark_composited (layer_ptrs_ o) (place_all (previous_allocation_ a') hp))).
Proof.
  unfold apply_previous_allocation. destruct (reserved_overlap a) eqn:Hres.
  { split_and!; [by apply stage_quiet | done | done | done | done]. }
  cbv zeta. set (a0 := keep_current a).
  assert (Hsub := keep_current_sublist a). fold a0 in Hsub.
  assert (H0 : stage t a k a0 k) by by apply stage_quiet.
  assert (Hfree : forall p, p ∈ (previous_allocation_ a0).*1 -> p ∉ external_reserved_ a).
  { intros p (e & -> & He)%list_elem_of_fmap Hr. apply not_true_iff_false in Hres. apply Hres.
    unfold reserved_overlap. apply existsb_exists. exists e. split; [|by apply bool_decide_eq_true].
    apply list_elem_of_In. by eapply elem_of_sublist. }
  case_bool_decide; [split_and!; done|]. destruct (negb (previous_consistent _ _ _ _)); [split_and!; done|].
  assert (H1 : let '(r, a1, k1) := if skip then (None, a0, k) else
      try_test_commit dev_fd test_preparer hp (previous_allocation_ a0) flags c a0 k in
    stage t a0 k a1 k1 /\ same_but_caches a0 a1 /\
    (skip = true -> k1 = k /\ test_commits_this_frame_ a1 = test_commits_this_frame_ a0)).
  { destruct skip; [split_and!; [by apply stage_quiet | unfold same_but_caches; by destruct a0 | done]|].
    pose proof (try_test_commit_searched dev_fd test_preparer hp (previous_allocation_ a0) flags c a0 k) as Hs.
    destruct (try_test_commit _ _ _ _ _ _ a0 k) as [[r a1] k1].
    split_and!; [by apply stage_searched | by destruct Hs | done]. }
  destruct (if skip then _ else _) as [[r a1] k1]. destruct H1 as (H1 & Hsame & Hskip).
  assert (Hst := stage_trans _ _ _ _ _ _ _ H0 H1).
  destruct r as [e|].
  { split_and!; [done | by rewrite Hsame | by rewrite Hsame | done | done]. }
  pose proof (commit_previous_stage o c t a1 hp req k1) as H2.
  destruct (commit_previous o c t a1 hp req k1) as [[[[res a2] hp2] req2] k2]. destruct H2 as (H2 & -> & Hq & Hp & Hv & Hval).
  assert (Hp0 : previous_allocation_ a1 = previous_allocation_ a0) by by rewrite Hsame.
  rewrite Hp, Hv, Hp0. split_and!.
  - by eapply stage_trans.
  - by rewrite Hsame.
  - done.
  - intros Hs. destruct (Hskip Hs) as [-> Ht]. split; [done|]. by rewrite Hq, Ht.
  - intros n Hn. destruct (Hval n Hn) as [-> ->]. rewrite Hp0. by split_and!.
Qed.

(** ** Where the layers end up *)

Lemma lay_alter f p hp l :
  lay (alter f p hp) l = if decide (l = p /\ is_Some (hp !! p)) then f (lay hp l) else lay hp l.
Proof.
  unfold lay. destruct (decide (l = p /\ is_Some (hp !! p))) as [[-> [x Hx]]|Hno].
  - by rewrite lookup_alter_eq, Hx.
  - destruct (decide (l = p)) as [->|Hne]; [|by rewrite lookup_alter_ne].
    rewrite lookup_alter_eq. destruct (hp !! p) eqn:E; [|done]. destruct Hno. by eauto.
Qed.

Lemma alive_alter {f : Layer -> Layer} {p : positive} {hp : heap} {l : positive} : is_Some (alter f p hp !! l) <-> is_Some (hp !! l).
Proof.
  destruct (decide (l = p)) as [->|Hne]; [rewrite lookup_alter_eq, fmap_is_Some | rewrite lookup_alter_ne by done]; done.
Qed.

(** The three facts of a layer a placement is about. *)
Definition slot_of (x : Layer) : option Z * bool * bool :=
  (assigned_plane_ x, needs_composition_ x, owned_by_scene x).

Definition alive (hp : heap) (ls : list positive) : Prop := forall l, l ∈ ls -> is_Some (hp !! l).

Lemma place_all_alive es hp l : is_Some (place_all es hp !! l) <-> is_Some (hp !! l).
Proof.
  revert hp. induction es as [|e es IH]; intros hp; [done|]. cbn [place_all foldl].
  fold (place_all es (place_layer e.1 e.2 hp)). rewrite IH. apply alive_alter.
Qed.

Lemma place_all_slot es hp l :
  is_Some (hp !! l) ->
  owned_by_scene (lay (place_all es hp) l) = owned_by_scene (lay hp l) /\
  (l ∉ es.*2 -> slot_of (lay (place_all es hp) l) = slot_of (lay hp l)) /\
  (l ∈ es.*2 -> exists p, (p, l) ∈ es /\ assigned_plane_ (lay (place_all es hp) l) = Some p /\
     needs_composition_ (lay (place_all es hp) l) = false).
Proof.
  revert hp. induction es as [|[p m] es IH]; intros hp Hl.
  { split_and!; [done | done | by intros ?%not_elem_of_nil]. }
  cbn [place_all foldl fst snd]. fold (place_all es (place_layer p m hp)). csimpl.
  destruct (IH (place_layer p m hp)) as (H1 & H2 & H3); [by apply alive_alter|].
  unfold place_layer in H1, H2 |- *. rewrite lay_alter in H1, H2.
  split_and!.
  - rewrite H1. by case_decide.
  - rewrite not_elem_of_cons. intros [Hne Hnin]. rewrite H2 by done. rewrite decide_False by tauto. done.
  - intros Hin. destruct (decide (l ∈ es.*2)) as [Hes|Hes].
    + destruct (H3 Hes) as (q & Hq & Ha & Hn). exists q. split_and!; [by apply list_elem_of_further | done..].
    + apply elem_of_cons in Hin as [->|?]; [|done]. specialize (H2 Hes). rewrite decide_True in H2 by done.
      unfold slot_of in H2. injection H2 as Ha Hn _. exists p. split_and!; [apply list_elem_of_here | done..].
Qed.

Lemma mark_composited_slot ls hp l :
  is_Some (hp !! l) ->
  slot_of (lay (mark_composited ls hp) l) =
    (assigned_plane_ (lay hp l),
     needs_composition_ (lay hp l) ||
       (bool_decide (l ∈ ls) && bool_decide (assigned_plane_ (lay hp l) = None) && negb (owned_by_scene (lay hp l))),
     owned_by_scene (lay hp l)).
Proof.
  unfold mark_composited. revert hp. induction ls as [|m ls IH]; intros hp Hl; cbn [foldl].
  { unfold slot_of. by rewrite bool_decide_eq_false_2, orb_false_r by apply not_elem_of_nil. }
  destruct (bool_decide (assigned_plane_ (lay hp m) = None) && negb (owned_by_scene (lay hp m))) eqn:Hm.
  - rewrite IH by by apply alive_alter. rewrite lay_alter. destruct (decide (l = m /\ is_Some (hp !! m))) as [[-> _]|Hno].
    + simpl. rewrite (bool_decide_eq_true_2 (m ∈ m :: ls)) by apply list_elem_of_here. cbn [andb].
      by rewrite Hm, orb_true_r.
    + assert (l <> m) by (intros ->; tauto).
      by rewrite (bool_decide_ext (l ∈ m :: ls) (l ∈ ls)) by (rewrite elem_of_cons; tauto).
  - rewrite IH by done. destruct (decide (l = m)) as [->|Hne].
    + by rewrite <- !andb_assoc, Hm, !andb_false_r.
    + by rewrite (bool_decide_ext (l ∈ m :: ls) (l ∈ ls)) by (rewrite elem_of_cons; tauto).
Qed.

Lemma update_layer_slot p hp hp' l : update_layer mark_clean p hp = Some hp' -> slot_of (lay hp' l) = slot_of (lay hp l).
Proof.
  unfold update_layer, lay. destruct (hp !! p) as [x|] eqn:Hx; [|done]. intros [= <-].
  destruct (decide (l = p)) as [->|Hne]; [by rewrite lookup_insert_eq, Hx | by rewrite lookup_insert_ne].
Qed.

Lemma clean_slot o hp l : slot_of (lay (clean o hp) l) = slot_of (lay hp l).
Proof.
  unfold clean, output_mark_clean.
  assert (Hls : forall ps hp hp', update_layers mark_clean ps hp = Some hp' -> slot_of (lay hp' l) = slot_of (lay hp l)).
  { clear. induction ps as [|p ps IH]; intros hp hp'; cbn [update_layers]; [by intros [= <-]|].
    destruct (update_layer mark_clean p hp) as [hp1|] eqn:E; [|done]. cbn [mbind option_bind]. intros H.
    rewrite (IH _ _ H). by eapply update_layer_slot. }
  destruct (update_layers _ _ _) as [hp1|] eqn:E; [|done]. cbn [mbind option_bind].
  destruct (composition_layer_ o) as [c|]; [|by simpl; eauto].
  destruct (update_layer mark_clean c hp1) as [hp2|] eqn:E2; [|done]. cbn [default].
  rewrite (update_layer_slot _ _ _ _ E2). eauto.
Qed.

(** Every layer of the scene is on a plane or composited. *)
Definition accounted (hp : heap) (ls : list positive) (placed : PlaneAssignment) : Prop :=
  forall l, l ∈ ls -> owned_by_scene (lay hp l) = false ->
    (exists p, assigned_plane_ (lay hp l) = Some p /\ (p, l) ∈ placed /\ needs_composition_ (lay hp l) = false) \/
    (assigned_plane_ (lay hp l) = None /\ l ∉ placed.*2 /\ needs_composition_ (lay hp l) = true).

Definition unplaced (hp : heap) (ls : list positive) : Prop :=
  forall l, l ∈ ls -> is_Some (hp !! l) /\
    (owned_by_scene (lay hp l) = false -> assigned_plane_ (lay hp l) = None /\ needs_composition_ (lay hp l) = false).

Lemma accounted_slot hp hp' ls ps :
  (forall l, l ∈ ls -> slot_of (lay hp' l) = slot_of (lay hp l)) -> accounted hp ls ps -> accounted hp' ls ps.
Proof.
  intros Hs Ha l Hl. specialize (Hs l Hl). unfold slot_of in Hs. injection Hs as -> -> ->. by apply Ha.
Qed.

Lemma placed_accounted es hp ls :
  unplaced hp ls -> accounted (mark_composited ls (place_all es hp)) ls es.
Proof.
  intros Hu l Hl. destruct (Hu l Hl) as [Halive Hfree].
  destruct (place_all_slot es hp l Halive) as (Ho & Hout & Hin).
  pose proof (mark_composited_slot ls (place_all es hp) l (proj2 (place_all_alive es hp l) Halive)) as Hm.
  unfold slot_of in Hm. injection Hm as Ha Hn Hos. rewrite Hos, Ho, Ha, Hn, Ho. intros Hscene.
  rewrite Hscene, (bool_decide_eq_true_2 (l ∈ ls)) by done. cbn [negb andb]. rewrite andb_true_r.
  destruct (Hfree Hscene) as [Hf1 Hf2]. destruct (decide (l ∈ es.*2)) as [Hes|Hes].
  - destruct (Hin Hes) as (p & Hp & -> & ->). left. exists p. by split_and!.
  - specialize (Hout Hes). unfold slot_of in Hout. injection Hout as -> -> _. rewrite Hf1, Hf2. right. by split_and!.
Qed.

(** ** The full search *)

Lemma arm_composition_heap o c composited best a hp req l :
  (forall m, composition_layer_ o = Some m -> l <> m) ->
  lay (arm_composition o c composited best a hp req).1.2 l = lay hp l /\
  is_Some ((arm_composition o c composited best a hp req).1.2 !! l) = is_Some (hp !! l).
Proof.
  intros Hl. unfold arm_composition. destruct (composition_layer_ o) as [m|]; [|done].
  specialize (Hl m eq_refl). destruct (composited && _); [|done]. destruct (free_primary _ _ _) as [p|]; [|done].
  destruct (apply_layer_to_plane _ _ _ _ _) as [[u|e] r]; simpl;
    (rewrite lay_alter, decide_False by tauto); by rewrite lookup_alter_ne by done.
Qed.

Lemma commit_search_stage o c t before best total a hp req k :
  let '(res, a', hp', req', k') := commit_search o c t before best total a hp req k in
  stage t a k a' k' /\
  (previous_allocation_ a' = best \/ previous_allocation_ a' = previous_allocation_ a) /\
  (forall n, res = Val n -> n = total /\ previous_allocation_ a' = best /\
     forall l, (forall m, composition_layer_ o = Some m -> l <> m) ->
       slot_of (lay hp' l) = slot_of (lay (mark_composited (layer_ptrs_ o) (place_all best hp)) l)).
Proof.
  unfold commit_search. cbv zeta.
  pose proof (arm_loop_written t true (renumbered (stacked_zpos a hp best)) best a hp req) as H1.
  destruct (arm_loop _ _ _ _ a hp req) as [[[res a1] hp1] r1]. destruct H1 as [H1 Hhp].
  assert (Hs1 := stage_written t a a1 k H1).
  assert (Hp1 : previous_allocation_ a1 = previous_allocation_ a) by by destruct H1 as [-> _].
  destruct res as [u|e]; [|by split_and!; [|right|]]. rewrite (Hhp eq_refl). clear hp1 Hhp.
  set (hp2 := mark_composited (layer_ptrs_ o) (place_all best hp)).
  set (composited := any_composited hp2 (layer_ptrs_ o)).
  pose proof (fun l => arm_composition_heap o c composited best a1 hp2 r1 l) as H2.
  destruct (arm_composition o c composited best a1 hp2 r1) as [[[in_use|e] hp3] r3];
    [|by split_and!; [|right|]].
  cbn [fst snd] in H2.
  set (disabled := if _ && has_scene_layers _ _ then _ else _).
  assert (H3 : written t a1 disabled.1).
  { unfold disabled. destruct (_ && _); [apply disable_written | apply written_refl]. }
  destruct disabled as [a2 r4]. cbn [fst] in H3. split; [|split; [by left|]].
  - eapply stage_trans; [exact Hs1|]. eapply stage_trans; [by apply stage_written|].
    destruct composited; by apply stage_quiet.
  - intros n [= <-]. split_and!; [done | done |]. intros l Hl. rewrite clean_slot. by destruct (H2 l Hl) as [-> _].
Qed.

Lemma full_search_ok o flags c t a hp req k :
  NoDup (layer_ptrs_ o) -> planes_ok a ->
  exists res a' hp' req' k' o',
    full_search dev_fd test_preparer canvas_host o flags c t a hp req k = Some ((res, a', hp', req', k'), o') /\
    stage t a k a' k' /\ o' = sort_layers_by_zpos o hp /\ (prev_ok a -> prev_ok a') /\
    (forall n, res = Val n -> n = length (previous_allocation_ a') /\
       assigned_ok hp c (layer_ptrs_ o) (available_planes a c) (previous_allocation_ a') /\
       forall l, (forall m, composition_layer_ o = Some m -> l <> m) ->
         slot_of (lay hp' l) =
         slot_of (lay (mark_composited (layer_ptrs_ o') (place_all (previous_allocation_ a') hp)) l)).
Proof.
  intros Hnd Hpl. unfold full_search. cbv zeta. set (o' := sort_layers_by_zpos o hp).
  assert (Hperm : layer_ptrs_ o' ≡ₚ layer_ptrs_ o) by apply std_sort_perm.
  destruct (search_placement_ok hp o' flags c a k) as (out & a1 & k1 & -> & Hs & Hsame & Ho); [by rewrite Hperm | done |].
  cbn [mbind option_bind].
  pose proof (commit_search_stage o' c t (negb (bool_decide (last_committed_ a = ∅))) out (length out) a1 hp req k1) as Hc.
  destruct (commit_search _ _ _ _ out _ a1 hp req k1) as [[[[res a2] hp2] r2] k2]. destruct Hc as (Hst & Hprev & Hval).
  exists res, a2, hp2, r2, k2, o'. split_and!; [done | | done | |].
  - eapply stage_trans; [by apply stage_found | exact Hst].
  - unfold prev_ok. destruct Hprev as [->| ->]; [by destruct Ho | by rewrite Hsame].
  - intros n Hn. destruct (Hval n Hn) as (-> & -> & Hslot). split_and!; [done | | exact Hslot].
    destruct Ho as [H1 H2 H3]. split; [done..|]. intros p l Hin. destruct (H3 p l Hin) as [Hl Hr].
    split; [by rewrite <- Hperm | exact Hr].
Qed.

(** ** Nothing fails while memory lasts *)

Lemma apply_real_adds hp lp pid t zpos a req :
  adds_succeed -> live req ->
  exists a' req', apply_layer_to_plane_real hp lp pid t zpos a req = (Val tt, a', req') /\ live req'.
Proof.
  intros Hadds Hl. unfold apply_layer_to_plane_real. cbv zeta.
  assert (H1 : exists a1 r1, match diff_base a lp pid with
    | None => reset_on_arm pid (reset_props a pid) a req | Some _ => (Val tt, a, req) end = (Val tt, a1, r1) /\ live r1).
  { destruct (diff_base a lp pid); [by exists a, req|].
    destruct (reset_on_arm_ok Hadds pid (reset_props a pid) a req Hl) as (a1 & r1 & -> & Hl1 & _). eauto. }
  destruct H1 as (a1 & r1 & -> & Hl1).
  destruct (real_loop_ok Hadds (lay hp lp) pid zpos (diff_base a lp pid) all_tags a1 r1 Hl1) as (a2 & r2 & -> & Hl2 & _).
  destruct t; eauto.
Qed.

Lemma arm_loop_adds before stack t es a hp req :
  adds_succeed -> live req ->
  exists a' hp' req', arm_loop before stack t es a hp req = (Val tt, a', hp', req') /\ live req'.
Proof.
  intros Hadds. revert a hp req. induction es as [|[pid lp] es IH]; intros a hp req Hl; cbn [arm_loop]; [eauto 10|].
  cbv zeta. destruct (apply_real_adds (if before then place_layer pid lp hp else hp) lp pid t (zpos_in stack pid) a req
    Hadds Hl) as (a1 & r1 & -> & Hl1). by apply IH.
Qed.

Lemma write_zero_adds pid name ts is_fb a req :
  adds_succeed -> live req -> live (write_zero pid name ts is_fb a req).2.
Proof. intros Hadds Hl. by destruct (write_zero_ok Hadds pid name ts is_fb a req Hl) as (a' & r' & -> & ? & _). Qed.

Lemma disable_loop_adds keep t planes a req :
  adds_succeed -> live req -> live (disable_loop keep true t planes a req).2.
Proof.
  intros Hadds. revert a req. induction planes as [|p planes IH]; intros a req Hl; cbn [disable_loop]; [done|].
  destruct (spared a keep p); [by apply IH|]. destruct (_ && _ && _); [by apply IH|]. unfold disable_plane.
  pose proof (write_zero_adds (id p) "FB_ID" true true a req Hadds Hl) as H1.
  destruct (write_zero (id p) "FB_ID" _ _ a req) as [a1 r1].
  pose proof (write_zero_adds (id p) "CRTC_ID" true false a1 r1 Hadds H1) as H2.
  destruct (write_zero (id p) "CRTC_ID" _ _ a1 r1) as [a2 r2]. destruct (true && negb t); by apply IH.
Qed.

Lemma apply_properties_adds a pid zpos props req :
  adds_succeed -> live req -> exists req', apply_properties a pid zpos props req = (Val tt, req') /\ live req'.
Proof.
  intros Hadds. revert req. induction props as [|[name v] props IH]; intros req Hl; cbn [apply_properties]; [eauto|].
  cbv zeta. destruct (property_id _ _ _) as [i|]; [|by apply IH].
  destruct (expected_or _ _); [by apply IH|]. destruct (_ && _); [by apply IH|].
  destruct (add_property_ok Hadds pid i
    (clamp_to_plane a pid name (if String.eqb name "zpos" then value_or v zpos else v)) req Hl) as (r1 & -> & Hl1 & _).
  by apply IH.
Qed.

Lemma commit_previous_adds o c t a hp req k :
  adds_succeed -> live req -> exists n, (commit_previous o c t a hp req k).1.1.1.1 = Val n.
Proof.
  intros Hadds Hl. unfold commit_previous. cbv zeta.
  pose proof (disable_loop_adds (previous_allocation_ a) t (for_crtc_planes a c) a req Hadds Hl) as H1.
  unfold disable_unused_planes. destruct (disable_loop _ _ _ _ a req) as [a1 r1].
  destruct (arm_loop_adds false (renumbered (stacked_zpos a1 hp (previous_allocation_ a))) t
    (previous_allocation_ a) a1 hp r1 Hadds H1) as (a2 & hp2 & r2 & -> & _). by eexists.
Qed.

Lemma commit_search_adds o c t before best total a hp req k :
  adds_succeed -> live req -> exists n, (commit_search o c t before best total a hp req k).1.1.1.1 = Val n.
Proof.
  intros Hadds Hl. unfold commit_search. cbv zeta.
  destruct (arm_loop_adds true (renumbered (stacked_zpos a hp best)) t best a hp req Hadds Hl)
    as (a1 & hp1 & r1 & -> & Hl1).
  set (hp2 := mark_composited (layer_ptrs_ o) hp1). set (comp := any_composited hp2 (layer_ptrs_ o)).
  assert (Hc : exists in_use hp3 r3, arm_composition o c comp best a1 hp2 r1 = (Val in_use, hp3, r3)).
  { unfold arm_composition. destruct (composition_layer_ o) as [m|]; [|eauto 10].
    destruct (comp && _); [|eauto 10]. destruct (free_primary _ _ _) as [p|]; [|eauto 10]. cbv zeta.
    match goal with |- context [apply_layer_to_plane a1 ?x (id p) r1 None] =>
      destruct (apply_properties_adds a1 (id p) None (properties x) r1 Hadds Hl1) as (r3 & Hr & _) end.
    unfold apply_layer_to_plane. rewrite Hr. eauto 10. }
  destruct Hc as (in_use & hp3 & r3 & ->). destruct (if _ && has_scene_layers _ _ then _ else _) as [a2 r4].
  by eexists.
Qed.

Lemma apply_previous_adds o flags c t skip a hp req k :
  adds_succeed -> live req ->
  let '(res, a', hp', req', k') := apply_previous_allocation dev_fd test_preparer o flags c t skip a hp req k in
  match res with Val _ => True | Unexp e => (e = EACCES \/ e = EAGAIN) /\ hp' = hp /\ req' = req end.
Proof.
  intros Hadds Hl. unfold apply_previous_allocation. destruct (reserved_overlap a); [auto|]. cbv zeta.
  case_bool_decide; [auto|]. destruct (negb (previous_consistent _ _ _ _)); [auto|].
  destruct (if skip then _ else _) as [[[e|] a1] k1].
  { split_and!; [|done..]. destruct (decide (e = EACCES)); auto. }
  destruct (commit_previous_adds o c t a1 hp req k1 Hadds Hl) as [n Hn].
  destruct (commit_previous o c t a1 hp req k1) as [[[[res a2] hp2] r2] k2]. simpl in Hn. by subst res.
Qed.

Lemma full_search_adds o flags c t a hp req k :
  adds_succeed -> live req ->
  forall res a' hp' req' k' o',
  full_search dev_fd test_preparer canvas_host o flags c t a hp req k = Some ((res, a', hp', req', k'), o') ->
  exists n, res = Val n.
Proof.
  intros Hadds Hl res a' hp' req' k' o' H. unfold full_search in H. cbv zeta in H.
  destruct (search_placement _ _ _ _ _ _ _ _ _) as [[[[best total] a1] k1]|]; [|done]. cbn [mbind option_bind] in H.
  match type of H with Some (commit_search ?o ?c ?t ?b ?be ?to ?a ?hp ?r ?k, _) = _ =>
    destruct (commit_search_adds o c t b be to a hp r k Hadds Hl) as [n Hn] end.
  exists n. injection H as H _. rewrite H in Hn. exact Hn.
Qed.

(** ** The frame *)

(** What a frame starts from. *)
Record frame_inv (o : Output) (reserved : list Z) (a : Allocator) (hp : heap) : Prop := {
  fi_planes : planes_ok a;
  fi_previous : prev_ok a;
  fi_reserved : external_reserved_ a = reserved;
  fi_unplaced : unplaced hp (layer_ptrs_ o)
}.

(** The answer of a frame: master was lost, or every layer is accounted for. *)
Definition frame_done (o : Output) (reserved : list Z) (res : expected nat) (a : Allocator) (hp : heap) : Prop :=
  match res with
  | Unexp e => e = EACCES
  | Val n => n = length (previous_allocation_ a) /\
      (forall p, p ∈ (previous_allocation_ a).*1 -> p ∉ reserved) /\
      accounted hp (layer_ptrs_ o) (previous_allocation_ a)
  end.

(** The composition layer is not one of the output's own. *)
Definition composition_apart (o : Output) : Prop :=
  forall c, composition_layer_ o = Some c -> c ∉ layer_ptrs_ o.

Lemma warm_attempt o reserved flags c t skip a hp req k :
  adds_succeed -> live req -> frame_inv o reserved a hp ->
  let '(res, a', hp', req', k') := apply_previous_allocation dev_fd test_preparer o flags c t skip a hp req k in
  (final_result res = true -> frame_done o reserved res a' hp') /\
  (final_result res = false -> hp' = hp /\ req' = req /\ frame_inv o reserved a' hp).
Proof.
  intros Hadds Hl [Hp Hk Hr Hu].
  pose proof (apply_previous_stage o flags c t skip a hp req k) as Hst.
  pose proof (apply_previous_adds o flags c t skip a hp req k Hadds Hl) as Had.
  destruct (apply_previous_allocation _ _ _ _ _ _ _ a hp req k) as [[[[res a'] hp'] req'] k'].
  destruct Hst as (Hst & _ & Hsub & _ & Hval).
  assert (Hk' := prev_ok_sublist _ _ Hsub Hk).
  destruct res as [n|e]; cbn [final_result].
  - split; [intros _ | done]. destruct (Hval n eq_refl) as (-> & Hfree & ->). rewrite Hr in Hfree.
    split_and!; [done..|]. eapply accounted_slot; [|by apply placed_accounted]. intros l _. apply clean_slot.
  - destruct Had as (He & -> & ->). rewrite bool_decide_eq_true, bool_decide_eq_false. split; [done|].
    intros _. split_and!; [done..|]. destruct Hst as [_ _ Hreg Hres]. split; [|done | congruence | done].
    by eapply planes_ok_registry.
Qed.

Lemma search_attempt o reserved flags c t a hp req k :
  NoDup (layer_ptrs_ o) -> composition_apart o -> planes_ok a ->
  exists res a' hp' req' k' o',
    full_search dev_fd test_preparer canvas_host o flags c t a hp req k = Some ((res, a', hp', req', k'), o') /\
    stage t a k a' k' /\ o' = sort_layers_by_zpos o hp /\ (prev_ok a -> prev_ok a') /\
    (adds_succeed -> live req -> frame_inv o reserved a hp -> frame_done o reserved res a' hp').
Proof.
  intros Hnd Hcomp Hpl.
  destruct (full_search_ok o flags c t a hp req k Hnd Hpl) 
    as (res & a' & hp' & req' & k' & o' & Hf & Hst & Ho & Hprev & Hval).
  exists res, a', hp', req', k', o'. split_and!; [done..|]. intros Hadds Hl [_ _ Hr Hu].
  destruct (full_search_adds o flags c t a hp req k Hadds Hl _ _ _ _ _ _ Hf) as [n ->].
  destruct (Hval n eq_refl) as (-> & [H1 H2 H3] & Hslot). split_and!; [done..| |].
  - intros p ((p' & l) & -> & Hin)%list_elem_of_fmap. destruct (H3 p' l Hin) as (_ & plane & Hpl' & <- & _).
    rewrite <- Hr. by apply list_elem_of_filter in Hpl' as [? _].
  - assert (Hperm : layer_ptrs_ o' ≡ₚ layer_ptrs_ o) by (rewrite Ho; apply std_sort_perm).
    assert (Hu' : unplaced hp (layer_ptrs_ o')) by (intros l Hl'; apply Hu; by rewrite <- Hperm).
    assert (Hacc : accounted hp' (layer_ptrs_ o') (previous_allocation_ a')).
    { eapply accounted_slot; [|by apply placed_accounted]. intros l Hl'. apply Hslot.
      intros m Hm ->. apply (Hcomp m Hm). by rewrite <- Hperm. }
    intros l Hl'. apply Hacc. by rewrite Hperm.
Qed.

(** What a frame answers, from the state it starts in. *)
Definition frame_result (o : Output) (reserved : list Z) (t : bool) (a : Allocator) (hp : heap)
    (req : AtomicRequest) (k : kernel)
    (r : option (expected nat * Allocator * heap * AtomicRequest * kernel * Output)) : Prop :=
  exists res a' hp' req' k' o', r = Some (res, a', hp', req', k', o') /\
    spent a k a' k' /\ (t = true -> last_committed_ a' = last_committed_ a) /\
    layer_ptrs_ o' ≡ₚ layer_ptrs_ o /\ registry_ a' = registry_ a /\ (prev_ok a -> prev_ok a') /\
    (adds_succeed -> live req -> frame_inv o reserved a hp -> frame_done o reserved res a' hp').

Lemma frame_result_after o reserved t a hp req k a1 hp1 req1 k1 r :
  stage t a k a1 k1 -> (prev_ok a -> prev_ok a1) ->
  (adds_succeed -> live req -> frame_inv o reserved a hp -> hp1 = hp /\ req1 = req /\ frame_inv o reserved a1 hp) ->
  frame_result o reserved t a1 hp1 req1 k1 r -> frame_result o reserved t a hp req k r.
Proof.
  intros [Hs Hlc Hreg _] Hok Hinv (res & a' & hp' & req' & k' & o' & -> & Hs' & Hlc' & Hp & Hreg' & Hok' & Hd).
  exists res, a', hp', req', k', o'. split_and!; [done | by eapply spent_trans | | done | congruence | auto |].
  - intros Ht. rewrite Hlc', Hlc; done.
  - intros Hadds Hl Hi. destruct (Hinv Hadds Hl Hi) as (-> & -> & Hi'). auto.
Qed.

Lemma frame_done_slots o reserved res a a' hp hp' :
  previous_allocation_ a' = previous_allocation_ a -> (forall l, slot_of (lay hp' l) = slot_of (lay hp l)) ->
  frame_done o reserved res a hp -> frame_done o reserved res a' hp'.
Proof.
  intros Hp Hs. unfold frame_done. rewrite Hp. destruct res; [|done]. intros (H1 & H2 & H3).
  split_and!; [done..|]. eapply accounted_slot; [|exact H3]. auto.
Qed.

Lemma search_result o reserved flags c t a hp req k :
  NoDup (layer_ptrs_ o) -> composition_apart o -> planes_ok a ->
  frame_result o reserved t a hp req k
    ('(r, o) ← full_search dev_fd test_preparer canvas_host o flags c t a hp req k;
     let '(res, a, hp, req, k) := r in Some ((res, unreserve a, hp, req, k), o)).
Proof.
  intros Hnd Hc Hp.
  destruct (search_attempt o reserved flags c t a hp req k Hnd Hc Hp)
    as (res & a' & hp' & req' & k' & o' & -> & [Hs Hlc Hreg _] & -> & Hok & Hd).
  cbn [mbind option_bind]. do 6 eexists. split; [reflexivity|]. split_and!.
  - eapply spent_trans; [exact Hs|]. by apply spent_quiet.
  - exact Hlc.
  - apply std_sort_perm.
  - exact Hreg.
  - exact Hok.
  - intros Hadds Hl Hi. eapply frame_done_slots; [| |by apply Hd]; done.
Qed.

(** The last touches on the allocator before [apply] returns. *)
Definition tidied (a a' : Allocator) : Prop :=
  test_commits_this_frame_ a' = test_commits_this_frame_ a /\ max_test_commits_ a' = max_test_commits_ a /\
  last_committed_ a' = last_committed_ a /\ registry_ a' = registry_ a /\
  previous_allocation_ a' = previous_allocation_ a.

(** A warm start that falls back to [rest]. *)
Lemma warm_result o reserved flags c t skip a hp req k tidy rest :
  planes_ok a ->
  (forall res a hp req k, exists a' hp', tidy (res, a, hp, req, k) = ((res, a', hp', req, k), o) /\
     tidied a a' /\ forall l, slot_of (lay hp' l) = slot_of (lay hp l)) ->
  (forall a hp req k, planes_ok a -> frame_result o reserved t a hp req k (rest a hp req k)) ->
  frame_result o reserved t a hp req k
    (let '(res, a, hp, req, k) :=
       apply_previous_allocation dev_fd test_preparer o flags c t skip a hp req k in
     if final_result res then Some (tidy (res, a, hp, req, k)) else rest a hp req k).
Proof.
  intros Hp Htidy Hrest.
  pose proof (apply_previous_stage o flags c t skip a hp req k) as Hst.
  pose proof (fun H1 H2 H3 => warm_attempt o reserved flags c t skip a hp req k H1 H2 H3) as Hw.
  destruct (apply_previous_allocation _ _ _ _ _ _ _ a hp req k) as [[[[res a'] hp'] req'] k'].
  destruct Hst as (Hst & _ & Hsub & _). assert (Hok := prev_ok_sublist _ _ Hsub).
  destruct (final_result res) eqn:Hres.
  - destruct (Htidy res a' hp' req' k') as (a2 & hp2 & -> & (Ht & Hm & Hl2 & Hr2 & Hp2) & Hslot).
    destruct Hst as [Hs Hlc Hreg _]. do 6 eexists. split; [reflexivity|]. split_and!.
    + eapply spent_trans; [exact Hs|]. by apply spent_quiet.
    + intros Htt. rewrite Hl2. auto.
    + done.
    + congruence.
    + unfold prev_ok. by rewrite Hp2.
    + intros Hadds Hl Hi. destruct (Hw Hadds Hl Hi) as [Hd _].
      eapply frame_done_slots; [exact Hp2 | exact Hslot | by apply Hd].
  - eapply frame_result_after; [exact Hst | exact Hok | |].
    + intros Hadds Hl Hi. destruct (Hw Hadds Hl Hi) as [_ Hd]. by apply Hd.
    + apply Hrest. destruct Hst as [_ _ Hreg _]. by eapply planes_ok_registry.
Qed.

Lemma finish_tidy o res a hp req k :
  exists a' hp', finish (res, a, hp, req, k) o = ((res, a', hp', req, k), o) /\ tidied a a' /\
    forall l, slot_of (lay hp' l) = slot_of (lay hp l).
Proof.
  unfold finish. eexists _, _. split; [reflexivity|]. split; [done|]. intros l. destruct (has_value res); [apply clean_slot | done].
Qed.

Lemma warm_then_search_ok o reserved flags c t force a hp req k :
  NoDup (layer_ptrs_ o) -> composition_apart o -> planes_ok a ->
  frame_result o reserved t a hp req k
    (warm_then_search dev_fd test_preparer canvas_host o flags c t force a hp req k).
Proof.
  intros Hnd Hc Hp. unfold warm_then_search. cbv zeta.
  assert (Hwarm : forall a hp req k, planes_ok a -> frame_result o reserved t a hp req k
    (if previous_allocation_valid_ a && negb force then
      let '(res, a, hp, req, k) := apply_previous_allocation dev_fd test_preparer o flags c t false a hp req k in
      if final_result res then Some (finish (res, a, hp, req, k) o)
      else '(r, o) ← full_search dev_fd test_preparer canvas_host o flags c t a hp req k;
           let '(res, a, hp, req, k) := r in Some ((res, unreserve a, hp, req, k), o)
    else '(r, o) ← full_search dev_fd test_preparer canvas_host o flags c t a hp req k;
         let '(res, a, hp, req, k) := r in Some ((res, unreserve a, hp, req, k), o))).
  { clear a hp req k Hp. intros a hp req k Hp. destruct (_ && _); [|by apply search_result].
    apply (warm_result o reserved flags c t false a hp req k (fun r => finish r o)); [done | |].
    - intros. apply finish_tidy.
    - intros. by apply search_result. }
  destruct (_ && _ && _); [|by apply Hwarm].
  apply (warm_result o reserved flags c t false a hp req k
    (fun r => let '(res, a, hp, req, k) := r in ((res, unreserve a, hp, req, k), o))); [done | | done].
  intros. eexists _, _. split; [reflexivity | done].
Qed.

(** The frame set-up. *)
Lemma reset_unowned x :
  owned_by_scene x = false ->
  assigned_plane_ (reset_layer x) = None /\ needs_composition_ (reset_layer x) = false.
Proof.
  intros H. unfold owned_by_scene in H. bool_simpl. destruct x as [].
  unfold reset_layer. simpl in *. by subst.
Qed.


Lemma reset_layers_spec ls hp l :
  is_Some (hp !! l) ->
  is_Some (reset_layers ls hp !! l) /\
  owned_by_scene (lay (reset_layers ls hp) l) = owned_by_scene (lay hp l) /\
  (l ∈ ls \/ (assigned_plane_ (lay hp l) = None /\ needs_composition_ (lay hp l) = false) ->
   owned_by_scene (lay hp l) = false ->
   assigned_plane_ (lay (reset_layers ls hp) l) = None /\ needs_composition_ (lay (reset_layers ls hp) l) = false).
Proof.
  unfold reset_layers. revert hp. induction ls as [|m ls IH]; intros hp Hl; cbn [foldl].
  { split_and!; [done | done |]. by intros [?%not_elem_of_nil|?]. }
  destruct (IH (alter reset_layer m hp)) as (H1 & H2 & H3); [by apply alive_alter|].
  rewrite lay_alter in H2, H3.
  assert (Hown : forall x, owned_by_scene (reset_layer x) = owned_by_scene x).
  { intros x. unfold reset_layer. cbv zeta. by destruct (pinned_ _). }
  destruct (decide (l = m /\ is_Some (hp !! m))) as [[-> _]|Hno].
  - rewrite Hown in H2, H3. split_and!; [done | done |]. intros _ Hs. apply H3; [|done]. right.
    by apply reset_unowned.
  - split_and!; [done | done |]. intros Hin. apply H3. destruct Hin as [[->|?]%elem_of_cons|?]; [tauto | by left | by right].
Qed.

Context (drmModeGetPlane_state : Z -> option (Z * Z)).
Context (drmModeGetResources_crtcs : option (list Z)).

Lemma begin_frame_ok o reserved t a hp :
  let '(force, a1, hp1) := begin_frame drmModeGetPlane_state drmModeGetResources_crtcs o reserved t a hp in
  test_commits_this_frame_ a1 = 0%nat /\ max_test_commits_ a1 = max_test_commits_ a /\
  last_committed_ a1 = last_committed_ a /\ registry_ a1 = registry_ a /\ external_reserved_ a1 = reserved /\
  previous_allocation_ a1 = previous_allocation_ a /\
  (alive hp (layer_ptrs_ o) -> unplaced hp1 (layer_ptrs_ o)).
Proof.
  unfold begin_frame. cbv zeta.
  assert (Hu : alive hp (layer_ptrs_ o) -> unplaced (reset_layers (layer_ptrs_ o) hp) (layer_ptrs_ o)).
  { intros Ha l Hl. destruct (reset_layers_spec (layer_ptrs_ o) hp l (Ha l Hl)) as (H1 & H2 & H3).
    split; [done|]. rewrite H2. auto. }
  set (Q := fun x : Allocator => test_commits_this_frame_ x = 0%nat /\
    max_test_commits_ x = max_test_commits_ a /\ last_committed_ x = last_committed_ a /\
    registry_ x = registry_ a /\ external_reserved_ x = reserved /\
    previous_allocation_ x = previous_allocation_ a).
  match goal with |- let '(_, _) := (let '(_, _) := ?b in _) in _ => destruct b as [new comp] end.
  set (a1 := if t then _ else _). assert (H1 : Q a1) by (unfold a1; by destruct t). clearbody a1.
  set (a2 := a1 {{ scratch_current_set_ := _ }}). assert (H2 : Q a2) by exact H1. clearbody a2.
  set (a3 := resolve_crtc_index _ _ a2).
  assert (H3 : Q a3) by (unfold a3, resolve_crtc_index; cbv zeta; by destruct (_ && _)). clearbody a3.
  set (a4 := if _ && _ then _ else a3). assert (H4 : Q a4) by (unfold a4; by destruct (_ && _)).
  destruct H4 as (? & ? & ? & ? & ? & ?). by split_and!.
Qed.

(** The FB-only attempt, then the rest. *)
Lemma fb_attempt_ok o reserved flags c force a hp req k :
  NoDup (layer_ptrs_ o) -> composition_apart o -> planes_ok a ->
  frame_result o reserved false a hp req k
    (let '(res, a, hp, req, k) :=
       apply_previous_allocation dev_fd test_preparer o flags c false true a hp req k in
     match res with
     | Val n => Some (finish (Val n, a {{ diagnostics_ ::= fun d => d {{ fb_delta_fast_path := true }} }}, hp, req, k) o)
     | Unexp e => if decide (e = EACCES) then Some ((Unexp e, unreserve a, hp, req, k), o)
                  else warm_then_search dev_fd test_preparer canvas_host o flags c false force a hp req k
     end).
Proof.
  intros Hnd Hc Hp.
  set (tidy := fun r => let '(res, a, hp, req, k) := r in
    if has_value res
    then finish (res, a {{ diagnostics_ ::= fun d => d {{ fb_delta_fast_path := true }} }}, hp, req, k) o
    else ((res, unreserve a, hp, req, k), o)).
  pose proof (warm_result o reserved flags c false true a hp req k tidy
    (fun a hp req k => warm_then_search dev_fd test_preparer canvas_host o flags c false force a hp req k) Hp) as Hw.
  destruct (apply_previous_allocation _ _ _ _ _ _ _ a hp req k) as [[[[res a1] hp1] r1] k1].
  assert (Hw' : frame_result o reserved false a hp req k
    (if final_result res then Some (tidy (res, a1, hp1, r1, k1))
     else warm_then_search dev_fd test_preparer canvas_host o flags c false force a1 hp1 r1 k1)).
  { apply Hw; [|intros; by apply warm_then_search_ok]. intros res' a' hp' req' k'. unfold tidy.
    destruct (has_value res').
    - destruct (finish_tidy o res' (a' {{ diagnostics_ ::= fun d => d {{ fb_delta_fast_path := true }} }}) hp' req' k')
        as (a2 & hp2 & -> & Ht & Hs). exists a2, hp2. by split_and!.
    - eexists _, _. split; [reflexivity | done]. }
  destruct res as [n|e]; cbn [final_result] in Hw'; [exact Hw'|]. unfold tidy in Hw'. cbn [has_value] in Hw'.
  destruct (decide (e = EACCES)) as [He|He]; [by rewrite bool_decide_eq_true_2 in Hw' | by rewrite bool_decide_eq_false_2 in Hw'].
Qed.

Lemma apply_ok o flags reserved t a hp req k :
  NoDup (layer_ptrs_ o) -> composition_apart o -> alive hp (layer_ptrs_ o) -> planes_ok a ->
  exists res a' hp' req' k' o',
    apply dev_fd test_preparer canvas_host drmModeGetPlane_state drmModeGetResources_crtcs o flags reserved t a hp req k
      = Some (res, a', hp', req', k', o') /\
    probed (test_commits_this_frame_ a') k k' /\ (test_commits_this_frame_ a' <= max_test_commits_ a)%nat /\
    (t = true -> last_committed_ a' = last_committed_ a) /\ layer_ptrs_ o' ≡ₚ layer_ptrs_ o /\
    registry_ a' = registry_ a /\ (prev_ok a -> prev_ok a') /\
    (adds_succeed -> live req -> prev_ok a ->
     frame_done o reserved res a' hp').
Proof.
  intros Hnd Hc Hal Hp. unfold apply.
  pose proof (begin_frame_ok o reserved t a hp) as Hb.
  destruct (begin_frame _ _ _ _ _ _ _) as [[force a1] hp1]. destruct Hb as (Ht & Hm & Hlc & Hreg & Hr & Hprev & Hu).
  assert (Hp1 : planes_ok a1) by by eapply planes_ok_registry.
  set (idx := value_or 0 (cached_crtc_index_ a1)).
  match goal with |- exists res a' hp' req' k' o', ?r = _ /\ _ =>
    assert (Hres : frame_result o reserved t a1 hp1 req k r) end.
  { destruct t; cbn [negb andb]; [by apply warm_then_search_ok|].
    destruct (previous_allocation_valid_ a1 && _ && _); [by apply fb_attempt_ok | by apply warm_then_search_ok]. }
  destruct Hres as (res & a' & hp' & req' & k' & o' & Heq & [(n & Hn & Htn) Hb' Hm'] & Hlc' & Hperm & Hreg' & Hok & Hd).
  exists res, a', hp', req', k', o'. rewrite Ht, Nat.add_0_r in Htn. subst n. split_and!.
  - exact Heq.
  - exact Hn.
  - lia.
  - intros Htt. rewrite Hlc'; done.
  - done.
  - congruence.
  - unfold prev_ok in *. by rewrite Hprev in Hok.
  - intros Hadds Hl H1. apply Hd; [done..|]. split; [done | unfold prev_ok; by rewrite Hprev | done | auto].
Qed.

(** ** Allocators that are reached *)

Context `{kms : Kms}.

Inductive reached (r : PlaneRegistry) : Allocator -> Prop :=
  | reached_new e : reached r (make_allocator r e)
  | reached_apply a o flags reserved t hp req k res a' hp' req' k' o' :
      reached r a -> output_ok o hp ->
      apply dev_fd test_preparer canvas_host drmModeGetPlane_state drmModeGetResources_crtcs
        o flags reserved t a hp req k = Some (res, a', hp', req', k', o') ->
      reached r a'
  | reached_forget a l : reached r a -> reached r (forget_layer l a)
  | reached_budget a n : reached r a -> reached r (set_max_test_commits n a)
  | reached_force a b : reached r a -> reached r (set_force_full_property_writes b a)
  | reached_invalidate a : reached r a -> reached r (invalidate_allocation a).

Definition registry_ok (r : PlaneRegistry) : Prop := forall e, planes_ok (make_allocator r e).

Lemma output_ok_facts o hp :
  output_ok o hp -> NoDup (layer_ptrs_ o) /\ composition_apart o /\ alive hp (layer_ptrs_ o).
Proof.
  intros (Hnd & Hperm & Hin & Hc). split_and!.
  - by rewrite Hperm.
  - intros c Hcc. rewrite Hperm. by apply Hc.
  - intros l. rewrite Hperm. apply Hin.
Qed.

Lemma reached_inv r a : registry_ok r -> reached r a -> registry_ a = r /\ prev_ok a.
Proof.
  intros Hr. induction 1 as [e | a o flags reserved t hp req k res a' hp' req' k' o' _ [IHr IHp] Ho Ha
    | a l _ [IHr IHp] | a n _ IH | a b _ IH | a _ IH]; try exact IH.
  - split; [done|]. split; apply NoDup_nil_2.
  - destruct (output_ok_facts o hp Ho) as (H1 & H2 & H3).
    destruct (apply_ok o flags reserved t a hp req k H1 H2 H3)
      as (res2 & a2 & hp2 & req2 & k2 & o2 & Heq & _ & _ & _ & _ & Hreg & Hok & _).
    { eapply planes_ok_registry; [|exact (Hr EAGAIN)]. done. }
    rewrite Heq in Ha. injection Ha as _ <- _ _ _ _. split; [congruence | auto].
  - destruct l as [l|]; [|done]. unfold forget_layer. cbv zeta.
    set (a1 := a {{ last_committed_ ::= _; previous_allocation_ ::= _ }}).
    assert (Hsub : previous_allocation_ a1 `sublist_of` previous_allocation_ a) by apply erase_if_sublist.
    destruct (bool_decide _); split; try done; by eapply prev_ok_sublist.
Qed.

(** C2. A frame always returns.  All it does to the kernel is TEST_ONLY commits,
    as many as it counts and never more than the budget; and a frame that only
    tests leaves what is known of the committed state as it was. *)
Theorem frame_tests_only (r : PlaneRegistry) (a : Allocator) (o : Output) (flags : Z) (reserved : list Z)
    (test_only : bool) (hp : heap) (req : AtomicRequest) (k : kernel) :
  registry_ok r -> reached r a -> output_ok o hp ->
  exists res a' hp' req' k' o',
    apply dev_fd test_preparer canvas_host drmModeGetPlane_state drmModeGetResources_crtcs
      o flags reserved test_only a hp req k = Some (res, a', hp', req', k', o') /\
    probed (test_commits_this_frame_ a') k k' /\
    (test_commits_this_frame_ a' <= max_test_commits_ a)%nat /\
    (test_only = true -> last_committed_ a' = last_committed_ a).
Proof.
  intros Hr Ha Ho. destruct (reached_inv r a Hr Ha) as [Hreg _].
  destruct (output_ok_facts o hp Ho) as (H1 & H2 & H3).
  destruct (apply_ok o flags reserved test_only a hp req k H1 H2 H3)
    as (res & a' & hp' & req' & k' & o' & Heq & Hn & Hle & Hlc & _).
  { eapply planes_ok_registry; [|exact (Hr EAGAIN)]. done. }
  exists res, a', hp', req', k', o'. by split_and!.
Qed.

(** C1. As long as memory for the request lasts a frame only fails when DRM master
    is lost.  Otherwise no layer of the scene is lost and none is placed twice:
    each is on one plane, which is not reserved by the caller and carries no
    other layer, or it is handed to composition; and the number returned is
    the number of layers on planes. *)
Theorem frame_places_every_layer (r : PlaneRegistry) (a : Allocator) (o : Output) (flags : Z)
    (reserved : list Z) (test_only : bool) (hp : heap) (req : AtomicRequest) (k : kernel) :
  registry_ok r -> reached r a -> output_ok o hp -> adds_succeed -> live req ->
  exists res a' hp' req' k' o',
    apply dev_fd test_preparer canvas_host drmModeGetPlane_state drmModeGetResources_crtcs
      o flags reserved test_only a hp req k = Some (res, a', hp', req', k', o') /\
    prev_ok a' /\ frame_done o reserved res a' hp'.
Proof.
  intros Hr Ha Ho Hadds Hl. destruct (reached_inv r a Hr Ha) as [Hreg Hok].
  destruct (output_ok_facts o hp Ho) as (H1 & H2 & H3).
  destruct (apply_ok o flags reserved test_only a hp req k H1 H2 H3)
    as (res & a' & hp' & req' & k' & o' & Heq & _ & _ & _ & _ & _ & Hp & Hd).
  { eapply planes_ok_registry; [|exact (Hr EAGAIN)]. done. }
  exists res, a', hp', req', k', o'. split_and!; auto.
Qed.

(** ** Content-only frames *)

Lemma keep_current_same a :
  (forall e, e ∈ previous_allocation_ a -> e.2 ∈ scratch_current_set_ a) -> keep_current a = a.
Proof.
  intros H. unfold keep_current.
  assert (Hp : PA.erase_if (fun e => negb (bool_decide (e.2 ∈ scratch_current_set_ a))) (previous_allocation_ a)
    = previous_allocation_ a).
  { rewrite PA.erase_if_filter. apply filter_every. intros e He. rewrite bool_decide_eq_true_2; auto. }
  destruct a. unfold constant in *. simpl in *. by rewrite Hp.
Qed.

(** A content-only frame is free: when only framebuffers and fences changed on
    layers still where the last commit put them, the last placement is written
    again without a single call to the kernel. *)
Theorem content_frame_issues_no_test (a : Allocator) (o : Output) (flags : Z) (reserved : list Z) (hp : heap)
    (req : AtomicRequest) (k : kernel) :
  adds_succeed -> live req ->
  let '(force_search, a1, hp1) :=
    begin_frame drmModeGetPlane_state drmModeGetResources_crtcs o reserved false a hp in
  force_search = false -> previous_allocation_valid_ a1 = true -> is_fb_only_frame hp1 a1 = true ->
  reserved_overlap a1 = false -> previous_consistent hp1 o (value_or 0 (cached_crtc_index_ a1)) a1 = true ->
  exists a' hp' req',
    apply dev_fd test_preparer canvas_host drmModeGetPlane_state drmModeGetResources_crtcs
      o flags reserved false a hp req k =
      Some (Val (length (previous_allocation_ a)), a', hp', req', k, o) /\
    test_commits_this_frame_ a' = 0%nat /\ fb_delta_fast_path (diagnostics_ a') = true /\
    previous_allocation_ a' = previous_allocation_ a.
Proof.
  intros Hadds Hl. pose proof (begin_frame_ok o reserved false a hp) as Hb. unfold apply.
  destruct (begin_frame _ _ _ _ _ _ _) as [[force a1] hp1].
  destruct Hb as (Ht & _ & _ & _ & _ & Hprev & _). intros -> Hv Hfb Hro Hpc. rewrite Hv, Hfb. cbn [negb andb].
  set (idx := value_or 0 (cached_crtc_index_ a1)) in *.
  unfold is_fb_only_frame in Hfb. bool_simpl. rewrite forallb_forall in *.
  assert (Hkeep : keep_current a1 = a1).
  { apply keep_current_same. intros e He%list_elem_of_In.
    match goal with H : forall x, In x _ -> _ |- _ => specialize (H e He) end. by bool_simpl. }
  unfold apply_previous_allocation. rewrite Hro, Hkeep. rewrite bool_decide_eq_false_2 by done.
  rewrite Hpc. cbn [negb].
  pose proof (commit_previous_stage o idx false a1 hp1 req k) as Hst.
  destruct (commit_previous_adds o idx false a1 hp1 req k Hadds Hl) as [n Hn].
  destruct (commit_previous o idx false a1 hp1 req k) as [[[[res a2] hp2] r2] k2]. simpl in Hn. subst res.
  destruct Hst as (_ & -> & Ht2 & Hp2 & _ & Hval). destruct (Hval n eq_refl) as [-> _].
  unfold finish. rewrite Hprev. do 3 eexists. split; [reflexivity|]. split_and!.
  - simpl. etrans; [|exact Ht]. exact Ht2.
  - done.
  - simpl. etrans; [|exact Hprev]. exact Hp2.
Qed.
End Frames.

(** ** Concrete frames *)

Definition frame_registry : PlaneRegistry := mkRegistry scan_planes ∅ [] ∅.

(** Every plane has the three properties. *)
Definition frame_kms : Kms := {|
  drmModeGetPlaneResources := Val [31; 32];
  cap_cursor_width := None; cap_cursor_height := None;
  drmModeGetPlane := fun _ => None;
  drmModeObjectGetProperties := fun _ _ => Some [(1, 0); (2, 0); (3, 0)];
  drmModeGetResources := @drmModeGetResources arm_kms;
  drmModeGetProperty := @drmModeGetProperty arm_kms;
  drmModeGetPropertyBlob := fun _ => None
|}.

Definition first_allocator : Allocator := @make_allocator linux_abi frame_kms frame_registry EAGAIN.

Definition frame_output : Output := mkOutput 7 [1%positive; 2%positive] [1%positive; 2%positive] None.

Definition yes_request : @AtomicRequest yes_libdrm := @new_request yes_libdrm 3.

(** The CRTC is the first of two; nothing is lit. *)
Definition run_apply (test_only : bool) (a : Allocator) (hp : heap)
    : option (expected nat * Allocator * heap * @AtomicRequest yes_libdrm * Z * Output) :=
  @apply linux_abi libstdcxx yes_libdrm 3 None None (fun _ => None) (Some [7; 8]) frame_output 0 [] test_only
    a hp yes_request 0.

Lemma frame_registry_ok : @registry_ok linux_abi frame_kms frame_registry.
Proof.
  intros e. split_and!.
  - apply (bool_decide_unpack _). vm_compute. exact I.
  - intros p q cp cq Hp Hq _. unfold caps_of in Hp. simpl in Hp. repeat case_match; simplify_eq/=; done.
  - intros c. unfold for_crtc_planes, for_crtc. simpl. rewrite lookup_empty. simpl.
    destruct (compatible_with_crtc (scan_plane 31) c && _), (compatible_with_crtc (scan_plane 32) c && _);
      cbn; repeat (apply NoDup_cons; split; [set_solver|]); apply NoDup_nil_2.
Qed.

Lemma frame_output_ok : output_ok frame_output scan_heap.
Proof.
  split_and!; [apply (bool_decide_unpack _); vm_compute; exact I | done | | done].
  intros p Hp. simpl in Hp. apply elem_of_cons in Hp as [->|[->|Hp%not_elem_of_nil]%elem_of_cons]; [..|done];
    unfold scan_heap; eauto.
Qed.

Definition second_allocator : Allocator * heap :=
  match run_apply false first_allocator scan_heap with
  | Some (_, a, hp, _, _, _) => (a, hp)
  | None => (first_allocator, scan_heap)
  end.

Lemma frame_tests_only_witness :
  exists res a' hp' req' k' o',
    run_apply true first_allocator scan_heap = Some (res, a', hp', req', k', o') /\
    last_committed_ a' = ∅ /\ @probed linux_abi yes_libdrm (test_commits_this_frame_ a') 0 k'.
Proof.
  destruct (@frame_tests_only linux_abi libstdcxx yes_libdrm 3 None None (fun _ => None) (Some [7; 8]) frame_kms
    frame_registry first_allocator frame_output 0 [] true scan_heap yes_request 0)
    as (res & a' & hp' & req' & k' & o' & Heq & Hp & _ & Hlc).
  - exact frame_registry_ok.
  - apply reached_new.
  - exact frame_output_ok.
  - exists res, a', hp', req', k', o'. split; [exact Heq|]. split; [exact (Hlc eq_refl) | exact Hp].
Defined.

Lemma frame_places_every_layer_witness :
  exists res a' hp' req' k' o',
    run_apply false first_allocator scan_heap = Some (res, a', hp', req', k', o') /\
    frame_done frame_output [] res a' hp'.
Proof.
  destruct (@frame_places_every_layer linux_abi libstdcxx yes_libdrm 3 None None (fun _ => None) (Some [7; 8]) frame_kms
    frame_registry first_allocator frame_output 0 [] false scan_heap yes_request 0)
    as (res & a' & hp' & req' & k' & o' & Heq & _ & Hd).
  - exact frame_registry_ok.
  - apply reached_new.
  - exact frame_output_ok.
  - exact (fun _ _ => Z.le_refl 0).
  - eexists. reflexivity.
  - exists res, a', hp', req', k', o'. split; [exact Heq | exact Hd].
Defined.

(** The second frame changes nothing but content. *)
Lemma content_frame_issues_no_test_witness :
  exists a' hp' req',
    run_apply false second_allocator.1 second_allocator.2 = Some (Val 2%nat, a', hp', req', 0, frame_output) /\
    fb_delta_fast_path (diagnostics_ a') = true.
Proof.
  pose proof (@content_frame_issues_no_test linux_abi libstdcxx yes_libdrm 3 None None (fun _ => None) (Some [7; 8])
    second_allocator.1 frame_output 0 [] second_allocator.2 yes_request 0 (fun _ _ => Z.le_refl 0)
    (ex_intro _ _ eq_refl)) as H.
  destruct (begin_frame _ _ _ _ _ _ _) as [[force a1] hp1] eqn:E in H.
  vm_compute in E. injection E as <- <- <-.
  destruct (H eq_refl eq_refl) as (a' & hp' & req' & Heq & _ & Hfb & _).
  - vm_compute. reflexivity.
  - vm_compute. reflexivity.
  - vm_compute. reflexivity.
  - exists a', hp', req'. split; [exact Heq | exact Hfb].
Defined.
