(* ===== verification/BufferRing.v ===== *)
(** The scan-out slot pool of [src/present/buffer_ring.hpp] and
    [src/present/buffer_ring.cpp]: slots move between free, in flight,
    scanning and pending release, and each lease says what the producer must
    repaint for the slot to hold the current frame again. *)
From S2P Require Import Prelude.

Record Rect := mkRect { r_x : Z; r_y : Z; r_width : Z; r_height : Z }.

Record Repaint := mkRepaint { full : bool; region : list Rect }.
Definition full_repaint : Repaint := mkRepaint true [].

Inductive State := Free | InFlight | Scanning | PendingRelease.
#[global] Instance State_eq_dec : EqDecision State.
Proof. solve_decision. Defined.

Record Slot := mkSlot { state : State; last_present : Z }.

Record BufferRing := mkRing {
  slots_ : list Slot;
  damage_ : list (list Rect);
  present_seq_ : Z;
  base_seq_ : Z;
  max_slots_ : nat;
  max_damage_rects_ : nat
}.

Definition k_min_slots : nat := 1.

Definition make_ring (max_slots max_damage_rects : nat) : BufferRing :=
  mkRing [] [] 0 0 (if (max_slots <? k_min_slots)%nat then k_min_slots else max_slots) max_damage_rects.

Record Lease := mkLease { l_slot : nat; fresh_slot : bool; repaint : Repaint }.

(** [static_cast<unsigned>] of the difference. *)
Definition age (slot : nat) (r : BufferRing) : Z :=
  match slots_ r !! slot with
  | None => 0
  | Some s => if last_present s =? 0 then 0 else u32 (present_seq_ r - last_present s)
  end.

Definition in_flight (r : BufferRing) : nat :=
  length (filter (fun s => state s = InFlight) (slots_ r)).

(** The union, with the check after every rectangle. *)
Fixpoint push_rects (cap : nat) (rs : list Rect) (out : list Rect) : option (list Rect) :=
  match rs with
  | [] => Some out
  | r :: rs' =>
      let out := out ++ [r] in
      if (cap <? length out)%nat then None else push_rects cap rs' out
  end.

Definition repaint_for (last : Z) (r : BufferRing) : Repaint :=
  if (last =? 0) || (last <? base_seq_ r) then full_repaint
  else
    match push_rects (max_damage_rects_ r) (mjoin (drop (Z.to_nat (last - base_seq_ r)) (damage_ r))) [] with
    | Some region => mkRepaint false region
    | None => full_repaint
    end.

(** The freshest free slot; the first of equals. *)
Fixpoint best_free (ss : list Slot) (i : nat) (best : option (nat * Z)) : option (nat * Z) :=
  match ss with
  | [] => best
  | s :: ss' =>
      let best :=
        if negb (bool_decide (state s = Free)) then best
        else match best with
             | None => Some (i, last_present s)
             | Some (_, p) => if p <? last_present s then Some (i, last_present s) else best
             end in
      best_free ss' (S i) best
  end.

Definition set_state (x : State) (s : Slot) : Slot := s {{ state := x }}.

Definition acquire (r : BufferRing) : option Lease * BufferRing :=
  match best_free (slots_ r) 0 None with
  | Some (i, last) =>
      (Some (mkLease i false (repaint_for last r)), r {{ slots_ ::= alter (set_state InFlight) i }})
  | None =>
      if (length (slots_ r) <? max_slots_ r)%nat then
        (Some (mkLease (length (slots_ r)) true full_repaint),
         r {{ slots_ ::= fun ss => ss ++ [mkSlot InFlight 0] }})
      else (None, r)
  end.

(** [while (damage_.size() > max_slots_) pop_front, ++base_seq_]. *)
Definition trim_history (r : BufferRing) : BufferRing :=
  let extra := (length (damage_ r) - max_slots_ r)%nat in
  r {{ damage_ ::= drop extra; base_seq_ ::= fun b => b + Z.of_nat extra }}.

Definition retire_scanning_slot (s : Slot) : Slot :=
  if bool_decide (state s = Scanning) then set_state PendingRelease s else s.

Definition present (slot : nat) (frame_damage : list Rect) (r : BufferRing) : BufferRing :=
  if (length (slots_ r) <=? slot)%nat then r
  else
    let r := r {{ slots_ ::= fmap retire_scanning_slot; present_seq_ ::= fun n => n + 1;
                  damage_ ::= fun d => d ++ [frame_damage] }} in
    let r := trim_history r in
    r {{ slots_ ::= alter (fun s => mkSlot Scanning (present_seq_ r)) slot }}.

Definition release (slot : nat) (r : BufferRing) : BufferRing :=
  match slots_ r !! slot with
  | None => r
  | Some s => if bool_decide (state s = Scanning) then r
              else r {{ slots_ ::= alter (set_state Free) slot }}
  end.

(** ** What is on a slot

    [frame s] is the picture of present number [s]; a slot that was presented
    as number [s] holds [frame s] as long as its render is not abandoned. *)

Section Pictures.
Context {Colour : Type} (frame : Z -> Z * Z -> Colour).

Definition in_damage (rs : list Rect) (p : Z * Z) : Prop :=
  exists r, r ∈ rs /\ r_x r <= p.1 < r_x r + r_width r /\ r_y r <= p.2 < r_y r + r_height r.

(** [frame_damage] covers what changed since the picture before. *)
Definition damage_covers (rs : list Rect) (s : Z) : Prop :=
  forall p, ~ in_damage rs p -> frame s p = frame (s - 1) p.

(** The ring with what its buffers hold. *)
Record Screen := mkScreen { ring : BufferRing; picture : nat -> Z * Z -> Colour }.

Inductive ring_op :=
  | Acquire
  | Render (slot : nat) (pixels : Z * Z -> Colour)
  | Present (slot : nat) (frame_damage : list Rect)
  | Release (slot : nat).

Definition ring_step (x : Screen) (o : ring_op) : Screen :=
  match o with
  | Acquire => x {{ ring ::= fun r => (acquire r).2 }}
  | Render slot pixels => x {{ picture ::= fun f i => if decide (i = slot) then pixels else f i }}
  | Present slot d => x {{ ring ::= present slot d }}
  | Release slot => x {{ ring ::= release slot }}
  end.

(** The contract of the producer: it draws only on a slot it leased, presents
    such a slot once it holds the next picture, with the damage since the
    picture before, and gives back no slot it still leases. *)
Definition op_honest (x : Screen) (o : ring_op) : Prop :=
  let leased slot := exists s, slots_ (ring x) !! slot = Some s /\ state s = InFlight in
  match o with
  | Acquire => True
  | Render slot _ => leased slot
  | Present slot d =>
      leased slot /\ damage_covers d (present_seq_ (ring x) + 1) /\
      forall p, picture x slot p = frame (present_seq_ (ring x) + 1) p
  | Release slot => ~ leased slot
  end.

Inductive ring_reached (max_slots max_damage_rects : nat) : Screen -> Prop :=
  | ring_new f : ring_reached max_slots max_damage_rects (mkScreen (make_ring max_slots max_damage_rects) f)
  | ring_next x o : ring_reached max_slots max_damage_rects x -> op_honest x o ->
      ring_reached max_slots max_damage_rects (ring_step x o).

Record ring_inv (r : BufferRing) : Prop := {
  ri_base : 0 <= base_seq_ r;
  ri_history : present_seq_ r = base_seq_ r + Z.of_nat (length (damage_ r));
  ri_damage : forall i d, damage_ r !! i = Some d -> damage_covers d (base_seq_ r + Z.of_nat i + 1);
  ri_bound : (length (slots_ r) <= max_slots_ r)%nat;
  ri_last : forall i s, slots_ r !! i = Some s -> 0 <= last_present s <= present_seq_ r;
  ri_distinct : forall i j s t, slots_ r !! i = Some s -> slots_ r !! j = Some t ->
    last_present s = last_present t -> 0 < last_present s -> i = j;
  ri_scanning : forall i s, slots_ r !! i = Some s ->
    (state s = Scanning <-> last_present s = present_seq_ r /\ 0 < present_seq_ r)
}.

(** A slot nobody draws on holds the picture it was last presented with. *)
Definition picture_inv (x : Screen) : Prop :=
  forall i s, slots_ (ring x) !! i = Some s -> state s <> InFlight -> 0 < last_present s ->
    forall p, picture x i p = frame (last_present s) p.
End Pictures.
#[global] Arguments ring_op : clear implicits.
#[global] Arguments Screen : clear implicits.

(** ** The invariant *)

Lemma push_rects_spec cap rs out :
  match push_rects cap rs out with
  | Some r => r = out ++ rs /\ (length out <= cap -> length r <= cap)%nat
  | None => (cap < length out + length rs)%nat
  end.
Proof.
  revert out. induction rs as [|r rs IH]; intros out; cbn [push_rects]; [by rewrite app_nil_r|].
  cbv zeta. destruct (Nat.ltb_spec cap (length (out ++ [r]))) as [Hlt|Hle].
  { rewrite length_app in Hlt. simpl in *. lia. }
  specialize (IH (out ++ [r])). destruct (push_rects cap rs (out ++ [r])) as [x|].
  - destruct IH as [-> Hc]. rewrite <- app_assoc. split; [done|]. intros _. rewrite <- app_assoc in Hc. by apply Hc.
  - rewrite length_app in IH. simpl in *. lia.
Qed.

Lemma best_free_spec ss i best :
  (forall x, best = Some x -> (x.1 < i)%nat) ->
  match best_free ss i best with
  | None => best = None /\ forall s, s ∈ ss -> state s <> Free
  | Some (j, p) =>
      (best = Some (j, p) \/ exists s, ss !! (j - i)%nat = Some s /\ (i <= j)%nat /\ state s = Free /\ last_present s = p) /\
      (forall s, s ∈ ss -> state s = Free -> last_present s <= p) /\
      (forall x, best = Some x -> x.2 <= p)
  end.
Proof.
  revert i best. induction ss as [|s ss IH]; intros i best Hb; cbn [best_free].
  { destruct best as [[j p]|].
    - split_and!; [by left | by intros s ?%not_elem_of_nil | by intros x [= <-]; simpl; lia].
    - split; [done|]. by intros s ?%not_elem_of_nil. }
  cbv zeta. set (best' := if negb _ then best else _).
  assert (Hb' : forall x, best' = Some x -> (x.1 < S i)%nat).
  { unfold best'. intros x. destruct (negb _); [intros Hx; specialize (Hb x Hx); lia|].
    destruct best as [[j p]|]; [destruct (p <? last_present s)|]; intros [= <-]; simpl; try lia.
    specialize (Hb (j, p) eq_refl). simpl in Hb. lia. }
  specialize (IH (S i) best' Hb').
  assert (Hhere : forall x, best' = Some x -> best = Some x \/ (x = (i, last_present s) /\ state s = Free)).
  { unfold best'. case_bool_decide as Hf; cbn [negb]; [|auto]. intros x.
    destruct best as [[j p]|]; [destruct (p <? last_present s)|]; intros [= <-]; auto. }
  assert (Hmono : (state s = Free -> exists x, best' = Some x /\ last_present s <= x.2) /\
                  (forall x, best = Some x -> exists y, best' = Some y /\ x.2 <= y.2)).
  { unfold best'. case_bool_decide as Hf; cbn [negb]; [|split; [done | intros x Hx; exists x; split; [done | lia]]].
    destruct best as [[j p]|]; [|split; [eexists; split; [done | simpl; lia] | done]].
    destruct (Z.ltb_spec p (last_present s)); (split; [intros _; eexists; split; [done | simpl; lia]|]);
      intros x [= <-]; eexists; (split; [done|]); simpl; lia. }
  destruct Hmono as [Hm1 Hm2]. destruct (best_free ss (S i) best') as [[j p]|].
  - destruct IH as (Hw & Hall & Hle). split_and!.
    + destruct Hw as [Hw|(t & Ht & Hij & Hf & Hp)].
      * destruct (Hhere _ Hw) as [?|[[= -> ->] Hf]]; [by left|]. right. exists s. rewrite Nat.sub_diag. by split_and!.
      * right. exists t. replace (j - i)%nat with (S (j - S i)) by lia. split_and!; [done | lia | done..].
    + intros t [->|Ht]%elem_of_cons Hf; [|by apply Hall]. destruct (Hm1 Hf) as (x & Hx & Hsx).
      specialize (Hle x Hx). lia.
    + intros x Hx. destruct (Hm2 x Hx) as (y & Hy & Hxy). specialize (Hle y Hy). lia.
  - destruct IH as [Hn Hall]. split.
    + destruct best as [x|]; [|done]. destruct (Hm2 x eq_refl) as (y & Hy & _). congruence.
    + intros t [->|Ht]%elem_of_cons; [|by apply Hall]. intros Hf. destruct (Hm1 Hf) as (x & Hx & _). congruence.
Qed.

Section Invariant.
Context {Colour : Type} (frame : Z -> Z * Z -> Colour).

(** A step that only moves slots that are not scanning between the other states. *)
Lemma ring_inv_state r i x :
  ring_inv frame r -> x <> Scanning -> (forall s, slots_ r !! i = Some s -> state s <> Scanning) ->
  ring_inv frame (r {{ slots_ ::= alter (set_state x) i }}).
Proof.
  intros [H1 H2 H3 H4 H5 H6 H7] Hx Hi.
  assert (Hlk : forall j t, alter (set_state x) i (slots_ r) !! j = Some t ->
    exists s, slots_ r !! j = Some s /\ last_present t = last_present s /\ (state t = Scanning <-> state s = Scanning)).
  { intros j t. destruct (decide (j = i)) as [->|Hne].
    - rewrite list_lookup_alter_eq. destruct (slots_ r !! i) as [s|] eqn:E; [|done]. intros [= <-].
      exists s. split_and!; [done..|]. simpl. specialize (Hi s eq_refl). tauto.
    - rewrite list_lookup_alter_ne by done. eauto. }
  split; simpl; [done | done | done | by rewrite length_alter | | |].
  - intros j t (s & Hs & -> & _)%Hlk. eauto.
  - intros j k t u (s & Hs & -> & _)%Hlk (s' & Hs' & -> & _)%Hlk. eauto.
  - intros j t (s & Hs & -> & Hst)%Hlk. rewrite Hst. eauto.
Qed.

Lemma ring_inv_acquire r : ring_inv frame r -> ring_inv frame (acquire r).2.
Proof.
  intros Hr. unfold acquire.
  pose proof (best_free_spec (slots_ r) 0 None ltac:(done)) as Hb.
  destruct (best_free (slots_ r) 0 None) as [[i p]|].
  - destruct Hb as ([?|(s & Hs & _ & Hf & _)] & _ & _); [done|]. rewrite Nat.sub_0_r in Hs.
    apply ring_inv_state; [done | done |]. intros s' Hs'. rewrite Hs in Hs'. injection Hs' as <-. by rewrite Hf.
  - destruct (Nat.ltb_spec (length (slots_ r)) (max_slots_ r)); [|done].
    destruct r as [ss ds n b ms md], Hr as [H1 H2 H3 H4 H5 H6 H7]. simpl in *.
    assert (Hlk : forall j t, (ss ++ [mkSlot InFlight 0]) !! j = Some t ->
      ss !! j = Some t \/ t = mkSlot InFlight 0).
    { intros j t [?|[_ Ht]]%lookup_app_Some; [by left|]. apply list_lookup_singleton_Some in Ht as [_ <-]. by right. }
    split; simpl; [done | done | done | rewrite length_app; simpl; lia | | |].
    + intros j t [Ht| ->]%Hlk; [eauto | simpl; lia].
    + intros j k t u [Ht| ->]%Hlk [Hu| ->]%Hlk; simpl; [eauto | | lia | lia]. intros -> ?. lia.
    + intros j t [Ht| ->]%Hlk; [eauto|]. simpl. split; [done | lia].
Qed.

Lemma present_slots (ss : list Slot) (slot : nat) n (j : nat) t :
  alter (fun _ : Slot => mkSlot Scanning n) slot (retire_scanning_slot <$> ss) !! j = Some t ->
  (j = slot /\ t = mkSlot Scanning n) \/
  (j <> slot /\ exists s, ss !! j = Some s /\ last_present t = last_present s /\ state t <> Scanning /\
    (state s = InFlight -> state t = InFlight)).
Proof.
  destruct (decide (j = slot)) as [->|Hne].
  - rewrite list_lookup_alter_eq, list_lookup_fmap. destruct (ss !! slot); [|done]. intros [= <-]. by left.
  - rewrite list_lookup_alter_ne, list_lookup_fmap by done. destruct (ss !! j) as [s|]; [|done]. intros [= <-].
    right. split; [done|]. exists s. unfold retire_scanning_slot.
    case_bool_decide as Hs; [by rewrite Hs | done].
Qed.

Lemma ring_inv_present r slot d :
  ring_inv frame r -> damage_covers frame d (present_seq_ r + 1) -> ring_inv frame (present slot d r).
Proof.
  destruct r as [ss0 ds n0 b ms md]. intros [H1 H2 H3 H4 H5 H6 H7] Hd. unfold present.
  cbn [slots_ damage_ present_seq_ base_seq_ max_slots_] in *.
  destruct (Nat.leb_spec (length ss0) slot) as [|Hlt]; [done|]. unfold trim_history. cbv zeta. simpl.
  set (ss := fmap retire_scanning_slot ss0). set (n := n0 + 1).
  set (extra := (length (ds ++ [d]) - ms)%nat).
  assert (Hlk : forall j t, alter (fun _ : Slot => mkSlot Scanning n) slot ss !! j = Some t ->
    (j = slot /\ t = mkSlot Scanning n) \/
    (j <> slot /\ exists s, ss0 !! j = Some s /\ last_present t = last_present s /\ state t <> Scanning /\
    (state s = InFlight -> state t = InFlight)))
    by apply present_slots.
  assert (Hlen : length (ds ++ [d]) = S (length ds)) by (rewrite length_app; simpl; lia).
  assert (Hn : n0 < n) by (unfold n; lia).
  split; simpl; fold n.
  - lia.
  - rewrite length_drop. unfold extra, n. lia.
  - intros i e He. rewrite lookup_drop in He. apply lookup_app_Some in He as [He|[Hge He]].
    + replace (b + Z.of_nat extra + Z.of_nat i + 1) with (b + Z.of_nat (extra + i) + 1) by lia. eauto.
    + apply list_lookup_singleton_Some in He as [Hz <-].
      by replace (b + Z.of_nat extra + Z.of_nat i + 1) with n by (unfold n; lia).
  - rewrite length_alter. unfold ss. by rewrite length_fmap.
  - intros i t [[_ ->]|(_ & s & Hs & -> & _)]%Hlk; simpl; [lia|]. specialize (H5 i s Hs). lia.
  - intros i j t u [[-> ->]|(Hi & s & Hs & -> & _)]%Hlk [[-> ->]|(Hj & s' & Hs' & -> & _)]%Hlk; simpl; try done.
    + specialize (H5 j s' Hs'). lia.
    + specialize (H5 i s Hs). lia.
    + eauto.
  - intros i t [[_ ->]|(_ & s & Hs & Hl & Hst & _)]%Hlk; simpl; [split; [split; [done | lia] | done]|].
    specialize (H5 i s Hs). rewrite Hl. split; [done | lia].
Qed.

Lemma ring_inv_release r slot : ring_inv frame r -> ring_inv frame (release slot r).
Proof.
  intros Hr. unfold release. destruct (slots_ r !! slot) as [s|] eqn:E; [|done].
  case_bool_decide as Hs; [done|]. apply ring_inv_state; [done..|]. intros s' Hs'. congruence.
Qed.

(** What a step leaves in a slot that it neither leases, presents nor gives back. *)
Lemma acquire_slots r i t :
  slots_ (acquire r).2 !! i = Some t -> state t <> InFlight -> slots_ r !! i = Some t.
Proof.
  unfold acquire. destruct (best_free (slots_ r) 0 None) as [[k p]|].
  - destruct r as [ss ds n b ms md]. simpl. destruct (decide (i = k)) as [->|Hne].
    + rewrite list_lookup_alter_eq. destruct (ss !! k); [|done]. by intros [= <-].
    + by rewrite list_lookup_alter_ne.
  - destruct (length (slots_ r) <? max_slots_ r)%nat; [|done]. destruct r as [ss ds n b ms md]. simpl.
    intros [?|[_ Ht]]%lookup_app_Some; [done|]. by apply list_lookup_singleton_Some in Ht as [_ <-].
Qed.

Lemma release_slots r slot i t :
  slots_ (release slot r) !! i = Some t ->
  exists s, slots_ r !! i = Some s /\ last_present t = last_present s /\
            (state t = state s \/ (i = slot /\ state t = Free)).
Proof.
  unfold release. destruct (slots_ r !! slot) as [s|] eqn:E; [|eauto 6].
  case_bool_decide; [eauto 6|]. destruct r as [ss ds n b ms md]. simpl in *.
  destruct (decide (i = slot)) as [->|Hne].
  - rewrite list_lookup_alter_eq, E. intros [= <-]. eauto 7.
  - rewrite list_lookup_alter_ne by done. eauto 6.
Qed.

Lemma picture_inv_step x o :
  picture_inv frame x -> op_honest frame x o -> picture_inv frame (ring_step x o).
Proof.
  destruct x as [r f]. unfold picture_inv. intros Hp Ho i s.
  destruct o as [|slot pixels|slot d|slot]; simpl in *.
  - intros Hs Hf. eapply Hp; [by eapply acquire_slots | done].
  - intros Hs Hf Hl p. destruct (decide (i = slot)) as [->|]; [|by apply Hp]. exfalso.
    destruct Ho as (s' & Hs' & Hf'). congruence.
  - destruct Ho as ((s' & Hs' & _) & _ & Hf). apply lookup_lt_Some in Hs'. unfold present.
    destruct (Nat.leb_spec (length (slots_ r)) slot); [lia|]. destruct r as [ss ds n b ms md].
    unfold trim_history. cbv zeta. simpl in *.
    intros [[-> ->]|(_ & s0 & Hs0 & Hl & _ & Hst)]%present_slots; [done|]. rewrite Hl. intros Hni.
    apply Hp; [done|]. intros Hi. apply Hni, Hst, Hi.
  - intros (s0 & Hs0 & -> & [Hst|[-> Hst]])%release_slots Hf; apply Hp; [done | congruence | done |].
    intros Hi. apply Ho. eauto.
Qed.

Lemma ring_inv_new k m : ring_inv frame (make_ring k m).
Proof. by split; simpl; [lia | lia | | lia | | |]. Qed.

Lemma ring_reached_inv k m x : ring_reached frame k m x -> ring_inv frame (ring x) /\ picture_inv frame x.
Proof.
  induction 1 as [f|x o _ [Hr Hp] Ho]; [split; [apply ring_inv_new | done]|].
  split; [|by apply picture_inv_step]. destruct x as [r f], o as [|slot pixels|slot d|slot]; simpl in *.
  - by apply ring_inv_acquire.
  - done.
  - apply ring_inv_present; [done|]. by destruct Ho as (_ & ? & _).
  - by apply ring_inv_release.
Qed.

(** The damage from the picture after [last] up to the current one. *)
Lemma damage_run r last p :
  ring_inv frame r -> base_seq_ r <= last <= present_seq_ r ->
  ~ in_damage (mjoin (drop (Z.to_nat (last - base_seq_ r)) (damage_ r))) p ->
  frame last p = frame (present_seq_ r) p.
Proof.
  intros Hr Hl Hp.
  assert (Hrun : forall k : nat, last + Z.of_nat k <= present_seq_ r -> frame last p = frame (last + Z.of_nat k) p).
  { induction k as [|k IH]; intros Hk; [by rewrite Z.add_0_r|]. rewrite IH by lia.
    pose proof (ri_history _ _ Hr) as Hh.
    destruct (lookup_lt_is_Some_2 (damage_ r) (Z.to_nat (last - base_seq_ r) + k)) as [d Hd]; [lia|].
    pose proof (ri_damage _ _ Hr _ _ Hd p) as Hc.
    replace (base_seq_ r + Z.of_nat (Z.to_nat (last - base_seq_ r) + k) + 1) with (last + Z.of_nat (S k)) in Hc by lia.
    replace (last + Z.of_nat (S k) - 1) with (last + Z.of_nat k) in Hc by lia. symmetry. apply Hc.
    intros (q & Hq & Hin). apply Hp. exists q. split; [|done]. apply list_elem_of_join. exists d. split; [done|].
    apply list_elem_of_lookup. exists k. by rewrite lookup_drop. }
  replace (present_seq_ r) with (last + Z.of_nat (Z.to_nat (present_seq_ r - last))) by lia. apply Hrun. lia.
Qed.

(** What a lease promises of the slot it hands out. *)
Lemma repaint_for_spec r last p :
  ring_inv frame r -> last <= present_seq_ r ->
  full (repaint_for last r) = false ->
  (length (region (repaint_for last r)) <= max_damage_rects_ r)%nat /\ last <> 0 /\
  (~ in_damage (region (repaint_for last r)) p -> frame last p = frame (present_seq_ r) p).
Proof.
  intros Hr Hl. unfold repaint_for. destruct ((last =? 0) || (last <? base_seq_ r)) eqn:E; [done|].
  apply orb_false_iff in E as [E1 E2]. apply Z.eqb_neq in E1. apply Z.ltb_ge in E2.
  pose proof (push_rects_spec (max_damage_rects_ r)
    (mjoin (drop (Z.to_nat (last - base_seq_ r)) (damage_ r))) []) as Hs.
  destruct (push_rects _ _ []) as [rg|]; [|done]. destruct Hs as [-> Hcap]. intros _. simpl in *.
  split_and!; [apply Hcap; lia | done |]. by apply damage_run.
Qed.
End Invariant.

(** ** The contract *)

Section Contract.
Context {Colour : Type} (frame : Z -> Z * Z -> Colour).

(** What a lease is, whatever the buffers hold. *)
Lemma acquire_spec r :
  match (acquire r).1 with
  | Some l =>
      match slots_ r !! l_slot l with
      | Some s => fresh_slot l = false /\ state s = Free /\ repaint l = repaint_for (last_present s) r /\
          forall t, t ∈ slots_ r -> state t = Free -> last_present t <= last_present s
      | None => fresh_slot l = true /\ full (repaint l) = true /\ l_slot l = length (slots_ r) /\
          (l_slot l < max_slots_ r)%nat /\ forall t, t ∈ slots_ r -> state t <> Free
      end
  | None => (max_slots_ r <= length (slots_ r))%nat /\ forall t, t ∈ slots_ r -> state t <> Free
  end.
Proof.
  unfold acquire. pose proof (best_free_spec (slots_ r) 0 None ltac:(done)) as Hb.
  destruct (best_free (slots_ r) 0 None) as [[i p]|]; cbn [fst l_slot fresh_slot repaint].
  - destruct Hb as ([?|(s & Hs & _ & Hf & <-)] & Hall & _); [done|]. rewrite Nat.sub_0_r in Hs. by rewrite Hs.
  - destruct Hb as [_ Hall]. destruct (Nat.ltb_spec (length (slots_ r)) (max_slots_ r)); cbn [fst l_slot fresh_slot repaint].
    + rewrite lookup_ge_None_2 by lia. by split_and!.
    + done.
Qed.


(** At most one slot is on screen, it is the one presented last, and no
    more slots exist than the cap allows; a lease is refused exactly when
    every slot is busy and the ring is at its cap. *)
Theorem one_slot_on_screen k m x :
  ring_reached frame k m x ->
  (forall i j s t, slots_ (ring x) !! i = Some s -> slots_ (ring x) !! j = Some t ->
     state s = Scanning -> state t = Scanning -> i = j) /\
  (forall i s, slots_ (ring x) !! i = Some s -> state s = Scanning -> last_present s = present_seq_ (ring x)) /\
  (length (slots_ (ring x)) <= max_slots_ (ring x))%nat /\
  ((acquire (ring x)).1 = None <->
   length (slots_ (ring x)) = max_slots_ (ring x) /\ forall t, t ∈ slots_ (ring x) -> state t <> Free).
Proof.
  intros [Hr _]%ring_reached_inv. pose proof (ri_scanning _ _ Hr) as Hsc. pose proof (ri_bound _ _ Hr) as Hb. split_and!.
  - intros i j s t Hs Ht Es Et. apply (Hsc _ _ Hs) in Es as [Es ?]. apply (Hsc _ _ Ht) in Et as [Et _].
    eapply (ri_distinct _ _ Hr); [done.. | congruence | lia].
  - intros i s Hs Es. by apply (Hsc _ _ Hs).
  - done.
  - pose proof (acquire_spec (ring x)) as Ha. destruct (acquire (ring x)).1 as [l|].
    + split; [done|]. intros [Hlen Hbusy]. destruct (slots_ (ring x) !! l_slot l) as [s|] eqn:E; [|lia].
      destruct Ha as (_ & Hf & _). exfalso. eapply Hbusy; [by eapply list_elem_of_lookup_2 | done].
    + split; [|done]. intros _. split; [lia | apply Ha].
Qed.
End Contract.

(** ** Runs *)

Definition run_ring {Colour} (x : Screen Colour) (os : list (ring_op Colour)) : Screen Colour :=
  foldl (ring_step) x os.

(** Two blank pictures, then one with a change in a rectangle. *)
Definition sample_frame (s : Z) (p : Z * Z) : bool :=
  (3 <=? s) && (10 <=? p.1) && (p.1 <? 20) && (0 <=? p.2) && (p.2 <? 5).

Definition sample_change : Rect := mkRect 10 0 10 5.

Definition two_presents : list (ring_op bool) :=
  [Acquire; Render 0 (sample_frame 1); Present 0 [];
   Acquire; Render 1 (sample_frame 2); Present 1 []; Release 0].

Definition changed_present : list (ring_op bool) :=
  [Acquire; Render 0 (sample_frame 3); Present 0 [sample_change]; Release 1].

Definition blank_screen : Screen bool := mkScreen (make_ring 3 16) (fun _ _ => true).

Fixpoint honest_run {Colour} (frame : Z -> Z * Z -> Colour) (x : Screen Colour) (os : list (ring_op Colour)) : Prop :=
  match os with
  | [] => True
  | o :: os' => op_honest frame x o /\ honest_run frame (ring_step x o) os'
  end.

Lemma run_ring_reached {Colour} (frame : Z -> Z * Z -> Colour) k m os x :
  ring_reached frame k m x -> honest_run frame x os -> ring_reached frame k m (run_ring x os).
Proof.
  revert x. induction os as [|o os IH]; intros x Hx; [done|]. intros [Ho Hr]. cbn [run_ring foldl].
  apply IH; [by apply ring_next | done].
Qed.

Lemma sample_blank s : s < 3 -> forall p, sample_frame s p = false.
Proof. intros Hs p. unfold sample_frame. by rewrite (proj2 (Z.leb_gt 3 s) Hs). Qed.

Lemma sample_change_covers : damage_covers sample_frame [sample_change] 3.
Proof.
  intros [a b] Hp. change (sample_frame (3 - 1)) with (sample_frame 2). rewrite (sample_blank 2) by lia.
  unfold sample_frame. cbn [fst snd]. change (3 <=? 3) with true. cbn [andb].
  destruct ((10 <=? a) && (a <? 20) && (0 <=? b) && (b <? 5)) eqn:E; [|done]. exfalso. apply Hp.
  exists sample_change. split; [by apply list_elem_of_singleton|]. cbn. lia.
Qed.

Ltac leased := eexists; split; vm_compute; reflexivity.
Ltac not_leased := intros (s & Hs & Hst); vm_compute in Hs; injection Hs as <-; vm_compute in Hst; discriminate Hst.

Lemma sample_run : honest_run sample_frame blank_screen (two_presents ++ changed_present).
Proof.
  cbn [app two_presents changed_present honest_run]. split_and!; try exact I.
  - leased.
  - split_and!; [leased | | done]. intros p _. change (sample_frame 1 p = sample_frame 0 p). by rewrite !sample_blank by lia.
  - leased.
  - split_and!; [leased | | done]. intros p _. change (sample_frame 2 p = sample_frame 1 p). by rewrite !sample_blank by lia.
  - not_leased.
  - leased.
  - split_and!; [leased | apply sample_change_covers | done].
  - not_leased.
Qed.


Lemma one_slot_on_screen_witness :
  let x := run_ring blank_screen (two_presents ++ changed_present) in
  state <$> slots_ (ring x) = [Scanning; Free] /\ (length (slots_ (ring x)) <= max_slots_ (ring x))%nat.
Proof.
  cbv zeta. split; [by vm_compute|]. refine (proj1 (proj2 (proj2 (one_slot_on_screen sample_frame 3 16 _ _)))).
  apply run_ring_reached; [apply ring_new | apply sample_run].
Defined.

(** [release] takes a slot back whose render was abandoned, but keeps its
    [last_present]: after an abandoned render of slot 0 the next lease of it
    asks for an empty region although the buffer holds the abandoned picture. *)
Definition abandoned_render : list (ring_op bool) :=
  [Acquire; Render 0 (fun _ => true); Release 0].

Lemma abandoned_render_is_not_repainted :
  let x := run_ring blank_screen (two_presents ++ abandoned_render) in
  acquire (ring x) = (Some (mkLease 0 false (mkRepaint false [])), (acquire (ring x)).2) /\
  picture x 0 (0, 0) <> sample_frame (present_seq_ (ring x)) (0, 0).
Proof. by vm_compute. Qed.

(** The age of the slot on screen is 0, as for a slot never presented. *)
Lemma age_of_the_slot_on_screen :
  let r := ring (run_ring blank_screen two_presents) in
  age 1 r = 0 /\ state <$> slots_ r !! 1%nat = Some Scanning /\ age 0 r = 1.
Proof. by vm_compute. Qed.
