(* ===== verification/RingPresenter.v ===== *)
(** The presentation state machine of the externally fed dma-buf sources
    ([src/scene/detail/external_ring_core.hpp] and [.cpp]): the pending frame
    handed from the producer thread to the commit thread, the acquisition
    tokens, the damage carried over dropped frames and the idle hold.

    The pending members are behind a mutex and the others belong to the commit
    thread, so [acquire] is two steps: [take_pending] under the lock and
    [advance] outside it; a [submit] may run between them. *)
From S2P Require Import Prelude.

Record DamageRect := mkDamage { d_x : Z; d_y : Z; d_w : Z; d_h : Z }.
Definition k_max_damage : nat := 16.

(** ** Fences ([src/sync/fence.cpp])

    [poll] is the return value of poll(2) for a descriptor and a timeout; it
    is an argument of every wait, since it differs from call to call. *)
Record SyncFence := mkFence { fence_fd : Z }.

Definition fence_valid (f : SyncFence) : bool := 0 <=? fence_fd f.

(** [ioctl]: what SYNC_IOC_MERGE makes of the two descriptors. *)
Definition fence_merge (ioctl : Z -> Z -> expected Z) (f other : SyncFence) : expected SyncFence :=
  if (fence_fd f <? 0) || (fence_fd other <? 0) then Unexp EBADF
  else match ioctl (fence_fd f) (fence_fd other) with
       | Unexp e => Unexp e
       | Val d => if d <? 0 then Unexp EBADF else Val (mkFence d)
       end.

Definition int_max : Z := 2 ^ 31 - 1.

Definition fence_wait (poll : Z -> Z -> Z) (f : SyncFence) (ms : Z) : bool :=
  if fence_fd f <? 0 then false
  else
    let ms := if int_max <? ms then int_max else ms in
    0 <? poll (fence_fd f) (to_i32 ms).

(** ** The machine *)

Inductive Present := PNone | Fresh | Hold.
#[global] Instance Present_eq_dec : EqDecision Present.
Proof. solve_decision. Defined.

Record Acquired := mkAcquired {
  kind : Present;
  key : Z;
  token : Z;
  fence : option SyncFence;
  damage : list DamageRect
}.

(** The fixed arrays and their counts are the lists of their first [count]
    entries; an empty list is a whole-frame damage. *)
Record RingPresenter := mkPresenter {
  fence_deadline_ : option Z;
  pending_key_ : option Z;
  pending_fence_ : option SyncFence;
  pending_damage_ : list DamageRect;
  scanning_key_ : option Z;
  next_token_ : Z;
  scanning_token_ : Z;
  outstanding_ : list (Z * Z);
  carried_damage_ : list DamageRect;
  carried_damage_whole_ : bool
}.

Definition make_presenter (fence_deadline : option Z) : RingPresenter :=
  mkPresenter fence_deadline None None [] None 0 0 [] [] false.

Definition submit (k : Z) (f : option SyncFence) (dmg : list DamageRect) (p : RingPresenter) : RingPresenter :=
  p {{ pending_key_ := Some k; pending_fence_ := f;
       pending_damage_ := if (k_max_damage <? length dmg)%nat then [] else dmg }}.

Definition has_fresh_frame (p : RingPresenter) : bool := bool_decide (is_Some (pending_key_ p)).

(** What the locked section of [acquire] drains. *)
Record Drained := mkDrained { dr_key : Z; dr_fence : option SyncFence; dr_damage : list DamageRect }.

Definition take_pending (p : RingPresenter) : option Drained * RingPresenter :=
  match pending_key_ p with
  | Some k => (Some (mkDrained k (pending_fence_ p) (pending_damage_ p)),
               p {{ pending_key_ := None; pending_fence_ := None; pending_damage_ := [] }})
  | None => (None, p)
  end.

Definition accumulate_carried_damage (buf : list DamageRect) (p : RingPresenter) : RingPresenter :=
  if carried_damage_whole_ p then p
  else if (length buf =? 0)%nat || (k_max_damage <? length (carried_damage_ p) + length buf)%nat
  then p {{ carried_damage_whole_ := true; carried_damage_ := [] }}
  else p {{ carried_damage_ ::= fun c => c ++ buf }}.

Definition take_damage_with_carry (buf : list DamageRect) (p : RingPresenter) : list DamageRect * RingPresenter :=
  let whole := carried_damage_whole_ p || (length buf =? 0)%nat
               || (k_max_damage <? length (carried_damage_ p) + length buf)%nat in
  (if whole then [] else carried_damage_ p ++ buf,
   p {{ carried_damage_ := []; carried_damage_whole_ := false }}).

(** [duration_cast<milliseconds>], a positive deadline below 1 ms rounded up. *)
Definition deadline_ms (ns : Z) : Z :=
  let ms := Z.quot ns 1000000 in if (ms =? 0) && (0 <? ns) then 1 else ms.

(** The fence wait: the frame that goes on, if any, and its fence. *)
Definition meet_deadline (poll : Z -> Z -> Z) (d : Drained) (p : RingPresenter) : option Drained * RingPresenter :=
  match fence_deadline_ p, dr_fence d with
  | Some ns, Some f =>
      if fence_wait poll f (deadline_ms ns) then (Some (d {{ dr_fence := None }}), p)
      else (None, accumulate_carried_damage (dr_damage d) p)
  | _, _ => (Some d, p)
  end.

Definition bump_token (t : Z) : Z := let t := u64 (t + 1) in if t =? 0 then u64 (t + 1) else t.

Definition promote (d : Drained) (p : RingPresenter) : Acquired * RingPresenter :=
  let t := bump_token (next_token_ p) in
  let p := p {{ scanning_key_ := Some (dr_key d); next_token_ := t; scanning_token_ := t;
                outstanding_ ::= fun o => o ++ [(t, dr_key d)] }} in
  let '(dmg, p) := take_damage_with_carry (dr_damage d) p in
  (mkAcquired Fresh (dr_key d) t (dr_fence d) dmg, p).

Definition hold (p : RingPresenter) : Acquired :=
  match scanning_key_ p with
  | Some k => mkAcquired Hold k (scanning_token_ p) None []
  | None => mkAcquired PNone 0 0 None []
  end.

Definition advance (poll : Z -> Z -> Z) (d : option Drained) (p : RingPresenter) : Acquired * RingPresenter :=
  match d with
  | None => (hold p, p)
  | Some d =>
      match meet_deadline poll d p with
      | (Some d, p) => promote d p
      | (None, p) => (hold p, p)
      end
  end.

Definition acquire (poll : Z -> Z -> Z) (p : RingPresenter) : Acquired * RingPresenter :=
  let '(d, p) := take_pending p in advance poll d p.

Fixpoint erase_token (t : Z) (os : list (Z * Z)) : option Z * list (Z * Z) :=
  match os with
  | [] => (None, [])
  | o :: os' => if o.1 =? t then (Some o.2, os')
                else let '(k, r) := erase_token t os' in (k, o :: r)
  end.

Definition release (t : Z) (p : RingPresenter) : option Z * RingPresenter :=
  if t =? 0 then (None, p)
  else if t =? scanning_token_ p then (None, p)
  else let '(k, os) := erase_token t (outstanding_ p) in (k, p {{ outstanding_ := os }}).

Definition retire_scanning (p : RingPresenter) : RingPresenter := p {{ scanning_token_ := 0 }}.

Definition is_referenced (k : Z) (p : RingPresenter) : bool :=
  bool_decide (scanning_key_ p = Some k) || existsb (fun o => o.2 =? k) (outstanding_ p).

Definition reset (p : RingPresenter) : RingPresenter :=
  p {{ pending_key_ := None; pending_fence_ := None; pending_damage_ := []; scanning_key_ := None;
       next_token_ := 0; scanning_token_ := 0; outstanding_ := [];
       carried_damage_ := []; carried_damage_whole_ := false }}.

(** ** Runs

    [handed]: the acquisitions handed out, newest first, each with its token;
    [fired]: the tokens whose key was given back; [unseen]: the damage of the
    frames dropped since the one on screen, oldest first. *)

Record History := mkHistory {
  handed : list (Z * Z);
  fired : list Z;
  unseen : list (list DamageRect)
}.

Inductive presenter_op :=
  | Submit (k : Z) (f : option SyncFence) (dmg : list DamageRect)
  | Acquire (poll : Z -> Z -> Z)
  | Release (t : Z)
  | Retire.

Definition presenter_step (o : presenter_op) (p : RingPresenter) : RingPresenter :=
  match o with
  | Submit k f dmg => submit k f dmg p
  | Acquire poll => (acquire poll p).2
  | Release t => (release t p).2
  | Retire => retire_scanning p
  end.

Definition record_acquire (a : Acquired) (drained : option Drained) (h : History) : History :=
  match kind a, drained with
  | Fresh, _ => h {{ handed ::= cons (token a, key a); unseen := [] }}
  | _, Some d => h {{ unseen ::= fun u => u ++ [dr_damage d] }}
  | _, None => h
  end.

Definition record (o : presenter_op) (p : RingPresenter) (h : History) : History :=
  match o with
  | Submit _ _ _ | Retire => h
  | Acquire poll => record_acquire (acquire poll p).1 (take_pending p).1 h
  | Release t => match (release t p).1 with Some _ => h {{ fired ::= cons t }} | None => h end
  end.

(** Tokens are pointer-wide; a run is shorter than their range. *)
Definition max_token : Z := 2 ^ 64 - 1.

Inductive presenter_reached : RingPresenter -> History -> Prop :=
  | presenter_new dl : presenter_reached (make_presenter dl) (mkHistory [] [] [])
  | presenter_reset p h : presenter_reached p h -> presenter_reached (reset p) (mkHistory [] [] [])
  | presenter_next p h o : presenter_reached p h -> Z.of_nat (length (handed h)) < max_token ->
      presenter_reached (presenter_step o p) (record o p h).

Record presenter_inv (p : RingPresenter) (h : History) : Prop := {
  pi_tokens : forall i x, handed h !! i = Some x -> x.1 = Z.of_nat (length (handed h)) - Z.of_nat i;
  pi_next : next_token_ p = Z.of_nat (length (handed h));
  pi_range : Z.of_nat (length (handed h)) <= max_token;
  pi_outstanding : forall t k, (t, k) ∈ outstanding_ p <-> (t, k) ∈ handed h /\ t ∉ fired h;
  pi_nodup : NoDup (outstanding_ p).*1;
  pi_scanning : scanning_key_ p = snd <$> head (handed h);
  pi_live : scanning_token_ p = 0 \/ Some (scanning_token_ p) = fst <$> head (handed h);
  pi_live_out : scanning_token_ p <> 0 -> scanning_token_ p ∈ (outstanding_ p).*1;
  pi_fired : forall t, t ∈ fired h -> exists k, (t, k) ∈ handed h
}.

(** The union of the damage of several frames is the whole frame when one of
    them is whole, or when there are more rectangles than the store holds. *)
Definition too_much (fs : list (list DamageRect)) : bool :=
  existsb (fun f => (length f =? 0)%nat) fs || (k_max_damage <? length (mjoin fs))%nat.

Definition damage_union (fs : list (list DamageRect)) : list DamageRect :=
  if too_much fs then [] else mjoin fs.

Definition carry_inv (p : RingPresenter) (h : History) : Prop :=
  carried_damage_whole_ p = too_much (unseen h) /\ carried_damage_ p = damage_union (unseen h).

(** ** Lemmas *)

Lemma erase_token_spec t os :
  NoDup os.*1 ->
  let '(k, os') := erase_token t os in
  (forall k', k = Some k' <-> (t, k') ∈ os) /\
  (forall x, x ∈ os' <-> x ∈ os /\ x.1 <> t) /\ NoDup os'.*1.
Proof.
  induction os as [|[u j] os IH]; cbn [erase_token fst snd].
  { intros _. split_and!; [|set_solver|constructor]. intros k'. split; [done|]. by intros ?%not_elem_of_nil. }
  rewrite fmap_cons. intros [Hu Hnd]%NoDup_cons. cbn [fst] in Hu.
  destruct (Z.eqb_spec u t) as [->|Hne].
  - split_and!; [|intros x; split|done].
    + intros k'. rewrite elem_of_cons. split; [intros [= ->]; auto|].
      intros [[= ->]|Hin]; [done|]. destruct Hu. by apply (list_elem_of_fmap_2 fst) in Hin.
    + intros Hx. split; [by apply list_elem_of_further|]. intros Hxt. destruct Hu.
      rewrite <- Hxt. by apply (list_elem_of_fmap_2 fst).
    + intros [[->|?]%elem_of_cons Hx]; done.
  - specialize (IH Hnd). destruct (erase_token t os) as [k os']. destruct IH as (H1 & H2 & H3). split_and!.
    + intros k'. rewrite elem_of_cons, H1. split; [auto|]. by intros [[= -> ->]|?].
    + intros x. rewrite !elem_of_cons, H2. split; [intros [->|[? ?]]; auto|]. by intros [[->|?] ?]; auto.
    + rewrite fmap_cons. apply NoDup_cons. split; [|done]. cbn [fst]. intros (y & Hy & Hin)%list_elem_of_fmap.
      apply H2 in Hin as [Hin _]. destruct Hu. rewrite Hy. by apply (list_elem_of_fmap_2 fst).
Qed.

Lemma bump_token_small t : 0 <= t < max_token -> bump_token t = t + 1.
Proof.
  unfold max_token, bump_token. intros Ht. rewrite (wrap_small 64 (t + 1)) by (unfold in_u; lia).
  by rewrite (proj2 (Z.eqb_neq (t + 1) 0)) by lia.
Qed.

Lemma handed_fresh p h : presenter_inv p h -> Z.of_nat (length (handed h)) + 1 ∉ (handed h).*1.
Proof.
  intros Hi (x & Hx & [i Hin]%list_elem_of_lookup)%list_elem_of_fmap.
  pose proof (pi_tokens _ _ Hi i x Hin). lia.
Qed.

Lemma handed_inj p h t k k' : presenter_inv p h -> (t, k) ∈ handed h -> (t, k') ∈ handed h -> k = k'.
Proof.
  intros Hi [i Hx]%list_elem_of_lookup [j Hy]%list_elem_of_lookup.
  pose proof (pi_tokens _ _ Hi i _ Hx) as Hi1. pose proof (pi_tokens _ _ Hi j _ Hy) as Hj1. cbn [fst] in *.
  assert (i = j) as -> by lia. congruence.
Qed.

Lemma handed_positive p h t k : presenter_inv p h -> (t, k) ∈ handed h -> 0 < t.
Proof.
  intros Hi [i Hx]%list_elem_of_lookup. pose proof (pi_tokens _ _ Hi i _ Hx). apply lookup_lt_Some in Hx.
  cbn [fst] in *. lia.
Qed.


Lemma too_much_snoc fs buf :
  too_much (fs ++ [buf]) =
  too_much fs || (length buf =? 0)%nat || (k_max_damage <? length (mjoin fs) + length buf)%nat.
Proof.
  unfold too_much. rewrite existsb_app, join_app, length_app. change (mjoin [buf]) with (buf ++ []).
  rewrite app_nil_r. cbn [existsb]. rewrite orb_false_r.
  destruct (existsb _ fs), (length buf =? 0)%nat; cbn [orb]; try done; [by rewrite orb_true_r..|].
  destruct (Nat.ltb_spec k_max_damage (length (mjoin fs))); [|done]. cbn [orb]. apply Nat.ltb_lt. lia.
Qed.

Lemma damage_union_snoc fs buf :
  damage_union (fs ++ [buf]) =
  if too_much fs || (length buf =? 0)%nat || (k_max_damage <? length (damage_union fs) + length buf)%nat
  then [] else damage_union fs ++ buf.
Proof.
  unfold damage_union. rewrite too_much_snoc. destruct (too_much fs); [done|]. cbn [orb].
  rewrite join_app. change (mjoin [buf]) with (buf ++ []). by rewrite app_nil_r.
Qed.

Lemma accumulate_carry buf p h :
  carry_inv p h -> carry_inv (accumulate_carried_damage buf p) (h {{ unseen ::= fun u => u ++ [buf] }}).
Proof.
  destruct p as [dl pk pf pd sk nt st os cd cw], h as [ha fi un]. unfold carry_inv, accumulate_carried_damage.
  simpl. intros [-> ->]. rewrite damage_union_snoc, too_much_snoc. unfold damage_union.
  destruct (too_much un) eqn:Et; simpl; [done|].
  destruct ((length buf =? 0)%nat || (k_max_damage <? length (mjoin un) + length buf)%nat); done.
Qed.

Lemma take_damage_union buf p h :
  carry_inv p h -> (take_damage_with_carry buf p).1 = damage_union (unseen h ++ [buf]).
Proof.
  unfold take_damage_with_carry. intros [-> ->]. cbn [fst]. by rewrite damage_union_snoc.
Qed.

(** What one acquisition does, by the kind of its result. *)
Lemma acquire_cases poll p :
  let '(a, p') := acquire poll p in
  let '(d, q) := take_pending p in
  match kind a with
  | Fresh => exists d', d = Some d' /\ key a = dr_key d' /\ token a = bump_token (next_token_ p) /\
      damage a = (take_damage_with_carry (dr_damage d') p).1 /\ (fence_deadline_ p <> None -> fence a = None) /\
      p' = (promote d' q).2
  | _ => a = hold p /\ p' = match d with Some d' => accumulate_carried_damage (dr_damage d') q | None => q end
  end.
Proof.
  unfold acquire. destruct p as [dl pk pf pd sk nt st os cd cw]. unfold take_pending; simpl.
  destruct pk as [k|]; simpl.
  - unfold meet_deadline; simpl. destruct dl as [ns|], pf as [f|]; simpl; try (eexists; split_and!; done).
    destruct (fence_wait poll f (deadline_ms ns)); simpl; [eexists; split_and!; done|].
    unfold hold, accumulate_carried_damage; simpl.
    destruct cw; [|destruct (_ || _)]; destruct sk; done.
  - unfold hold; simpl. by destruct sk.
Qed.

(** ** The invariants hold *)

Lemma carry_step o p h : carry_inv p h -> carry_inv (presenter_step o p) (record o p h).
Proof.
  intros Hc. destruct o as [k f dmg|poll|t|]; cbn [presenter_step record].
  - by destruct p.
  - pose proof (acquire_cases poll p) as Ha. destruct (acquire poll p) as [a p']. cbn [fst snd] in *.
    unfold take_pending in *. destruct p as [dl pk pf pd sk nt st os cd cw]. simpl in *. unfold record_acquire.
    destruct pk as [k|]; cbn [fst] in *.
    + destruct (kind a).
      * destruct Ha as [_ ->]. by apply (accumulate_carry pd).
      * destruct Ha as (d' & [= <-] & _ & _ & _ & _ & ->). by destruct h.
      * destruct Ha as [_ ->]. by apply (accumulate_carry pd).
    + destruct (kind a); [by destruct Ha as [_ ->] | by destruct Ha as (d' & ? & _) | by destruct Ha as [_ ->]].
  - unfold release. destruct (t =? 0); [done|]. destruct (t =? scanning_token_ p); [done|].
    destruct (erase_token t (outstanding_ p)) as [k os]. cbn [fst snd]. by destruct p, h, k.
  - by destruct p.
Qed.

(** The members the tokens do not depend on. *)
Definition same_tokens (p q : RingPresenter) : Prop :=
  scanning_key_ q = scanning_key_ p /\ next_token_ q = next_token_ p /\
  scanning_token_ q = scanning_token_ p /\ outstanding_ q = outstanding_ p.

Lemma token_inv_same p q h u :
  same_tokens p q -> presenter_inv p h -> presenter_inv q (mkHistory (handed h) (fired h) u).
Proof.
  intros (E1 & E2 & E3 & E4) [H1 H2 H3 H4 H5 H6 H7 H8 H9].
  split; cbn [handed fired unseen]; rewrite ?E1, ?E2, ?E3, ?E4; done.
Qed.

Lemma take_pending_same p : same_tokens p (take_pending p).2.
Proof. unfold take_pending. by destruct p as [dl [k|] pf pd sk nt st os cd cw]. Qed.

Lemma accumulate_same buf p q : same_tokens p q -> same_tokens p (accumulate_carried_damage buf q).
Proof.
  unfold accumulate_carried_damage. destruct q as [dl pk pf pd sk nt st os cd cw]. simpl.
  destruct cw; [done|]. by destruct (_ || _).
Qed.

Lemma token_inv_promote d p h :
  presenter_inv p h -> Z.of_nat (length (handed h)) < max_token ->
  presenter_inv (promote d p).2 (mkHistory ((bump_token (next_token_ p), dr_key d) :: handed h) (fired h) []).
Proof.
  intros Hi Hlt. pose proof (handed_fresh _ _ Hi) as Hfresh.
  pose proof Hi as [H1 H2 H3 H4 H5 H6 H7 H8 H9]. rewrite H2, bump_token_small by lia.
  set (n := Z.of_nat (length (handed h))) in *.
  assert (Hnf : n + 1 ∉ fired h).
  { intros (k & Hk)%H9. apply Hfresh. by apply (list_elem_of_fmap_2 fst) in Hk. }
  assert (Hno : n + 1 ∉ (outstanding_ p).*1).
  { intros ([t k] & Ht & Hk%H4)%list_elem_of_fmap. destruct Hk as [Hk _]. apply Hfresh.
    apply (list_elem_of_fmap_2 fst) in Hk. cbn [fst] in *. congruence. }
  unfold promote, take_damage_with_carry. rewrite H2. fold n. rewrite bump_token_small by lia.
  destruct p as [dl pk pf pd sk nt st os cd cw]. simpl in *.
  split; cbn [handed fired outstanding_ next_token_ scanning_key_ scanning_token_]; fold n.
  - intros [|i] x Hx; simpl in Hx; cbn [length].
    + injection Hx as <-. cbn [fst]. lia.
    + specialize (H1 i x Hx). lia.
  - cbn [length]. lia.
  - cbn [length]. lia.
  - intros t k. rewrite elem_of_app, list_elem_of_singleton, elem_of_cons, H4. split.
    + intros [[? ?]|[= -> ->]]; auto.
    + intros [[[= -> ->]|?] ?]; auto.
  - rewrite fmap_app. apply NoDup_app. split_and!; [done | | apply NoDup_singleton].
    intros x Hx ->%list_elem_of_singleton. by apply Hno.
  - done.
  - by right.
  - intros _. rewrite fmap_app. apply elem_of_app. right. by apply list_elem_of_singleton.
  - intros t (k & Hk)%H9. exists k. by apply list_elem_of_further.
Qed.

Lemma token_inv_release t p h :
  presenter_inv p h ->
  presenter_inv (release t p).2 (match (release t p).1 with Some _ => h {{ fired ::= cons t }} | None => h end).
Proof.
  intros Hi. unfold release. destruct (Z.eqb_spec t 0) as [|Hz]; [done|].
  destruct (Z.eqb_spec t (scanning_token_ p)) as [|Hl]; [done|].
  pose proof Hi as [H1 H2 H3 H4 H5 H6 H7 H8 H9].
  pose proof (erase_token_spec t _ H5) as Hs. destruct (erase_token t (outstanding_ p)) as [k os].
  destruct Hs as (E1 & E2 & E3). cbn [fst snd].
  destruct p as [dl pk pf pd sk nt st os0 cd cw], h as [ha fi un]. simpl in *.
  assert (Hos : forall t' k', (t', k') ∈ os <-> (t', k') ∈ ha /\ t' ∉ (if k then t :: fi else fi)).
  { intros t' k'. rewrite E2, H4. cbn [fst]. destruct k as [k|].
    - rewrite elem_of_cons. tauto.
    - split; [tauto|]. intros [? ?]. split; [done|]. intros ->.
      assert (Hin : (t, k') ∈ os0) by by apply H4. by apply E1 in Hin. }
  split; destruct k as [k|]; simpl; try done.
  1, 2: intros Hst; specialize (H8 Hst); apply list_elem_of_fmap in H8 as (x & -> & Hx);
    apply (list_elem_of_fmap_2 fst), E2; split; congruence.
  intros t' [->|?]%elem_of_cons; [|by apply H9]. exists k. by apply (H4 t k), E1.
Qed.

Lemma token_inv_retire p h : presenter_inv p h -> presenter_inv (retire_scanning p) h.
Proof.
  intros [H1 H2 H3 H4 H5 H6 H7 H8 H9]. unfold retire_scanning.
  destruct p as [dl pk pf pd sk nt st os cd cw]. by split; simpl in *; auto.
Qed.

Lemma token_inv_step o p h :
  presenter_inv p h -> Z.of_nat (length (handed h)) < max_token ->
  presenter_inv (presenter_step o p) (record o p h).
Proof.
  intros Hi Hlt. destruct o as [k f dmg|poll|t|]; cbn [presenter_step record].
  - assert (Hs : same_tokens p (submit k f dmg p)) by by destruct p.
    pose proof (token_inv_same _ _ _ (unseen h) Hs Hi) as Hq. by destruct h.
  - pose proof (acquire_cases poll p) as Ha. pose proof (take_pending_same p) as Hs.
    destruct (acquire poll p) as [a p'], (take_pending p) as [d q]. cbn [fst snd] in *.
    pose proof (token_inv_same _ _ _ (unseen h) Hs Hi) as Hq.
    assert (Hheld : kind a <> Fresh ->
      p' = match d with Some d' => accumulate_carried_damage (dr_damage d') q | None => q end ->
      presenter_inv p' (record_acquire a d h)).
    { intros Hk ->. assert (record_acquire a d h = mkHistory (handed h) (fired h) (unseen (record_acquire a d h))) as ->.
      { unfold record_acquire. destruct h. by destruct (kind a), d. }
      apply (token_inv_same p); [|done]. destruct d; [by apply accumulate_same | done]. }
    destruct (kind a) eqn:Ek; [by apply Hheld; destruct Ha | | by apply Hheld; destruct Ha].
    destruct Ha as (d' & -> & Hkey & Htok & _ & _ & ->). unfold record_acquire. rewrite Ek, Hkey, Htok.
    destruct Hs as (_ & Hn & _ & _). rewrite <- Hn.
    apply (token_inv_promote d' q _ Hq Hlt).
  - by apply token_inv_release.
  - by apply token_inv_retire.
Qed.

Lemma presenter_reached_inv p h : presenter_reached p h -> presenter_inv p h /\ carry_inv p h.
Proof.
  induction 1 as [dl|p h _ _|p h o _ [IH1 IH2] Hlt].
  1, 2: split; [|done]; split; simpl; try done; [| constructor | by left |].
  1, 3: intros t k; rewrite elem_of_nil; tauto.
  1, 2: by intros t ?%elem_of_nil.
  split; [by apply token_inv_step | by apply carry_step].
Qed.

(** ** The protocol *)

Lemma release_iff t k p h :
  presenter_inv p h ->
  (release t p).1 = Some k <-> (t, k) ∈ handed h /\ t ∉ fired h /\ t <> scanning_token_ p.
Proof.
  intros Hi. pose proof (pi_outstanding _ _ Hi t k) as Ho. unfold release.
  pose proof (erase_token_spec t _ (pi_nodup _ _ Hi)) as Hs.
  destruct (Z.eqb_spec t 0) as [->|Hz].
  { cbn [fst]. split; [done|]. intros [Hin _]. apply (handed_positive _ _ _ _ Hi) in Hin. lia. }
  destruct (Z.eqb_spec t (scanning_token_ p)) as [Hl|Hl]; [cbn [fst]; split; [done | tauto]|].
  destruct (erase_token t (outstanding_ p)) as [k' os]. destruct Hs as (E1 & _). cbn [fst]. rewrite E1. tauto.
Qed.

(** C27. Every acquisition is given back exactly once and never while it is on
    screen: in every run of submits, acquires, releases of any token and
    retirements, releasing a token yields a key exactly when it was handed out
    with that key, has not been given back, and is not the live token; and
    the live token is the newest one until the source retires. *)
Theorem release_fires_once p h t k :
  presenter_reached p h ->
  ((release t p).1 = Some k <-> (t, k) ∈ handed h /\ t ∉ fired h /\ t <> scanning_token_ p) /\
  (scanning_token_ p = 0 \/ exists k', head (handed h) = Some (scanning_token_ p, k')) /\
  NoDup (handed h).*1.
Proof.
  intros [Hi _]%presenter_reached_inv. split_and!.
  - by apply release_iff.
  - destruct (pi_live _ _ Hi) as [?|Hl]; [by left|]. right.
    destruct (handed h) as [|[t' k'] ha]; [done|]. injection Hl as ->. by eexists.
  - apply NoDup_alt. intros i j t' Hx Hy. rewrite list_lookup_fmap in Hx, Hy.
    destruct (handed h !! i) as [x|] eqn:Ei; [|done]. destruct (handed h !! j) as [y|] eqn:Ej; [|done].
    pose proof (pi_tokens _ _ Hi i x Ei). pose proof (pi_tokens _ _ Hi j y Ej).
    cbn in Hx, Hy. injection Hx as <-. injection Hy as Hy. lia.
Qed.

(** C28. The damage of a presented frame covers everything that changed since
    the one on screen: it is the union of the frame's own damage and that of
    every frame dropped at its fence deadline in between, or the whole frame
    when one of them was whole or the union does not fit the store; and once
    a frame was shown an acquire always has one to show, the newest, again
    under its own token. *)
Theorem presented_damage_covers poll p h :
  presenter_reached p h ->
  let '(a, p') := acquire poll p in
  match kind a with
  | Fresh => exists d, (take_pending p).1 = Some d /\ key a = dr_key d /\
      damage a = damage_union (unseen h ++ [dr_damage d]) /\
      (fence_deadline_ p <> None -> fence a = None)
  | Hold => damage a = [] /\ fence a = None /\ token a = scanning_token_ p /\
      Some (key a) = snd <$> head (handed h)
  | PNone => handed h = []
  end.
Proof.
  intros [Hi Hc]%presenter_reached_inv. pose proof (acquire_cases poll p) as Ha.
  destruct (acquire poll p) as [a p'], (take_pending p) as [d q]. cbn [fst]. destruct (kind a) eqn:Ek.
  - destruct Ha as [-> _]. unfold hold in Ek. pose proof (pi_scanning _ _ Hi) as Hs.
    destruct (scanning_key_ p); [done|]. by destruct (handed h).
  - destruct Ha as (d' & -> & Hkey & _ & Hd & Hf & _). exists d'. split_and!; [done..| |done].
    rewrite Hd. by apply take_damage_union.
  - destruct Ha as [-> _]. unfold hold in *. rewrite <- (pi_scanning _ _ Hi).
    by destruct (scanning_key_ p).
Qed.

(** A submit between the two halves of an acquire is a submit after it: the
    lock around the drain makes the whole of [acquire] atomic. *)
Lemma submit_passes_advance poll d k f dmg p :
  advance poll d (submit k f dmg p) = ((advance poll d p).1, submit k f dmg (advance poll d p).2).
Proof.
  destruct p as [dl pk pf pd sk nt st os cd cw]. destruct d as [[k' f' dmg']|]; unfold advance, submit; simpl.
  - unfold meet_deadline; simpl. destruct dl as [ns|], f' as [f'|]; simpl; try done.
    destruct (fence_wait poll f' (deadline_ms ns)); [done|]. unfold accumulate_carried_damage; simpl.
    destruct cw; [done|]. by destruct (_ || _).
  - done.
Qed.

(** ** Concrete runs *)

Definition run_presenter (s : RingPresenter * History) (os : list presenter_op) : RingPresenter * History :=
  foldl (fun s o => (presenter_step o s.1, record o s.1 s.2)) s os.

Definition new_run (dl : option Z) : RingPresenter * History := (make_presenter dl, mkHistory [] [] []).

Lemma run_presenter_reached os s :
  presenter_reached s.1 s.2 -> Z.of_nat (length (handed s.2)) + Z.of_nat (length os) < max_token ->
  presenter_reached (run_presenter s os).1 (run_presenter s os).2.
Proof.
  revert s. induction os as [|o os IH]; intros s Hs Hlen; [done|]. cbn [length] in Hlen.
  cbn [run_presenter foldl]. apply IH; cbn [fst snd]; [apply presenter_next; [done | lia]|].
  assert (length (handed (record o s.1 s.2)) <= S (length (handed s.2)))%nat; [|lia].
  destruct o as [k f dmg|poll|t|]; cbn [record]; [lia | | |lia].
  - unfold record_acquire. destruct (kind _), (take_pending s.1).1; destruct s as [p [ha fi un]]; simpl; lia.
  - destruct (release t s.1).1; destruct s as [p [ha fi un]]; simpl; lia.
Qed.

Definition box (x : Z) : DamageRect := mkDamage x 0 8 8.
Definition signalled : Z -> Z -> Z := fun _ _ => 1.
Definition timed_out : Z -> Z -> Z := fun _ _ => 0.

(** Buffer 7 is shown, buffer 8 misses its deadline, buffer 9 is submitted. *)
Definition missed_deadline : list presenter_op :=
  [Submit 7 None [box 0]; Acquire signalled; Submit 8 (Some (mkFence 3)) [box 1]; Acquire timed_out;
   Submit 9 (Some (mkFence 4)) [box 2]].

Lemma missed_deadline_reached :
  presenter_reached (run_presenter (new_run (Some 5000000)) missed_deadline).1
                    (run_presenter (new_run (Some 5000000)) missed_deadline).2.
Proof. apply run_presenter_reached; [apply presenter_new | unfold max_token; simpl; lia]. Qed.

(** Its damage reaches the next frame that is shown. *)
Lemma presented_damage_covers_witness :
  let s := run_presenter (new_run (Some 5000000)) missed_deadline in
  (acquire signalled s.1).1 = mkAcquired Fresh 9 2 None [box 1; box 2] /\
  exists d, (take_pending s.1).1 = Some d /\ 9 = dr_key d /\
    [box 1; box 2] = damage_union (unseen s.2 ++ [dr_damage d]) /\
    (fence_deadline_ s.1 <> None -> None (A := SyncFence) = None).
Proof.
  cbv zeta. split; [by vm_compute|].
  exact (presented_damage_covers signalled _ _ missed_deadline_reached).
Defined.

(** Buffer 7 is given back once buffer 9 is shown, and not a second time. *)
Lemma release_fires_once_witness :
  let s := run_presenter (new_run (Some 5000000)) (missed_deadline ++ [Acquire signalled]) in
  ((release 1 s.1).1 = Some 7 <-> (1, 7) ∈ handed s.2 /\ 1 ∉ fired s.2 /\ 1 <> scanning_token_ s.1) /\
  (release 1 s.1).1 = Some 7 /\ (release 2 s.1).1 = None /\ (release 1 (release 1 s.1).2).1 = None.
Proof.
  cbv zeta. split; [|by vm_compute].
  refine (proj1 (release_fires_once _ _ 1 7 _)).
  apply run_presenter_reached; [apply presenter_new | unfold max_token; simpl; lia].
Defined.

(** [reset] starts the tokens again at 1, so a token from before the reset
    names an acquisition after it. *)
Lemma stale_token_after_reset :
  let before := run_presenter (new_run None) [Submit 7 None []; Acquire signalled] in
  let after := run_presenter (reset before.1, mkHistory [] [] [])
    [Submit 8 None []; Acquire signalled; Submit 9 None []; Acquire signalled] in
  handed before.2 = [(1, 7)] /\ (release 1 after.1).1 = Some 8.
Proof. by vm_compute. Qed.

(** ** What the machine promises to its owners

    A source built on it needs only this: which key is pending, which keys are
    on screen or in a commit, and how the operations move them. *)

Class Presentation (P : Type) := {
  pm_make : option Z -> P;
  pm_submit : Z -> option SyncFence -> list DamageRect -> P -> P;
  pm_acquire : (Z -> Z -> Z) -> P -> Acquired * P;
  pm_release : Z -> P -> option Z * P;
  pm_retire_scanning : P -> P;
  pm_reset : P -> P;
  pm_has_fresh_frame : P -> bool;
  pm_scanning_key : P -> option Z;
  pm_is_referenced : Z -> P -> bool;
  (** The key submitted and not yet acquired (private in the source). *)
  pm_pending : P -> option Z
}.

Class PresentationLaws (P : Type) `{Presentation P} : Prop := {
  pm_make_pending dl : pm_pending (pm_make dl) = None;
  pm_make_referenced dl j : pm_is_referenced j (pm_make dl) = false;
  pm_submit_pending k f d p : pm_pending (pm_submit k f d p) = Some k;
  pm_submit_referenced k f d j p : pm_is_referenced j (pm_submit k f d p) = pm_is_referenced j p;
  pm_acquire_pending poll p : pm_pending (pm_acquire poll p).2 = None;
  pm_acquire_fresh poll p : kind (pm_acquire poll p).1 = Fresh ->
    pm_pending p = Some (key (pm_acquire poll p).1) /\
    forall j, pm_is_referenced j (pm_acquire poll p).2 = true ->
      pm_is_referenced j p = true \/ j = key (pm_acquire poll p).1;
  pm_acquire_other poll p : kind (pm_acquire poll p).1 <> Fresh ->
    forall j, pm_is_referenced j (pm_acquire poll p).2 = pm_is_referenced j p;
  pm_acquire_key poll p : kind (pm_acquire poll p).1 <> PNone ->
    pm_is_referenced (key (pm_acquire poll p).1) (pm_acquire poll p).2 = true;
  pm_release_pending t p : pm_pending (pm_release t p).2 = pm_pending p;
  pm_release_referenced t j p : pm_is_referenced j (pm_release t p).2 = true -> pm_is_referenced j p = true;
  pm_retire_pending p : pm_pending (pm_retire_scanning p) = pm_pending p;
  pm_retire_referenced j p : pm_is_referenced j (pm_retire_scanning p) = pm_is_referenced j p;
  pm_reset_pending p : pm_pending (pm_reset p) = None;
  pm_reset_referenced j p : pm_is_referenced j (pm_reset p) = false
}.

#[export] Instance ring_presenter : Presentation RingPresenter := {
  pm_make := make_presenter;
  pm_submit := submit;
  pm_acquire := acquire;
  pm_release := release;
  pm_retire_scanning := retire_scanning;
  pm_reset := reset;
  pm_has_fresh_frame := has_fresh_frame;
  pm_scanning_key := scanning_key_;
  pm_is_referenced := is_referenced;
  pm_pending := pending_key_
}.

Lemma promote_referenced d p j :
  is_referenced j (promote d p).2 = true -> is_referenced j p = true \/ j = dr_key d.
Proof.
  unfold is_referenced, promote, take_damage_with_carry. destruct p as [dl pk pf pd sk nt st os cd cw]. simpl.
  rewrite existsb_app. simpl. rewrite orb_false_r, !orb_true_iff, Z.eqb_eq, !bool_decide_eq_true.
  intros [[= <-]|[?| <-]]; auto.
Qed.

Lemma erase_token_subset t os o : o ∈ (erase_token t os).2 -> o ∈ os.
Proof.
  induction os as [|u os IH]; cbn [erase_token]; [done|]. destruct (u.1 =? t); cbn [snd].
  - intros Ho. by apply list_elem_of_further.
  - destruct (erase_token t os) as [k r]. cbn [snd] in *. rewrite !elem_of_cons. tauto.
Qed.

Lemma referenced_same j p q : same_tokens p q -> is_referenced j q = is_referenced j p.
Proof. intros (E1 & _ & _ & E2). unfold is_referenced. by rewrite E1, E2. Qed.

Lemma acquire_pending poll p : pending_key_ (acquire poll p).2 = None.
Proof.
  pose proof (acquire_cases poll p) as Ha. destruct (acquire poll p) as [a p'], (take_pending p) as [d q] eqn:Et.
  assert (Hq : pending_key_ q = None).
  { revert Et. unfold take_pending. destruct p as [dl [k|] pf pd sk nt st os cd cw]; intros [= _ <-]; done. }
  assert (Hacc : forall buf, pending_key_ (accumulate_carried_damage buf q) = None).
  { intros buf. unfold accumulate_carried_damage. destruct q as [dl pk pf pd sk nt st os cd cw]. simpl in *.
    destruct cw; [done|]. by destruct (_ || _). }
  cbn [snd]. destruct (kind a).
  - destruct Ha as [_ ->]. by destruct d.
  - destruct Ha as (d' & _ & _ & _ & _ & _ & ->). by destruct q.
  - destruct Ha as [_ ->]. by destruct d.
Qed.

Lemma acquire_held poll p j :
  kind (acquire poll p).1 <> Fresh -> is_referenced j (acquire poll p).2 = is_referenced j p.
Proof.
  pose proof (acquire_cases poll p) as Ha. pose proof (take_pending_same p) as Hs.
  destruct (acquire poll p) as [a p'], (take_pending p) as [d q]. cbn [fst snd] in *.
  destruct (kind a); [|done|]; destruct Ha as [_ ->]; intros _; apply referenced_same;
    (destruct d; [by apply accumulate_same | done]).
Qed.

#[export] Instance ring_presenter_laws : PresentationLaws RingPresenter.
Proof.
  split; cbn [pm_make pm_submit pm_acquire pm_release pm_retire_scanning pm_reset pm_is_referenced pm_pending ring_presenter].
  - done.
  - done.
  - by intros k f d [].
  - by intros k f d j [].
  - apply acquire_pending.
  - intros poll p Hk. pose proof (acquire_cases poll p) as Ha. pose proof (take_pending_same p) as Hs.
    assert (Hd : (take_pending p).1 = None \/ dr_key <$> (take_pending p).1 = pending_key_ p)
      by (unfold take_pending; destruct (pending_key_ p); [by right | by left]).
    destruct (acquire poll p) as [a p'], (take_pending p) as [d q]. cbn [fst snd] in *. rewrite Hk in Ha.
    destruct Ha as (d' & -> & -> & _ & _ & _ & ->). destruct Hd as [?|<-]; [done|]. split; [done|].
    intros j Hj%promote_referenced. by rewrite (referenced_same j _ _ Hs) in Hj.
  - intros poll p Hk j. by apply acquire_held.
  - intros poll p Hk. destruct (decide (kind (acquire poll p).1 = Fresh)) as [Hf|Hf].
    + pose proof (acquire_cases poll p) as Ha. destruct (acquire poll p) as [a p'], (take_pending p) as [d q].
      cbn [fst snd] in *. rewrite Hf in Ha. destruct Ha as (d' & _ & -> & _ & _ & _ & ->).
      unfold is_referenced, promote, take_damage_with_carry. destruct q. simpl. by rewrite bool_decide_eq_true_2.
    + rewrite (acquire_held _ _ _ Hf). pose proof (acquire_cases poll p) as Ha.
      destruct (acquire poll p) as [a p'], (take_pending p) as [d q]. cbn [fst snd] in *.
      assert (a = hold p) as -> by (destruct (kind a); [apply Ha | done | apply Ha]).
      unfold hold in *. unfold is_referenced. destruct (scanning_key_ p); [|done]. cbn [key]. by rewrite bool_decide_eq_true_2.
  - intros t p. unfold release. destruct (t =? 0); [done|]. destruct (t =? scanning_token_ p); [done|].
    destruct (erase_token t (outstanding_ p)). by destruct p.
  - intros t j p. unfold release. destruct (t =? 0); [done|]. destruct (t =? scanning_token_ p); [done|].
    pose proof (erase_token_subset t (outstanding_ p)) as Hsub. destruct (erase_token t (outstanding_ p)) as [k os].
    destruct p as [dl pk pf pd sk nt st os0 cd cw]. unfold is_referenced. simpl in *.
    rewrite !orb_true_iff. intros [?|(o & Ho & Hj)%existsb_exists]; [by left|]. right. apply existsb_exists.
    exists o. split; [|done]. apply list_elem_of_In, Hsub, list_elem_of_In, Ho.
  - by intros [].
  - by intros j [].
  - by intros [].
  - by intros j [].
Qed.
