(* ===== verification/BufferSource.v ===== *)
(** The buffer a layer shows and the interface of what produces it:
    [src/scene/buffer_source.hpp]. *)
From S2P Require Import Prelude RingPresenter.

Record AcquiredBuffer := mkBuffer {
  ab_fb_id : Z; ab_opaque : Z; ab_fence : option SyncFence; ab_damage : list DamageRect
}.

Record SourceFormat := mkFormat { drm_fourcc : Z; f_modifier : Z; width : Z; height : Z }.

Record DmaBufDesc := mkDesc {
  n_planes : nat; de_fourcc : Z; de_modifier : Z; de_width : Z; de_height : Z;
  de_fds : list Z; de_offsets : list Z; de_pitches : list Z
}.

Definition EINVAL : errc := Errno 22.
Definition ENOSYS : errc := Errno 38.
Definition ENOTSUP : errc := Errno 95.

(** [LayerBufferSource], as far as the scene calls it.  A source is any state
    with these methods; the const ones are functions of the state. *)
Class LayerBufferSource (Src : Type) := {
  src_acquire : Src -> expected AcquiredBuffer * Src;
  src_release : AcquiredBuffer -> Src -> Src;
  src_release_with_fence : AcquiredBuffer -> option SyncFence -> Src -> Src;
  src_wants_release_fence : Src -> bool;
  src_has_fresh_content : Src -> bool;
  src_on_retired : Src -> Src;
  src_driver_owns_binding : Src -> bool;
  src_on_session_paused : Src -> Src;
  src_on_session_resumed : Src -> expected unit * Src;
  src_bind_to_plane : Z -> Src -> expected unit * Src;
  src_unbind_from_plane : Z -> Src -> Src;
  src_format : Src -> SourceFormat
}.

(** ** A source to try things on *)

(** A source with a queue of framebuffers, empty when it has nothing to show. *)
Definition Queue : Type := list Z.

#[export] Instance queue_source : LayerBufferSource Queue := {
  src_acquire q := match q with
                   | [] => (Unexp EAGAIN, [])
                   | fb :: q' => (Val (mkBuffer fb fb None []), q')
                   end;
  src_release _ q := q;
  src_release_with_fence _ _ q := q;
  src_wants_release_fence _ := false;
  src_has_fresh_content q := negb (bool_decide (q = []));
  src_on_retired q := q;
  src_driver_owns_binding _ := false;
  src_on_session_paused q := q;
  src_on_session_resumed q := (Val tt, q);
  src_bind_to_plane _ q := (Val tt, q);
  src_unbind_from_plane _ q := q;
  src_format _ := mkFormat 875713112 0 64 64
}.
