(* ===== verification/DmaBufSlot.v ===== *)
(** One imported dma-buf: [src/scene/detail/dmabuf_slot.hpp] and [.cpp], with
    the AddFB2 entry point of [src/core/addfb2.hpp].

    The descriptors, GEM handles and framebuffers live in the kernel behind
    fcntl, close and libdrm: one interface, whose laws say which descriptors
    are open and which framebuffers exist. *)
From S2P Require Import Prelude BufferSource.

(** The arguments of AddFB2: four entries each, unused ones zero. *)
Record FbRequest := mkFbRequest {
  fr_width : Z; fr_height : Z; fr_fourcc : Z;
  fr_handles : list Z; fr_pitches : list Z; fr_offsets : list Z;
  fr_modifiers : option (list Z); fr_flags : Z
}.

Class DmaBufKernel := {
  kstate : Type;
  (** The open descriptors, and the framebuffers of the file a descriptor is for. *)
  open_fds : kstate -> gset Z;
  framebuffers : kstate -> Z -> gset Z;
  (** [fcntl(fd, F_DUPFD_CLOEXEC, 0)]: its return and [errno]. *)
  fcntl_dupfd : Z -> kstate -> Z * Z * kstate;
  close_fd : Z -> kstate -> kstate;
  (** Return, handle and [errno]. *)
  drmPrimeFDToHandle : Z -> Z -> kstate -> Z * Z * Z * kstate;
  (** [drmGetCap(fd, DRM_CAP_ADDFB2_MODIFIERS)]: return and value. *)
  drmGetCap_modifiers : Z -> kstate -> Z * Z;
  (** Return, id and [errno]. *)
  drmModeAddFB2WithModifiers : Z -> FbRequest -> kstate -> Z * Z * Z * kstate;
  drmModeRmFB : Z -> Z -> kstate -> kstate;
  gem_close : Z -> Z -> kstate -> kstate
}.

(** The documented behaviour the sources rely on: a duplicate is a new open
    descriptor of the same file, closing one descriptor leaves the files of the
    others alone, and only AddFB2 and RmFB create and destroy framebuffers. *)
Class DmaBufKernelLaws `{K : DmaBufKernel} : Prop := {
  dupfd_law : forall fd k n e k', fcntl_dupfd fd k = (n, e, k') ->
    (forall d, d <> n -> framebuffers k' d = framebuffers k d) /\
    if n <? 0 then open_fds k' = open_fds k
    else n ∉ open_fds k /\ open_fds k' = {[n]} ∪ open_fds k /\ framebuffers k' n = framebuffers k fd;
  close_law : forall fd k, open_fds (close_fd fd k) = open_fds k ∖ {[fd]} /\
    forall d, d <> fd -> framebuffers (close_fd fd k) d = framebuffers k d;
  prime_law : forall fd d k rc h e k', drmPrimeFDToHandle fd d k = (rc, h, e, k') ->
    open_fds k' = open_fds k /\ forall d, framebuffers k' d = framebuffers k d;
  addfb_law : forall fd r k rc id e k', drmModeAddFB2WithModifiers fd r k = (rc, id, e, k') ->
    open_fds k' = open_fds k /\
    if (rc =? 0) && negb (id =? 0) then id ∉ framebuffers k fd /\ framebuffers k' fd = {[id]} ∪ framebuffers k fd
    else framebuffers k' fd = framebuffers k fd;
  rmfb_law : forall fd id k, open_fds (drmModeRmFB fd id k) = open_fds k /\
    framebuffers (drmModeRmFB fd id k) fd = framebuffers k fd ∖ {[id]};
  gem_close_law : forall fd h k, open_fds (gem_close fd h k) = open_fds k /\
    forall d, framebuffers (gem_close fd h k) d = framebuffers k d
}.

Definition k_max_planes : nat := 4.
Definition k_mod_invalid : Z := 2 ^ 56 - 1.
Definition DRM_FORMAT_MOD_LINEAR : Z := 0.
Definition DRM_MODE_FB_MODIFIERS : Z := 2.

Record PlaneRecord := mkPlane { duped_fd : Z; gem_handle : Z; offset : Z; pitch : Z }.

(** [planes] is the first [plane_count] entries of the array. *)
Record DmaBufSlot := mkSlot { planes : list PlaneRecord; fb_id : Z; modifier : Z }.

Record ExternalPlaneInfo := mkInfo { p_fd : Z; p_offset : Z; p_pitch : Z }.

Definition last_errno_or (e fallback : Z) : errc := errno_code (if negb (e =? 0) then e else fallback).

Section Slot.
Context `{K : DmaBufKernel}.

Fixpoint dup_planes (ps : list ExternalPlaneInfo) (s : DmaBufSlot) (k : kstate)
  : expected unit * DmaBufSlot * kstate :=
  match ps with
  | [] => (Val tt, s, k)
  | p :: ps' =>
      let '(duped, e, k) := fcntl_dupfd (p_fd p) k in
      if duped <? 0 then (Unexp (last_errno_or e 9), s, k)
      else dup_planes ps' (s {{ planes ::= fun l => l ++ [mkPlane duped 0 (p_offset p) (p_pitch p)] }}) k
  end.

(** Handles are written as they come; a failure keeps those already written. *)
Fixpoint prime_planes (fd : Z) (ps : list PlaneRecord) (k : kstate) : expected unit * list PlaneRecord * kstate :=
  match ps with
  | [] => (Val tt, [], k)
  | p :: ps' =>
      let '(rc, h, e, k) := drmPrimeFDToHandle fd (duped_fd p) k in
      if negb (rc =? 0) || (h =? 0) then (Unexp (last_errno_or e 5), ps, k)
      else let '(r, qs, k) := prime_planes fd ps' k in (r, p {{ gem_handle := h }} :: qs, k)
  end.

Definition addfb2_needs_modifiers (fd m : Z) (k : kstate) : bool :=
  if m =? k_mod_invalid then false
  else if negb (m =? DRM_FORMAT_MOD_LINEAR) then true
  else let '(rc, cap) := drmGetCap_modifiers fd k in (rc =? 0) && negb (cap =? 0).

Definition pad4 (x : Z) (l : list Z) : list Z := l ++ replicate (k_max_planes - length l) x.

(** With [flags] 0, as every caller here passes. *)
Definition add_fb2 (fd w h fourcc : Z) (handles pitches offsets modifiers : list Z) (k : kstate)
  : Z * Z * Z * kstate :=
  let use_modifiers := addfb2_needs_modifiers fd (default 0 (head modifiers)) k in
  drmModeAddFB2WithModifiers fd
    (mkFbRequest w h fourcc handles pitches offsets (if use_modifiers then Some modifiers else None)
                 (if use_modifiers then DRM_MODE_FB_MODIFIERS else 0)) k.

Definition import_slot (fd : Z) (s : DmaBufSlot) (fmt : SourceFormat) (k : kstate)
  : expected unit * DmaBufSlot * kstate :=
  let '(r, ps, k) := prime_planes fd (planes s) k in
  let s := s {{ planes := ps }} in
  match r with
  | Unexp e => (Unexp e, s, k)
  | Val _ =>
      let '(rc, id, e, k) :=
        add_fb2 fd (width fmt) (height fmt) (drm_fourcc fmt) (pad4 0 (gem_handle <$> ps)) (pad4 0 (pitch <$> ps))
                (pad4 0 (offset <$> ps)) (pad4 0 ((fun _ => modifier s) <$> ps)) k in
      let s := if rc =? 0 then s {{ fb_id := id }} else s in
      if negb (rc =? 0) || (fb_id s =? 0) then (Unexp (last_errno_or e 5), s, k) else (Val tt, s, k)
  end.

Definition close_handles (fd : Z) (ps : list PlaneRecord) (k : kstate) : kstate :=
  foldl (fun k p => if negb (gem_handle p =? 0) then gem_close fd (gem_handle p) k else k) k ps.

Definition drop_handles (s : DmaBufSlot) : DmaBufSlot :=
  s {{ fb_id := 0; planes ::= fmap (fun p => p {{ gem_handle := 0 }}) }}.

Definition teardown_slot (fd : Z) (s : DmaBufSlot) (k : kstate) : DmaBufSlot * kstate :=
  if fd <? 0 then (s, k)
  else
    let k := if negb (fb_id s =? 0) then drmModeRmFB fd (fb_id s) k else k in
    (drop_handles s, close_handles fd (planes s) k).

Definition close_slot_fds (s : DmaBufSlot) (k : kstate) : DmaBufSlot * kstate :=
  (s {{ planes := [] }},
   foldl (fun k p => if 0 <=? duped_fd p then close_fd (duped_fd p) k else k) k (planes s)).

Definition dup_device_fd (fd : Z) (k : kstate) : expected Z * kstate :=
  let '(duped, e, k) := fcntl_dupfd fd k in
  if duped <? 0 then (Unexp (errno_code e), k) else (Val duped, k).

Definition close_device_fd (fd : Z) (k : kstate) : Z * kstate :=
  (-1, if 0 <=? fd then close_fd fd k else k).
End Slot.

(** ** What they do to the kernel *)

Section SlotLemmas.
Context `{L : DmaBufKernelLaws}.

Definition slot_fds (s : DmaBufSlot) : list Z := duped_fd <$> planes s.

(** Every descriptor duplicated by [dup_planes] is in the slot, also when a
    later one fails. *)
Lemma dup_planes_spec ps s k r s' k' :
  dup_planes ps s k = (r, s', k') ->
  exists new, slot_fds s' = slot_fds s ++ new /\ NoDup new /\ (forall n, n ∈ new -> n ∉ open_fds k /\ 0 <= n) /\
    open_fds k' = list_to_set new ∪ open_fds k /\
    (forall d, 0 <= d -> d ∉ new -> framebuffers k' d = framebuffers k d) /\
    fb_id s' = fb_id s /\ modifier s' = modifier s /\ (has_value r = true -> length new = length ps).
Proof.
  revert s k. induction ps as [|p ps IH]; intros s k; cbn [dup_planes].
  { intros [= <- <- <-]. exists []. split_and!; try done; [by rewrite app_nil_r | constructor | by intros n ?%not_elem_of_nil
      | set_solver]. }
  destruct (fcntl_dupfd (p_fd p) k) as [[n e] k1] eqn:E. apply dupfd_law in E as [Hfb E].
  destruct (Z.ltb_spec n 0).
  { intros [= <- <- <-]. exists []. split_and!; try done; [by rewrite app_nil_r | constructor | by intros n' ?%not_elem_of_nil
      | rewrite E; set_solver | intros d Hd _; apply Hfb; lia]. }
  destruct E as (Hn & Ho & _). intros (new & H1 & H2 & H3 & H4 & H5 & H6 & H7 & H8)%IH. exists (n :: new).
  destruct s as [ps0 fb m]. unfold slot_fds in *. simpl in *. split_and!.
  - rewrite H1, fmap_app, <- app_assoc. done.
  - constructor; [|done]. intros Hin. apply H3 in Hin as [Hin _]. apply Hin. rewrite Ho. set_solver.
  - intros x [->|Hx]%elem_of_cons; [done|]. apply H3 in Hx as [Hx ?]. split; [|done]. rewrite Ho in Hx. set_solver.
  - rewrite H4, Ho. cbn. set_solver.
  - intros d Hd Hnew. rewrite H5, Hfb; [done | set_solver..].
  - done.
  - done.
  - intros Hr. rewrite H8; done.
Qed.

Lemma prime_planes_spec fd ps k r qs k' :
  prime_planes fd ps k = (r, qs, k') ->
  duped_fd <$> qs = duped_fd <$> ps /\ open_fds k' = open_fds k /\
  (forall d, framebuffers k' d = framebuffers k d).
Proof.
  revert k r qs k'. induction ps as [|p ps IH]; intros k r qs k'; cbn [prime_planes]; [by intros [= <- <- <-]|].
  destruct (drmPrimeFDToHandle fd (duped_fd p) k) as [[[rc h] e] k1] eqn:E. apply prime_law in E as [E1 E2].
  destruct (negb (rc =? 0) || (h =? 0)); [by intros [= <- <- <-]|].
  destruct (prime_planes fd ps k1) as [[r1 q1] k2] eqn:E3. apply IH in E3 as (H1 & H2 & H3). intros [= <- <- <-].
  destruct p. rewrite !fmap_cons, H1. cbn. split_and!; [done | congruence |]. intros d. by rewrite H3, E2.
Qed.

(** An import makes exactly one framebuffer, or none and an error. *)
Lemma import_slot_spec fd s fmt k r s' k' :
  fb_id s = 0 -> import_slot fd s fmt k = (r, s', k') ->
  slot_fds s' = slot_fds s /\ open_fds k' = open_fds k /\ modifier s' = modifier s /\
  match r with
  | Val _ => fb_id s' <> 0 /\ fb_id s' ∉ framebuffers k fd /\ framebuffers k' fd = {[fb_id s']} ∪ framebuffers k fd
  | Unexp _ => fb_id s' = 0 /\ framebuffers k' fd = framebuffers k fd
  end.
Proof.
  intros Hz. unfold import_slot, slot_fds. destruct (prime_planes fd (planes s) k) as [[r0 ps] k0] eqn:E.
  apply prime_planes_spec in E as (H1 & H2 & H3). specialize (H3 fd). destruct s as [ps0 fb m]. simpl in *. subst fb.
  destruct r0 as [u|e]; [|by intros [= <- <- <-]]. unfold add_fb2.
  destruct (drmModeAddFB2WithModifiers _ _ k0) as [[[rc id] e] k1] eqn:E.
  apply addfb_law in E as [E1 E2].
  destruct (Z.eqb_spec rc 0) as [->|Hrc]; cbn [negb orb andb fb_id] in *.
  - destruct (Z.eqb_spec id 0) as [->|Hid]; cbn [negb] in *; intros [= <- <- <-]; simpl; split_and!; try done; try congruence;
      destruct E2; congruence.
  - intros [= <- <- <-]. simpl. split_and!; try done; congruence.
Qed.

Lemma close_handles_spec fd ps k :
  open_fds (close_handles fd ps k) = open_fds k /\
  forall d, framebuffers (close_handles fd ps k) d = framebuffers k d.
Proof.
  unfold close_handles. revert k. induction ps as [|p ps IH]; intros k; [done|]. cbn [foldl].
  destruct (IH (if negb (gem_handle p =? 0) then gem_close fd (gem_handle p) k else k)) as [-> Hf].
  destruct (negb (gem_handle p =? 0)); [|done]. destruct (gem_close_law fd (gem_handle p) k) as [? Hg].
  split; [done|]. intros d. by rewrite Hf, Hg.
Qed.

Lemma teardown_slot_spec fd s k :
  0 <= fd ->
  slot_fds (teardown_slot fd s k).1 = slot_fds s /\ open_fds (teardown_slot fd s k).2 = open_fds k /\
  framebuffers (teardown_slot fd s k).2 fd =
    if fb_id s =? 0 then framebuffers k fd else framebuffers k fd ∖ {[fb_id s]}.
Proof.
  intros Hfd. unfold teardown_slot. rewrite (proj2 (Z.ltb_ge fd 0)) by done. cbn [fst snd].
  destruct (close_handles_spec fd (planes s) (if negb (fb_id s =? 0) then drmModeRmFB fd (fb_id s) k else k)) as [-> ->].
  split_and!.
  - unfold slot_fds, drop_handles. destruct s as [ps fb m]. simpl. rewrite <- list_fmap_compose.
    apply list_fmap_ext. by intros i [].
  - destruct (negb (fb_id s =? 0)); [apply rmfb_law | done].
  - destruct (fb_id s =? 0); cbn [negb]; [done | apply rmfb_law].
Qed.

Lemma close_fds_spec ps k :
  let k' := foldl (fun k p => if 0 <=? duped_fd p then close_fd (duped_fd p) k else k) k ps in
  open_fds k' ⊆ open_fds k /\
  (forall d, d ∉ duped_fd <$> ps -> framebuffers k' d = framebuffers k d) /\
  (forall n, 0 <= n -> n ∈ open_fds k' <-> n ∈ open_fds k /\ n ∉ duped_fd <$> ps).
Proof.
  cbv zeta. revert k. induction ps as [|p ps IH]; intros k; [split_and!; [done..|set_solver]|]. cbn [foldl].
  destruct (IH (if 0 <=? duped_fd p then close_fd (duped_fd p) k else k)) as (H1 & H2 & H3).
  pose proof (close_law (duped_fd p) k) as [Hc1 Hc2].
  split_and!.
  - etrans; [exact H1|]. destruct (0 <=? duped_fd p); [rewrite Hc1; set_solver | done].
  - intros d. rewrite fmap_cons. intros [Hd Hps]%not_elem_of_cons. rewrite H2 by done.
    destruct (0 <=? duped_fd p); [by apply Hc2 | done].
  - intros n Hn. rewrite H3, fmap_cons, elem_of_cons by done. destruct (Z.leb_spec 0 (duped_fd p)).
    + rewrite Hc1. set_solver.
    + split; [|tauto]. intros [? ?]. split; [done|]. intros [->|?]; [lia | done].
Qed.

Definition fds_valid (s : DmaBufSlot) : Prop := Forall (fun n => 0 <= n) (slot_fds s).

Lemma close_slot_fds_spec s k :
  fds_valid s ->
  (forall d, d ∉ slot_fds s -> framebuffers (close_slot_fds s k).2 d = framebuffers k d) /\
  (forall n, n ∈ open_fds (close_slot_fds s k).2 <-> n ∈ open_fds k /\ n ∉ slot_fds s).
Proof.
  intros Hv. destruct (close_fds_spec (planes s) k) as (H1 & H2 & H3). split; [exact H2|]. intros n.
  destruct (decide (0 <= n)) as [Hn|Hn]; [by apply H3|].
  assert (Hns : n ∉ slot_fds s) by (intros Hin; eapply Forall_forall in Hv; [|exact Hin]; done).
  split; [intros Hin; split; [by apply H1 | done]|]. intros [Hin _]. revert Hin. unfold close_slot_fds. cbn [snd].
  clear H1 H2 H3 Hns. unfold fds_valid, slot_fds in Hv. revert k Hv. induction (planes s) as [|p ps IH]; intros k Hv Hin; [done|].
  cbn [foldl]. rewrite fmap_cons in Hv. apply Forall_cons in Hv as [Hp Hps]. apply IH; [done|].
  rewrite (proj2 (Z.leb_le 0 _)) by done. rewrite (proj1 (close_law _ _)). apply elem_of_difference.
  split; [done|]. intros ->%elem_of_singleton. lia.
Qed.

(** A whole slot back to the kernel. *)
Lemma free_slot_spec fd s k :
  0 <= fd -> fds_valid s -> fd ∉ slot_fds s ->
  let k' := let '(s, k) := teardown_slot fd s k in (close_slot_fds s k).2 in
  (forall n, n ∈ open_fds k' <-> n ∈ open_fds k /\ n ∉ slot_fds s) /\
  framebuffers k' fd = if fb_id s =? 0 then framebuffers k fd else framebuffers k fd ∖ {[fb_id s]}.
Proof.
  intros Hfd Hv Hns. cbv zeta. destruct (teardown_slot_spec fd s k Hfd) as (E1 & E2 & E3).
  destruct (teardown_slot fd s k) as [s' k1]. cbn [fst snd] in *.
  assert (Hv' : fds_valid s') by (unfold fds_valid; by rewrite E1).
  destruct (close_slot_fds_spec s' k1 Hv') as (F1 & F2). rewrite E1 in *. split.
  - intros n. by rewrite F2, E2.
  - by rewrite F1.
Qed.
End SlotLemmas.

(** ** Resources and their owners

    [res] gives the resources of a slot; the live ones are exactly those of
    [base] and those of the slots, each owned by one slot. *)
Section Owns.
Context (res : DmaBufSlot -> list Z) (base : gset Z).

Record owns (slots : gmap Z DmaBufSlot) (live : gset Z) : Prop := {
  owns_iff : forall n, n ∈ live <-> n ∈ base \/ exists key s, slots !! key = Some s /\ n ∈ res s;
  owns_base : forall key s n, slots !! key = Some s -> n ∈ res s -> n ∉ base;
  owns_inj : forall key key' s s' n, slots !! key = Some s -> slots !! key' = Some s' ->
    n ∈ res s -> n ∈ res s' -> key = key'
}.

Lemma owns_empty live : (forall n, n ∈ live <-> n ∈ base) -> owns ∅ live.
Proof.
  intros Hl. split; [|intros key s n Hk | intros key key' s s' n Hk]; [|by rewrite lookup_empty in Hk..].
  intros n. rewrite Hl. split; [by left|]. intros [?|(key & s & Hk & _)]; [done|]. by rewrite lookup_empty in Hk.
Qed.

Lemma owns_insert slots key s live live' :
  owns slots live -> slots !! key = None -> (forall n, n ∈ res s -> n ∉ live) ->
  (forall n, n ∈ live' <-> n ∈ res s \/ n ∈ live) -> owns (<[key := s]> slots) live'.
Proof.
  intros [H1 H2 H3] Hk Hnew Hl. split.
  - intros n. rewrite Hl, H1. split.
    + intros [?|[?|(j & t & Hj & ?)]]; [right; exists key, s; by rewrite lookup_insert_eq | by left|].
      right. exists j, t. split; [|done]. rewrite lookup_insert_ne; [done|]. intros ->. congruence.
    + intros [?|(j & t & [[<- <-]|[? Hj]]%lookup_insert_Some & Hn)]; [auto | auto|]. right. right. eauto.
  - intros j t n [[<- <-]|[? Hj]]%lookup_insert_Some Hn; [|by eapply H2]. intros Hb. apply (Hnew n Hn), H1. by left.
  - intros i j t u n [[<- <-]|[? Hi]]%lookup_insert_Some [[<- <-]|[? Hj]]%lookup_insert_Some Ht Hu; [done | | |by eapply H3].
    + destruct (Hnew n Ht). apply H1. eauto.
    + destruct (Hnew n Hu). apply H1. eauto.
Qed.

Lemma owns_delete slots key s live live' :
  owns slots live -> slots !! key = Some s -> (forall n, n ∈ live' <-> n ∈ live /\ n ∉ res s) ->
  owns (delete key slots) live'.
Proof.
  intros [H1 H2 H3] Hk Hl. split.
  - intros n. rewrite Hl, H1. split.
    + intros [[?|(j & t & Hj & Hn)] Hns]; [by left|]. right. exists j, t. split; [|done].
      rewrite lookup_delete_ne; [done|]. intros ->. congruence.
    + intros [Hb|(j & t & [Hne Hj]%lookup_delete_Some & Hn)].
      * split; [by left|]. intros Hin. by eapply H2.
      * split; [eauto|]. intros Hin. apply Hne. by eapply H3.
  - intros j t n [_ Hj]%lookup_delete_Some. by eapply H2.
  - intros i j t u n [_ Hi]%lookup_delete_Some [_ Hj]%lookup_delete_Some. by eapply H3.
Qed.

(** A slot may change as long as its resources do not. *)
Lemma owns_replace slots key s s' live :
  owns slots live -> slots !! key = Some s -> res s' = res s -> owns (<[key := s']> slots) live.
Proof.
  intros [H1 H2 H3] Hk Hr.
  assert (Hback : forall j t, <[key:=s']> slots !! j = Some t -> exists u, slots !! j = Some u /\ res t = res u).
  { intros j t [[<- <-]|[_ Hj]]%lookup_insert_Some; eauto. }
  split.
  - intros n. rewrite H1. split; (intros [?|(j & t & Hj & Hn)]; [by left|right]).
    + destruct (decide (j = key)) as [->|]; [exists key, s' | exists j, t].
      * rewrite lookup_insert_eq. rewrite Hr. split; congruence.
      * by rewrite lookup_insert_ne.
    + apply Hback in Hj as (u & Hu & Hr'). exists j, u. by rewrite <- Hr'.
  - intros j t n (u & Hu & ->)%Hback. by eapply H2.
  - intros i j t u n (t' & Ht & ->)%Hback (u' & Hu & ->)%Hback. by eapply H3.
Qed.

Lemma owns_live slots live live' : owns slots live -> (forall n, n ∈ live' <-> n ∈ live) -> owns slots live'.
Proof. intros [H1 H2 H3] Hl. split; [|done..]. intros n. by rewrite Hl. Qed.
End Owns.
