(* ===== verification/DmaBufPool.v ===== *)
(** The dynamically populated dma-buf source:
    [src/scene/external_dma_buf_pool.hpp] and [.cpp].

    It is proved against the interface [Presentation] of the state machine and
    [DmaBufKernel] of the kernel.  [submit] and [acquire] each take two locks
    one after the other, so each is the composition of the two halves that the
    other thread can run between. *)
From S2P Require Import Prelude RingPresenter BufferSource DmaBufSlot.

Section Pool.
Context {P : Type} `{Pr : Presentation P} `{K : DmaBufKernel}.

(** [lru_pos_] is the index of [lru_]: it holds the same keys at every point
    where the lock is free, so a key has a position exactly when it is in the
    list. *)
Record ExternalDmaBufPool := mkPool {
  fd_ : Z;
  format_ : SourceFormat;
  max_pool_ : nat;
  on_release_ : bool;
  slots_ : gmap Z DmaBufSlot;
  lru_ : list Z;
  retiring_ : gset Z;
  stale_ : gset Z;
  presenter_ : P
}.

Definition create (dev_fd w h fourcc m : Z) (on_release : bool) (fence_deadline : option Z) (max_pool : nat) (k : kstate)
  : expected ExternalDmaBufPool * kstate :=
  if (w =? 0) || (h =? 0) || (fourcc =? 0) then (Unexp EINVAL, k)
  else if dev_fd <? 0 then (Unexp EBADF, k)
  else
    let '(own, k) := dup_device_fd dev_fd k in
    match own with
    | Unexp e => (Unexp e, k)
    | Val fd =>
        (Val (mkPool fd (mkFormat fourcc m w h) (if (max_pool <? 1)%nat then 1%nat else max_pool) on_release
                     ∅ [] ∅ ∅ (pm_make fence_deadline)), k)
    end.

Definition touch_lru (key : Z) (l : list Z) : list Z := filter (fun x => x <> key) l ++ [key].

Definition plane_ok (p : ExternalPlaneInfo) : bool := negb ((p_fd p <? 0) || (p_pitch p =? 0)).

(** First sight of a key: validate and import; nothing is kept on an error. *)
Definition import_buffer (ps : list ExternalPlaneInfo) (o : ExternalDmaBufPool) (k : kstate)
  : expected DmaBufSlot * kstate :=
  if (length ps =? 0)%nat || (k_max_planes <? length ps)%nat then (Unexp EINVAL, k)
  else if negb (forallb plane_ok ps) then (Unexp EINVAL, k)
  else
    let '(r, s, k) := dup_planes ps (mkSlot [] 0 (f_modifier (format_ o))) k in
    match r with
    | Unexp e => (Unexp e, (close_slot_fds s k).2)
    | Val _ =>
        let '(r, s, k) := import_slot (fd_ o) s (format_ o) k in
        match r with
        | Unexp e => let '(s, k) := teardown_slot (fd_ o) s k in (Unexp e, (close_slot_fds s k).2)
        | Val _ => (Val s, k)
        end
    end.

Definition mark_used (key : Z) (o : ExternalDmaBufPool) : ExternalDmaBufPool :=
  o {{ lru_ ::= touch_lru key; retiring_ ::= fun s => s ∖ {[key]} }}.

(** The half of [submit] under [slots_mu_]. *)
Definition submit_import (key : Z) (ps : list ExternalPlaneInfo) (o : ExternalDmaBufPool) (k : kstate)
  : expected unit * ExternalDmaBufPool * kstate :=
  if decide (key ∈ stale_ o) then (Unexp EAGAIN, o, k)
  else
    match slots_ o !! key with
    | Some _ => (Val tt, mark_used key o, k)
    | None =>
        match import_buffer ps o k with
        | (Unexp e, k) => (Unexp e, o, k)
        | (Val s, k) => (Val tt, mark_used key (o {{ slots_ ::= insert key s }}), k)
        end
    end.

(** The half under the presenter's lock. *)
Definition submit_handoff (key : Z) (f : option SyncFence) (dmg : list DamageRect) (o : ExternalDmaBufPool)
  : ExternalDmaBufPool :=
  o {{ presenter_ ::= pm_submit key f dmg }}.

Definition submit (key : Z) (ps : list ExternalPlaneInfo) (f : option SyncFence) (dmg : list DamageRect)
  (o : ExternalDmaBufPool) (k : kstate) : expected unit * ExternalDmaBufPool * kstate :=
  match submit_import key ps o k with
  | (Unexp e, o, k) => (Unexp e, o, k)
  | (Val _, o, k) => (Val tt, submit_handoff key f dmg o, k)
  end.

Definition cached_count (o : ExternalDmaBufPool) : nat := size (slots_ o).

Definition reset_generation (w h fourcc : Z) (o : ExternalDmaBufPool) : ExternalDmaBufPool :=
  o {{ format_ ::= fun f => f {{ width := w; height := h; drm_fourcc := fourcc }};
       retiring_ ::= union (dom (slots_ o)) }}.

Definition retire (key : Z) (o : ExternalDmaBufPool) : ExternalDmaBufPool :=
  match slots_ o !! key with
  | None => o
  | Some _ => o {{ retiring_ ::= union {[key]}; stale_ ::= union {[key]} }}
  end.

Definition evict_locked (key : Z) (o : ExternalDmaBufPool) (k : kstate) : ExternalDmaBufPool * kstate :=
  let '(o, k) :=
    match slots_ o !! key with
    | Some s =>
        let '(s, k) := teardown_slot (fd_ o) s k in
        (o {{ slots_ ::= delete key }}, (close_slot_fds s k).2)
    | None => (o, k)
    end in
  (o {{ lru_ ::= filter (fun x => x <> key); stale_ ::= fun s => s ∖ {[key]} }}, k).

Definition referenced (o : ExternalDmaBufPool) (key : Z) : bool := pm_is_referenced key (presenter_ o).

(** In the order of [elements]; another order tears the same keys down. *)
Definition sweep_retiring_locked (o : ExternalDmaBufPool) (k : kstate) : ExternalDmaBufPool * kstate :=
  foldl (fun ok key =>
    if referenced ok.1 key then ok
    else evict_locked key (ok.1 {{ retiring_ ::= fun s => s ∖ {[key]} }}) ok.2)
    (o, k) (elements (retiring_ o)).

(** One turn of the [while] per unit of fuel. *)
Fixpoint prune_loop (fuel : nat) (o : ExternalDmaBufPool) (k : kstate) : ExternalDmaBufPool * kstate :=
  match fuel with
  | O => (o, k)
  | S fuel =>
      if (max_pool_ o <? size (slots_ o))%nat then
        match find (fun key => negb (referenced o key)) (lru_ o) with
        | Some key => let '(o, k) := evict_locked key o k in prune_loop fuel o k
        | None => (o, k)
        end
      else (o, k)
  end.

Definition prune_locked (o : ExternalDmaBufPool) (k : kstate) : ExternalDmaBufPool * kstate :=
  prune_loop (S (length (lru_ o))) o k.

(** The half of [acquire] that runs the state machine. *)
Definition acquire_take (poll : Z -> Z -> Z) (o : ExternalDmaBufPool) : Acquired * ExternalDmaBufPool :=
  let '(d, p) := pm_acquire poll (presenter_ o) in (d, o {{ presenter_ := p }}).

(** The half under [slots_mu_], and the answer. *)
Definition acquire_resolve (d : Acquired) (o : ExternalDmaBufPool) (k : kstate)
  : expected AcquiredBuffer * ExternalDmaBufPool * kstate :=
  let fb := if bool_decide (kind d = PNone) then 0
            else match slots_ o !! key d with Some s => fb_id s | None => 0 end in
  let '(o, k) := sweep_retiring_locked o k in
  let '(o, k) := prune_locked o k in
  (match kind d with
   | Fresh => Val (mkBuffer fb (token d) (fence d) (damage d))
   | Hold => if negb (fb =? 0) then Val (mkBuffer fb (token d) None []) else Unexp EAGAIN
   | PNone => Unexp EAGAIN
   end, o, k).

Definition acquire (poll : Z -> Z -> Z) (o : ExternalDmaBufPool) (k : kstate)
  : expected AcquiredBuffer * ExternalDmaBufPool * kstate :=
  let '(d, o) := acquire_take poll o in acquire_resolve d o k.

(** The key and fence the callback gets, if it is called. *)
Definition release_with_fence (b : AcquiredBuffer) (f : option SyncFence) (o : ExternalDmaBufPool)
  : option (Z * option SyncFence) * ExternalDmaBufPool :=
  let '(key, p) := pm_release (ab_opaque b) (presenter_ o) in
  (match key with Some key => if on_release_ o then Some (key, f) else None | None => None end,
   o {{ presenter_ := p }}).

Definition on_retired (o : ExternalDmaBufPool) : ExternalDmaBufPool := o {{ presenter_ ::= pm_retire_scanning }}.

Definition has_fresh_content (o : ExternalDmaBufPool) : bool := pm_has_fresh_frame (presenter_ o).

Definition export_dma_buf (o : ExternalDmaBufPool) : expected DmaBufDesc :=
  match pm_scanning_key (presenter_ o) with
  | None => Unexp ENOSYS
  | Some key =>
      match slots_ o !! key with
      | None => Unexp ENOSYS
      | Some s =>
          if (length (planes s) =? 0)%nat then Unexp ENOSYS
          else Val (mkDesc (length (planes s)) (drm_fourcc (format_ o)) (modifier s) (width (format_ o)) (height (format_ o))
                           (pad4 (-1) (duped_fd <$> planes s)) (pad4 0 (offset <$> planes s)) (pad4 0 (pitch <$> planes s)))
      end
  end.

(** The import of every cached buffer on the new device. *)
Definition reimport (fd : Z) (fmt : SourceFormat) (l : list (Z * DmaBufSlot)) (dk : gmap Z DmaBufSlot * kstate)
  : gmap Z DmaBufSlot * kstate :=
  foldl (fun '(m, k) '(key, s) =>
    let '(r, s, k) := import_slot fd (drop_handles s) fmt k in
    match r with
    | Val _ => (<[key := s]> m, k)
    | Unexp _ => let '(s, k) := teardown_slot fd s k in (delete key m, (close_slot_fds s k).2)
    end) dk l.

Definition on_session_resumed (new_fd : Z) (o : ExternalDmaBufPool) (k : kstate)
  : expected unit * ExternalDmaBufPool * kstate :=
  if new_fd <? 0 then (Unexp EBADF, o, k)
  else
    let '(own, k) := dup_device_fd new_fd k in
    match own with
    | Unexp e => (Unexp e, o, k)
    | Val own =>
        let o := o {{ presenter_ ::= pm_reset }} in
        let '(_, k) := close_device_fd (fd_ o) k in
        let o := o {{ fd_ := own }} in
        let '(slots, k) := reimport own (format_ o) (map_to_list (slots_ o)) (slots_ o, k) in
        let dropped := dom (slots_ o) ∖ dom slots in
        (Val tt,
         o {{ slots_ := slots; retiring_ ::= fun s => s ∖ dropped; stale_ ::= fun s => s ∖ dropped;
              lru_ ::= filter (fun x => x ∉ dropped) }}, k)
    end.

(** The destructor: what is left in the kernel. *)
Definition destroy (o : ExternalDmaBufPool) (k : kstate) : kstate :=
  let k := foldl (fun k s => let '(s, k) := teardown_slot (fd_ o) s k in (close_slot_fds s k).2)
                 k ((map_to_list (slots_ o)).*2) in
  (close_device_fd (fd_ o) k).2.
End Pool.
#[global] Arguments ExternalDmaBufPool : clear implicits.

(** ** The invariants of the pool *)

Section Invariants.
Context {P : Type} `{Pr : PresentationLaws P} `{L : DmaBufKernelLaws}.
Notation Pool := (ExternalDmaBufPool P).

Definition fbs (s : DmaBufSlot) : list Z := [fb_id s].

Definition slot_ok (s : DmaBufSlot) : Prop := fb_id s <> 0 /\ planes s <> [] /\ fds_valid s.

Record pool_inv (o : Pool) : Prop := {
  pv_lru_nodup : NoDup (lru_ o);
  pv_lru : forall key, key ∈ lru_ o <-> is_Some (slots_ o !! key);
  pv_stale : stale_ o ⊆ retiring_ o;
  pv_retiring : forall key, key ∈ retiring_ o -> is_Some (slots_ o !! key);
  pv_slots : forall key s, slots_ o !! key = Some s -> slot_ok s;
  pv_max : (1 <= max_pool_ o)%nat
}.

(** The pool's descriptors and framebuffers are those of its slots, on top of
    the descriptors [fd0] of the rest of the process and the framebuffers
    [fb0] of the other users of the device file. *)
Record kernel_inv (fd0 fb0 : gset Z) (o : Pool) (k : kstate) : Prop := {
  kv_fd : 0 <= fd_ o;
  kv_fresh : fd_ o ∉ fd0;
  kv_fds : owns slot_fds ({[fd_ o]} ∪ fd0) (slots_ o) (open_fds k);
  kv_fbs : owns fbs fb0 (slots_ o) (framebuffers k (fd_ o))
}.

(** Nothing the presenter may still show is missing from the map. *)
Definition pool_live (o : Pool) : Prop :=
  forall key, pm_pending (presenter_ o) = Some key \/ referenced o key = true -> is_Some (slots_ o !! key).

Lemma fd_not_in_slots fd0 fb0 o k key s :
  kernel_inv fd0 fb0 o k -> slots_ o !! key = Some s -> fd_ o ∉ slot_fds s.
Proof. intros Hk Hs Hin. apply (owns_base _ _ _ _ (kv_fds _ _ _ _ Hk) _ _ _ Hs Hin). set_solver. Qed.

Lemma fd_open fd0 fb0 o k : kernel_inv fd0 fb0 o k -> fd_ o ∈ open_fds k.
Proof. intros Hk. apply (owns_iff _ _ _ _ (kv_fds _ _ _ _ Hk)). left. set_solver. Qed.

(** An import keeps nothing on an error. *)
Lemma import_buffer_spec fd0 fb0 ps o k r k' :
  kernel_inv fd0 fb0 o k -> import_buffer ps o k = (r, k') ->
  match r with
  | Val s => slot_ok s /\ (forall n, n ∈ slot_fds s -> n ∉ open_fds k) /\
      (forall n, n ∈ open_fds k' <-> n ∈ slot_fds s \/ n ∈ open_fds k) /\
      fb_id s ∉ framebuffers k (fd_ o) /\ framebuffers k' (fd_ o) = {[fb_id s]} ∪ framebuffers k (fd_ o)
  | Unexp _ => (forall n, n ∈ open_fds k' <-> n ∈ open_fds k) /\ framebuffers k' (fd_ o) = framebuffers k (fd_ o)
  end.
Proof.
  intros Hk. pose proof (fd_open _ _ _ _ Hk) as Hopen. pose proof (kv_fd _ _ _ _ Hk) as Hfd. unfold import_buffer.
  destruct (Nat.eqb_spec (length ps) 0) as [|Hps]; cbn [orb]; [by intros [= <- <-]|].
  destruct (k_max_planes <? length ps)%nat; [by intros [= <- <-]|].
  destruct (forallb plane_ok ps); cbn [negb]; [|by intros [= <- <-]].
  destruct (dup_planes ps _ k) as [[r1 s1] k1] eqn:Ed.
  apply dup_planes_spec in Ed as (new & D1 & D2 & D3 & D4 & D5 & D6 & _ & D8). cbn in D1, D6.
  assert (Hv1 : fds_valid s1).
  { unfold fds_valid. rewrite D1. apply Forall_forall. intros n Hn. by apply D3. }
  assert (Hns1 : fd_ o ∉ slot_fds s1) by (rewrite D1; intros Hn; by apply D3 in Hn as [Hn _]).
  assert (Hfb1 : framebuffers k1 (fd_ o) = framebuffers k (fd_ o)) by (apply D5; [done | by rewrite <- D1]).
  destruct r1 as [u|e].
  - destruct (import_slot (fd_ o) s1 (format_ o) k1) as [[r2 s2] k2] eqn:Ei.
    apply import_slot_spec in Ei as (I1 & I2 & _ & I3); [|done].
    assert (Hv2 : fds_valid s2) by (unfold fds_valid; by rewrite I1).
    destruct r2 as [u2|e].
    + intros [= <- <-]. destruct I3 as (I3 & I4 & I5). unfold slot_ok. split_and!.
      * done.
      * intros Hp. rewrite <- D8 in Hps by done. rewrite <- D1, <- I1 in Hps. unfold slot_fds in Hps. by rewrite Hp in Hps.
      * done.
      * intros n Hn. rewrite I1, D1 in Hn. by apply D3.
      * intros n. rewrite I1, D1, I2, D4. set_solver.
      * by rewrite <- Hfb1.
      * by rewrite I5, Hfb1.
    + destruct I3 as (I3 & I5). destruct (free_slot_spec (fd_ o) s2 k2) as [F1 F2]; [done.. | by rewrite I1 |].
      revert F1 F2. destruct (teardown_slot (fd_ o) s2 k2) as [s3 k3]. intros F1 F2 [<- <-]%pair_eq. rewrite F2, I3. cbn. split; [|congruence].
      intros n. rewrite F1, I1, I2, D1, D4. split; [set_solver|]. intros Hn.
      split; [set_solver|]. intros Hin. by apply D3 in Hin as [Hin _].
  - intros [<- <-]%pair_eq. destruct (close_slot_fds_spec s1 k1 Hv1) as [C1 C2]. split; [|by rewrite C1].
    intros n. rewrite C2, D1, D4. split; [set_solver|]. intros Hn.
    split; [set_solver|]. intros Hin. by apply D3 in Hin as [Hin _].
Qed.

(** ** Eviction *)

Lemma evict_spec fd0 fb0 key o k :
  kernel_inv fd0 fb0 o k -> (forall s, slots_ o !! key = Some s -> slot_ok s) ->
  let '(o', k') := evict_locked key o k in
  slots_ o' = delete key (slots_ o) /\ lru_ o' = filter (fun x => x <> key) (lru_ o) /\
  stale_ o' = stale_ o ∖ {[key]} /\ retiring_ o' = retiring_ o /\ presenter_ o' = presenter_ o /\
  max_pool_ o' = max_pool_ o /\ fd_ o' = fd_ o /\ kernel_inv fd0 fb0 o' k'.
Proof.
  intros Hk Hp. pose proof (kv_fd _ _ _ _ Hk) as Hfd. unfold evict_locked.
  destruct (slots_ o !! key) as [s|] eqn:Es.
  - destruct (Hp s eq_refl) as (Hfb & _ & Hv). pose proof (fd_not_in_slots _ _ _ _ _ _ Hk Es) as Hns.
    destruct (free_slot_spec (fd_ o) s k Hfd Hv Hns) as [F1 F2]. revert F1 F2.
    destruct (teardown_slot (fd_ o) s k) as [s1 k1]. intros F1 F2. rewrite (proj2 (Z.eqb_neq _ _) Hfb) in F2.
    destruct Hk as [_ K2 K3 K4]. destruct o as [fd fmt mx cb sl lr rt st pr]. simpl in *. split_and!; try done.
    split; simpl; [done | done | |].
    + by eapply owns_delete.
    + eapply owns_delete; [done..|]. intros n. rewrite F2. unfold fbs. set_solver.
  - assert (Hdel : delete key (slots_ o) = slots_ o) by by apply delete_id.
    destruct Hk as [K1 K2 K3 K4]. destruct o as [fd fmt mx cb sl lr rt st pr]. simpl in *. by split_and!.
Qed.

(** A key taken off the retiring list, as the sweep does before it evicts. *)
Definition unretire (key : Z) (o : Pool) : Pool := o {{ retiring_ ::= fun s => s ∖ {[key]} }}.

Lemma unretire_kernel fd0 fb0 key o k : kernel_inv fd0 fb0 o k -> kernel_inv fd0 fb0 (unretire key o) k.
Proof. destruct o. intros [K1 K2 K3 K4]. by split. Qed.

Lemma unretire_id key o : key ∉ retiring_ o -> unretire key o = o.
Proof.
  destruct o as [fd fmt mx cb sl lr rt st pr]. unfold unretire. simpl. intros Hr. f_equal.
  apply difference_disjoint_L. set_solver.
Qed.

(** ** Several evictions: the keys [dead], none of them referenced *)
Record evicted (fd0 fb0 : gset Z) (dead : list Z) (o o' : Pool) (k' : kstate) : Prop := {
  ev_slots : forall key, slots_ o' !! key = if decide (key ∈ dead) then None else slots_ o !! key;
  ev_lru : lru_ o' = filter (fun x => x ∉ dead) (lru_ o);
  ev_presenter : presenter_ o' = presenter_ o;
  ev_max : max_pool_ o' = max_pool_ o;
  ev_fd : fd_ o' = fd_ o;
  ev_dead : forall x, x ∈ dead -> referenced o x = false;
  ev_pool : pool_inv o';
  ev_kernel : kernel_inv fd0 fb0 o' k'
}.

Lemma evicted_nil fd0 fb0 o k : pool_inv o -> kernel_inv fd0 fb0 o k -> evicted fd0 fb0 [] o o k.
Proof.
  intros Hp Hk. split; try done; [|by intros x ?%elem_of_nil].
  symmetry. apply filter_every. intros x _. apply not_elem_of_nil.
Qed.

Lemma evicted_app fd0 fb0 d1 d2 o o1 k1 o2 k2 :
  evicted fd0 fb0 d1 o o1 k1 -> evicted fd0 fb0 d2 o1 o2 k2 -> evicted fd0 fb0 (d1 ++ d2) o o2 k2.
Proof.
  intros [A1 A2 A3 A4 A5 A6 A7 A8] [B1 B2 B3 B4 B5 B6 B7 B8]. split; try congruence; [| | |done..].
  - intros key. rewrite B1, A1. destruct (decide (key ∈ d1)), (decide (key ∈ d2)), (decide (key ∈ d1 ++ d2)); set_solver.
  - rewrite B2, A2, list_filter_filter. apply list_filter_iff. intros x. set_solver.
  - intros x [Hx|Hx]%elem_of_app; [auto|]. rewrite <- (B6 x Hx). unfold referenced. by rewrite A3.
Qed.

Lemma evicted_one fd0 fb0 key o k :
  kernel_inv fd0 fb0 o k -> pool_inv o -> referenced o key = false ->
  let ok := evict_locked key (unretire key o) k in
  evicted fd0 fb0 [key] o ok.1 ok.2 /\ retiring_ ok.1 = retiring_ o ∖ {[key]}.
Proof.
  intros Hk Hp Href. cbv zeta. pose proof (unretire_kernel _ _ key _ _ Hk) as Hku.
  pose proof (evict_spec fd0 fb0 key (unretire key o) k Hku) as He.
  destruct (evict_locked key (unretire key o) k) as [o' k'].
  destruct He as (E1 & E2 & E3 & E4 & E5 & E6 & E7 & E8); [destruct o; intros s; apply (pv_slots _ Hp)|].
  assert (slots_ (unretire key o) = slots_ o /\ lru_ (unretire key o) = lru_ o /\ stale_ (unretire key o) = stale_ o /\
    retiring_ (unretire key o) = retiring_ o ∖ {[key]} /\ presenter_ (unretire key o) = presenter_ o /\
    max_pool_ (unretire key o) = max_pool_ o /\ fd_ (unretire key o) = fd_ o) as (U1 & U2 & U3 & U4 & U5 & U6 & U7)
    by by destruct o.
  rewrite U1 in E1. rewrite U2 in E2. rewrite U3 in E3. rewrite U4 in E4. rewrite U5 in E5. rewrite U6 in E6.
  rewrite U7 in E7. cbn [fst snd]. split; [|done]. split; try done.
  - intros x. rewrite E1. destruct (decide (x ∈ [key])) as [Hx%list_elem_of_singleton|Hx].
    + subst x. apply lookup_delete_eq.
    + rewrite lookup_delete_ne; [done | set_solver].
  - rewrite E2. apply list_filter_iff. intros x. rewrite list_elem_of_singleton. done.
  - intros x ->%list_elem_of_singleton. done.
  - destruct Hp as [H1 H2 H3 H4 H5 H6]. split; rewrite ?E1, ?E2, ?E3, ?E4, ?E6.
    + by apply NoDup_filter.
    + intros x. rewrite list_elem_of_filter, H2, lookup_delete_is_Some. set_solver.
    + set_solver.
    + intros x Hx. rewrite lookup_delete_is_Some. split; [set_solver | apply H4; set_solver].
    + intros x s [_ Hs]%lookup_delete_Some. by eapply H5.
    + done.
Qed.

(** The sweep tears down exactly the retiring keys that nothing references. *)
Lemma sweep_list_spec fd0 fb0 l o k :
  kernel_inv fd0 fb0 o k -> pool_inv o ->
  let ok := foldl (fun ok key =>
    if referenced ok.1 key then ok
    else evict_locked key (ok.1 {{ retiring_ ::= fun s => s ∖ {[key]} }}) ok.2) (o, k) l in
  evicted fd0 fb0 (filter (fun x => referenced o x = false) l) o ok.1 ok.2 /\
  (forall x, x ∈ retiring_ ok.1 <-> x ∈ retiring_ o /\ (x ∉ l \/ referenced o x = true)).
Proof.
  cbv zeta. revert o k. induction l as [|key l IH]; intros o k Hk Hp.
  { split; [by apply evicted_nil|]. cbn. set_solver. }
  cbn [foldl fst snd]. destruct (referenced o key) eqn:Href.
  - destruct (IH o k Hk Hp) as [IH1 IH2]. rewrite filter_cons_False by congruence. split; [done|].
    intros x. rewrite IH2, not_elem_of_cons. destruct (decide (x = key)) as [->|]; [rewrite Href|]; tauto.
  - destruct (evicted_one fd0 fb0 key o k Hk Hp Href) as [He Hr]. fold (unretire key o).
    destruct (evict_locked key (unretire key o) k) as [o1 k1]. cbn [fst snd] in *.
    destruct (IH o1 k1 (ev_kernel _ _ _ _ _ _ He) (ev_pool _ _ _ _ _ _ He)) as [IH1 IH2].
    assert (Hsame : forall x, referenced o1 x = referenced o x)
      by (intros x; unfold referenced; by rewrite (ev_presenter _ _ _ _ _ _ He)).
    rewrite filter_cons_True by done. split.
    + change (key :: filter (fun x => referenced o x = false) l) with ([key] ++ filter (fun x => referenced o x = false) l).
      assert (filter (fun x => referenced o x = false) l = filter (fun x => referenced o1 x = false) l) as ->
        by (apply list_filter_iff; intros x; by rewrite Hsame).
      by eapply evicted_app.
    + intros x. rewrite IH2, Hr, Hsame, not_elem_of_cons, elem_of_difference, elem_of_singleton.
      destruct (decide (x = key)) as [->|]; [rewrite Href|]; naive_solver.
Qed.

Lemma sweep_spec fd0 fb0 o k :
  kernel_inv fd0 fb0 o k -> pool_inv o ->
  let ok := sweep_retiring_locked o k in
  evicted fd0 fb0 (filter (fun x => referenced o x = false) (elements (retiring_ o))) o ok.1 ok.2 /\
  (forall x, x ∈ retiring_ ok.1 -> referenced ok.1 x = true).
Proof.
  intros Hk Hp. cbv zeta. destruct (sweep_list_spec fd0 fb0 (elements (retiring_ o)) o k Hk Hp) as [H1 H2].
  fold (sweep_retiring_locked o k) in *. split; [done|].
  intros x [Hx [Hn|Href]]%H2; [by rewrite elem_of_elements in Hn|].
  unfold referenced in *. by rewrite (ev_presenter _ _ _ _ _ _ H1).
Qed.

Lemma find_filter {A} (f : A -> bool) (l : list A) :
  find f l = head (filter (fun x => f x = true) l).
Proof.
  induction l as [|x l IH]; [done|]. cbn [find]. destruct (f x) eqn:E.
  - by rewrite filter_cons_True.
  - rewrite filter_cons_False by congruence. done.
Qed.

Definition idle (o : Pool) (l : list Z) : list Z := filter (fun x => referenced o x = false) l.

(** The prune evicts the least recently used idle keys, as few as bring the
    map down to the bound, or all of them. *)
Lemma prune_loop_spec fd0 fb0 fuel o k :
  kernel_inv fd0 fb0 o k -> pool_inv o -> (forall x, x ∈ retiring_ o -> referenced o x = true) ->
  (length (lru_ o) < fuel)%nat ->
  let ok := prune_loop fuel o k in
  exists dead, evicted fd0 fb0 dead o ok.1 ok.2 /\
    idle o (lru_ o) = dead ++ idle o (lru_ ok.1) /\
    ((size (slots_ ok.1) <= max_pool_ o)%nat \/ idle o (lru_ ok.1) = []) /\
    (dead = [] \/ (max_pool_ o <= size (slots_ ok.1))%nat).
Proof.
  cbv zeta. revert o k. induction fuel as [|fuel IH]; intros o k Hk Hp Hsw Hf; [lia|]. cbn [prune_loop].
  destruct (Nat.ltb_spec (max_pool_ o) (size (slots_ o))) as [Hbig|Hsmall].
  2: { exists []. split_and!; [by apply evicted_nil | done | by left | by left]. }
  rewrite find_filter.
  assert (filter (fun x => negb (referenced o x) = true) (lru_ o) = idle o (lru_ o)) as ->
    by (apply list_filter_iff; intros x; apply negb_true_iff).
  destruct (idle o (lru_ o)) as [|key rest] eqn:Ei; cbn [head].
  { exists []. cbn [fst snd]. split_and!; [by apply evicted_nil | done | by right | by left]. }
  assert (Hkey : referenced o key = false /\ key ∈ lru_ o).
  { apply (list_elem_of_filter (fun x => referenced o x = false)). fold (idle o (lru_ o)). rewrite Ei. apply list_elem_of_here. }
  destruct Hkey as [Href Hin].
  destruct (evicted_one fd0 fb0 key o k Hk Hp Href) as [He Hr].
  assert (Hnr : key ∉ retiring_ o) by (intros Hx%Hsw; congruence).
  rewrite (unretire_id key o Hnr) in *. destruct (evict_locked key o k) as [o1 k1]. cbn [fst snd] in *.
  assert (Hsame : forall x, referenced o1 x = referenced o x)
    by (intros x; unfold referenced; by rewrite (ev_presenter _ _ _ _ _ _ He)).
  assert (Hidle : forall l, idle o1 l = idle o l) by (intros l; apply list_filter_iff; intros x; by rewrite Hsame).
  assert (Hlru : lru_ o1 = filter (fun x => x ∉ [key]) (lru_ o)) by apply (ev_lru _ _ _ _ _ _ He).
  assert (Hrest : idle o (lru_ o1) = rest).
  { assert (Hnd : NoDup (key :: rest)) by (rewrite <- Ei; apply NoDup_filter, (pv_lru_nodup _ Hp)).
    apply NoDup_cons in Hnd as [Hk' _].
    unfold idle in *. rewrite Hlru, list_filter_filter.
    transitivity (filter (fun x => x ∉ [key]) (filter (fun x => referenced o x = false) (lru_ o))).
    - rewrite list_filter_filter. apply list_filter_iff. intros x. tauto.
    - rewrite Ei, filter_cons_False by set_solver. apply filter_every. set_solver. }
  assert (Hsize : size (slots_ o1) = pred (size (slots_ o))).
  { assert (slots_ o1 = delete key (slots_ o)) as ->.
    { apply map_eq. intros x. rewrite (ev_slots _ _ _ _ _ _ He). destruct (decide (x ∈ [key])) as [Hx|Hx].
      - apply list_elem_of_singleton in Hx as ->. by rewrite lookup_delete_eq.
      - rewrite lookup_delete_ne; [done | set_solver]. }
    apply (pv_lru _ Hp) in Hin as [s Hs]. by rewrite map_size_delete_Some. }
  destruct (IH o1 k1) as (dead & D1 & D2 & D3 & D4).
  - apply (ev_kernel _ _ _ _ _ _ He).
  - apply (ev_pool _ _ _ _ _ _ He).
  - intros x. rewrite Hr, Hsame. set_solver.
  - rewrite Hlru. pose proof (length_filter_lt (fun x => x ∉ [key]) (lru_ o) key Hin ltac:(set_solver)). lia.
  - rewrite (ev_max _ _ _ _ _ _ He), !Hidle in *. rewrite Hrest in D2. exists (key :: dead). split_and!.
    + change (key :: dead) with ([key] ++ dead). by eapply evicted_app.
    + by rewrite D2.
    + done.
    + right. destruct D4 as [->|D4]; [|done].
      assert (size (slots_ (prune_loop fuel o1 k1).1) = size (slots_ o1)) as ->; [|lia].
      f_equal. apply map_eq. intros x. by rewrite (ev_slots _ _ _ _ _ _ D1).
Qed.

(** ** What one acquire does to the map *)
Lemma resolve_spec fd0 fb0 d o k :
  kernel_inv fd0 fb0 o k -> pool_inv o ->
  let '(r, o', k') := acquire_resolve d o k in
  exists retired pruned, evicted fd0 fb0 (retired ++ pruned) o o' k' /\
    (forall x, x ∈ retired <-> x ∈ retiring_ o /\ referenced o x = false) /\
    idle o (filter (fun x => x ∉ retired) (lru_ o)) = pruned ++ idle o (lru_ o') /\
    ((size (slots_ o') <= max_pool_ o)%nat \/ idle o (lru_ o') = []) /\
    (pruned = [] \/ (max_pool_ o <= size (slots_ o'))%nat).
Proof.
  intros Hk Hp. unfold acquire_resolve. pose proof (sweep_spec fd0 fb0 o k Hk Hp) as Hs. cbv zeta in Hs.
  destruct (sweep_retiring_locked o k) as [o1 k1]. cbn [fst snd] in Hs. destruct Hs as [S1 S2].
  set (retired := filter _ _) in S1.
  assert (Hsame : forall l, idle o1 l = idle o l).
  { intros l. apply list_filter_iff. intros x. unfold referenced. by rewrite (ev_presenter _ _ _ _ _ _ S1). }
  pose proof (prune_loop_spec fd0 fb0 (S (length (lru_ o1))) o1 k1 (ev_kernel _ _ _ _ _ _ S1) (ev_pool _ _ _ _ _ _ S1) S2
    ltac:(lia)) as Hpr. cbv zeta in Hpr. unfold prune_locked. destruct (prune_loop _ o1 k1) as [o2 k2]. cbn [fst snd] in Hpr.
  destruct Hpr as (pruned & P1 & P2 & P3 & P4). rewrite !Hsame, (ev_max _ _ _ _ _ _ S1) in *.
  exists retired, pruned. split_and!; [by eapply evicted_app | | | done | done].
  - intros x. unfold retired. rewrite list_elem_of_filter, elem_of_elements. tauto.
  - by rewrite <- (ev_lru _ _ _ _ _ _ S1).
Qed.

(** ** The operations keep the invariants *)

(** An operation of the presenter only. *)
Lemma with_presenter_inv fd0 fb0 f o k :
  pool_inv o -> kernel_inv fd0 fb0 o k ->
  pool_inv (o {{ presenter_ ::= f }}) /\ kernel_inv fd0 fb0 (o {{ presenter_ ::= f }}) k.
Proof. destruct o. intros [A1 A2 A3 A4 A5 A6] [B1 B2 B3 B4]. simpl in *. by split; split. Qed.

Lemma touch_lru_spec key l x : x ∈ touch_lru key l <-> x = key \/ x ∈ l.
Proof.
  unfold touch_lru. rewrite elem_of_app, list_elem_of_filter, list_elem_of_singleton.
  destruct (decide (x = key)); tauto.
Qed.

Lemma touch_lru_nodup key l : NoDup l -> NoDup (touch_lru key l).
Proof.
  intros Hl. unfold touch_lru. apply NoDup_app. split_and!; [by apply NoDup_filter | | apply NoDup_singleton].
  intros x [Hx _]%list_elem_of_filter ->%list_elem_of_singleton. done.
Qed.

Lemma mark_used_inv fd0 fb0 key o k :
  pool_inv o -> kernel_inv fd0 fb0 o k -> is_Some (slots_ o !! key) -> key ∉ stale_ o ->
  pool_inv (mark_used key o) /\ kernel_inv fd0 fb0 (mark_used key o) k.
Proof.
  destruct o as [fd fmt mx cb sl lr rt st pr]. intros [A1 A2 A3 A4 A5 A6] [B1 B2 B3 B4] Hin Hst. simpl in *.
  split; [|by split]. split; simpl; try done.
  - by apply touch_lru_nodup.
  - intros x. rewrite touch_lru_spec, A2. split; [by intros [->|?]|]. by right.
  - set_solver.
  - intros x Hx. apply A4. set_solver.
Qed.

Lemma insert_slot_inv fd0 fb0 key s o k k' :
  pool_inv o -> kernel_inv fd0 fb0 o k -> slots_ o !! key = None -> key ∉ stale_ o -> slot_ok s ->
  (forall n, n ∈ slot_fds s -> n ∉ open_fds k) -> (forall n, n ∈ open_fds k' <-> n ∈ slot_fds s \/ n ∈ open_fds k) ->
  fb_id s ∉ framebuffers k (fd_ o) -> framebuffers k' (fd_ o) = {[fb_id s]} ∪ framebuffers k (fd_ o) ->
  let o' := mark_used key (o {{ slots_ ::= insert key s }}) in pool_inv o' /\ kernel_inv fd0 fb0 o' k'.
Proof.
  destruct o as [fd fmt mx cb sl lr rt st pr]. intros [A1 A2 A3 A4 A5 A6] [B1 B2 B3 B4] Hn Hst Hok H1 H2 H3 H4. simpl in *.
  split; split; simpl; try done.
  - by apply touch_lru_nodup.
  - intros x. rewrite touch_lru_spec, A2, lookup_insert_is_Some'. destruct (decide (key = x)); naive_solver.
  - set_solver.
  - intros x Hx. rewrite lookup_insert_is_Some'. right. apply A4. set_solver.
  - intros x t [[<- <-]|[_ Ht]]%lookup_insert_Some; [done | by eapply A5].
  - by eapply owns_insert.
  - eapply owns_insert; [done | done | | ].
    + intros n ->%list_elem_of_singleton. done.
    + intros n. rewrite H4. unfold fbs. rewrite list_elem_of_singleton. set_solver.
Qed.

Lemma submit_import_inv fd0 fb0 key ps o k r o' k' :
  pool_inv o -> kernel_inv fd0 fb0 o k -> submit_import key ps o k = (r, o', k') ->
  pool_inv o' /\ kernel_inv fd0 fb0 o' k' /\ presenter_ o' = presenter_ o /\
  (forall x, is_Some (slots_ o !! x) -> is_Some (slots_ o' !! x)) /\
  match r with Val _ => is_Some (slots_ o' !! key) | Unexp _ => o' = o end.
Proof.
  intros Hp Hk. unfold submit_import. destruct (decide (key ∈ stale_ o)) as [|Hst]; [by intros [= <- <- <-]|].
  destruct (slots_ o !! key) as [s|] eqn:Es.
  { intros [= <- <- <-]. destruct (mark_used_inv fd0 fb0 key o k Hp Hk) as [H1 H2]; [by eexists | done|].
    split_and!; [done | done | by destruct o..|]. exists s. by destruct o. }
  destruct (import_buffer ps o k) as [r1 k1] eqn:Ei. pose proof (import_buffer_spec _ _ _ _ _ _ _ Hk Ei) as Hi.
  destruct r1 as [s|e].
  - destruct Hi as (I1 & I2 & I3 & I4 & I5). intros [= <- <- <-].
    destruct (insert_slot_inv fd0 fb0 key s o k k1 Hp Hk Es Hst I1 I2 I3 I4 I5) as [H1 H2].
    split_and!; [done | done | by destruct o | |].
    + intros x Hx. destruct o. simpl in *. rewrite lookup_insert_is_Some'. by right.
    + destruct o. simpl. by rewrite lookup_insert_eq.
  - destruct Hi as [I1 I2]. intros [= <- <- <-]. split_and!; [done | | done..].
    destruct Hk as [B1 B2 B3 B4]. split; [done | done | by eapply owns_live | by rewrite I2].
Qed.

(** ** Session resume

    [m] is the map as the loop rewrites it and [l] the entries to come; [dn]
    are the buffers already imported on the new device. *)
Record resuming (m dn : gmap Z DmaBufSlot) (l : list (Z * DmaBufSlot)) : Prop := {
  rs_nodup : NoDup l.*1;
  rs_rest : forall key s, (key, s) ∈ l -> m !! key = Some s /\ dn !! key = None /\ planes s <> [] /\ fds_valid s;
  rs_done : forall key, key ∉ l.*1 -> m !! key = dn !! key
}.

Lemma resuming_nil m dn : resuming m dn [] -> m = dn.
Proof. intros [_ _ Hd]. apply map_eq. intros key. apply Hd. by apply not_elem_of_nil. Qed.

Lemma resuming_insert m dn key s l s' :
  resuming m dn ((key, s) :: l) -> resuming (<[key := s']> m) (<[key := s']> dn) l.
Proof.
  intros [H1 H2 H3]. rewrite fmap_cons in *. apply NoDup_cons in H1 as [Hk H1]. cbn [fst] in *. split; [done| |].
  - intros x t Hx. assert (x <> key) by (intros ->; apply Hk; by apply (list_elem_of_fmap_2 fst) in Hx).
    rewrite !lookup_insert_ne by done. apply H2. by apply list_elem_of_further.
  - intros x Hx. destruct (decide (x = key)) as [->|]; [by rewrite !lookup_insert_eq|].
    rewrite !lookup_insert_ne by done. apply H3. by apply not_elem_of_cons.
Qed.

Lemma resuming_delete m dn key s l : resuming m dn ((key, s) :: l) -> resuming (delete key m) dn l.
Proof.
  intros [H1 H2 H3]. rewrite fmap_cons in *. apply NoDup_cons in H1 as [Hk H1]. cbn [fst] in *. split; [done| |].
  - intros x t Hx. assert (x <> key) by (intros ->; apply Hk; by apply (list_elem_of_fmap_2 fst) in Hx).
    rewrite lookup_delete_ne by done. apply H2. by apply list_elem_of_further.
  - intros x Hx. destruct (decide (x = key)) as [->|].
    + rewrite lookup_delete_eq. symmetry. apply (H2 key s), list_elem_of_here.
    + rewrite lookup_delete_ne by done. apply H3. by apply not_elem_of_cons.
Qed.

Lemma reimport_spec fd fmt base fb0 l m dn k :
  0 <= fd -> fd ∈ base -> resuming m dn l ->
  owns slot_fds base m (open_fds k) -> owns fbs fb0 dn (framebuffers k fd) ->
  (forall key s, dn !! key = Some s -> slot_ok s) ->
  let mk := reimport fd fmt l (m, k) in
  owns slot_fds base mk.1 (open_fds mk.2) /\ owns fbs fb0 mk.1 (framebuffers mk.2 fd) /\
  dom mk.1 ⊆ dom m /\ (forall key s, mk.1 !! key = Some s -> slot_ok s).
Proof.
  intros Hfd Hbase. cbv zeta. revert m dn k. induction l as [|[key s] l IH]; intros m dn k Hr Hfds Hfb Hok.
  { apply resuming_nil in Hr as ->. by split_and!. }
  destruct (rs_rest _ _ _ Hr key s (list_elem_of_here _ _)) as (Hm & Hdn & Hpl & Hv).
  unfold reimport. cbn [foldl]. fold (reimport fd fmt l).
  assert (Hd : slot_fds (drop_handles s) = slot_fds s).
  { unfold slot_fds, drop_handles. destruct s as [ps fb mo]. simpl. rewrite <- list_fmap_compose.
    apply list_fmap_ext. by intros i []. }
  destruct (import_slot fd (drop_handles s) fmt k) as [[r s'] k1] eqn:Ei.
  apply import_slot_spec in Ei as (I1 & I2 & _ & I3); [|by destruct s]. rewrite Hd in I1.
  destruct r as [u|e].
  - destruct I3 as (I3 & I4 & I5).
    assert (Hok' : slot_ok s').
    { split_and!; [done | | unfold fds_valid; by rewrite I1]. intros Hp. unfold slot_fds in I1. rewrite Hp in I1.
      destruct (planes s); [done | discriminate I1]. }
    destruct (IH (<[key:=s']> m) (<[key:=s']> dn) k1) as (J1 & J2 & J3 & J4).
    + by eapply resuming_insert.
    + rewrite I2. by eapply owns_replace.
    + eapply owns_insert; [done | done | |].
      * intros n ->%list_elem_of_singleton. done.
      * intros n. rewrite I5. unfold fbs. rewrite list_elem_of_singleton. set_solver.
    + intros x t [[<- <-]|[_ Ht]]%lookup_insert_Some; [done | by eapply Hok].
    + split_and!; [done | done | | done]. rewrite J3, dom_insert_lookup_L; [done | by eexists].
  - destruct I3 as (I3 & I5).
    assert (Hns : fd ∉ slot_fds s') by (rewrite I1; intros Hn; by apply (owns_base _ _ _ _ Hfds key s fd Hm Hn)).
    destruct (free_slot_spec fd s' k1) as [F1 F2]; [done | unfold fds_valid; by rewrite I1 | done|]. revert F1 F2.
    destruct (teardown_slot fd s' k1) as [s2 k2]. intros F1 F2. rewrite I3 in F2. cbv [Z.eqb] in F2. cbv iota in F2.
    destruct (IH (delete key m) dn (close_slot_fds s2 k2).2) as (J1 & J2 & J3 & J4).
    + by eapply resuming_delete.
    + eapply owns_delete; [done..|]. intros n. by rewrite F1, I1, I2.
    + by rewrite F2, I5.
    + done.
    + split_and!; [done | done | | done]. rewrite J3, dom_delete_L. set_solver.
Qed.

(** The duplicate of the new device's descriptor takes the place of the old one. *)
Lemma swap_device fd0 fb0 o k own new_fd e k1 :
  kernel_inv fd0 fb0 o k -> fcntl_dupfd new_fd k = (own, e, k1) -> 0 <= own ->
  let k2 := (close_device_fd (fd_ o) k1).2 in
  owns slot_fds ({[own]} ∪ fd0) (slots_ o) (open_fds k2) /\ own ∉ fd0 /\
  framebuffers k2 own = framebuffers k new_fd.
Proof.
  intros Hk Ed Hown. apply dupfd_law in Ed as [_ Ed]. rewrite (proj2 (Z.ltb_ge own 0)) in Ed by done.
  destruct Ed as (Hnew & Ho & Hfb). cbv zeta. unfold close_device_fd. cbn [snd].
  rewrite (proj2 (Z.leb_le 0 (fd_ o))) by apply (kv_fd _ _ _ _ Hk).
  destruct (close_law (fd_ o) k1) as [C1 C2]. pose proof (fd_open _ _ _ _ Hk) as Hopen.
  assert (Hne : own <> fd_ o) by congruence. rewrite C2, Hfb by done.
  pose proof (kv_fds _ _ _ _ Hk) as [W1 W2 W3].
  assert (Hslot : forall key s n, slots_ o !! key = Some s -> n ∈ slot_fds s -> n ∈ open_fds k /\ n <> fd_ o /\ n ∉ fd0).
  { intros key s n Hs Hn. specialize (W2 _ _ _ Hs Hn). split; [apply W1; eauto | set_solver]. }
  assert (Hfd0 : own ∉ fd0) by (intros Hin; apply Hnew, W1; left; set_solver).
  split_and!; [|done|done]. split; [| |done].
  - intros n. rewrite C1, Ho. split.
    + intros [[->%elem_of_singleton|[Hb|?]%W1]%elem_of_union Hn]%elem_of_difference; [left; set_solver | left; set_solver | by right].
    + intros [[->%elem_of_singleton|Hn]%elem_of_union|(key & s & Hs & Hn)].
      * set_solver.
      * assert (n ∈ open_fds k) by (apply W1; left; set_solver). pose proof (kv_fresh _ _ _ _ Hk). set_solver.
      * destruct (Hslot _ _ _ Hs Hn) as (? & ? & _). set_solver.
  - intros key s n Hs Hn. destruct (Hslot _ _ _ Hs Hn) as (? & _ & ?). set_solver.
Qed.

Lemma resume_inv fd0 fb0 new_fd o k r o' k' :
  pool_inv o -> kernel_inv fd0 fb0 o k -> on_session_resumed new_fd o k = (r, o', k') ->
  match r with
  | Val _ => pool_inv o' /\ kernel_inv fd0 (framebuffers k new_fd) o' k' /\ presenter_ o' = pm_reset (presenter_ o)
  | Unexp _ => o' = o /\ kernel_inv fd0 fb0 o k'
  end.
Proof.
  intros Hp Hk. unfold on_session_resumed. destruct (new_fd <? 0); [by intros [= <- <- <-]|].
  unfold dup_device_fd. destruct (fcntl_dupfd new_fd k) as [[own e] k1] eqn:Ed. destruct (Z.ltb_spec own 0) as [Hneg|Hown].
  { intros [= <- <- <-]. split; [done|]. apply dupfd_law in Ed as [D1 D2].
    rewrite (proj2 (Z.ltb_lt own 0)) in D2 by done. destruct Hk as [K1 K2 K3 K4].
    split; [done | done | by rewrite D2 | rewrite D1; [done | lia]]. }
  destruct (swap_device _ _ _ _ _ _ _ _ Hk Ed Hown) as (S1 & S2 & S3). cbv zeta in S1, S3.
  destruct o as [fd fmt mx cb sl lr rt st pr]. simpl in *.
  set (k2 := if 0 <=? fd then close_fd fd k1 else k1) in *.
  destruct (reimport_spec own fmt ({[own]} ∪ fd0) (framebuffers k new_fd) (map_to_list sl) sl ∅ k2) as (R1 & R2 & R3 & R4).
  - done.
  - set_solver.
  - split; [apply NoDup_fst_map_to_list | |].
    + intros key s Hin%elem_of_map_to_list. split_and!; [done | done | |]; by apply (pv_slots _ Hp key s).
    + intros key Hn. rewrite lookup_empty. apply eq_None_not_Some. intros [s Hs]. apply Hn.
      apply (list_elem_of_fmap_2 fst _ (key, s)). by apply elem_of_map_to_list.
  - done.
  - rewrite S3. by apply owns_empty.
  - by intros key s ?%lookup_empty_Some.
  - destruct (reimport own fmt (map_to_list sl) (sl, k2)) as [m k3]. cbn [fst snd] in *. intros [= <- <- <-].
    destruct Hp as [H1 H2 H3 H4 H5 H6]. simpl in *. split_and!; [|by split | done].
    assert (Hm : forall key, is_Some (m !! key) <-> is_Some (sl !! key) /\ key ∉ dom sl ∖ dom m).
    { intros key. rewrite <- !elem_of_dom, not_elem_of_difference. split; [intros Hin; split; [by apply R3 | by right]|].
      intros [? [?|?]]; done. }
    split; simpl; [by apply NoDup_filter | | by apply difference_mono_r | | done | done].
    + intros key. rewrite list_elem_of_filter, H2, Hm. tauto.
    + intros key [Hin Hn]%elem_of_difference. apply Hm. auto.
Qed.

(** ** Runs of the public calls *)

Inductive pool_op :=
  | Submit (key : Z) (ps : list ExternalPlaneInfo) (f : option SyncFence) (dmg : list DamageRect)
  | Acquire (poll : Z -> Z -> Z)
  | Release (b : AcquiredBuffer) (f : option SyncFence)
  | Retire (key : Z)
  | ResetGeneration (w h fourcc : Z)
  | Retired.

Definition pool_step (x : pool_op) (o : Pool) (k : kstate) : Pool * kstate :=
  match x with
  | Submit key ps f dmg => let '(_, o, k) := submit key ps f dmg o k in (o, k)
  | Acquire poll => let '(_, o, k) := acquire poll o k in (o, k)
  | Release b f => ((release_with_fence b f o).2, k)
  | Retire key => (retire key o, k)
  | ResetGeneration w h fourcc => (reset_generation w h fourcc o, k)
  | Retired => (on_retired o, k)
  end.

(** [fd0]: the descriptors of the rest of the process; [fb0]: the
    framebuffers of the device file when the pool came to it. *)
Inductive pool_reached (fd0 : gset Z) : gset Z -> Pool -> kstate -> Prop :=
  | pool_created dev_fd w h fourcc m cb dl mx k o k' :
      open_fds k = fd0 -> create dev_fd w h fourcc m cb dl mx k = (Val o, k') ->
      pool_reached fd0 (framebuffers k dev_fd) o k'
  | pool_stepped fb0 o k x : pool_reached fd0 fb0 o k ->
      pool_reached fd0 fb0 (pool_step x o k).1 (pool_step x o k).2
  | pool_resumed fb0 o k new_fd r o' k' : pool_reached fd0 fb0 o k ->
      on_session_resumed new_fd o k = (r, o', k') ->
      pool_reached fd0 (if has_value r then framebuffers k new_fd else fb0) o' k'.

Lemma create_inv dev_fd w h fourcc m cb dl mx k o k' :
  create dev_fd w h fourcc m cb dl mx k = (Val o, k') ->
  pool_inv o /\ kernel_inv (open_fds k) (framebuffers k dev_fd) o k' /\ pool_live o.
Proof.
  unfold create, dup_device_fd. destruct ((w =? 0) || (h =? 0) || (fourcc =? 0)); [done|].
  destruct (dev_fd <? 0); [done|]. destruct (fcntl_dupfd dev_fd k) as [[own e] k1] eqn:Ed.
  apply dupfd_law in Ed as [_ Ed]. destruct (Z.ltb_spec own 0); [done|]. intros [= <- <-].
  destruct Ed as (Hn & Ho & Hf). split_and!.
  - split; simpl; try done; [apply NoDup_nil_2 | |].
    + intros key. rewrite elem_of_nil. split; [done|]. by intros [s ?%lookup_empty_Some].
    + destruct (Nat.ltb_spec mx 1); lia.
  - split; simpl; [done | done | |]; apply owns_empty; [by rewrite Ho | by rewrite Hf].
  - intros key. simpl. unfold referenced. simpl. rewrite pm_make_pending, pm_make_referenced. by intros [?|?].
Qed.

Lemma live_presenter f o :
  pool_live o ->
  (forall key, pm_pending (f (presenter_ o)) = Some key \/ pm_is_referenced key (f (presenter_ o)) = true ->
    pm_pending (presenter_ o) = Some key \/ pm_is_referenced key (presenter_ o) = true) ->
  pool_live (o {{ presenter_ ::= f }}).
Proof. destruct o. intros Hl Hf key Hk. apply (Hl key), Hf, Hk. Qed.

(** The state after the presenter's half of an acquire. *)
Lemma acquire_take_inv fd0 fb0 poll o k :
  pool_inv o -> kernel_inv fd0 fb0 o k -> pool_live o ->
  let '(d, o1) := acquire_take poll o in
  pool_inv o1 /\ kernel_inv fd0 fb0 o1 k /\ pool_live o1 /\ slots_ o1 = slots_ o /\ retiring_ o1 = retiring_ o /\
  lru_ o1 = lru_ o /\ max_pool_ o1 = max_pool_ o /\ fd_ o1 = fd_ o /\
  pm_pending (presenter_ o1) = None /\ (d, presenter_ o1) = pm_acquire poll (presenter_ o) /\
  (kind d <> PNone -> referenced o1 (key d) = true).
Proof.
  intros Hp Hk Hl. unfold acquire_take. destruct (pm_acquire poll (presenter_ o)) as [d p] eqn:Ea.
  destruct (with_presenter_inv fd0 fb0 (fun _ => p) o k Hp Hk) as [H1 H2].
  pose proof (pm_acquire_pending poll (presenter_ o)) as L1. pose proof (pm_acquire_fresh poll (presenter_ o)) as L2.
  pose proof (pm_acquire_other poll (presenter_ o)) as L3. pose proof (pm_acquire_key poll (presenter_ o)) as L4.
  rewrite Ea in *. cbn [fst snd] in *. split_and!; [done | done | | by destruct o..|].
  - apply (live_presenter (fun _ => p)); [done|]. intros j [Hj|Hj]; [congruence|].
    destruct (decide (kind d = Fresh)) as [Hf|Hf].
    + destruct (L2 Hf) as [L2a L2b]. destruct (L2b j Hj) as [? | ->]; [by right | by left].
    + right. by rewrite <- (L3 Hf).
  - intros Hd. unfold referenced. destruct o. by apply L4.
Qed.

(** Evicting unreferenced keys takes nothing the presenter may show. *)
Lemma live_evicted fd0 fb0 dead o o' k' :
  evicted fd0 fb0 dead o o' k' -> pool_live o -> pm_pending (presenter_ o) = None -> pool_live o'.
Proof.
  intros He Hl Hpend key. unfold referenced. rewrite (ev_presenter _ _ _ _ _ _ He), Hpend. intros [?|Href]; [done|].
  rewrite (ev_slots _ _ _ _ _ _ He). destruct (decide (key ∈ dead)) as [Hd|_].
  - apply (ev_dead _ _ _ _ _ _ He) in Hd. unfold referenced in Hd. congruence.
  - apply Hl. by right.
Qed.

Definition pool_good (fd0 fb0 : gset Z) (o : Pool) (k : kstate) : Prop :=
  pool_inv o /\ kernel_inv fd0 fb0 o k /\ pool_live o.

Lemma submit_good fd0 fb0 key ps f dmg o k :
  pool_good fd0 fb0 o k ->
  pool_good fd0 fb0 (submit key ps f dmg o k).1.2 (submit key ps f dmg o k).2.
Proof.
  intros (Hp & Hk & Hl). unfold submit. destruct (submit_import key ps o k) as [[r o1] k1] eqn:Es.
  destruct (submit_import_inv _ _ _ _ _ _ _ _ _ Hp Hk Es) as (H1 & H2 & H3 & H4 & H5).
  destruct r as [u|e]; cbn [fst snd].
  - destruct (with_presenter_inv fd0 fb0 (pm_submit key f dmg) o1 k1 H1 H2) as [H6 H7]. split_and!; [done | done |].
    unfold submit_handoff. destruct o1 as [fd fmt mx cb sl lr rt st pr]. simpl in *. subst pr. intros j.
    unfold referenced. simpl. rewrite pm_submit_pending, pm_submit_referenced. intros [[= <-]|Hj]; [done|].
    apply H4, Hl. by right.
  - subst o1. by split_and!.
Qed.

Lemma acquire_good fd0 fb0 poll o k :
  pool_good fd0 fb0 o k -> pool_good fd0 fb0 (acquire poll o k).1.2 (acquire poll o k).2.
Proof.
  intros (Hp & Hk & Hl). unfold acquire. pose proof (acquire_take_inv fd0 fb0 poll o k Hp Hk Hl) as Ht.
  destruct (acquire_take poll o) as [d o1]. destruct Ht as (H1 & H2 & H3 & _ & _ & _ & _ & _ & H4 & _).
  pose proof (resolve_spec fd0 fb0 d o1 k H2 H1) as Hr. destruct (acquire_resolve d o1 k) as [[r o2] k2].
  destruct Hr as (d1 & d2 & He & _). cbn [fst snd]. split_and!.
  - apply (ev_pool _ _ _ _ _ _ He).
  - apply (ev_kernel _ _ _ _ _ _ He).
  - by eapply live_evicted.
Qed.

(** Marks for retirement. *)
Lemma marks_good fd0 fb0 rt st fmt o k :
  pool_good fd0 fb0 o k -> (forall key, key ∈ rt -> is_Some (slots_ o !! key)) -> st ⊆ rt ->
  pool_good fd0 fb0 (mkPool (fd_ o) fmt (max_pool_ o) (on_release_ o) (slots_ o) (lru_ o) rt st (presenter_ o)) k.
Proof. intros ([A1 A2 A3 A4 A5 A6] & [B1 B2 B3 B4] & Hl) Hrt Hst. split_and!; [by split | by split | done]. Qed.

Lemma pool_step_good fd0 fb0 x o k :
  pool_good fd0 fb0 o k -> pool_good fd0 fb0 (pool_step x o k).1 (pool_step x o k).2.
Proof.
  intros Hg. pose proof Hg as (Hp & Hk & Hl). destruct x as [key ps f dmg|poll|b f|key|w h fourcc|]; cbn [pool_step].
  - pose proof (submit_good fd0 fb0 key ps f dmg o k Hg) as Hs. by destruct (submit key ps f dmg o k) as [[r o1] k1].
  - pose proof (acquire_good fd0 fb0 poll o k Hg) as Ha. by destruct (acquire poll o k) as [[r o1] k1].
  - unfold release_with_fence. destruct (pm_release (ab_opaque b) (presenter_ o)) as [key p] eqn:Er. cbn [fst snd].
    destruct (with_presenter_inv fd0 fb0 (fun _ => p) o k Hp Hk) as [H1 H2]. split_and!; [done | done |].
    apply (live_presenter (fun _ => p)); [done|]. intros j.
    pose proof (pm_release_pending (ab_opaque b) (presenter_ o)) as L1.
    pose proof (pm_release_referenced (ab_opaque b) j (presenter_ o)) as L2. rewrite Er in *. cbn [snd] in *.
    rewrite L1. tauto.
  - unfold retire. destruct (slots_ o !! key) as [s|] eqn:Es; [|done]. cbn [fst snd].
    pose proof (marks_good fd0 fb0 ({[key]} ∪ retiring_ o) ({[key]} ∪ stale_ o) (format_ o) o k Hg) as Hm.
    destruct o. simpl in *. apply Hm.
    + intros j [->%elem_of_singleton|Hj]%elem_of_union; [by eexists | by apply (pv_retiring _ Hp)].
    + apply union_mono_l, (pv_stale _ Hp).
  - pose proof (marks_good fd0 fb0 (dom (slots_ o) ∪ retiring_ o) (stale_ o)
      ((format_ o) {{ width := w; height := h; drm_fourcc := fourcc }}) o k Hg) as Hm.
    unfold reset_generation. cbn [fst snd]. destruct o. simpl in *. apply Hm.
    + intros j [Hj|Hj]%elem_of_union; [by apply elem_of_dom | by apply (pv_retiring _ Hp)].
    + apply union_subseteq_r', (pv_stale _ Hp).
  - destruct (with_presenter_inv fd0 fb0 pm_retire_scanning o k Hp Hk) as [H1 H2]. split_and!; [done | done |].
    apply live_presenter; [done|]. intros j. rewrite pm_retire_pending, pm_retire_referenced. done.
Qed.

Lemma pool_reached_good fd0 fb0 o k : pool_reached fd0 fb0 o k -> pool_good fd0 fb0 o k.
Proof.
  induction 1 as [dev_fd w h fourcc m cb dl mx k o k' <- Hc|fb0 o k x _ IH|fb0 o k new_fd r o' k' _ (Hp & Hk & Hl) Hres].
  - by apply create_inv in Hc.
  - by apply pool_step_good.
  - pose proof (resume_inv _ _ _ _ _ _ _ _ Hp Hk Hres) as Hr. destruct r as [u|e]; cbn [has_value].
    + destruct Hr as (H1 & H2 & H3). split_and!; [done | done |]. intros key. unfold referenced.
      rewrite H3, pm_reset_pending, pm_reset_referenced. by intros [?|?].
    + destruct Hr as [-> H1]. by split_and!.
Qed.

(** ** What the pool promises *)


(** What an acquire evicts: in every run, the buffers it tears down are
    referenced by no commit and every other stays as it was; of the keys
    marked for retirement exactly the unreferenced ones go; beyond those only
    the least recently submitted idle ones go, as few as bring the cache down
    to [max_pool] buffers; and more than [max_pool] stay only when every one
    of them is still referenced. *)
Theorem acquire_evicts_idle_buffers fd0 fb0 poll o k r o' k' :
  pool_reached fd0 fb0 o k -> acquire poll o k = (r, o', k') ->
  exists retired pruned,
    (forall key, slots_ o' !! key = if decide (key ∈ retired ++ pruned) then None else slots_ o !! key) /\
    (forall key, key ∈ retired ++ pruned -> referenced o' key = false) /\
    (forall key, key ∈ retired <-> key ∈ retiring_ o /\ referenced o' key = false) /\
    idle o' (filter (fun x => x ∉ retired) (lru_ o)) = pruned ++ idle o' (lru_ o') /\
    (pruned = [] \/ (max_pool_ o <= size (slots_ o'))%nat) /\
    ((size (slots_ o') <= max_pool_ o)%nat \/
     forall key, is_Some (slots_ o' !! key) -> referenced o' key = true).
Proof.
  intros (Hp & Hk & Hl)%pool_reached_good. unfold acquire.
  pose proof (acquire_take_inv fd0 fb0 poll o k Hp Hk Hl) as Ht. destruct (acquire_take poll o) as [d o1].
  destruct Ht as (T1 & T2 & _ & T4 & T5 & T6 & T7 & _).
  pose proof (resolve_spec fd0 fb0 d o1 k T2 T1) as Hr. intros Ha. rewrite Ha in Hr.
  destruct Hr as (retired & pruned & He & R1 & R2 & R3 & R4). exists retired, pruned.
  assert (Hsame : forall x, referenced o' x = referenced o1 x)
    by (intros x; unfold referenced; by rewrite (ev_presenter _ _ _ _ _ _ He)).
  assert (Hidle : forall l, idle o' l = idle o1 l) by (intros l; apply list_filter_iff; intros x; by rewrite Hsame).
  rewrite <- T4, <- T5, <- T6, <- T7, !Hidle. split_and!; [| | | done | done |].
  - apply (ev_slots _ _ _ _ _ _ He).
  - intros key. rewrite Hsame. apply (ev_dead _ _ _ _ _ _ He).
  - intros key. by rewrite Hsame.
  - destruct R3 as [?|R3]; [by left|]. right. intros key Hkey. rewrite Hsame.
    apply (pv_lru _ (ev_pool _ _ _ _ _ _ He)) in Hkey. apply not_false_is_true. intros Href.
    assert (Hin : key ∈ idle o1 (lru_ o')) by by apply list_elem_of_filter. by rewrite R3 in Hin; apply not_elem_of_nil in Hin.
Qed.

Lemma destroy_slots base fd l (m : gmap Z DmaBufSlot) k :
  0 <= fd -> fd ∈ base -> NoDup l.*1 -> m = list_to_map l -> (forall key s, m !! key = Some s -> fds_valid s) ->
  owns slot_fds base m (open_fds k) ->
  owns slot_fds base ∅ (open_fds
    (foldl (fun k s => let '(s, k) := teardown_slot fd s k in (close_slot_fds s k).2) k l.*2)).
Proof.
  intros Hfd Hb. revert m k. induction l as [|[key s] l IH]; intros m k Hnd -> Hv Ho; [done|].
  rewrite !fmap_cons in *. apply NoDup_cons in Hnd as [Hk Hnd]. cbn [foldl fst snd list_to_map foldr uncurry] in *.
  assert (Hs : (<[key:=s]> (list_to_map l) : gmap Z DmaBufSlot) !! key = Some s) by apply lookup_insert_eq.
  assert (Hns : fd ∉ slot_fds s) by (intros Hn; by apply (owns_base _ _ _ _ Ho _ _ _ Hs Hn)).
  destruct (free_slot_spec fd s k Hfd (Hv _ _ Hs) Hns) as [F1 _]. revert F1.
  destruct (teardown_slot fd s k) as [s1 k1]. intros F1. apply (IH (list_to_map l)); [done | done | |].
  - intros x t Ht. apply (Hv x). rewrite lookup_insert_ne; [done|]. intros ->.
    rewrite (not_elem_of_list_to_map_1 _ _ Hk) in Ht. done.
  - rewrite <- (delete_insert_id (list_to_map l) key s) by by apply not_elem_of_list_to_map_1.
    by eapply owns_delete.
Qed.

(** C26. No leak: in every run, resumes and failed imports included, the
    descriptors and framebuffers the pool adds to what was there are exactly
    those of its cached buffers and its device descriptor, each owned by one
    buffer; and destroying the pool leaves the descriptors as before. *)
Theorem pool_leaks_nothing fd0 fb0 o k :
  pool_reached fd0 fb0 o k ->
  (forall n, n ∈ open_fds k <->
     n ∈ fd0 \/ n = fd_ o \/ exists key s, slots_ o !! key = Some s /\ n ∈ slot_fds s) /\
  (forall id, id ∈ framebuffers k (fd_ o) <->
     id ∈ fb0 \/ exists key s, slots_ o !! key = Some s /\ id = fb_id s) /\
  (forall key key' s s', slots_ o !! key = Some s -> slots_ o !! key' = Some s' -> key <> key' ->
     fb_id s <> fb_id s' /\ forall n, n ∈ slot_fds s -> n ∉ slot_fds s') /\
  (forall n, n ∈ open_fds (destroy o k) <-> n ∈ fd0).
Proof.
  intros (Hp & [K1 K2 K3 K4] & _)%pool_reached_good. split_and!.
  - intros n. rewrite (owns_iff _ _ _ _ K3). set_solver.
  - intros id. rewrite (owns_iff _ _ _ _ K4). unfold fbs. setoid_rewrite list_elem_of_singleton. done.
  - intros key key' s s' Hs Hs' Hne. split.
    + intros He. apply Hne. apply (owns_inj _ _ _ _ K4 key key' s s' (fb_id s)); [done..| |].
      all: unfold fbs; rewrite ?He; by apply list_elem_of_singleton.
    + intros n Hn Hn'. apply Hne. by apply (owns_inj _ _ _ _ K3 key key' s s' n).
  - intros n. unfold destroy, close_device_fd. cbn [snd]. rewrite (proj2 (Z.leb_le 0 _) K1), (proj1 (close_law _ _)).
    pose proof (destroy_slots ({[fd_ o]} ∪ fd0) (fd_ o) (map_to_list (slots_ o)) (slots_ o) k K1 ltac:(set_solver)
      (NoDup_fst_map_to_list _) ltac:(by rewrite list_to_map_to_list)
      (fun key s Hs => proj2 (proj2 (pv_slots _ Hp key s Hs))) K3) as Hd.
    rewrite elem_of_difference, (owns_iff _ _ _ _ Hd n). split.
    + intros [[Hn|(key & s & ?%lookup_empty_Some & _)] Hf]; [set_solver | done].
    + intros Hn. split; [left; set_solver|]. intros ->%elem_of_singleton. done.
Qed.
End Invariants.

(** ** A concrete kernel and concrete runs *)

Record Sample := mkSample { s_open : gset Z; s_fbs : gset Z; s_refuse : bool }.

Definition above (s : gset Z) : Z := foldr Z.max 0 (elements s) + 1.

Lemma above_fresh s : above s ∉ s /\ 0 < above s.
Proof.
  unfold above. assert (Hle : forall l x, x ∈ l -> x <= foldr Z.max 0 l).
  { induction l as [|y l IH]; intros x; [by intros ?%not_elem_of_nil|]. cbn.
    intros [->|Hx]%elem_of_cons; [lia|]. specialize (IH x Hx). lia. }
  assert (Hpos : forall l, 0 <= foldr Z.max 0 l) by (induction l; cbn; lia).
  split; [|specialize (Hpos (elements s)); lia]. intros Hin%elem_of_elements%Hle. lia.
Qed.

(** One device: every descriptor is for its file; an importer that can refuse. *)
#[export] Instance sample_kernel : DmaBufKernel := {
  kstate := Sample;
  open_fds := s_open;
  framebuffers := fun k _ => s_fbs k;
  fcntl_dupfd := fun _ k => (above (s_open k), 0, k {{ s_open ::= union {[above (s_open k)]} }});
  close_fd := fun fd k => k {{ s_open ::= fun s => s ∖ {[fd]} }};
  drmPrimeFDToHandle := fun _ d k => (0, d + 100, 0, k);
  drmGetCap_modifiers := fun _ _ => (0, 1);
  drmModeAddFB2WithModifiers := fun _ _ k =>
    if s_refuse k then (-1, 0, 22, k) else (0, above (s_fbs k), 0, k {{ s_fbs ::= union {[above (s_fbs k)]} }});
  drmModeRmFB := fun _ id k => k {{ s_fbs ::= fun s => s ∖ {[id]} }};
  gem_close := fun _ _ k => k
}.

#[export] Instance sample_kernel_laws : DmaBufKernelLaws.
Proof.
  split; cbn [open_fds framebuffers fcntl_dupfd close_fd drmPrimeFDToHandle drmModeAddFB2WithModifiers drmModeRmFB gem_close
              sample_kernel kstate].
  - intros fd [op fb rf] n e k'. simpl. intros [= <- <- <-]. split; [done|]. pose proof (above_fresh op) as [? ?].
    by rewrite (proj2 (Z.ltb_ge _ 0)) by lia.
  - by intros fd [op fb rf].
  - intros fd d k rc h e k' [= <- <- <- <-]. done.
  - intros fd r [op fb rf] rc id e k'. simpl. destruct rf; intros [= <- <- <- <-]; [done|]. simpl.
    pose proof (above_fresh fb) as [? ?]. by rewrite (proj2 (Z.eqb_neq _ 0)) by lia.
  - by intros fd id [op fb rf].
  - done.
Qed.

Notation SamplePool := (ExternalDmaBufPool RingPresenter).

Definition first_kernel : kstate := mkSample {[3]} {[40]} false.
Definition pool_start (mx : nat) : expected SamplePool * kstate := create 3 64 64 875713112 0 true None mx first_kernel.

Definition run_pool (ops : list pool_op) (s : SamplePool * kstate) : SamplePool * kstate :=
  foldl (fun s x => pool_step x s.1 s.2) s ops.

Lemma run_pool_reached fd0 fb0 ops s :
  pool_reached fd0 fb0 s.1 s.2 -> pool_reached fd0 fb0 (run_pool ops s).1 (run_pool ops s).2.
Proof.
  revert s. induction ops as [|x ops IH]; intros s Hs; [done|]. apply IH. by apply pool_stepped.
Qed.

Definition empty_pool (mx : nat) : SamplePool := mkPool 4 (mkFormat 875713112 0 64 64) mx true ∅ [] ∅ ∅ (make_presenter None).
Definition opened_kernel : kstate := mkSample ({[4]} ∪ {[3]}) {[40]} false.

Lemma pool_start_reached mx : (1 <= mx)%nat -> pool_reached {[3]} {[40]} (empty_pool mx) opened_kernel.
Proof.
  intros Hmx. apply (pool_created {[3]} 3 64 64 875713112 0 true None mx first_kernel); [done|].
  unfold create, empty_pool, opened_kernel. destruct (Nat.ltb_spec mx 1); [lia|]. reflexivity.
Qed.

Definition plane_of (fd : Z) : list ExternalPlaneInfo := [mkInfo fd 0 256].
Definition submit_key (key : Z) : pool_op := Submit key (plane_of 9) None [].

(** Keys 10 and 20 are shown in turn, the first is given back, 20 is shown
    again: a cache of one buffer keeps the one on screen. *)
Definition two_buffers : list pool_op :=
  [submit_key 10; Acquire signalled; submit_key 20; Acquire signalled;
   Release (mkBuffer 41 1 None []) None; submit_key 20].

Lemma triple_eta {A B C} (x : A * B * C) : x = (x.1.1, x.1.2, x.2).
Proof. by destruct x as [[]]. Qed.


Lemma acquire_evicts_idle_buffers_witness :
  let s := run_pool two_buffers (empty_pool 1, opened_kernel) in
  let a := acquire signalled s.1 s.2 in
  cached_count s.1 = 2%nat /\ cached_count a.1.2 = 1%nat /\
  exists retired pruned,
    (forall key, slots_ a.1.2 !! key = if decide (key ∈ retired ++ pruned) then None else slots_ s.1 !! key) /\
    (forall key, key ∈ retired ++ pruned -> referenced a.1.2 key = false).
Proof.
  cbv zeta. split; [by vm_compute|]. split; [by vm_compute|].
  edestruct (acquire_evicts_idle_buffers {[3]} {[40]} signalled) as (retired & pruned & H1 & H2 & _);
    [apply (run_pool_reached _ _ two_buffers (empty_pool 1, opened_kernel)), pool_start_reached; lia
    | apply triple_eta |].
  by exists retired, pruned.
Defined.

Lemma pool_leaks_nothing_witness :
  let s := run_pool two_buffers (empty_pool 1, opened_kernel) in
  s_open s.2 = {[3; 4; 5; 6]} /\ forall n, n ∈ open_fds (destroy s.1 s.2) <-> n ∈ ({[3]} : gset Z).
Proof.
  cbv zeta. split; [apply (bool_decide_unpack _); by vm_compute|].
  refine (proj2 (proj2 (proj2 (pool_leaks_nothing {[3]} {[40]} _ _ _)))).
  apply (run_pool_reached _ _ two_buffers (empty_pool 1, opened_kernel)), pool_start_reached. lia.
Defined.

(** The two locks are taken one after the other, so a submit can run between
    the halves of an acquire: the buffer is cached and pending, but nothing
    references it yet, and the prune of that acquire tears it down; the next
    acquire hands it out with framebuffer 0. *)
Lemma submit_inside_acquire_loses_the_buffer :
  let s := run_pool [submit_key 10; Acquire signalled] (empty_pool 1, opened_kernel) in
  let '(d, o1) := acquire_take signalled s.1 in
  let '(r, o2, k2) := submit 20 (plane_of 9) None [] o1 s.2 in
  let '(_, o3, k3) := acquire_resolve d o2 k2 in
  r = Val tt /\ (acquire signalled o3 k3).1.1 = Val (mkBuffer 0 2 None []).
Proof. by vm_compute. Qed.
