(* ===== verification/DmaBufRing.v ===== *)
(** The fixed-slot dma-buf source: [src/scene/external_dma_buf_ring.hpp] and
    [.cpp], the second owner of the presentation state machine.  The slot
    index is the presenter's key, and [slots_.at(key)] throws out of range,
    which an acquire reports as [None]. *)
From S2P Require Import Prelude FormatMod RingPresenter BufferSource DmaBufSlot DmaBufPool.

Record ExternalSlotDesc := mkSlotDesc { sd_modifier : Z; sd_planes : list ExternalPlaneInfo }.

Section Ring.
Context {P : Type} `{Pr : Presentation P} `{K : DmaBufKernel}.

Record ExternalDmaBufRing := mkDmaRing {
  fd_ : Z;
  format_ : SourceFormat;
  slots_ : list DmaBufSlot;
  on_release_ : bool;
  presenter_ : P
}.

(** The first check that fails, slot by slot. *)
Fixpoint validate_slots (fourcc : Z) (table : option FormatTable) (ds : list ExternalSlotDesc) : option errc :=
  match ds with
  | [] => None
  | d :: ds' =>
      if (length (sd_planes d) =? 0)%nat || (k_max_planes <? length (sd_planes d))%nat then Some EINVAL
      else if negb (forallb plane_ok (sd_planes d)) then Some EINVAL
      else if match table with Some t => negb (supports t fourcc (sd_modifier d)) | None => false end then Some (Errno 95)
      else validate_slots fourcc table ds'
  end.

(** Each slot is in the ring before its planes are duplicated, so a failure
    leaves what it holds to the destructor. *)
Fixpoint build_slots (ds : list ExternalSlotDesc) (r : ExternalDmaBufRing) (k : kstate)
  : expected unit * ExternalDmaBufRing * kstate :=
  match ds with
  | [] => (Val tt, r, k)
  | d :: ds' =>
      let '(e, s, k) := dup_planes (sd_planes d) (DmaBufSlot.mkSlot [] 0 (sd_modifier d)) k in
      match e with
      | Unexp e => (Unexp e, r {{ slots_ ::= fun l => l ++ [s] }}, k)
      | Val _ =>
          let '(e, s, k) := import_slot (fd_ r) s (format_ r) k in
          let r := r {{ slots_ ::= fun l => l ++ [s] }} in
          match e with
          | Unexp e => (Unexp e, r, k)
          | Val _ => build_slots ds' r k
          end
      end
  end.

Fixpoint teardown_kernel_state (fd : Z) (ss : list DmaBufSlot) (k : kstate) : list DmaBufSlot * kstate :=
  match ss with
  | [] => ([], k)
  | s :: ss' =>
      let '(s, k) := teardown_slot fd s k in
      let '(ss', k) := teardown_kernel_state fd ss' k in (s :: ss', k)
  end.

Fixpoint close_duped_fds (ss : list DmaBufSlot) (k : kstate) : list DmaBufSlot * kstate :=
  match ss with
  | [] => ([], k)
  | s :: ss' =>
      let '(s, k) := close_slot_fds s k in
      let '(ss', k) := close_duped_fds ss' k in (s :: ss', k)
  end.

(** The destructor. *)
Definition destroy (r : ExternalDmaBufRing) (k : kstate) : kstate :=
  let '(ss, k) := teardown_kernel_state (fd_ r) (slots_ r) k in
  let '(_, k) := close_device_fd (fd_ r) k in
  (close_duped_fds ss k).2.

Definition create (dev_fd w h fourcc : Z) (ds : list ExternalSlotDesc) (validate_against : option FormatTable)
  (on_release : bool) (fence_deadline : option Z) (k : kstate) : expected ExternalDmaBufRing * kstate :=
  if (w =? 0) || (h =? 0) || (fourcc =? 0) then (Unexp EINVAL, k)
  else
    match ds with
    | [] => (Unexp EINVAL, k)
    | d0 :: _ =>
        match validate_slots fourcc validate_against ds with
        | Some e => (Unexp e, k)
        | None =>
            if dev_fd <? 0 then (Unexp EBADF, k)
            else
              let '(own, k) := dup_device_fd dev_fd k in
              match own with
              | Unexp e => (Unexp e, k)
              | Val fd =>
                  let r := mkDmaRing fd (mkFormat fourcc (sd_modifier d0) w h) [] on_release (pm_make fence_deadline) in
                  let '(e, r, k) := build_slots ds r k in
                  match e with
                  | Unexp e => (Unexp e, destroy r k)
                  | Val _ => (Val r, k)
                  end
              end
        end
    end.

Definition submit (slot : Z) (f : option SyncFence) (dmg : list DamageRect) (r : ExternalDmaBufRing) : ExternalDmaBufRing :=
  if Z.of_nat (length (slots_ r)) <=? slot then r else r {{ presenter_ ::= pm_submit slot f dmg }}.

(** [slots_.at(key)]. *)
Definition at_key (key : Z) (ss : list DmaBufSlot) : option DmaBufSlot :=
  if key <? 0 then None else ss !! Z.to_nat key.

Definition acquire (poll : Z -> Z -> Z) (r : ExternalDmaBufRing) : option (expected AcquiredBuffer) * ExternalDmaBufRing :=
  let '(d, p) := pm_acquire poll (presenter_ r) in
  let r := r {{ presenter_ := p }} in
  (match kind d with
   | Fresh => s ← at_key (key d) (slots_ r); Some (Val (mkBuffer (fb_id s) (token d) (fence d) (damage d)))
   | Hold => s ← at_key (key d) (slots_ r);
       Some (if negb (fb_id s =? 0) then Val (mkBuffer (fb_id s) (token d) None []) else Unexp EAGAIN)
   | PNone => Some (Unexp EAGAIN)
   end, r).

Definition release_with_fence (b : AcquiredBuffer) (f : option SyncFence) (r : ExternalDmaBufRing)
  : option (Z * option SyncFence) * ExternalDmaBufRing :=
  let '(key, p) := pm_release (ab_opaque b) (presenter_ r) in
  (match key with Some key => if on_release_ r then Some (key, f) else None | None => None end,
   r {{ presenter_ := p }}).

Definition on_retired (r : ExternalDmaBufRing) : ExternalDmaBufRing := r {{ presenter_ ::= pm_retire_scanning }}.

Definition export_dma_buf (r : ExternalDmaBufRing) : expected DmaBufDesc :=
  match pm_scanning_key (presenter_ r) with
  | None => Unexp ENOSYS
  | Some key =>
      match at_key key (slots_ r) with
      | None => Unexp ENOSYS
      | Some s =>
          if (length (planes s) =? 0)%nat then Unexp ENOSYS
          else Val (mkDesc (length (planes s)) (drm_fourcc (format_ r)) (modifier s) (width (format_ r)) (height (format_ r))
                           (pad4 (-1) (duped_fd <$> planes s)) (pad4 0 (offset <$> planes s)) (pad4 0 (pitch <$> planes s)))
      end
  end.

(** The re-imports of a resume, up to the first failure: what follows keeps
    no framebuffer and no handle. *)
Fixpoint reimport_slots (fd : Z) (fmt : SourceFormat) (ss : list DmaBufSlot) (k : kstate)
  : expected unit * list DmaBufSlot * kstate :=
  match ss with
  | [] => (Val tt, [], k)
  | s :: ss' =>
      let '(e, s, k) := import_slot fd s fmt k in
      match e with
      | Unexp e => (Unexp e, s :: ss', k)
      | Val _ => let '(e, ss', k) := reimport_slots fd fmt ss' k in (e, s :: ss', k)
      end
  end.

Definition on_session_resumed (new_fd : Z) (r : ExternalDmaBufRing) (k : kstate)
  : expected unit * ExternalDmaBufRing * kstate :=
  if new_fd <? 0 then (Unexp EBADF, r, k)
  else
    let r := r {{ presenter_ ::= pm_reset; slots_ ::= fmap drop_handles }} in
    let '(none, k) := close_device_fd (fd_ r) k in
    let r := r {{ fd_ := none }} in
    let '(own, k) := dup_device_fd new_fd k in
    match own with
    | Unexp e => (Unexp e, r, k)
    | Val own =>
        let '(e, ss, k) := reimport_slots own (format_ r) (slots_ r) k in
        match e with
        | Unexp e =>
            let '(ss, k) := teardown_kernel_state own ss k in
            (Unexp e, r {{ fd_ := own; slots_ := ss }}, k)
        | Val _ => (Val tt, r {{ fd_ := own; slots_ := ss }}, k)
        end
    end.
End Ring.
#[global] Arguments ExternalDmaBufRing : clear implicits.

(** ** The ring never indexes outside its slots *)

Section RingProofs.
Context {P : Type} `{Pr : PresentationLaws P} `{K : DmaBufKernel}.
Notation Ring := (ExternalDmaBufRing P).

Lemma import_slot_val fd s fmt k u s' k' : import_slot fd s fmt k = (Val u, s', k') -> fb_id s' <> 0.
Proof.
  unfold import_slot. destruct (prime_planes fd (planes s) k) as [[[?|?] ps] k0]; [|done].
  destruct (add_fb2 _ _ _ _ _ _ _ _ k0) as [[[rc id] e] k1].
  destruct (Z.eqb_spec rc 0); cbn [negb orb]; [|done]. destruct s as [ps0 fb mo]. simpl.
  destruct (Z.eqb_spec id 0); [done|]. by intros [= _ <- _].
Qed.

Definition all_live (ss : list DmaBufSlot) : Prop := Forall (fun s => fb_id s <> 0) ss.

Lemma build_slots_live ds (r : Ring) k u (r' : Ring) k' :
  build_slots ds r k = (Val u, r', k') -> all_live (slots_ r) -> all_live (slots_ r') /\ presenter_ r' = presenter_ r.
Proof.
  revert r k. induction ds as [|d ds IH]; intros r k; cbn [build_slots]; [by intros [= _ <- _]|].
  destruct (dup_planes _ _ k) as [[[u1|?] s] k1]; [|done].
  destruct (import_slot (fd_ r) s (format_ r) k1) as [[[u2|?] s2] k2] eqn:Ei; [|done].
  apply import_slot_val in Ei. intros Hb Hl. apply IH in Hb; destruct r; [done|].
  by apply Forall_app; split; [|apply Forall_singleton].
Qed.

Lemma reimport_slots_spec fd fmt ss k e ss' k' :
  reimport_slots fd fmt ss k = (e, ss', k') ->
  length ss' = length ss /\ (has_value e = true -> all_live ss').
Proof.
  revert k e ss' k'. induction ss as [|s ss IH]; intros k e ss' k'; cbn [reimport_slots].
  { intros [= <- <- <-]. split; [done|]. intros _. constructor. }
  destruct (import_slot fd s fmt k) as [[[u|?] s2] k2] eqn:Ei; [|by intros [= <- <- <-]].
  destruct (reimport_slots fd fmt ss k2) as [[e3 ss3] k3] eqn:Er. apply IH in Er as [E1 E2]. intros [= <- <- <-].
  cbn [length]. split; [congruence|]. intros Hv. constructor; [by eapply import_slot_val | by apply E2].
Qed.

Lemma teardown_length fd ss k : length (teardown_kernel_state fd ss k).1 = length ss.
Proof.
  revert k. induction ss as [|s ss IH]; intros k; [done|]. cbn [teardown_kernel_state].
  destruct (teardown_slot fd s k) as [s1 k1]. specialize (IH k1).
  destruct (teardown_kernel_state fd ss k1) as [ss2 k2]. cbn [fst length] in *. lia.
Qed.

(** ** Runs: [live] says that the last resume, if any, re-imported every slot. *)

Inductive ring_op :=
  | Submit (slot : Z) (f : option SyncFence) (dmg : list DamageRect)
  | Acquire (poll : Z -> Z -> Z)
  | Release (b : AcquiredBuffer) (f : option SyncFence)
  | Retired.

Definition ring_step (x : ring_op) (r : Ring) : Ring :=
  match x with
  | Submit slot f dmg => submit slot f dmg r
  | Acquire poll => (acquire poll r).2
  | Release b f => (release_with_fence b f r).2
  | Retired => on_retired r
  end.

(** A slot index is a [size_t]. *)
Definition op_typed (x : ring_op) : Prop := match x with Submit slot _ _ => 0 <= slot | _ => True end.

Inductive ring_reached : bool -> Ring -> Prop :=
  | ring_created dev_fd w h fourcc ds t cb dl k r k' :
      create dev_fd w h fourcc ds t cb dl k = (Val r, k') -> ring_reached true r
  | ring_stepped live r x : ring_reached live r -> op_typed x -> ring_reached live (ring_step x r)
  | ring_resumed live r new_fd k e r' k' : ring_reached live r ->
      on_session_resumed new_fd r k = (e, r', k') ->
      ring_reached (if new_fd <? 0 then live else has_value e) r'.

(** Every key the presenter knows is the index of a slot. *)
Record ring_inv (live : bool) (r : Ring) : Prop := {
  ri_keys : forall key, pm_pending (presenter_ r) = Some key \/ pm_is_referenced key (presenter_ r) = true ->
    0 <= key < Z.of_nat (length (slots_ r));
  ri_live : live = true -> all_live (slots_ r)
}.

Lemma ring_inv_presenter live f r :
  ring_inv live r ->
  (forall key, pm_pending (f (presenter_ r)) = Some key \/ pm_is_referenced key (f (presenter_ r)) = true ->
    pm_pending (presenter_ r) = Some key \/ pm_is_referenced key (presenter_ r) = true) ->
  ring_inv live (r {{ presenter_ ::= f }}).
Proof. destruct r. intros [H1 H2] Hf. split; simpl in *; auto. Qed.

(** The keys after an acquire are keys before it. *)
Lemma acquire_keys poll (p : P) key0 :
  let '(d, p') := pm_acquire poll p in
  (pm_pending p' = Some key0 \/ pm_is_referenced key0 p' = true ->
   pm_pending p = Some key0 \/ pm_is_referenced key0 p = true) /\
  (kind d <> PNone -> pm_pending p = Some (key d) \/ pm_is_referenced (key d) p = true).
Proof.
  pose proof (pm_acquire_pending poll p) as L1. pose proof (pm_acquire_fresh poll p) as L2.
  pose proof (pm_acquire_other poll p) as L3. pose proof (pm_acquire_key poll p) as L4.
  destruct (pm_acquire poll p) as [d p']. cbn [fst snd] in *.
  destruct (decide (kind d = Fresh)) as [Hf|Hf].
  - destruct (L2 Hf) as [L2a L2b]. split; [|by left]. intros [Hk|Hk]; [congruence|].
    destruct (L2b _ Hk) as [?| ->]; [by right | by left].
  - split; [|intros Hd; right; by rewrite <- L3, L4]. intros [Hk|Hk]; [congruence|]. right. by rewrite <- L3.
Qed.

Lemma ring_step_inv live x r : ring_inv live r -> op_typed x -> ring_inv live (ring_step x r).
Proof.
  intros Hr Hx. destruct x as [slot f dmg|poll|b f|]; cbn [ring_step].
  - unfold submit. destruct (Z.leb_spec (Z.of_nat (length (slots_ r))) slot) as [|Hlt]; [done|].
    destruct Hr as [H1 H2]. destruct r as [fd fmt ss cb pr]. simpl in *. split; simpl; [|done].
    intros key. rewrite pm_submit_pending, pm_submit_referenced. intros [[= <-]|?]; [done | auto].
  - unfold acquire. pose proof (acquire_keys poll (presenter_ r)) as Ha.
    destruct (pm_acquire poll (presenter_ r)) as [d p]. cbn [snd].
    apply (ring_inv_presenter _ (fun _ => p)); [done|]. intros key. apply Ha.
  - unfold release_with_fence. destruct (pm_release (ab_opaque b) (presenter_ r)) as [key p] eqn:Er. cbn [snd].
    apply (ring_inv_presenter _ (fun _ => p)); [done|]. intros j.
    pose proof (pm_release_pending (ab_opaque b) (presenter_ r)) as L1.
    pose proof (pm_release_referenced (ab_opaque b) j (presenter_ r)) as L2. rewrite Er in *. cbn [snd] in *.
    rewrite L1. tauto.
  - apply ring_inv_presenter; [done|]. intros j. rewrite pm_retire_pending, pm_retire_referenced. done.
Qed.

Lemma create_ring_inv dev_fd w h fourcc ds t cb dl k (r : Ring) k' :
  create dev_fd w h fourcc ds t cb dl k = (Val r, k') -> ring_inv true r.
Proof.
  unfold create. destruct (_ || _ || _); [done|]. destruct ds as [|d0 ds]; [done|].
  destruct (validate_slots fourcc t (d0 :: ds)); [done|]. destruct (dev_fd <? 0); [done|].
  destruct (dup_device_fd dev_fd k) as [[fd|?] k1]; [|done].
  destruct (build_slots (d0 :: ds) _ k1) as [[[u|?] r1] k2] eqn:Eb; [|done]. intros [= <- _].
  apply build_slots_live in Eb as [Hl Hpr]; [|constructor]. split; [|done].
  intros key. rewrite Hpr. cbn [presenter_]. rewrite pm_make_pending, pm_make_referenced. by intros [?|?].
Qed.

Lemma resume_ring_inv live (r : Ring) new_fd k e (r' : Ring) k' :
  ring_inv live r -> on_session_resumed new_fd r k = (e, r', k') ->
  ring_inv (if new_fd <? 0 then live else has_value e) r'.
Proof.
  intros Hr. unfold on_session_resumed. destruct (new_fd <? 0); [by intros [= <- <- <-]|].
  destruct r as [fd fmt ss cb pr]. simpl. set (k1 := if 0 <=? fd then close_fd fd k else k).
  assert (Hreset : forall ss' fd', (has_value e = true -> all_live ss') ->
    ring_inv (has_value e) (mkDmaRing fd' fmt ss' cb (pm_reset pr))).
  { intros ss' fd' Hl. split; [|done]. intros key. cbn [presenter_].
    rewrite pm_reset_pending, pm_reset_referenced. by intros [?|?]. }
  destruct (dup_device_fd new_fd k1) as [[own|e1] k2]; [|intros [= <- <- <-]; by apply Hreset].
  destruct (reimport_slots own fmt (drop_handles <$> ss) k2) as [[[u|e2] ss3] k3] eqn:Er.
  - intros [= <- <- <-]. apply Hreset. apply (reimport_slots_spec _ _ _ _ _ _ _ Er).
  - destruct (teardown_kernel_state own ss3 k3) as [ss4 k4]. intros [= <- <- <-]. by apply Hreset.
Qed.

Lemma slots_reached_inv live r : ring_reached live r -> ring_inv live r.
Proof.
  induction 1; [by eapply create_ring_inv | by apply ring_step_inv | by eapply resume_ring_inv].
Qed.

(** C30. The fixed ring never indexes outside its slots: in every run of
    submits of any index, acquires, releases, retirements and session resumes
    an acquire returns, with the framebuffer of the slot the presenter chose
    or with EAGAIN; and unless the last resume failed, that framebuffer is not
    zero and EAGAIN means that nothing was ever shown. *)
Theorem ring_acquire_in_range live r poll :
  ring_reached live r ->
  let d := (pm_acquire poll (presenter_ r)).1 in
  exists e, (acquire poll r).1 = Some e /\
  match e with
  | Val b => kind d <> PNone /\ ab_opaque b = token d /\
      exists s, slots_ r !! Z.to_nat (key d) = Some s /\ ab_fb_id b = fb_id s /\ (live = true -> fb_id s <> 0)
  | Unexp e => e = EAGAIN /\ (live = true -> kind d = PNone)
  end.
Proof.
  intros [Hk Hl]%slots_reached_inv. cbv zeta. unfold acquire. pose proof (acquire_keys poll (presenter_ r)) as Ha.
  destruct (pm_acquire poll (presenter_ r)) as [d p]. cbn [fst].
  assert (Hs : (slots_ (r {{ presenter_ := p }})) = slots_ r) by by destruct r. rewrite Hs.
  assert (Hslot : kind d <> PNone -> exists s, at_key (key d) (slots_ r) = Some s /\
    slots_ r !! Z.to_nat (key d) = Some s /\ (live = true -> fb_id s <> 0)).
  { intros Hd. destruct (Hk (key d)) as [H1 H2]; [by apply (Ha (key d))|]. unfold at_key.
    rewrite (proj2 (Z.ltb_ge _ _) H1). destruct (lookup_lt_is_Some_2 (slots_ r) (Z.to_nat (key d))) as [s Es]; [lia|].
    exists s. split_and!; [done | done|]. intros Hlive. by eapply Forall_lookup_1 in Hl. }
  destruct (kind d) eqn:Ek.
  - eexists. split; [done|]. by split.
  - destruct Hslot as (s & S1 & S2 & S3); [done|]. rewrite S1. cbn. eexists. split; [done|].
    split_and!; [done | done |]. by exists s.
  - destruct Hslot as (s & S1 & S2 & S3); [done|]. rewrite S1. cbn. eexists. split; [done|].
    destruct (Z.eqb_spec (fb_id s) 0) as [Hz|Hz]; cbn.
    + split; [done|]. intros Hlive. by destruct (S3 Hlive).
    + split_and!; [done | done |]. by exists s.
Qed.
End RingProofs.

(** ** Concrete runs *)

Notation SampleRing := (ExternalDmaBufRing RingPresenter).

Definition two_slots : list ExternalSlotDesc := [mkSlotDesc 0 (plane_of 9); mkSlotDesc 0 (plane_of 10)].

Definition first_ring : expected SampleRing * kstate := create 3 64 64 875713112 two_slots None true None first_kernel.

(** The ring of [first_ring]. *)
Definition ring0 : SampleRing :=
  mkDmaRing 4 (mkFormat 875713112 0 64 64)
    [DmaBufSlot.mkSlot [mkPlane 5 105 0 256] 41 0; DmaBufSlot.mkSlot [mkPlane 6 106 0 256] 42 0]
    true (make_presenter None).

Lemma ring0_reached : ring_reached true ring0.
Proof.
  eapply (ring_created 3 64 64 875713112 two_slots None true None first_kernel ring0 first_ring.2). by vm_compute.
Qed.

Definition run_ring (xs : list ring_op) (r : SampleRing) : SampleRing := foldl (fun r x => ring_step x r) r xs.

Lemma run_slots_reached live xs r :
  ring_reached live r -> Forall op_typed xs -> ring_reached live (run_ring xs r).
Proof.
  revert r. induction xs as [|x xs IH]; intros r Hr Hx; [done|]. apply Forall_cons in Hx as [Hx Hxs].
  apply IH; [by apply ring_stepped | done].
Qed.

(** A submit of an index out of range changes nothing: slot 1 is shown. *)
Lemma ring_acquire_in_range_witness :
  let r := run_ring [Submit 1 None []; Submit 7 None []] ring0 in
  let d := (pm_acquire signalled (presenter_ r)).1 in
  (acquire signalled r).1 = Some (Val (mkBuffer 42 1 None [])) /\
  exists e, (acquire signalled r).1 = Some e /\
  match e with
  | Val b => kind d <> PNone /\ ab_opaque b = token d /\
      exists s, slots_ r !! Z.to_nat (key d) = Some s /\ ab_fb_id b = fb_id s /\ (true = true -> fb_id s <> 0)
  | Unexp e => e = EAGAIN /\ (true = true -> kind d = PNone)
  end.
Proof.
  cbv zeta. split; [by vm_compute|]. apply (ring_acquire_in_range true _ signalled).
  apply run_slots_reached; [apply ring0_reached|]. repeat constructor; cbn; lia.
Defined.

(** After a resume that could not re-import, the next submitted frame is
    handed out with framebuffer 0 instead of an error. *)
Lemma failed_resume_hands_out_zero :
  let refusing := mkSample {[3]} {[40]} true in
  let '(e, r, _) := on_session_resumed 3 ring0 refusing in
  e = Unexp (Errno 22) /\ (acquire signalled (submit 0 None [] r)).1 = Some (Val (mkBuffer 0 1 None [])).
Proof. by vm_compute. Qed.
