(* ===== verification/SourceMirror.v ===== *)
(** One source shown on several scenes: [src/scene/detail/source_mirror.*].

    A set gives each scene a layer of its own, so a mirrored source is acquired
    once per scene and frame.  The mirror acquires it once, hands the buffer to
    each of its consumers and gives it back when every consumer that took it is
    done and a newer frame has replaced it.  A [Frame*] is the address
    [make_unique] returned, an argument of the acquisition: a freed address may
    come again. *)
From S2P Require Import Prelude RingPresenter BufferSource.

(** [f_holders]: the consumers yet to release it; [f_current]: the newest. *)
Record MirrorFrame := mkMirrorFrame {
  f_addr : Z;
  f_seq : Z;
  f_buffer : AcquiredBuffer;
  f_holders : nat;
  f_current : bool;
  f_release_fence : option SyncFence
}.

Record Consumer := mkConsumer { c_live : bool; c_retired : bool; last_seq : Z }.

Record SourceMirror (Src : Type) := mkMirror {
  inner_ : Src;
  frames_ : list MirrorFrame;
  consumers_ : list Consumer;
  next_seq_ : Z;
  paused_ : bool;
  inner_retired_ : bool;
  resume_result_ : expected unit
}.
Arguments mkMirror {Src}.
Arguments inner_ {Src}.
Arguments frames_ {Src}.
Arguments consumers_ {Src}.
Arguments next_seq_ {Src}.
Arguments paused_ {Src}.
Arguments inner_retired_ {Src}.
Arguments resume_result_ {Src}.

Section Mirror.
Context {Src : Type} `{LayerBufferSource Src}.
Implicit Type m : SourceMirror Src.

Definition create (inner : Src) : SourceMirror Src := mkMirror inner [] [] 1 false false (Val tt).

(** The new consumer's id. *)
Definition make_consumer m : nat * SourceMirror Src :=
  (length (consumers_ m), m {{ consumers_ ::= fun l => l ++ [mkConsumer true false 0] }}).

Definition current_frame m : option (nat * MirrorFrame) := list_find (fun f => f_current f) (frames_ m).

(** [dup]: the descriptor [import_fd] duplicates. *)
Definition hand_out (dup : Z -> expected SyncFence) (f : MirrorFrame) (c : Consumer) : expected AcquiredBuffer :=
  let out fence :=
    mkBuffer (ab_fb_id (f_buffer f)) (f_addr f) fence
      (if u64 (last_seq c + 1) =? f_seq f then ab_damage (f_buffer f) else []) in
  match ab_fence (f_buffer f) with
  | Some fence =>
      if fence_valid fence
      then match dup (fence_fd fence) with Unexp e => Unexp e | Val d => Val (out (Some d)) end
      else Val (out None)
  | None => Val (out None)
  end.

Definition give_back (f : MirrorFrame) : Src -> Src :=
  match f_release_fence f with
  | Some fence => src_release_with_fence (f_buffer f) (Some fence)
  | None => src_release (f_buffer f)
  end.

Definition return_if_done (index : nat) m : SourceMirror Src :=
  match frames_ m !! index with
  | None => m
  | Some f =>
      if negb (f_holders f =? 0)%nat || f_current f then m
      else m {{ frames_ ::= delete index; inner_ ::= give_back f }}
  end.

Definition drop_current m : SourceMirror Src :=
  match current_frame m with
  | Some (i, f) => return_if_done i (m {{ frames_ ::= <[i := f {{ f_current := false }}]> }})
  | None => m
  end.

(** The source's next buffer becomes the newest frame. *)
Definition advance (addr : Z) m : expected (nat * MirrorFrame) * SourceMirror Src :=
  match src_acquire (inner_ m) with
  | (Unexp e, inner) => (Unexp e, m {{ inner_ := inner }})
  | (Val b, inner) =>
      let m := drop_current (m {{ inner_ := inner }}) in
      let f := mkMirrorFrame addr (next_seq_ m) b 0 true None in
      (Val (length (frames_ m), f), m {{ next_seq_ ::= fun n => u64 (n + 1); frames_ ::= fun l => l ++ [f] }})
  end.

(** [None]: [consumers_.at] throws. *)
Definition acquire (dup : Z -> expected SyncFence) (addr : Z) (id : nat) m
  : option (expected AcquiredBuffer * SourceMirror Src) :=
  c ← consumers_ m !! id;
  let '(r, m) :=
    match current_frame m with
    | Some (i, f) => if f_seq f <=? last_seq c then advance addr m else (Val (i, f), m)
    | None => advance addr m
    end in
  match r with
  | Unexp e => Some (Unexp e, m)
  | Val (i, f) =>
      match hand_out dup f c with
      | Unexp e => Some (Unexp e, m)
      | Val out =>
          Some (Val out, m {{ frames_ ::= alter (fun f => f {{ f_holders ::= S }}) i;
                              consumers_ ::= alter (fun c => c {{ last_seq := f_seq f }}) id }})
      end
  end.

(** Fences of several scenes merge; unmerged they are dropped. *)
Definition add_fence (ioctl : Z -> Z -> expected Z) (release_fence : option SyncFence) (f : MirrorFrame) : MirrorFrame :=
  match release_fence with
  | Some fence =>
      if fence_valid fence then
        match f_release_fence f with
        | Some old =>
            match fence_merge ioctl old fence with
            | Val merged => f {{ f_release_fence := Some merged }}
            | Unexp _ => f {{ f_release_fence := None }}
            end
        | None => f {{ f_release_fence := Some fence }}
        end
      else f
  | None => f
  end.

Definition release (ioctl : Z -> Z -> expected Z) (acquired : AcquiredBuffer) (release_fence : option SyncFence) m
  : SourceMirror Src :=
  match list_find (fun f => f_addr f = ab_opaque acquired) (frames_ m) with
  | None => m
  | Some (i, f) =>
      if (f_holders f =? 0)%nat then m
      else return_if_done i
             (m {{ frames_ ::= <[i := (add_fence ioctl release_fence f) {{ f_holders := (f_holders f - 1)%nat }}]> }})
  end.

Definition wants_release_fence m : bool := src_wants_release_fence (inner_ m).

Definition has_fresh_content (id : nat) m : option bool :=
  c ← consumers_ m !! id;
  Some (existsb (fun f => f_current f && (last_seq c <? f_seq f)) (frames_ m) || src_has_fresh_content (inner_ m)).

Definition retire (id : nat) m : option (SourceMirror Src) :=
  c ← consumers_ m !! id;
  let m := m {{ consumers_ ::= <[id := c {{ c_retired := true }}]> }} in
  let all := forallb (fun c => negb (c_live c) || c_retired c) (consumers_ m) in
  Some (if all && negb (inner_retired_ m)
        then (drop_current (m {{ inner_retired_ := true }})) {{ inner_ ::= src_on_retired }}
        else m).

Definition drop_consumer (id : nat) m : option (SourceMirror Src) :=
  c ← consumers_ m !! id;
  Some (m {{ consumers_ ::= <[id := c {{ c_live := false }}]> }}).

Definition on_session_paused m : SourceMirror Src :=
  if paused_ m then m
  else (drop_current (m {{ paused_ := true }})) {{ inner_ ::= src_on_session_paused }}.

Definition on_session_resumed m : expected unit * SourceMirror Src :=
  let m := if paused_ m
           then m {{ paused_ := false; resume_result_ := (src_on_session_resumed (inner_ m)).1;
                     inner_ := (src_on_session_resumed (inner_ m)).2 }}
           else m in
  (resume_result_ m, m).

(** The destructor: what it leaves of the source. *)
Definition destroy m : Src :=
  let inner := foldl (fun s f => src_release (f_buffer f) s) (inner_ m) (frames_ m) in
  if inner_retired_ m then inner else src_on_retired inner.

End Mirror.

(** ** The source's books

    A source that remembers what was acquired from it and given back to it. *)

Record Logged (Src : Type) := mkLogged {
  lg_source : Src; lg_acquired : list AcquiredBuffer; lg_released : list AcquiredBuffer
}.
Arguments mkLogged {Src}.
Arguments lg_source {Src}.
Arguments lg_acquired {Src}.
Arguments lg_released {Src}.

#[export] Instance logged_source {Src} `{LayerBufferSource Src} : LayerBufferSource (Logged Src) := {
  src_acquire s :=
    match src_acquire (lg_source s) with
    | (Val b, src) => (Val b, mkLogged src (lg_acquired s ++ [b]) (lg_released s))
    | (Unexp e, src) => (Unexp e, s {{ lg_source := src }})
    end;
  src_release b s := s {{ lg_source ::= src_release b; lg_released ::= fun l => l ++ [b] }};
  src_release_with_fence b fence s :=
    s {{ lg_source ::= src_release_with_fence b fence; lg_released ::= fun l => l ++ [b] }};
  src_wants_release_fence s := src_wants_release_fence (lg_source s);
  src_has_fresh_content s := src_has_fresh_content (lg_source s);
  src_on_retired s := s {{ lg_source ::= src_on_retired }};
  src_driver_owns_binding s := src_driver_owns_binding (lg_source s);
  src_on_session_paused s := s {{ lg_source ::= src_on_session_paused }};
  src_on_session_resumed s :=
    ((src_on_session_resumed (lg_source s)).1, s {{ lg_source := (src_on_session_resumed (lg_source s)).2 }});
  src_bind_to_plane p s :=
    ((src_bind_to_plane p (lg_source s)).1, s {{ lg_source := (src_bind_to_plane p (lg_source s)).2 }});
  src_unbind_from_plane p s := s {{ lg_source ::= src_unbind_from_plane p }};
  src_format s := src_format (lg_source s)
}.

Section MirrorProps.
Context {Src : Type} `{HS : LayerBufferSource Src}.
Notation M := (SourceMirror (Logged Src)).
Implicit Types (m : M) (out : list AcquiredBuffer).

(** The buffers handed out that name the frame at [a]. *)
Definition holding (a : Z) out : nat := length (filter (fun b => ab_opaque b = a) out).

(** A frame is the newest or still held, except those in [loose]; [extra] was
    acquired and is in no frame yet. *)
Record mirror_inv (loose : MirrorFrame -> Prop) (extra : list AcquiredBuffer) m out : Prop := mkMirrorInv {
  mi_addrs : NoDup (f_addr <$> frames_ m);
  mi_holders : forall f, f ∈ frames_ m -> f_holders f = holding (f_addr f) out;
  mi_out : forall b, b ∈ out -> exists f, f ∈ frames_ m /\ f_addr f = ab_opaque b /\ ab_fb_id (f_buffer f) = ab_fb_id b;
  mi_alive : forall f, f ∈ frames_ m -> loose f \/ f_current f = true \/ (0 < f_holders f)%nat;
  mi_current : (length (filter (fun f => f_current f = true) (frames_ m)) <= 1)%nat;
  mi_books : lg_acquired (inner_ m) ≡ₚ lg_released (inner_ m) ++ (f_buffer <$> frames_ m) ++ extra
}.

Definition settled extra m out : Prop := mirror_inv (fun _ => False) extra m out.

(** A list around one of its elements. *)
Lemma lookup_split {A} (l : list A) i x :
  l !! i = Some x ->
  exists l1 l2, l = l1 ++ x :: l2 /\ delete i l = l1 ++ l2 /\
    (forall y, <[i := y]> l = l1 ++ y :: l2) /\ (forall g, alter g i l = l1 ++ g x :: l2).
Proof.
  intros Hx. exists (take i l), (drop (S i) l).
  assert (Hl : take i l ++ x :: drop (S i) l = l) by (by apply take_drop_middle).
  assert (Hi : length (take i l) = i) by (apply length_take_le; apply lookup_lt_Some in Hx; lia).
  split; [done|]. split; [|split].
  - by rewrite delete_take_drop.
  - intros y. rewrite <- Hl at 1. rewrite <- Hi at 1. by rewrite insert_app_r_alt, Nat.sub_diag by lia.
  - intros g. rewrite <- Hl at 1. rewrite <- Hi at 1. rewrite alter_app_r_alt, Nat.sub_diag by lia. done.
Qed.

Lemma holding_cons a b out : holding a (b :: out) = ((if decide (ab_opaque b = a) then 1 else 0) + holding a out)%nat.
Proof. unfold holding. rewrite filter_cons. by case_decide. Qed.

Lemma holding_perm a out out' : out ≡ₚ out' -> holding a out = holding a out'.
Proof. intros Hp. unfold holding. by rewrite Hp. Qed.

Lemma holding_none a out : (forall b, b ∈ out -> ab_opaque b <> a) -> holding a out = 0%nat.
Proof. intros Ho. unfold holding. by rewrite filter_none. Qed.

Lemma holding_zero a out b : holding a out = 0%nat -> b ∈ out -> ab_opaque b <> a.
Proof.
  intros Hz Hb He. apply length_zero_iff_nil in Hz.
  assert (Hin : b ∈ filter (fun b => ab_opaque b = a) out) by (by apply list_elem_of_filter).
  rewrite Hz in Hin. by apply not_elem_of_nil in Hin.
Qed.

Lemma inv_perm loose extra m out out' : out ≡ₚ out' -> mirror_inv loose extra m out -> mirror_inv loose extra m out'.
Proof.
  intros Hp [Ha Hh Ho Hal Hc Hb]. split; [done| | |done|done|done].
  - intros f Hf. rewrite Hh by done. by apply holding_perm.
  - intros b. rewrite <- Hp. apply Ho.
Qed.

(** The invariant reads the frames and the books alone. *)
Lemma inv_same loose extra m m' out :
  frames_ m' = frames_ m -> lg_acquired (inner_ m') = lg_acquired (inner_ m) ->
  lg_released (inner_ m') = lg_released (inner_ m) -> mirror_inv loose extra m out -> mirror_inv loose extra m' out.
Proof. intros Hf Ha Hr [? ? ? ? ? ?]. split; rewrite ?Hf, ?Ha, ?Hr; done. Qed.

Lemma settled_loose extra m out (loose : MirrorFrame -> Prop) : settled extra m out -> mirror_inv loose extra m out.
Proof. intros [? ? ? Hal ? ?]. split; try done. intros f Hf. destruct (Hal f Hf) as [[]|?]; auto. Qed.

(** One frame [f] in the middle becomes [g], the outstanding buffers [out']. *)
Lemma inv_update (loose : MirrorFrame -> Prop) extra m out out' l1 f g l2 m' :
  settled extra m out -> frames_ m = l1 ++ f :: l2 -> frames_ m' = l1 ++ g :: l2 ->
  inner_ m' = inner_ m -> f_addr g = f_addr f -> f_buffer g = f_buffer f ->
  (forall a, a <> f_addr f -> holding a out' = holding a out) -> f_holders g = holding (f_addr f) out' ->
  (forall b, b ∈ out' -> b ∈ out \/ ab_opaque b = f_addr f /\ ab_fb_id b = ab_fb_id (f_buffer f)) ->
  (f_current g = true -> f_current f = true) -> (loose g \/ f_current g = true \/ (0 < f_holders g)%nat) ->
  mirror_inv loose extra m' out'.
Proof.
  intros [Ha Hh Ho Hal Hc Hb] Hl Hl' Hin Hga Hgb Hoth Hg Hout Hcur Hgl. rewrite Hl in *.
  assert (Hne : forall x, x ∈ l1 ++ l2 -> f_addr x <> f_addr f).
  { intros x Hx He. rewrite <- Permutation_middle in Ha. simpl in Ha. apply NoDup_cons in Ha as [Hn _].
    apply Hn. rewrite <- He. by apply list_elem_of_fmap_2. }
  assert (Hin2 : forall x, x ∈ l1 ++ l2 -> x ∈ l1 ++ f :: l2).
  { intros x. rewrite !elem_of_app, elem_of_cons. naive_solver. }
  assert (Hcase : forall x, x ∈ l1 ++ g :: l2 <-> x = g \/ x ∈ l1 ++ l2).
  { intros x. rewrite !elem_of_app, elem_of_cons. naive_solver. }
  split; rewrite ?Hl', ?Hin.
  - rewrite fmap_app, fmap_cons in *. by rewrite Hga.
  - intros x [->|Hx]%Hcase; [by rewrite Hga|]. rewrite Hh by auto. symmetry. by apply Hoth, Hne.
  - intros b Hb'. destruct (Hout b Hb') as [Hold|[He1 He2]].
    + destruct (Ho b Hold) as (x & Hx & Hxa & Hxb). rewrite elem_of_app, elem_of_cons in Hx.
      destruct Hx as [Hx|[->|Hx]].
      * exists x. rewrite Hcase, elem_of_app. auto.
      * exists g. rewrite Hcase, Hga, Hgb. auto.
      * exists x. rewrite Hcase, elem_of_app. auto.
    + exists g. rewrite Hcase, Hga, Hgb. auto.
  - intros x [->|Hx]%Hcase; [done|]. destruct (Hal x (Hin2 x Hx)) as [[]|?]; auto.
  - rewrite filter_app, filter_cons, length_app in *. repeat case_decide; simpl in *; try lia. by destruct H; auto.
  - rewrite Hb. by rewrite !fmap_app, !fmap_cons, Hgb.
Qed.

(** ** Operations *)

(** What [return_if_done] does to the frames and the books. *)
Lemma return_if_done_inv extra m out i f :
  frames_ m !! i = Some f -> mirror_inv (fun x => x = f) extra m out -> settled extra (return_if_done i m) out.
Proof.
  intros Hi [Ha Hh Ho Hal Hc Hb]. unfold return_if_done. rewrite Hi.
  destruct (lookup_split _ _ _ Hi) as (l1 & l2 & Hl & Hd & _ & _).
  destruct (Nat.eqb_spec (f_holders f) 0) as [Hz|Hz]; cbn [negb orb].
  2: { split; try done. intros x Hx. right. destruct (Hal x Hx) as [->|?]; [right; lia|done]. }
  destruct (f_current f) eqn:Ec.
  { split; try done. intros x Hx. right. destruct (Hal x Hx) as [->|?]; [by left|done]. }
  assert (Hf : f ∈ frames_ m) by (by eapply list_elem_of_lookup_2).
  assert (Hz' : holding (f_addr f) out = 0%nat) by (by rewrite <- Hh).
  assert (Hin : forall x, x ∈ l1 ++ l2 -> x ∈ frames_ m).
  { intros x. rewrite Hl, !elem_of_app, elem_of_cons. naive_solver. }
  set (k := give_back (Src := Logged Src) f).
  set (m' := m {{ frames_ ::= delete i; inner_ ::= k }}).
  assert (Hfr : frames_ m' = l1 ++ l2) by (unfold m'; destruct m; simpl in *; congruence).
  assert (Him : inner_ m' = k (inner_ m)) by (unfold m'; by destruct m).
  assert (Hk : lg_acquired (k (inner_ m)) = lg_acquired (inner_ m) /\
               lg_released (k (inner_ m)) = lg_released (inner_ m) ++ [f_buffer f])
    by (unfold k, give_back; destruct (f_release_fence f), (inner_ m); done).
  assert (Hnd : NoDup (f_addr <$> f :: l1 ++ l2)) by (by rewrite Permutation_middle, <- Hl).
  clearbody m' k. split; rewrite ?Hfr, ?Him.
  - by apply NoDup_cons in Hnd as [_ ?].
  - intros x Hx. by apply Hh, Hin.
  - intros b Hb'. destruct (Ho b Hb') as (x & Hx & Hxa & Hxb). exists x. split; [|done].
    rewrite Hl, elem_of_app, elem_of_cons in Hx. rewrite elem_of_app.
    destruct Hx as [?|[->|?]]; [by left| |by right]. exfalso. by apply (holding_zero _ _ _ Hz' Hb').
  - intros x Hx. destruct (Hal x (Hin x Hx)) as [->|?]; [|auto]. exfalso.
    apply NoDup_cons in Hnd as [Hn _]. apply Hn. by apply list_elem_of_fmap_2.
  - rewrite Hl, filter_app, filter_cons, length_app in Hc. rewrite filter_app, length_app.
    case_decide; simpl in *; lia.
  - destruct Hk as [-> ->]. rewrite Hb, Hl, !fmap_app, fmap_cons. rewrite <- !app_assoc. simpl.
    apply Permutation_app_head. symmetry. apply Permutation_middle.
Qed.

Lemma return_acquired i m : lg_acquired (inner_ (return_if_done i m)) = lg_acquired (inner_ m).
Proof.
  unfold return_if_done. destruct (frames_ m !! i) as [f|]; [|done]. destruct (_ || _); [done|].
  unfold give_back. by destruct m as [[] ? ? ? ? ? ?], (f_release_fence f).
Qed.

Lemma return_keeps i m :
  next_seq_ (return_if_done i m) = next_seq_ m /\ consumers_ (return_if_done i m) = consumers_ m.
Proof.
  unfold return_if_done. destruct (frames_ m !! i) as [f|]; [|done]. destruct (_ || _); [done|].
  by destruct m.
Qed.

Lemma current_frame_some m i f :
  current_frame m = Some (i, f) -> frames_ m !! i = Some f /\ f_current f = true.
Proof. unfold current_frame. intros (Hi & Hc & _)%list_find_Some. split; [done|]. by destruct (f_current f). Qed.

Lemma current_frame_none m f : current_frame m = None -> f ∈ frames_ m -> f_current f = false.
Proof.
  unfold current_frame. intros Hn Hf. apply list_find_None in Hn. rewrite Forall_forall in Hn.
  specialize (Hn f Hf). by destruct (f_current f).
Qed.

(** Dropping the newest frame leaves none. *)
Lemma drop_current_inv extra m out :
  settled extra m out ->
  settled extra (drop_current m) out /\ Forall (fun f => f_current f = false) (frames_ (drop_current m)) /\
  (forall f, f ∈ frames_ (drop_current m) -> f_addr f ∈ f_addr <$> frames_ m) /\
  lg_acquired (inner_ (drop_current m)) = lg_acquired (inner_ m) /\
  next_seq_ (drop_current m) = next_seq_ m /\ consumers_ (drop_current m) = consumers_ m.
Proof.
  intros Hs. pose proof Hs as [_ _ _ Hal Hc _]. unfold drop_current.
  destruct (current_frame m) as [[i f]|] eqn:Ec.
  2: { split_and!; try done.
       - apply Forall_forall. intros f. by apply current_frame_none.
       - intros f Hf. by apply list_elem_of_fmap_2. }
  apply current_frame_some in Ec as [Hi Hcf].
  destruct (lookup_split _ _ _ Hi) as (l1 & l2 & Hl & _ & Hins & _).
  set (g := f {{ f_current := false }}). set (m1 := m {{ frames_ ::= <[i := g]> }}).
  assert (Hf1 : frames_ m1 = l1 ++ g :: l2) by (unfold m1; destruct m; simpl in *; by rewrite Hins).
  assert (Hi1 : frames_ m1 !! i = Some g).
  { unfold m1. destruct m; simpl in *. rewrite list_lookup_insert_eq; [done|by eapply lookup_lt_Some]. }
  assert (Hinv : mirror_inv (fun x => x = g) extra m1 out).
  { eapply (inv_update _ extra m out out l1 f g l2); try done; [| |by left].
    - transitivity (f_holders f); [by destruct f|]. apply (mi_holders _ _ _ _ Hs). by eapply list_elem_of_lookup_2.
    - auto. }
  assert (Hcl : length (filter (fun x => f_current x = true) (l1 ++ l2)) = 0%nat).
  { rewrite Hl, filter_app, filter_cons, length_app in Hc. rewrite filter_app, length_app.
    case_decide; simpl in *; [lia|done]. }
  assert (Hnc : forall x, x ∈ l1 ++ l2 -> f_current x = false).
  { intros x Hx. destruct (f_current x) eqn:E; [|done]. apply length_zero_iff_nil in Hcl.
    assert (Hin : x ∈ filter (fun x => f_current x = true) (l1 ++ l2)) by (by apply list_elem_of_filter).
    rewrite Hcl in Hin. by apply not_elem_of_nil in Hin. }
  pose proof (return_if_done_inv extra m1 out i g Hi1 Hinv) as Hs2.
  assert (Hsub : forall x, x ∈ frames_ (return_if_done i m1) -> x ∈ l1 ++ g :: l2).
  { intros x. unfold return_if_done. rewrite Hi1. destruct (_ || _); [by rewrite Hf1|].
    replace (frames_ _) with (delete i (frames_ m1)) by (by destruct m1).
    intros Hx. rewrite <- Hf1. destruct (lookup_split _ _ _ Hi1) as (a & c & Hac & Hd & _). rewrite Hd in Hx. rewrite Hac.
    rewrite elem_of_app, elem_of_cons in *. tauto. }
  assert (Hnc' : forall x, x ∈ frames_ (return_if_done i m1) -> f_current x = false).
  { intros x Hx%Hsub. rewrite elem_of_app, elem_of_cons in Hx.
    destruct Hx as [Hx|[->|Hx]]; [apply Hnc, elem_of_app; by left|by destruct f|apply Hnc, elem_of_app; by right]. }
  split_and!; [done|by apply Forall_forall| | | |].
  - intros x Hx%Hsub. replace (f_addr <$> frames_ m) with (f_addr <$> l1 ++ g :: l2); [by apply list_elem_of_fmap_2|].
    rewrite Hl, !fmap_app, !fmap_cons. by destruct f.
  - rewrite return_acquired. by destruct m.
  - rewrite (proj1 (return_keeps _ _)). by destruct m.
  - rewrite (proj2 (return_keeps _ _)). by destruct m.
Qed.

(** A buffer goes back: the frame it names loses a holder. *)
Lemma release_inv ioctl b fence extra m out out' :
  out ≡ₚ b :: out' -> settled extra m out -> settled extra (release ioctl b fence m) out'.
Proof.
  intros Hp Hs. apply (inv_perm _ _ _ _ _ Hp) in Hs. unfold release.
  destruct (mi_out _ _ _ _ Hs b) as (f & Hf & Hfa & _); [by left|].
  destruct (list_find _ (frames_ m)) as [[i x]|] eqn:Ef.
  2: { apply list_find_None in Ef. rewrite Forall_forall in Ef. by destruct (Ef f Hf). }
  apply list_find_Some in Ef as (Hi & Hxa & _).
  assert (Hx : x ∈ frames_ m) by (by eapply list_elem_of_lookup_2).
  pose proof (mi_holders _ _ _ _ Hs x Hx) as Hh. rewrite holding_cons, decide_True in Hh by done.
  destruct (Nat.eqb_spec (f_holders x) 0); [lia|].
  destruct (lookup_split _ _ _ Hi) as (l1 & l2 & Hl & _ & Hins & _).
  set (g := (add_fence ioctl fence x) {{ f_holders := (f_holders x - 1)%nat }}).
  assert (Hg : f_addr g = f_addr x /\ f_buffer g = f_buffer x /\ f_current g = f_current x /\
               f_holders g = (f_holders x - 1)%nat).
  { unfold g, add_fence. destruct fence as [fe|]; [|by destruct x]. destruct (fence_valid fe); [|by destruct x].
    destruct (f_release_fence x) as [old|]; [|by destruct x]. destruct (fence_merge ioctl old fe); by destruct x. }
  clearbody g. destruct Hg as (Hga & Hgb & Hgc & Hgh).
  apply (return_if_done_inv _ _ _ i g).
  { destruct m; simpl in *. rewrite list_lookup_insert_eq; [done|by eapply lookup_lt_Some]. }
  eapply (inv_update _ extra m (b :: out') out' l1 x g l2); try done.
  - destruct m; simpl in *. by rewrite Hins.
  - intros a Ha. rewrite holding_cons, decide_False; [done|congruence].
  - rewrite Hgh, Hh. lia.
  - intros b' Hb'. left. by right.
  - by rewrite Hgc.
  - by left.
Qed.

(** Nothing was acquired: no sequence number is new. *)
Definition calm m m' : Prop :=
  next_seq_ m' = next_seq_ m /\ lg_acquired (inner_ m') = lg_acquired (inner_ m) /\
  (forall f, f ∈ frames_ m' -> f_seq f ∈ f_seq <$> frames_ m) /\
  (forall c, c ∈ consumers_ m' -> last_seq c = 0 \/ last_seq c ∈ last_seq <$> consumers_ m).

Lemma calm_intro m m' :
  next_seq_ m' = next_seq_ m -> lg_acquired (inner_ m') = lg_acquired (inner_ m) ->
  frames_ m' = frames_ m -> consumers_ m' = consumers_ m -> calm m m'.
Proof.
  intros Hn Ha Hf Hc. split_and!; [done|done| |]; rewrite ?Hf, ?Hc; intros x Hx; [|right]; by apply list_elem_of_fmap_2.
Qed.

Lemma calm_trans m1 m2 m3 : calm m1 m2 -> calm m2 m3 -> calm m1 m3.
Proof.
  intros (Hn & Ha & Hf & Hc) (Hn' & Ha' & Hf' & Hc'). split_and!; [congruence|congruence| |].
  - intros f Hf3. apply Hf' in Hf3 as (g & -> & Hg)%list_elem_of_fmap. auto.
  - intros c Hc3. apply Hc' in Hc3 as [?|(d & -> & Hd)%list_elem_of_fmap]; auto.
Qed.

(** An element of an updated list. *)
Lemma insert_seq {A} (h : A -> Z) (l : list A) i x y z :
  l !! i = Some x -> h y = h x -> z ∈ <[i := y]> l -> h z ∈ h <$> l.
Proof.
  intros Hx Hy (j & Hj)%list_elem_of_lookup.
  destruct (decide (i = j)) as [->|Hn].
  - rewrite list_lookup_insert_eq in Hj by (by eapply lookup_lt_Some). injection Hj as <-. rewrite Hy.
    apply list_elem_of_fmap_2. by eapply list_elem_of_lookup_2.
  - rewrite list_lookup_insert_ne in Hj by done. apply list_elem_of_fmap_2. by eapply list_elem_of_lookup_2.
Qed.

Lemma calm_set_frame m i f g :
  frames_ m !! i = Some f -> f_seq g = f_seq f -> calm m (m {{ frames_ ::= <[i := g]> }}).
Proof.
  intros Hi Hg. split_and!; [by destruct m|by destruct m| |].
  - intros x Hx. eapply (insert_seq f_seq); [exact Hi|exact Hg|]. by destruct m.
  - intros c Hc. right. apply list_elem_of_fmap_2. by destruct m.
Qed.

Lemma calm_return i m : calm m (return_if_done i m).
Proof.
  split_and!; [apply return_keeps|apply return_acquired| |].
  - unfold return_if_done. intros x. destruct (frames_ m !! i) as [f|] eqn:Ei; [|apply list_elem_of_fmap_2].
    destruct (_ || _); [apply list_elem_of_fmap_2|].
    destruct (lookup_split _ _ _ Ei) as (a & c & Hl & Hd & _). intros Hx. apply list_elem_of_fmap_2.
    assert (Hx' : x ∈ delete i (frames_ m)) by (by destruct m). rewrite Hd in Hx'. rewrite Hl.
    rewrite elem_of_app, elem_of_cons in *. tauto.
  - rewrite (proj2 (return_keeps _ _)). intros c Hc. right. by apply list_elem_of_fmap_2.
Qed.

Lemma calm_drop m : calm m (drop_current m).
Proof.
  unfold drop_current. destruct (current_frame m) as [[i f]|] eqn:Ec; [|by apply calm_intro].
  apply current_frame_some in Ec as [Hi _]. eapply calm_trans; [|apply calm_return].
  apply (calm_set_frame m i f); [done|by destruct f].
Qed.

Lemma calm_release ioctl b fence m : calm m (release ioctl b fence m).
Proof.
  unfold release. destruct (list_find _ _) as [[i f]|] eqn:Ef; [|by apply calm_intro].
  apply list_find_Some in Ef as (Hi & _). destruct (_ =? _)%nat; [by apply calm_intro|].
  eapply calm_trans; [|apply calm_return]. apply (calm_set_frame m i f); [done|].
  unfold add_fence. destruct fence as [fe|]; [|by destruct f]. destruct (fence_valid fe); [|by destruct f].
  destruct (f_release_fence f) as [old|]; [|by destruct f]. destruct (fence_merge ioctl old fe); by destruct f.
Qed.

Lemma calm_consumer m id c d :
  consumers_ m !! id = Some c -> last_seq d = last_seq c -> calm m (m {{ consumers_ ::= <[id := d]> }}).
Proof.
  intros Hc Hd. split_and!; [by destruct m|by destruct m| |].
  - intros f Hf. apply list_elem_of_fmap_2. by destruct m.
  - intros x Hx. right. eapply (insert_seq last_seq); [exact Hc|exact Hd|]. by destruct m.
Qed.

(** The source's next buffer. *)
Lemma advance_inv addr m out :
  settled [] m out -> (forall f, f ∈ frames_ m -> f_addr f = addr -> f_holders f = 0%nat) ->
  match advance addr m with
  | (Unexp e, m') =>
      settled [] m' out /\ next_seq_ m' = next_seq_ m /\ frames_ m' = frames_ m /\
      lg_acquired (inner_ m') = lg_acquired (inner_ m) /\ consumers_ m' = consumers_ m
  | (Val (i, f), m') =>
      settled [] m' out /\ frames_ m' !! i = Some f /\
      f = mkMirrorFrame addr (next_seq_ m) (f_buffer f) 0 true None /\
      (src_acquire (inner_ m)).1 = Val (f_buffer f) /\
      next_seq_ m' = u64 (next_seq_ m + 1) /\
      lg_acquired (inner_ m') = lg_acquired (inner_ m) ++ [f_buffer f] /\ consumers_ m' = consumers_ m /\
      (exists l, frames_ m' = l ++ [f] /\ i = length l /\ Forall (fun f => f_current f = false) l /\
         forall x, x ∈ l -> f_seq x ∈ f_seq <$> frames_ m)
  end.
Proof.
  intros Hs Hfresh. unfold advance. cbn [src_acquire logged_source].
  destruct (src_acquire (lg_source (inner_ m))) as [[b|e] src].
  2: { split_and!; try (by destruct m as [[] ? ? ? ? ? ?]).
       eapply inv_same; [..|exact Hs]; by destruct m as [[] ? ? ? ? ? ?]. }
  set (m0 := m {{ inner_ := _ }}).
  assert (Hf0 : frames_ m0 = frames_ m) by (by destruct m).
  assert (Hs0 : settled [b] m0 out).
  { destruct Hs as [? ? ? ? ? Hb]. split; rewrite ?Hf0; try done.
    replace (lg_released (inner_ m0)) with (lg_released (inner_ m)) by (by destruct m).
    replace (lg_acquired (inner_ m0)) with (lg_acquired (inner_ m) ++ [b]) by (by destruct m).
    rewrite Hb, app_nil_r. by rewrite app_assoc. }
  destruct (drop_current_inv [b] m0 out Hs0) as (Hs1 & Hnc & Haddr & Hacq & Hseq & Hcons).
  set (m1 := drop_current m0) in *. set (f := mkMirrorFrame addr (next_seq_ m1) b 0 true None).
  set (m2 := m1 {{ next_seq_ ::= _; frames_ ::= _ }}).
  assert (Hf2 : frames_ m2 = frames_ m1 ++ [f]) by (unfold m2; by destruct m1).
  assert (Hi2 : inner_ m2 = inner_ m1) by (unfold m2; by destruct m1).
  assert (Hs2 : next_seq_ m2 = u64 (next_seq_ m1 + 1)) by (unfold m2; by destruct m1).
  assert (Hc2 : consumers_ m2 = consumers_ m1) by (unfold m2; by destruct m1).
  clearbody m2. destruct Hs1 as [Ha Hh Ho Hal Hc Hb]. rewrite Forall_forall in Hnc.
  assert (Hheld : forall x, x ∈ frames_ m1 -> f_addr x <> addr).
  { intros x Hx Hxa. destruct (Hal x Hx) as [[]|[Hcx|Hpos]]; [by rewrite Hnc in Hcx|].
    apply Haddr in Hx as Hm. rewrite Hf0 in Hm. apply list_elem_of_fmap in Hm as (y & Hya & Hy).
    rewrite (Hh x Hx), Hya, <- (mi_holders _ _ _ _ Hs y Hy), (Hfresh y Hy) in Hpos; [lia|congruence]. }
  assert (Hno : holding addr out = 0%nat).
  { apply holding_none. intros b' Hb' He. destruct (Ho b' Hb') as (x & Hx & Hxa & _).
    apply (Hheld x Hx). congruence. }
  split; [split; rewrite ?Hf2, ?Hi2|].
  - rewrite fmap_app. apply NoDup_app. split_and!; [done| |apply NoDup_singleton].
    intros a (x & -> & Hx)%list_elem_of_fmap Hin. apply list_elem_of_singleton in Hin. by apply (Hheld x).
  - intros x [Hx| ->%list_elem_of_singleton]%elem_of_app; [auto|done].
  - intros b' Hb'. destruct (Ho b' Hb') as (x & Hx & ?). exists x. split; [|done]. apply elem_of_app. by left.
  - intros x [Hx| ->%list_elem_of_singleton]%elem_of_app; [auto|by right; left].
  - rewrite filter_app, length_app, (filter_none _ (frames_ m1)); [done|]. intros x Hx. by rewrite Hnc.
  - rewrite Hb, fmap_app, app_nil_r. done.
  - split_and!.
    + by rewrite Hf2, lookup_app_r, Nat.sub_diag by lia.
    + unfold f. rewrite Hseq. unfold m0. by destruct m.
    + done.
    + rewrite Hs2, Hseq. unfold m0. by destruct m.
    + rewrite Hi2, Hacq. unfold m0. by destruct m.
    + rewrite Hc2, Hcons. unfold m0. by destruct m.
    + exists (frames_ m1). split_and!; [done|done|by apply Forall_forall|]. rewrite <- Hf0. apply (calm_drop m0).
Qed.

Lemma hand_out_spec dup f c b :
  hand_out dup f c = Val b ->
  ab_fb_id b = ab_fb_id (f_buffer f) /\ ab_opaque b = f_addr f /\
  ab_damage b = (if u64 (last_seq c + 1) =? f_seq f then ab_damage (f_buffer f) else []).
Proof.
  unfold hand_out. destruct (ab_fence (f_buffer f)) as [fe|]; [|by intros [= <-]].
  destruct (fence_valid fe); [|by intros [= <-]]. by destruct (dup (fence_fd fe)) as [d|e]; [intros [= <-]|].
Qed.

(** An address [make_unique] may return: no frame still held has it. *)
Definition fresh_addr (addr : Z) m : Prop :=
  forall f, f ∈ frames_ m -> f_addr f = addr -> f_holders f = 0%nat.

(** Handing the frame [i] out adds a holder. *)
Lemma hand_out_inv m out i f b id n :
  settled [] m out -> frames_ m !! i = Some f -> f_current f = true -> ab_opaque b = f_addr f ->
  ab_fb_id b = ab_fb_id (f_buffer f) ->
  settled [] (m {{ frames_ ::= alter (fun f => f {{ f_holders ::= S }}) i;
                   consumers_ ::= alter (fun c => c {{ last_seq := n }}) id }}) (b :: out).
Proof.
  intros Hs Hi Hc Ho Hfb. destruct (lookup_split _ _ _ Hi) as (l1 & l2 & Hl & _ & _ & Halt).
  eapply (inv_update _ [] m out (b :: out) l1 f (f {{ f_holders ::= S }}) l2); try done.
  - destruct m; simpl in *. by rewrite Halt.
  - intros a Ha. rewrite holding_cons, decide_False; [done|congruence].
  - rewrite holding_cons, decide_True by done. rewrite <- (mi_holders _ _ _ _ Hs f); [by destruct f|].
    by eapply list_elem_of_lookup_2.
  - intros b' [->|Hb']%elem_of_cons; [by right|by left].
  - right; left. by destruct f.
Qed.

Lemma acquire_inv dup addr id m out r m' :
  settled [] m out -> fresh_addr addr m -> acquire dup addr id m = Some (r, m') ->
  settled [] m' (match r with Val b => b :: out | Unexp _ => out end).
Proof.
  intros Hs Hfresh. unfold acquire. destruct (consumers_ m !! id) as [c|]; [|done]. simpl.
  pose proof (advance_inv addr m out Hs Hfresh) as Hadv.
  assert (Hgo : forall i f m1, settled [] m1 out -> frames_ m1 !! i = Some f -> f_current f = true ->
    match hand_out dup f c with
    | Unexp e => Some (Unexp e, m1)
    | Val b => Some (Val b, m1 {{ frames_ ::= alter (fun f => f {{ f_holders ::= S }}) i;
                                  consumers_ ::= alter (fun c => c {{ last_seq := f_seq f }}) id }})
    end = Some (r, m') -> settled [] m' (match r with Val b => b :: out | Unexp _ => out end)).
  { intros i f m1 Hs1 Hi Hc. destruct (hand_out dup f c) as [b|e] eqn:Eh; intros Hr; [|by injection Hr as <- <-].
    apply hand_out_spec in Eh as (Hfb & Ho & _). apply (inj Some) in Hr. injection Hr as <- <-.
    by apply (hand_out_inv m1 out i f b id (f_seq f)). }
  destruct (current_frame m) as [[i f]|] eqn:Ec; [destruct (f_seq f <=? last_seq c)|].
  2: { apply current_frame_some in Ec as [Hi Hc]. by apply Hgo. }
  all: destruct (advance addr m) as [[[j g]|e] m1]; [|intros [= <- <-]; by destruct Hadv].
  all: destruct Hadv as (Hs1 & Hj & Hg & _); apply Hgo; [done|done|by rewrite Hg].
Qed.

(** ** Runs *)

Inductive mirror_reach : M -> list AcquiredBuffer -> Prop :=
  | mr_create inner : lg_acquired inner = [] -> lg_released inner = [] -> mirror_reach (create inner) []
  | mr_consumer m out : mirror_reach m out -> mirror_reach (make_consumer m).2 out
  | mr_acquire m out dup addr id r m' :
      mirror_reach m out -> fresh_addr addr m -> acquire dup addr id m = Some (r, m') ->
      mirror_reach m' (match r with Val b => b :: out | Unexp _ => out end)
  | mr_release m out out' ioctl b fence :
      mirror_reach m out -> out ≡ₚ b :: out' -> mirror_reach (release ioctl b fence m) out'
  | mr_retire m out id m' : mirror_reach m out -> retire id m = Some m' -> mirror_reach m' out
  | mr_drop m out id m' : mirror_reach m out -> drop_consumer id m = Some m' -> mirror_reach m' out
  | mr_pause m out : mirror_reach m out -> mirror_reach (on_session_paused m) out
  | mr_resume m out : mirror_reach m out -> mirror_reach (on_session_resumed m).2 out.

(** A step around [drop_current] that tells the source nothing of its buffers. *)
Lemma settled_around m1 m2 out :
  settled [] m1 out -> frames_ m2 = frames_ (drop_current m1) ->
  lg_acquired (inner_ m2) = lg_acquired (inner_ (drop_current m1)) ->
  lg_released (inner_ m2) = lg_released (inner_ (drop_current m1)) -> settled [] m2 out.
Proof. intros Hs Hf Ha Hr. by apply (inv_same _ _ (drop_current m1)); [..|apply drop_current_inv]. Qed.

Lemma mirror_settled m out : mirror_reach m out -> settled [] m out.
Proof.
  assert (Hext : forall m m' o, settled [] m o -> frames_ m' = frames_ m ->
    lg_acquired (inner_ m') = lg_acquired (inner_ m) -> lg_released (inner_ m') = lg_released (inner_ m) ->
    settled [] m' o) by (intros; by eapply inv_same).
  induction 1 as [inner Ha Hr | m out _ IH | m out dup addr id r m' _ IH Hf Ha | m out out' ioctl b fence _ IH Hp
                 | m out id m' _ IH Hr | m out id m' _ IH Hd | m out _ IH | m out _ IH].
  - split; simpl; try (by intros ? ?%not_elem_of_nil); [constructor|lia|by rewrite Ha, Hr].
  - eapply Hext; [exact IH|..]; by destruct m.
  - by eapply acquire_inv.
  - by eapply release_inv.
  - unfold retire in Hr. destruct (consumers_ m !! id) as [c|]; [|done]. simpl in Hr. injection Hr as <-.
    set (m1 := m {{ consumers_ ::= <[id := c {{ c_retired := true }}]> }}).
    assert (H1 : settled [] m1 out) by (eapply Hext; [exact IH|..]; by destruct m).
    destruct (_ && _); [|done]. eapply (settled_around (m1 {{ inner_retired_ := true }})).
    + eapply Hext; [exact H1|..]; by destruct m1. + by destruct (drop_current _).
    + by destruct (drop_current _). + by destruct (drop_current _).
  - unfold drop_consumer in Hd. destruct (consumers_ m !! id) as [c|]; [|done]. simpl in Hd. injection Hd as <-.
    eapply Hext; [exact IH|..]; by destruct m.
  - unfold on_session_paused. destruct (paused_ m); [done|].
    eapply (settled_around (m {{ paused_ := true }})).
    + eapply Hext; [exact IH|..]; by destruct m. + by destruct (drop_current _).
    + by destruct (drop_current _). + by destruct (drop_current _).
  - unfold on_session_resumed. destruct (paused_ m); [|done]. eapply Hext; [exact IH|..]; by destruct m.
Qed.

(** C24. A mirrored source gets each buffer back once, and not before every
    scene that took it has released it: in every run the buffers acquired from
    the source are those it was given back and those of the mirror's frames; a
    frame is there because it is the newest or because some consumer still
    holds it, every buffer a consumer holds is of such a frame; and when the
    mirror is destroyed the source has everything back. *)
Theorem mirror_gives_back_once m out :
  mirror_reach m out ->
  lg_acquired (inner_ m) ≡ₚ lg_released (inner_ m) ++ (f_buffer <$> frames_ m) /\
  (forall f, f ∈ frames_ m -> f_current f = true \/ exists b, b ∈ out /\ ab_opaque b = f_addr f) /\
  (forall b, b ∈ out -> exists f, f ∈ frames_ m /\ ab_opaque b = f_addr f /\ ab_fb_id b = ab_fb_id (f_buffer f)) /\
  lg_acquired (destroy m) ≡ₚ lg_released (destroy m).
Proof.
  intros [_ Hh Ho Hal _ Hb]%mirror_settled. rewrite app_nil_r in Hb. split_and!; [done| | |].
  - intros f Hf. destruct (Hal f Hf) as [[]|[Hc|Hpos]]; [by left|right]. rewrite (Hh f Hf) in Hpos. unfold holding in Hpos.
    destruct (filter (fun b => ab_opaque b = f_addr f) out) as [|b l] eqn:E; [simpl in Hpos; lia|]. exists b.
    apply and_comm, (list_elem_of_filter (fun b => ab_opaque b = f_addr f)). rewrite E. by left.
  - intros b Hb'. destruct (Ho b Hb') as (f & Hf & ? & ?). eauto.
  - unfold destroy.
    assert (Hfold : forall l (s : Logged Src),
      lg_acquired (foldl (fun s f => src_release (f_buffer f) s) s l) = lg_acquired s /\
      lg_released (foldl (fun s f => src_release (f_buffer f) s) s l) = lg_released s ++ (f_buffer <$> l)).
    { induction l as [|f l IH]; intros s; cbn [foldl fmap list_fmap]; [by rewrite app_nil_r|].
      destruct (IH (src_release (f_buffer f) s)) as [-> ->].
      destruct s; simpl. by rewrite <- app_assoc. }
    destruct (Hfold (frames_ m) (inner_ m)) as [Ha Hr].
    destruct (inner_retired_ m); [by rewrite Ha, Hr|].
    destruct (foldl _ _ _); simpl in *. by rewrite Ha, Hr.
Qed.

(** ** Sequence numbers

    They are below the next one, which counts the buffers. *)
Record seq_inv m : Prop := mkSeqInv {
  sq_next : next_seq_ m = 1 + Z.of_nat (length (lg_acquired (inner_ m)));
  sq_frames : forall f, f ∈ frames_ m -> f_seq f < next_seq_ m;
  sq_consumers : forall c, c ∈ consumers_ m -> 0 <= last_seq c < next_seq_ m;
  sq_positive : forall f, f ∈ frames_ m -> 0 <= f_seq f
}.

Lemma seq_inv_calm m m' : calm m m' -> seq_inv m -> seq_inv m'.
Proof.
  intros (Hn & Ha & Hf & Hc) [Hs Hsf Hsc Hsp]. split; rewrite ?Hn, ?Ha; [done| | |].
  - intros f (g & -> & Hg)%Hf%list_elem_of_fmap. auto.
  - intros c [->|(d & -> & Hd)%list_elem_of_fmap]%Hc; [lia|auto].
  - intros f (g & -> & Hg)%Hf%list_elem_of_fmap. auto.
Qed.

(** Few enough buffers for the 64-bit counter. *)
Definition few m : Prop := 1 + Z.of_nat (length (lg_acquired (inner_ m))) < 2 ^ 64.

Lemma acquire_seq dup addr id m out r m' :
  settled [] m out -> fresh_addr addr m -> acquire dup addr id m = Some (r, m') ->
  (length (lg_acquired (inner_ m)) <= length (lg_acquired (inner_ m')))%nat /\ (few m' -> seq_inv m -> seq_inv m').
Proof.
  intros Hs Hfresh. unfold acquire. destruct (consumers_ m !! id) as [c|] eqn:Ec; [|done]. simpl.
  assert (Hgo : forall i f m1,
    frames_ m1 !! i = Some f ->
    match hand_out dup f c with
    | Unexp e => Some (Unexp e, m1)
    | Val b => Some (Val b, m1 {{ frames_ ::= alter (fun f => f {{ f_holders ::= S }}) i;
                                  consumers_ ::= alter (fun c => c {{ last_seq := f_seq f }}) id }})
    end = Some (r, m') -> lg_acquired (inner_ m') = lg_acquired (inner_ m1) /\ (seq_inv m1 -> seq_inv m')).
  { intros i f m1 Hi. destruct (hand_out dup f c) as [b|e]; intros Hr; [|by injection Hr as <- <-].
    apply (inj Some) in Hr. injection Hr as <- <-. split; [by destruct m1|]. intros [Hn Hf Hc Hp].
    assert (Hin : forall x, x ∈ alter (fun f => f {{ f_holders ::= S }}) i (frames_ m1) -> f_seq x ∈ f_seq <$> frames_ m1).
    { intros x. destruct (lookup_split _ _ _ Hi) as (a & e & _ & _ & Hins & Halt). rewrite Halt, <- Hins. apply (insert_seq f_seq _ _ f); [done|by destruct f]. }
    split; [by destruct m1| | |].
    - intros x Hx. destruct m1; simpl in *. apply Hin in Hx as (y & -> & Hy)%list_elem_of_fmap. auto.
    - intros d Hd. assert (Hd' : d ∈ alter (fun c => c {{ last_seq := f_seq f }}) id (consumers_ m1)) by (by destruct m1).
      replace (next_seq_ _) with (next_seq_ m1) by (by destruct m1).
      apply list_elem_of_lookup in Hd' as (j & Hj). apply list_elem_of_lookup_2 in Hi.
      destruct (decide (id = j)) as [->|Hne].
      + rewrite list_lookup_alter_eq in Hj. destruct (consumers_ m1 !! j) as [c0|]; [|done].
        injection Hj as <-. destruct c0; simpl. split; [by apply Hp|by apply Hf].
      + rewrite list_lookup_alter_ne in Hj by done. apply Hc. by eapply list_elem_of_lookup_2.
    - intros x Hx. destruct m1; simpl in *. apply Hin in Hx as (y & -> & Hy)%list_elem_of_fmap. auto. }
  pose proof (advance_inv addr m out Hs Hfresh) as Hadv.
  destruct (current_frame m) as [[i f]|] eqn:Ecur; [destruct (f_seq f <=? last_seq c)|].
  2: { apply current_frame_some in Ecur as [Hi _]. intros Hr. destruct (Hgo i f m Hi Hr) as [-> Hsq]. auto. }
  all: destruct (advance addr m) as [[[j g]|e] m1].
  2,4: destruct Hadv as (_ & Hn & Hf & Ha & Hc); intros Hr; injection Hr as <- <-; rewrite Ha;
       split; [done|intros _; by apply seq_inv_calm, calm_intro].
  all: destruct Hadv as (_ & Hj & Hg & _ & Hn & Ha & Hc & l & Hl & _ & _ & Hlf); intros Hr;
       destruct (Hgo j g m1 Hj Hr) as [Ha' Hsq]; rewrite Ha', Ha, length_app; (split; [lia|]).
  all: unfold few; rewrite Ha', Ha, length_app; intros Hfew Hi; apply Hsq; clear Hsq Hgo.
  all: destruct Hi as [Hsn Hsf Hsc Hsp].
  all: assert (Hn1 : next_seq_ m1 = next_seq_ m + 1) by (rewrite Hn; apply wrap_small; unfold in_u; simpl in Hfew; lia).
  all: split; rewrite ?Hn1, ?Ha, ?Hl, ?Hc, ?length_app; [simpl; lia| | |].
  all: try (intros d Hd; specialize (Hsc d Hd); lia).
  all: intros x [(y & -> & Hy)%Hlf%list_elem_of_fmap| ->%list_elem_of_singleton]%elem_of_app;
       [specialize (Hsf y Hy); specialize (Hsp y Hy); lia|rewrite Hg; simpl; lia].
Qed.

Lemma calm_around m1 m2 :
  next_seq_ m2 = next_seq_ (drop_current m1) -> frames_ m2 = frames_ (drop_current m1) ->
  lg_acquired (inner_ m2) = lg_acquired (inner_ (drop_current m1)) ->
  consumers_ m2 = consumers_ (drop_current m1) -> calm m1 m2.
Proof. intros Hn Hf Ha Hc. eapply calm_trans; [apply calm_drop|]. by apply calm_intro. Qed.

Lemma reach_seq m out : mirror_reach m out -> few m -> seq_inv m.
Proof.
  assert (Hcalm : forall m m', calm m m' -> few m' -> (few m -> seq_inv m) -> seq_inv m').
  { intros m1 m2 Hc Hf IH. eapply seq_inv_calm; [exact Hc|]. apply IH. unfold few in *. destruct Hc as (_ & <- & _). done. }
  induction 1 as [inner Ha Hr | m out _ IH | m out dup addr id r m' Hre IH Hf Ha | m out out' ioctl b fence _ IH Hp
                 | m out id m' _ IH Hr | m out id m' _ IH Hd | m out _ IH | m out _ IH].
  - intros _. split; simpl; try (by intros ? ?%not_elem_of_nil). by rewrite Ha.
  - intros Hf. apply (Hcalm m); [|done|done]. split_and!; [by destruct m|by destruct m| |].
    + intros f Hff. apply list_elem_of_fmap_2. by destruct m.
    + intros c Hc. assert (Hc' : c ∈ consumers_ m ++ [mkConsumer true false 0]) by (by destruct m).
      apply elem_of_app in Hc' as [?|Hs]; [right; by apply list_elem_of_fmap_2|].
      apply list_elem_of_singleton in Hs. left. by rewrite Hs.
  - intros Hfew. destruct (acquire_seq _ _ _ _ _ _ _ (mirror_settled _ _ Hre) Hf Ha) as [Hle Hsq].
    apply Hsq; [done|]. apply IH. unfold few in *. lia.
  - intros Hf. eapply Hcalm; [apply calm_release|done|done].
  - unfold retire in Hr. destruct (consumers_ m !! id) as [c|] eqn:Ec; [|done]. simpl in Hr. injection Hr as <-. intros Hf.
    set (m1 := m {{ consumers_ ::= <[id := c {{ c_retired := true }}]> }}) in *.
    assert (H1 : calm m m1) by (by apply (calm_consumer m id c); [|destruct c]).
    destruct (_ && _); [|by eapply Hcalm]. eapply Hcalm; [|exact Hf|exact IH]. eapply calm_trans; [exact H1|].
    eapply calm_trans; [|apply (calm_around (m1 {{ inner_retired_ := true }}))]; [|by destruct (drop_current _)..].
    apply calm_intro; by destruct m1.
  - unfold drop_consumer in Hd. destruct (consumers_ m !! id) as [c|] eqn:Ec; [|done]. simpl in Hd. injection Hd as <-.
    intros Hf. eapply Hcalm; [|exact Hf|exact IH]. by apply (calm_consumer m id c); [|destruct c].
  - unfold on_session_paused. destruct (paused_ m); [done|]. intros Hf. eapply Hcalm; [|exact Hf|exact IH].
    eapply calm_trans; [|apply (calm_around (m {{ paused_ := true }}))]; [|by destruct (drop_current _)..].
    apply calm_intro; by destruct m.
  - unfold on_session_resumed. destruct (paused_ m); [|done]. intros Hf. eapply Hcalm; [|exact Hf|exact IH].
    apply calm_intro; by destruct m.
Qed.

(** ** One round of acquisitions *)

(** The scenes of a set acquire in turn; an error is that scene's own. *)
Fixpoint acquire_round (dup : Z -> expected SyncFence) (addr : Z) (ids : list nat) m
  : option (list (expected AcquiredBuffer) * M) :=
  match ids with
  | [] => Some ([], m)
  | id :: ids =>
      '(r, m) ← acquire dup addr id m;
      '(rs, m) ← acquire_round dup addr ids m;
      Some (r :: rs, m)
  end.

(** A consumer that has not had the newest frame takes it. *)
Lemma acquire_newest dup addr id m i f c :
  current_frame m = Some (i, f) -> consumers_ m !! id = Some c -> last_seq c < f_seq f ->
  (forall fd, has_value (dup fd) = true) ->
  exists b m' f', acquire dup addr id m = Some (Val b, m') /\
    ab_fb_id b = ab_fb_id (f_buffer f) /\
    ab_damage b = (if u64 (last_seq c + 1) =? f_seq f then ab_damage (f_buffer f) else []) /\
    current_frame m' = Some (i, f') /\ f_seq f' = f_seq f /\ f_buffer f' = f_buffer f /\
    inner_ m' = inner_ m /\ next_seq_ m' = next_seq_ m /\
    (exists c', consumers_ m' !! id = Some c' /\ last_seq c' = f_seq f) /\
    (forall j, j <> id -> consumers_ m' !! j = consumers_ m !! j).
Proof.
  intros Hcur Hc Hlt Hdup. unfold acquire. rewrite Hc, Hcur. simpl.
  destruct (Z.leb_spec (f_seq f) (last_seq c)); [lia|].
  destruct (hand_out dup f c) as [b|e] eqn:Eh.
  2: { exfalso. unfold hand_out in Eh. destruct (ab_fence (f_buffer f)) as [fe|]; [|done].
       destruct (fence_valid fe); [|done]. specialize (Hdup (fence_fd fe)). by destruct (dup (fence_fd fe)). }
  apply hand_out_spec in Eh as (Hfb & _ & Hdm). eexists b, _, (f {{ f_holders ::= S }}). split; [done|].
  unfold current_frame in *. pose proof Hcur as (Hi & Hcf & Hbefore)%list_find_Some. split_and!; try done; try (by destruct f); try (by destruct m).
  - apply list_find_Some. destruct m; simpl in *. split_and!.
    + by rewrite list_lookup_alter_eq, Hi.
    + by destruct f.
    + intros j y Hj Hlt'. rewrite list_lookup_alter_ne in Hj by lia. by eapply Hbefore.
  - exists (c {{ last_seq := f_seq f }}). split; [|by destruct c]. destruct m; simpl in *.
    by rewrite list_lookup_alter_eq, Hc.
  - intros j Hj. destruct m; simpl in *. by rewrite list_lookup_alter_ne.
Qed.

Lemma round_rest dup addr i n b ids m f :
  current_frame m = Some (i, f) -> f_seq f = n + 1 -> 0 <= n -> n + 1 < 2 ^ 64 -> f_buffer f = b ->
  (forall fd, has_value (dup fd) = true) -> NoDup ids ->
  (forall id, id ∈ ids -> exists c, consumers_ m !! id = Some c /\ last_seq c = n) ->
  exists rs m', acquire_round dup addr ids m = Some (rs, m') /\ length rs = length ids /\
    Forall (fun r => exists x, r = Val x /\ ab_fb_id x = ab_fb_id b /\ ab_damage x = ab_damage b) rs /\
    inner_ m' = inner_ m /\ next_seq_ m' = next_seq_ m /\
    (forall id, id ∈ ids -> exists c, consumers_ m' !! id = Some c /\ last_seq c = n + 1) /\
    (forall id, id ∉ ids -> consumers_ m' !! id = consumers_ m !! id).
Proof.
  intros Hcur Hseq Hn0 Hn64 Hb Hdup. revert m f Hcur Hseq Hb. induction ids as [|id ids IH]; intros m f Hcur Hseq Hb Hnd Hc; simpl.
  { exists [], m. split_and!; try done. by intros id ?%not_elem_of_nil. }
  apply NoDup_cons in Hnd as [Hid Hnd]. destruct (Hc id) as (c & Hci & Hcl); [by left|].
  destruct (acquire_newest dup addr id m i f c Hcur Hci) as
    (x & m1 & f1 & -> & Hfb & Hdm & Hcur1 & Hs1 & Hb1 & Hi1 & Hn1 & (c1 & Hc1 & Hl1) & Hoth); [lia|done|].
  assert (Hdam : ab_damage x = ab_damage b).
  { rewrite Hdm, Hcl, Hseq, wrap_small, Z.eqb_refl by (unfold in_u; lia). by rewrite Hb. }
  simpl. destruct (IH m1 f1) as (rs & m2 & -> & Hlen & Hall & Hi2 & Hn2 & Hin & Hout); [done|congruence|congruence|done| |].
  { intros j Hj. rewrite Hoth by (by intros ->). apply Hc. by right. }
  simpl. eexists _, _. split; [done|]. simpl. split; [lia|]. split.
  { constructor; [|done]. exists x. split_and!; [done|congruence|done]. }
  split_and!; [congruence|congruence| |].
  - intros j [->|Hj]%elem_of_cons; [|auto]. exists c1. rewrite Hout by done. split; [done|congruence].
  - intros j [Hne Hj]%not_elem_of_cons. rewrite Hout by done. by apply Hoth.
Qed.

(** Scenes that commit together show the same frame: when every consumer
    of a round has had the newest frame, a round of acquisitions takes exactly
    one buffer from the source, gives it with its damage to each of them, and
    leaves them all with the newest frame again; in every run, for fewer than
    2^64 frames. *)
Theorem mirror_round_shares_one_frame m out dup addr ids b :
  mirror_reach m out -> 2 + Z.of_nat (length (lg_acquired (inner_ m))) < 2 ^ 64 ->
  ids <> [] -> NoDup ids ->
  (forall id, id ∈ ids -> exists c, consumers_ m !! id = Some c /\ last_seq c = next_seq_ m - 1) ->
  (src_acquire (inner_ m)).1 = Val b -> (forall fd, has_value (dup fd) = true) -> fresh_addr addr m ->
  exists rs m', acquire_round dup addr ids m = Some (rs, m') /\ length rs = length ids /\
    Forall (fun r => exists x, r = Val x /\ ab_fb_id x = ab_fb_id b /\ ab_damage x = ab_damage b) rs /\
    lg_acquired (inner_ m') = lg_acquired (inner_ m) ++ [b] /\
    forall id, id ∈ ids -> exists c, consumers_ m' !! id = Some c /\ last_seq c = next_seq_ m' - 1.
Proof.
  intros Hre Hfew Hne Hnd Hc Hb Hdup Hfresh.
  destruct (reach_seq m out Hre) as [Hsn Hsf Hsc _]; [unfold few; lia|].
  destruct ids as [|id ids]; [done|]. destruct (Hc id) as (c & Hci & Hcl); [by left|].
  pose proof (advance_inv addr m out (mirror_settled _ _ Hre) Hfresh) as Hadv.
  destruct (advance addr m) as [[[i g]|e] m1] eqn:Eadv.
  2: { exfalso. unfold advance in Eadv. rewrite (surjective_pairing (src_acquire (inner_ m))), Hb in Eadv. done. }
  destruct Hadv as (_ & Hj & Hg & Hgb & Hn & Ha & Hcons & l & Hl & -> & Hlc & _).
  assert (Hbb : f_buffer g = b) by congruence.
  assert (Hn1 : next_seq_ m1 = next_seq_ m + 1) by (rewrite Hn; apply wrap_small; unfold in_u; lia).
  assert (Hgs : f_seq g = next_seq_ m) by (by rewrite Hg). assert (Hgc : f_current g = true) by (by rewrite Hg).
  assert (Hcur1 : current_frame m1 = Some (length l, g)).
  { apply list_find_Some. split_and!; [done|by rewrite Hgc|]. intros j y Hy Hlt.
    rewrite Hl, lookup_app_l in Hy by done. rewrite Forall_forall in Hlc.
    rewrite Hlc; [by intros []|by eapply list_elem_of_lookup_2]. }
  assert (Hsame : acquire dup addr id m = acquire dup addr id m1).
  { unfold acquire. rewrite Hcons, Hci, Hcur1. simpl. rewrite Eadv.
    assert (Hlt : f_seq g <=? last_seq c = false) by (apply Z.leb_gt; lia). rewrite Hlt.
    destruct (current_frame m) as [[k f]|] eqn:Ek; [|done]. apply current_frame_some in Ek as [Hk _].
    apply list_elem_of_lookup_2, Hsf in Hk. destruct (Z.leb_spec (f_seq f) (last_seq c)); [done|lia]. }
  destruct (round_rest dup addr (length l) (next_seq_ m - 1) b (id :: ids) m1 g) as
    (rs & m2 & Hr & Hlen & Hall & Hi2 & Hn2 & Hin & _); try done; try lia.
  { intros j Hj'. rewrite Hcons. by apply Hc. }
  exists rs, m2. split; [by simpl in *; rewrite Hsame|]. split_and!; [done|done|congruence|].
  intros j Hj'. destruct (Hin j Hj') as (d & ? & ?). exists d. split; [done|lia].
Qed.

End MirrorProps.

(** ** A concrete mirror *)

Definition sample_inner : Logged Queue := mkLogged [7; 8] [] [].
Definition sample_mirror : SourceMirror (Logged Queue) :=
  (make_consumer (make_consumer (create sample_inner)).2).2.
Definition sample_dup (fd : Z) : expected SyncFence := Val (mkFence (fd + 100)).

Lemma sample_mirror_reach : mirror_reach sample_mirror [].
Proof. repeat apply mr_consumer. by apply mr_create. Qed.

(** One consumer took the first frame, and then the second, which the other
    has not had. *)
Definition sample_ahead : SourceMirror (Logged Queue) :=
  match acquire sample_dup 500 0 sample_mirror with
  | Some (_, m) => match acquire sample_dup 600 0 m with Some (_, m) => m | None => m end
  | None => sample_mirror
  end.

Lemma sample_ahead_reach :
  mirror_reach sample_ahead [mkBuffer 8 600 None []; mkBuffer 7 500 None []].
Proof.
  assert (H1 : exists m, acquire sample_dup 500 0 sample_mirror = Some (Val (mkBuffer 7 500 None []), m) /\
    acquire sample_dup 600 0 m = Some (Val (mkBuffer 8 600 None []), sample_ahead) /\ fresh_addr 600 m).
  { eexists. split; [vm_compute; reflexivity|]. split; [vm_compute; reflexivity|].
    intros f Hf. apply list_elem_of_singleton in Hf as ->. done. }
  destruct H1 as (m & H1 & H2 & Hf). apply (mr_acquire m [mkBuffer 7 500 None []] sample_dup 600 0 (Val (mkBuffer 8 600 None [])) sample_ahead); [|done|done].
  apply (mr_acquire sample_mirror [] sample_dup 500 0 (Val (mkBuffer 7 500 None [])) m); [apply sample_mirror_reach| |done].
  intros f Hff. by apply not_elem_of_nil in Hff.
Qed.

Lemma mirror_gives_back_once_witness :
  mirror_reach sample_ahead [mkBuffer 8 600 None []; mkBuffer 7 500 None []] /\
  lg_acquired (destroy sample_ahead) ≡ₚ lg_released (destroy sample_ahead) /\
  length (lg_released (destroy sample_ahead)) = 2%nat.
Proof.
  split; [exact sample_ahead_reach|]. split; [|reflexivity].
  apply (proj2 (proj2 (proj2 (mirror_gives_back_once _ _ sample_ahead_reach)))).
Defined.

Lemma mirror_round_shares_one_frame_witness :
  mirror_reach sample_mirror [] /\
  exists rs m', acquire_round sample_dup 500 [0%nat; 1%nat] sample_mirror = Some (rs, m') /\
    Forall (fun r => exists x, r = Val x /\ ab_fb_id x = 7) rs.
Proof.
  split; [exact sample_mirror_reach|].
  destruct (mirror_round_shares_one_frame sample_mirror [] sample_dup 500 [0%nat; 1%nat] (mkBuffer 7 7 None [])
    sample_mirror_reach) as (rs & m' & Hr & _ & Hall & _).
  - vm_compute. reflexivity.
  - discriminate.
  - apply (bool_decide_unpack _). by vm_compute.
  - intros id Hid. exists (mkConsumer true false 0).
    assert (Hid' : id = 0%nat \/ id = 1%nat).
    { apply elem_of_cons in Hid as [->|Hid]; [by left|]. apply list_elem_of_singleton in Hid as ->. by right. }
    destruct Hid' as [-> | ->]; split; reflexivity.
  - reflexivity.
  - reflexivity.
  - intros f Hf. by apply not_elem_of_nil in Hf.
  - exists rs, m'. split; [exact Hr|]. eapply Forall_impl; [exact Hall|]. intros r (x & -> & Hx & _). by exists x.
Defined.

(** A scene hands its buffers back before its sources hear of the pause; a
    mirrored source is paused with the first of its scenes, while the buffers
    of the others are still out, and gets them back when it is down. *)
Lemma mirrored_buffer_returns_after_pause :
  exists m b, mirror_reach m [b] /\ paused_ m = true /\
    lg_released (inner_ m) = [] /\
    length (lg_released (inner_ (release (fun _ _ => Unexp EBADF) b None m))) = 1%nat.
Proof.
  destruct (acquire sample_dup 500 0 sample_mirror) as [[r m]|] eqn:E; [|by vm_compute in E].
  exists (on_session_paused m), (mkBuffer 7 500 None []). split.
  - apply mr_pause.
    assert (Hr : r = Val (mkBuffer 7 500 None [])) by (vm_compute in E; by injection E as <- _).
    rewrite Hr in E. apply (mr_acquire sample_mirror [] sample_dup 500 0 (Val (mkBuffer 7 500 None [])) m); [apply sample_mirror_reach| |done].
    intros f Hff. by apply not_elem_of_nil in Hff.
  - vm_compute in E. injection E as _ <-. by vm_compute.
Qed.
