(* ===== verification/SceneLayer.v ===== *)
(** A scene's layers: [src/scene/layer.hpp], [layer_handle.hpp],
    [layer_desc.hpp], [display_params.hpp] and [commit_report.hpp].

    A layer carries what its owner wants shown ([DisplayParams]) with a dirty
    flag per layer.  Every setter marks the layer dirty; the conditional ones
    only when the value changes.  Names that clash with [Layer.v], the planes'
    layer it is lowered to, start with [sl_]. *)
From S2P Require Import Prelude Layer BufferSource.

(** ** Identity and outcome *)

Record LayerHandle := mkHandle { h_id : N; h_generation : Z }.
#[global] Instance LayerHandle_eq_dec : EqDecision LayerHandle.
Proof. solve_decision. Defined.

Definition valid (h : LayerHandle) : bool := negb (h_id h =? 0)%N.

Inductive LayerPlacement := AssignedToPlane | Composited | Unassigned.
#[global] Instance LayerPlacement_eq_dec : EqDecision LayerPlacement.
Proof. solve_decision. Defined.

Record LayerPlacementEntry := mkEntry {
  pe_handle : LayerHandle; placement : LayerPlacement; pe_plane_id : Z; plane_rotation_bits : Z
}.

(** Counters are [size_t]s no run overflows. *)
Record CommitReport := mkReport {
  layers_total : nat;
  layers_assigned : nat;
  layers_composited : nat;
  layers_unassigned : nat;
  layers_skipped_no_frame : nat;
  composition_buckets : nat;
  pins_failed : nat;
  properties_written : nat;
  fbs_attached : nat;
  damage_clips_armed : nat;
  in_fences_armed : nat;
  in_fence_cpu_waits : nat;
  test_commits_issued : nat;
  fb_delta_fast_path : bool;
  commit_seq : Z;
  hdr_downgraded_no_max_bpc : bool;
  skipped_idle : bool;
  placements : list LayerPlacementEntry
}.

Definition empty_report : CommitReport := mkReport 0 0 0 0 0 0 0 0 0 0 0 0 0 false 0 false false [].

Definition placement_of (h : LayerHandle) (r : CommitReport) : option LayerPlacementEntry :=
  snd <$> list_find (fun e => pe_handle e = h) (placements r).

Definition was_composited (h : LayerHandle) (r : CommitReport) : bool :=
  match placement_of h r with
  | Some e => bool_decide (placement e = Composited)
  | None => false
  end.

(** ** What is shown ([display_params.hpp]) *)

Record FixedRect := mkFixed { fx : Z; fy : Z; fw : Z; fh : Z }.
#[global] Instance FixedRect_eq_dec : EqDecision FixedRect.
Proof. solve_decision. Defined.

Inductive ColorPrimaries := PBt709 | PBt2020 | PDciP3 | PAdobeRgb.
#[global] Instance ColorPrimaries_eq_dec : EqDecision ColorPrimaries.
Proof. solve_decision. Defined.

Inductive TransferFunction := TraditionalGammaSdr | TraditionalGammaHdr | SmpteSt2084Pq | Bt2100Hlg.
#[global] Instance TransferFunction_eq_dec : EqDecision TransferFunction.
Proof. solve_decision. Defined.

Inductive ColorEncoding := BT_601 | BT_709 | BT_2020.
Inductive ColorRange := Limited | Full.

Inductive PlaneTransferFunction :=
  | TfDefault | TfSrgb | TfBt709 | TfPq | TfIdentity | TfGamma22 | TfGamma24 | TfGamma26.

Record ColorLutEntry := mkLut { lut_r : Z; lut_g : Z; lut_b : Z }.

(** A [double] is kept as its bit pattern. *)
Record AmdPlaneColor := mkAmd {
  degamma_tf : option PlaneTransferFunction;
  hdr_mult : option Z;
  shaper_tf : option PlaneTransferFunction;
  shaper_lut : list ColorLutEntry;
  lut3d : list ColorLutEntry;
  blend_tf : option PlaneTransferFunction;
  blend_lut : list ColorLutEntry;
  ctm : option (list Z)
}.
Definition no_amd_color : AmdPlaneColor := mkAmd None None None [] [] None [] None.

Record DisplayParams := mkDisplay {
  src_rect : Rect;
  src_rect_fixed : option FixedRect;
  dst_rect : Rect;
  rotation : Z;
  alpha : Z;
  zpos : option Z;
  color_encoding : option ColorEncoding;
  color_range : option ColorRange;
  color_primaries : option ColorPrimaries;
  source_eotf : option TransferFunction;
  amd_color : AmdPlaneColor
}.

Definition no_rect : Rect := mkRect 0 0 0 0.
Definition default_display : DisplayParams :=
  mkDisplay no_rect None no_rect 0 65535 None None None None None no_amd_color.

Definition needs_scaling (d : DisplayParams) : bool :=
  match src_rect_fixed d with
  | Some f => negb (fw f =? u64 (Z.shiftl (rw (dst_rect d)) 16)) || negb (fh f =? u64 (Z.shiftl (rh (dst_rect d)) 16))
  | None => negb (rw (src_rect d) =? rw (dst_rect d)) || negb (rh (src_rect d) =? rh (dst_rect d))
  end.

(** ** The layer *)

Record LayerDesc (Src : Type) := mkLayerDesc {
  ld_source : option Src;
  ld_display : DisplayParams;
  ld_content_type : ContentType;
  ld_update_hint_hz : Z;
  ld_app_priority : Z;
  ld_force_composited : bool;
  ld_pinned_plane_id : option Z;
  ld_identity_tag : Z
}.
Arguments mkLayerDesc {Src}.
Arguments ld_source {Src}.
Arguments ld_display {Src}.
Arguments ld_content_type {Src}.
Arguments ld_update_hint_hz {Src}.
Arguments ld_app_priority {Src}.
Arguments ld_force_composited {Src}.
Arguments ld_pinned_plane_id {Src}.
Arguments ld_identity_tag {Src}.

(** The identity tag is an opaque pointer, 0 being null. *)
Record SceneLayer := mkSceneLayer {
  handle_ : LayerHandle;
  source_ : positive;
  display_ : DisplayParams;
  sl_content_type : ContentType;
  update_hint_hz_ : Z;
  sl_app_priority : Z;
  pinned_plane_id_ : option Z;
  identity_tag_ : Z;
  sl_dirty_ : bool;
  hints_dirty_ : bool;
  alpha_explicit_ : bool;
  last_placement_ : LayerPlacement;
  last_assigned_plane_id_ : option Z
}.

Definition make_scene_layer {Src} (h : LayerHandle) (source : positive) (desc : LayerDesc Src) : SceneLayer :=
  mkSceneLayer h source (ld_display desc) (ld_content_type desc) (ld_update_hint_hz desc)
    (ld_app_priority desc) (ld_pinned_plane_id desc) (ld_identity_tag desc)
    true false false Unassigned None.

Definition scene_mark_clean (l : SceneLayer) : SceneLayer := l {{ sl_dirty_ := false; hints_dirty_ := false }}.
Definition exchange_source (next : positive) (l : SceneLayer) : positive * SceneLayer :=
  (source_ l, l {{ source_ := next }}).
Definition record_placement (p : LayerPlacement) (plane_id : option Z) (l : SceneLayer) : SceneLayer :=
  l {{ last_placement_ := p; last_assigned_plane_id_ := plane_id }}.

(** ** Edits *)

Definition sl_set_content_type (ct : ContentType) (l : SceneLayer) : SceneLayer :=
  l {{ sl_content_type := ct; sl_dirty_ := true; hints_dirty_ := true }}.
Definition sl_set_update_hint (hz : Z) (l : SceneLayer) : SceneLayer :=
  l {{ update_hint_hz_ := hz; sl_dirty_ := true; hints_dirty_ := true }}.
Definition sl_set_app_priority (priority : Z) (l : SceneLayer) : SceneLayer :=
  l {{ sl_app_priority := priority; sl_dirty_ := true; hints_dirty_ := true }}.

Definition set_display (f : DisplayParams -> DisplayParams) (l : SceneLayer) : SceneLayer :=
  l {{ display_ ::= f; sl_dirty_ := true }}.

Definition set_src_rect (r : Rect) : SceneLayer -> SceneLayer := set_display (fun d => d {{ src_rect := r }}).
Definition set_dst_rect (r : Rect) : SceneLayer -> SceneLayer := set_display (fun d => d {{ dst_rect := r }}).
Definition set_rotation (rot : Z) : SceneLayer -> SceneLayer := set_display (fun d => d {{ rotation := rot }}).
Definition set_alpha (a : Z) (l : SceneLayer) : SceneLayer :=
  (set_display (fun d => d {{ alpha := a }}) l) {{ alpha_explicit_ := true }}.
Definition set_zpos (z : option Z) : SceneLayer -> SceneLayer := set_display (fun d => d {{ zpos := z }}).
Definition set_color_primaries (cp : option ColorPrimaries) : SceneLayer -> SceneLayer :=
  set_display (fun d => d {{ color_primaries := cp }}).
Definition set_source_eotf (eotf : option TransferFunction) : SceneLayer -> SceneLayer :=
  set_display (fun d => d {{ source_eotf := eotf }}).

(** The conditional setters: the new value is stored, and the layer marked,
    only when it differs. *)
Definition if_changed {A} `{EqDecision A} (get : DisplayParams -> A) (f : DisplayParams -> DisplayParams)
  (v : A) (l : SceneLayer) : SceneLayer :=
  if decide (get (display_ l) = v) then l else set_display f l.

Definition set_src_rect_fixed_if_changed (r : option FixedRect) : SceneLayer -> SceneLayer :=
  if_changed src_rect_fixed (fun d => d {{ src_rect_fixed := r }}) r.
Definition set_src_rect_if_changed (r : Rect) : SceneLayer -> SceneLayer :=
  if_changed src_rect (fun d => d {{ src_rect := r }}) r.
Definition set_dst_rect_if_changed (r : Rect) : SceneLayer -> SceneLayer :=
  if_changed dst_rect (fun d => d {{ dst_rect := r }}) r.
Definition set_rotation_if_changed (rot : Z) : SceneLayer -> SceneLayer :=
  if_changed rotation (fun d => d {{ rotation := rot }}) rot.
Definition set_alpha_if_changed (a : Z) (l : SceneLayer) : SceneLayer :=
  (if negb (alpha_explicit_ l) || negb (alpha (display_ l) =? a)
   then set_display (fun d => d {{ alpha := a }}) l else l) {{ alpha_explicit_ := true }}.
Definition set_zpos_if_changed (z : option Z) : SceneLayer -> SceneLayer :=
  if_changed zpos (fun d => d {{ zpos := z }}) z.
Definition set_color_primaries_if_changed (cp : option ColorPrimaries) : SceneLayer -> SceneLayer :=
  if_changed color_primaries (fun d => d {{ color_primaries := cp }}) cp.
Definition set_source_eotf_if_changed (eotf : option TransferFunction) : SceneLayer -> SceneLayer :=
  if_changed source_eotf (fun d => d {{ source_eotf := eotf }}) eotf.

(** Every call of a caller on a layer. *)
Inductive LayerEdit :=
  | EContentType (ct : ContentType)
  | EUpdateHint (hz : Z)
  | EAppPriority (priority : Z)
  | ESrcRect (r : Rect)
  | EDstRect (r : Rect)
  | ERotation (rot : Z)
  | EAlpha (a : Z)
  | EZpos (z : option Z)
  | EColorPrimaries (cp : option ColorPrimaries)
  | ESourceEotf (eotf : option TransferFunction)
  | ESrcRectFixed (r : option FixedRect).

(** [cond]: through the conditional setter, where there are two. *)
Definition apply_edit (cond : bool) (e : LayerEdit) : SceneLayer -> SceneLayer :=
  match e with
  | EContentType ct => sl_set_content_type ct
  | EUpdateHint hz => sl_set_update_hint hz
  | EAppPriority priority => sl_set_app_priority priority
  | ESrcRect r => if cond then set_src_rect_if_changed r else set_src_rect r
  | EDstRect r => if cond then set_dst_rect_if_changed r else set_dst_rect r
  | ERotation rot => if cond then set_rotation_if_changed rot else set_rotation rot
  | EAlpha a => if cond then set_alpha_if_changed a else set_alpha a
  | EZpos z => if cond then set_zpos_if_changed z else set_zpos z
  | EColorPrimaries cp => if cond then set_color_primaries_if_changed cp else set_color_primaries cp
  | ESourceEotf eotf => if cond then set_source_eotf_if_changed eotf else set_source_eotf eotf
  | ESrcRectFixed r => set_src_rect_fixed_if_changed r
  end.

Definition apply_edits (cond : bool) (es : list LayerEdit) (l : SceneLayer) : SceneLayer :=
  foldl (fun l e => apply_edit cond e l) l es.

(** ** What the edits do *)

Lemma set_display_same f (l : SceneLayer) :
  f (display_ l) = display_ l -> set_display f l = l {{ sl_dirty_ := true }}.
Proof. unfold set_display. destruct l; simpl. by intros ->. Qed.

(** Two layers that differ in nothing but the dirty flag. *)
Definition same_but_dirty (l l' : SceneLayer) : Prop := l {{ sl_dirty_ := true }} = l' {{ sl_dirty_ := true }}.

Lemma same_but_dirty_eq l l' : same_but_dirty l l' <-> l = l' {{ sl_dirty_ := sl_dirty_ l }}.
Proof. unfold same_but_dirty. destruct l, l'; simpl. split; intros [=]; by subst. Qed.

Lemma set_display_congr f l l' : same_but_dirty l l' -> set_display f l = set_display f l'.
Proof. unfold same_but_dirty, set_display. destruct l, l'; simpl. intros [=]; by subst. Qed.

Lemma if_changed_agrees {A} `{EqDecision A} (get : DisplayParams -> A) f v l l' :
  (get (display_ l) = v -> f (display_ l) = display_ l) -> same_but_dirty l l' ->
  same_but_dirty (if_changed get f v l) (set_display f l').
Proof.
  intros Hf Hs. rewrite <- (set_display_congr f l l' Hs). unfold if_changed. case_decide; [|done].
  rewrite set_display_same by auto. unfold same_but_dirty. by destruct l.
Qed.

Lemma if_changed_congr {A} `{EqDecision A} (get : DisplayParams -> A) f v l l' :
  same_but_dirty l l' -> same_but_dirty (if_changed get f v l) (if_changed get f v l').
Proof.
  intros Hs. assert (Hd : display_ l = display_ l') by (by apply same_but_dirty_eq in Hs as ->; destruct l').
  unfold if_changed. rewrite Hd. case_decide; [done|]. by rewrite (set_display_congr f l l' Hs).
Qed.

Lemma apply_edit_agrees e l l' :
  same_but_dirty l l' -> same_but_dirty (apply_edit true e l) (apply_edit false e l').
Proof.
  intros Hs. destruct e; simpl;
    try (apply if_changed_agrees; [destruct (display_ l); simpl; by intros ->|exact Hs]);
    try (apply same_but_dirty_eq in Hs as ->; unfold same_but_dirty, sl_set_content_type,
           sl_set_update_hint, sl_set_app_priority; by destruct l').
  - unfold set_alpha_if_changed, set_alpha. rewrite <- (set_display_congr _ l l' Hs). unfold same_but_dirty, set_display.
    destruct l as [? ? [] ? ? ? ? ? ? ? expl]; simpl. destruct expl; simpl; [|done].
    destruct (Z.eqb_spec alpha0 a) as [->|]; simpl; done.
  - by apply if_changed_congr.
Qed.

Lemma if_changed_clean {A} `{EqDecision A} (get : DisplayParams -> A) f v l :
  sl_dirty_ (if_changed get f v l) = false -> if_changed get f v l = l.
Proof. unfold if_changed. case_decide; [done|]. by destruct l. Qed.

Lemma apply_edit_clean e l : sl_dirty_ (apply_edit true e l) = false -> apply_edit true e l = l.
Proof.
  destruct e; simpl; try apply if_changed_clean; try (by destruct l).
  unfold set_alpha_if_changed, set_display. destruct l as [? ? [] ? ? ? ? ? ? ? expl]; simpl.
  destruct expl; simpl; [|done]. by destruct (Z.eqb_spec alpha0 a).
Qed.

Lemma apply_edits_snoc cond es e l : apply_edits cond (es ++ [e]) l = apply_edit cond e (apply_edits cond es l).
Proof. unfold apply_edits. by rewrite foldl_app. Qed.

(** An edit keeps the layer's handle and source. *)
Definition ident (l : SceneLayer) : LayerHandle * positive := (handle_ l, source_ l).

Lemma apply_edit_ident cond e l : ident (apply_edit cond e l) = ident l.
Proof.
  destruct e, cond; simpl; try (by destruct l);
    try (unfold set_src_rect_fixed_if_changed, set_src_rect_if_changed, set_dst_rect_if_changed, set_rotation_if_changed,
           set_zpos_if_changed, set_color_primaries_if_changed, set_source_eotf_if_changed, if_changed;
         case_decide; by destruct l).
  unfold set_alpha_if_changed, set_display. destruct l; simpl. by destruct (_ || _).
Qed.


Definition sample_clean_layer : SceneLayer :=
  scene_mark_clean (make_scene_layer (mkHandle 1 1) 1%positive
    (mkLayerDesc (Src := unit) (Some tt) default_display Generic 0 0 false None 0)).

