(* ===== verification/SceneMemory.v ===== *)
(** The objects a scene owns.

    [src/scene/layer_scene.cpp] keeps its layers, their sources and the
    planes' layers in [unique_ptr]s and refers to them by raw pointers.  Here
    they live in a [World]; a pointer is a location, a location is never given
    out twice, and following one that was freed makes the whole operation
    [None].  The calls that hand buffers over are logged in order. *)
From S2P Require Import Prelude StateMonad Layer Output BufferSource SceneLayer.

(** ** The memory *)

Inductive Call :=
  | CAcquire (s : positive) (b : AcquiredBuffer)
  | CRelease (s : positive) (b : AcquiredBuffer).

Definition acquired_of (cs : list Call) : list (positive * AcquiredBuffer) :=
  omap (fun c => match c with CAcquire s b => Some (s, b) | _ => None end) cs.
Definition released_of (cs : list Call) : list (positive * AcquiredBuffer) :=
  omap (fun c => match c with CRelease s b => Some (s, b) | _ => None end) cs.

Record World (Src : Type) := mkWorld {
  w_layers : gmap positive SceneLayer;
  w_sources : gmap positive Src;
  w_planes : heap;
  w_next : positive;
  w_calls : list Call
}.
Arguments mkWorld {Src}.
Arguments w_layers {Src}.
Arguments w_sources {Src}.
Arguments w_planes {Src}.
Arguments w_next {Src}.
Arguments w_calls {Src}.

Abbreviation Mem Src := (ST (World Src)).

Section Mem.
Context {Src : Type} `{LayerBufferSource Src}.
Implicit Type w : World Src.

Definition deref_layer (p : positive) : Mem Src SceneLayer :=
  fun w => l ← w_layers w !! p; Some (l, w).
Definition put_layer (p : positive) (f : SceneLayer -> SceneLayer) : Mem Src unit :=
  fun w => l ← w_layers w !! p; Some (tt, w {{ w_layers ::= <[p := f l]> }}).

Definition deref_source (s : positive) : Mem Src Src :=
  fun w => x ← w_sources w !! s; Some (x, w).
(** A call on a source: its answer and its next state. *)
Definition call_source {A} (f : Src -> A * Src) (s : positive) : Mem Src A :=
  fun w => x ← w_sources w !! s; Some ((f x).1, w {{ w_sources ::= <[s := (f x).2]> }}).
Definition call_source_ (f : Src -> Src) : positive -> Mem Src unit := call_source (fun x => (tt, f x)).

Definition log (c : Call) : Mem Src unit := fun w => Some (tt, w {{ w_calls ::= fun cs => cs ++ [c] }}).

Definition new_source (x : Src) : Mem Src positive :=
  fun w => Some (w_next w, w {{ w_sources ::= <[w_next w := x]>; w_next ::= Pos.succ }}).
Definition new_scene_layer (l : SceneLayer) : Mem Src positive :=
  fun w => Some (w_next w, w {{ w_layers ::= <[w_next w := l]>; w_next ::= Pos.succ }}).

(** Destroying a [unique_ptr]; a layer's destructor destroys its source. *)
Definition free_source (s : positive) : Mem Src unit :=
  fun w => _ ← w_sources w !! s; Some (tt, w {{ w_sources ::= delete s }}).
Definition delete_layer (p : positive) : Mem Src unit :=
  fun w => Some (tt, w {{ w_layers ::= delete p }}).
Definition free_layer (p : positive) : Mem Src unit :=
  l ← deref_layer p;
  _ ← free_source (source_ l);
  delete_layer p.

(** The planes' layers: operations of [Output.v] lifted to the world. *)
Definition with_planes {A} (f : heap -> option (A * heap)) : Mem Src A :=
  fun w => '(a, hp) ← f (w_planes w); Some (a, w {{ w_planes := hp }}).
Definition planes_run (f : heap -> option heap) : Mem Src unit :=
  with_planes (fun hp => hp' ← f hp; Some (tt, hp')).
Definition deref_plane_layer (q : positive) : Mem Src Layer :=
  fun w => l ← w_planes w !! q; Some (l, w).

(** ** Total correctness *)

Lemma wp_deref_layer p l w Q : w_layers w !! p = Some l -> Q l w -> wp (deref_layer p) w Q.
Proof. intros Hl HQ. exists l, w. unfold deref_layer. by rewrite Hl. Qed.

Lemma wp_put_layer p f l w (Q : unit -> World Src -> Prop) :
  w_layers w !! p = Some l -> Q tt (w {{ w_layers ::= <[p := f l]> }}) -> wp (put_layer p f) w Q.
Proof. intros Hl HQ. eexists tt, _. unfold put_layer. by rewrite Hl. Qed.

Lemma wp_deref_source s x w Q : w_sources w !! s = Some x -> Q x w -> wp (deref_source s) w Q.
Proof. intros Hx HQ. exists x, w. unfold deref_source. by rewrite Hx. Qed.

Lemma wp_call_source {A} (f : Src -> A * Src) s x w Q :
  w_sources w !! s = Some x ->
  Q (f x).1 (w {{ w_sources ::= <[s := (f x).2]> }}) -> wp (call_source f s) w Q.
Proof. intros Hx HQ. eexists _, _. unfold call_source. by rewrite Hx. Qed.

Lemma wp_call_source_ (f : Src -> Src) s x w (Q : unit -> World Src -> Prop) :
  w_sources w !! s = Some x -> Q tt (w {{ w_sources ::= <[s := f x]> }}) -> wp (call_source_ f s) w Q.
Proof. intros. by eapply wp_call_source. Qed.

Lemma wp_log c w (Q : unit -> World Src -> Prop) :
  Q tt (w {{ w_calls ::= fun cs => cs ++ [c] }}) -> wp (log c) w Q.
Proof. intros HQ. by eexists tt, _. Qed.

Lemma wp_new_source x w Q :
  Q (w_next w) (w {{ w_sources ::= <[w_next w := x]>; w_next ::= Pos.succ }}) -> wp (new_source x) w Q.
Proof. intros HQ. by eexists _, _. Qed.

Lemma wp_new_scene_layer l w Q :
  Q (w_next w) (w {{ w_layers ::= <[w_next w := l]>; w_next ::= Pos.succ }}) ->
  wp (new_scene_layer l) w Q.
Proof. intros HQ. by eexists _, _. Qed.

Lemma wp_free_source s w (Q : unit -> World Src -> Prop) :
  is_Some (w_sources w !! s) -> Q tt (w {{ w_sources ::= delete s }}) -> wp (free_source s) w Q.
Proof. intros [x Hx] HQ. eexists tt, _. unfold free_source. by rewrite Hx. Qed.

Lemma wp_free_layer p l w (Q : unit -> World Src -> Prop) :
  w_layers w !! p = Some l -> is_Some (w_sources w !! source_ l) ->
  Q tt (w {{ w_sources ::= delete (source_ l) }} {{ w_layers ::= delete p }}) -> wp (free_layer p) w Q.
Proof.
  intros Hl Hs HQ. apply wp_bind. eapply wp_deref_layer; [done|].
  apply wp_bind, wp_free_source; [done|]. by eexists tt, _.
Qed.

Lemma wp_with_planes {A} (f : heap -> option (A * heap)) a hp w Q :
  f (w_planes w) = Some (a, hp) -> Q a (w {{ w_planes := hp }}) -> wp (with_planes f) w Q.
Proof. intros Hf HQ. eexists _, _. unfold with_planes. by rewrite Hf. Qed.

Lemma wp_planes_run f hp w (Q : unit -> World Src -> Prop) :
  f (w_planes w) = Some hp -> Q tt (w {{ w_planes := hp }}) -> wp (planes_run f) w Q.
Proof. intros Hf HQ. eapply wp_with_planes; [by rewrite Hf | done]. Qed.

Lemma wp_deref_plane_layer q l w Q : w_planes w !! q = Some l -> Q l w -> wp (deref_plane_layer q) w Q.
Proof. intros Hl HQ. exists l, w. unfold deref_plane_layer. by rewrite Hl. Qed.

End Mem.
