(* ===== verification/Scene.v ===== *)
(** A scene's layer table and the buffers it has in flight:
    [src/scene/layer_scene.cpp] ([LayerScene::Impl]).

    Handles name slots of a table; each live slot owns a layer, the layer its
    source.  A frame is built ([build_frame_into]: every source is asked for a
    buffer), committed by the caller, and finalised ([finalize_frame]: the
    buffers rotate through a two-deep ring and go back to their producers two
    commits later).  What a build computes in between, the placement and the
    property writes, is an argument ([BuildPasses]): this file follows the
    buffers, the layers and the sources through every way out of it. *)
From S2P Require Import Prelude StateMonad DrmAbi FormatMod PlaneRegistry Layer Output Assignment AllocState.
From S2P Require Import RingPresenter BufferSource SceneLayer SceneMemory.

Inductive StreamMixingMode := Unsupported | Exclusive | Mixed.
#[global] Instance StreamMixingMode_eq_dec : EqDecision StreamMixingMode.
Proof. solve_decision. Defined.

Definition usable (m : StreamMixingMode) : bool := negb (bool_decide (m = Unsupported)).

Record Slot := mkSlot {
  scene_layer : option positive;
  planes_layer : option positive;
  generation : Z;
  alive : bool;
  stream_pinned_plane_id : option Z
}.
Definition empty_slot : Slot := mkSlot None None 0 false None.

(** [acq_mapped]: composition cached a mapping or a dma-buf of the layer. *)
Record AcquisitionSlot := mkAcquisition {
  acq_layer : positive;
  acq_planes_layer : option positive;
  acq_buffer : AcquiredBuffer;
  acq_mapped : bool;
  acq_pin : option Z;
  acq_release_fence : option SyncFence;
  acq_retired_source : option positive
}.

Record Scene := mkScene {
  slots_ : list Slot;
  free_ids_ : list nat;
  composition_planes_layer_ : positive;
  output_ : Output;
  allocator_ : option Allocator;
  mixing_ : StreamMixingMode;
  mixing_probe_ran_ : bool;
  structure_dirty_ : bool;
  demoted_ : list positive;
  suspended_ : bool;
  first_commit_ : bool;
  last_commit_seq_ : Z;
  last_canvas_plane_id_ : option Z;
  committed_canvas_plane_ : option Z;
  scratch_acquisitions_ : list AcquisitionSlot;
  prev_acquisitions_ : list AcquisitionSlot;
  prev_prev_acquisitions_ : list AcquisitionSlot;
  retire_pending_ : list positive;
  retire_prev_ : list positive;
  retire_prev_prev_ : list positive;
  retire_src_pending_ : list positive;
  retire_src_prev_ : list positive;
  retire_src_prev_prev_ : list positive
}.

(** The constructor, once the planes and properties are read. *)
Definition make_scene (comp : positive) (o : Output) (a : Allocator) (mixing : StreamMixingMode) : Scene :=
  mkScene [] [] comp o (Some a) mixing false false [] false true 0 None None [] [] [] [] [] [] [] [] [].

Record FrameBuildState := mkFrame {
  fs_acquisitions : list AcquisitionSlot;
  fs_effective_flags : Z;
  fs_test_only : bool;
  fs_wants_release_fence : bool;
  fs_canvas_plane : option Z;
  fs_report : CommitReport
}.

(** The steps of a build that can fail after the buffers were acquired, in
    order, and which of them hand the buffers back before returning. *)
Inductive BuildFailure :=
  | EnsureModeBlob | InjectModeset | AllocatorApply | AcquireFences | DamageClips | AmdPlaneColor
  | PinnedLayers | OutputColorspace | HdrMetadata | VrrEnabled | RegammaTf.

Definition hands_back (f : BuildFailure) : bool :=
  match f with
  | AcquireFences | DamageClips | AmdPlaneColor | PinnedLayers => false
  | _ => true
  end.

(** What the placement and the property writes of a build came to: how they
    left the planes' layers and the allocator, the acquisitions whose layer was
    demoted into the canvas or mapped by it, the canvas plane, and the failure
    that ended them, if any. *)
Record BuildPasses := mkPasses {
  bp_layers : positive -> Layer -> Layer;
  bp_allocator : option Allocator -> option Allocator;
  bp_demoted : list nat;
  bp_mapped : nat -> bool;
  bp_canvas_armed : bool;
  bp_canvas_plane : option Z;
  bp_flags : Z;
  bp_report : CommitReport -> CommitReport;
  bp_failed : option (BuildFailure * errc)
}.

Section Scene.
Context {Src : Type} `{LayerBufferSource Src}.
Implicit Type s : Scene.

(** ** The handle table *)

(** [slot_for]: the slot's index. *)
Definition slot_for (h : LayerHandle) (s : Scene) : option nat :=
  if (h_id h =? 0)%N || (N.of_nat (length (slots_ s)) <? h_id h)%N then None
  else
    let i := N.to_nat (h_id h - 1) in
    match slots_ s !! i with
    | Some slot => if negb (alive slot) || negb (generation slot =? h_generation h) then None else Some i
    | None => None
    end.

Definition get_layer (h : LayerHandle) (s : Scene) : option positive :=
  i ← slot_for h s; slot ← slots_ s !! i; scene_layer slot.

Definition layer_count (s : Scene) : nat := length (slots_ s) - length (free_ids_ s).

Definition live_layers (s : Scene) : list positive :=
  omap (fun slot => if alive slot then scene_layer slot else None) (slots_ s).

Fixpoint find_tag (tag : Z) (ps : list positive) : Mem Src (option positive) :=
  match ps with
  | [] => mret None
  | p :: ps' => l ← deref_layer p; if identity_tag_ l =? tag then mret (Some p) else find_tag tag ps'
  end.

Definition find_by_identity_tag (tag : Z) (s : Scene) : Mem Src (option positive) :=
  if tag =? 0 then mret None else find_tag tag (live_layers s).

Fixpoint any_changed (ps : list positive) : Mem Src bool :=
  match ps with
  | [] => mret false
  | p :: ps' =>
      l ← deref_layer p;
      if sl_dirty_ l then mret true
      else src ← deref_source (source_ l);
           if src_has_fresh_content src then mret true else any_changed ps'
  end.

Definition content_changed (s : Scene) : Mem Src bool :=
  if structure_dirty_ s then mret true else any_changed (live_layers s).

(** A free slot, or a new one. *)
Definition take_slot (s : Scene) : nat * Scene :=
  match last (free_ids_ s) with
  | Some i => (i, s {{ free_ids_ ::= fun l => removelast l }})
  | None => (length (slots_ s), s {{ slots_ ::= fun l => l ++ [empty_slot] }})
  end.

Definition generation_at (i : nat) (s : Scene) : Z :=
  match slots_ s !! i with Some slot => generation slot | None => 0 end.

Definition add_layer (desc : LayerDesc Src) (s : Scene) : Mem Src (expected LayerHandle * Scene) :=
  match ld_source desc with
  | None => mret (Unexp EINVAL, s)
  | Some src =>
      if src_driver_owns_binding src && negb (usable (mixing_ s)) then mret (Unexp ENOTSUP, s)
      else
        let '(slot_idx, s) := take_slot s in
        let gen := u32 (generation_at slot_idx s + 1) in
        let handle := mkHandle (N.of_nat slot_idx + 1) gen in
        '(q, o) ← with_planes (fun hp => let '(q, o, hp') := Output.add_layer (output_ s) hp in Some (q, o, hp'));
        _ ← (if ld_force_composited desc then planes_run (update_layer set_composited q) else mret tt);
        sl ← new_source src;
        p ← new_scene_layer (make_scene_layer handle sl desc);
        mret (Val handle,
              s {{ slots_ ::= alter (fun slot => mkSlot (Some p) (Some q) gen true
                                                        (stream_pinned_plane_id slot)) slot_idx;
                   output_ := o; structure_dirty_ := true; demoted_ := [] }})
  end.

Definition retarget (layer old : positive) (a : AcquisitionSlot) : AcquisitionSlot :=
  if bool_decide (acq_layer a = layer) && negb (bool_decide (is_Some (acq_retired_source a)))
  then a {{ acq_retired_source := Some old }} else a.

Definition replace_source (h : LayerHandle) (new : option Src) (s : Scene)
  : Mem Src (expected unit * Scene) :=
  match new with
  | None => mret (Unexp EINVAL, s)
  | Some src =>
      if src_driver_owns_binding src && negb (usable (mixing_ s)) then mret (Unexp ENOTSUP, s)
      else match get_layer h s with
      | None => mret (Unexp EINVAL, s)
      | Some layer =>
          sl ← new_source src;
          l ← deref_layer layer;
          let old := (exchange_source sl l).1 in
          _ ← put_layer layer (fun l => (exchange_source sl l).2);
          _ ← call_source_ src_on_retired old;
          mret (Val tt,
                s {{ prev_acquisitions_ ::= map (retarget layer old);
                     prev_prev_acquisitions_ ::= map (retarget layer old);
                     retire_src_pending_ ::= fun l => l ++ [old];
                     structure_dirty_ := true; demoted_ := [] }})
      end
  end.

Definition unbind_stream (slot : Slot) : Mem Src unit :=
  match stream_pinned_plane_id slot, scene_layer slot with
  | Some plane_id, Some p => l ← deref_layer p; call_source_ (src_unbind_from_plane plane_id) (source_ l)
  | _, _ => mret tt
  end.

Definition remove_layer (h : LayerHandle) (s : Scene) : Mem Src Scene :=
  match slot_for h s with
  | None => mret s
  | Some i =>
      match slots_ s !! i with
      | None => mret s
      | Some slot =>
          _ ← unbind_stream slot;
          let pin := match scene_layer slot with Some _ => None | None => stream_pinned_plane_id slot end in
          o ← (match planes_layer slot with
               | Some q => with_planes (fun hp => Some (Output.remove_layer q (output_ s) hp))
               | None => mret (output_ s)
               end);
          _ ← (match scene_layer slot with
               | Some p => l ← deref_layer p; call_source_ src_on_retired (source_ l)
               | None => mret tt
               end);
          mret (s {{ slots_ ::= <[i := mkSlot None None (generation slot) false pin]>;
                     free_ids_ ::= fun l => l ++ [N.to_nat (h_id h - 1)];
                     allocator_ ::= fmap (forget_layer (planes_layer slot));
                     output_ := o;
                     retire_pending_ ::= fun l => l ++ option_list (scene_layer slot);
                     structure_dirty_ := true; demoted_ := [] }})
      end
  end.

(** ** The buffers *)

Definition release_target (a : AcquisitionSlot) : Mem Src positive :=
  match acq_retired_source a with
  | Some src => mret src
  | None => l ← deref_layer (acq_layer a); mret (source_ l)
  end.

Definition release_one (a : AcquisitionSlot) : Mem Src unit :=
  src ← release_target a;
  _ ← call_source_ (src_release_with_fence (acq_buffer a) (acq_release_fence a)) src;
  log (CRelease src (acq_buffer a)).

(** The caller's vector is left empty. *)
Definition release_all (acqs : list AcquisitionSlot) : Mem Src unit := for_each release_one acqs.

Fixpoint acquire_all (slots : list Slot) (out : list AcquisitionSlot) (skipped : nat)
  : Mem Src (expected unit * list AcquisitionSlot * nat) :=
  match slots with
  | [] => mret (Val tt, out, skipped)
  | slot :: slots' =>
      match alive slot, scene_layer slot with
      | true, Some p =>
          l ← deref_layer p;
          acq ← call_source src_acquire (source_ l);
          match acq with
          | Val b =>
              _ ← log (CAcquire (source_ l) b);
              acquire_all slots'
                (out ++ [mkAcquisition p (planes_layer slot) b false (stream_pinned_plane_id slot) None None])
                skipped
          | Unexp e =>
              if decide (e = EAGAIN) then acquire_all slots' out (S skipped)
              else mret (Unexp e, out, skipped)
          end
      | _, _ => acquire_all slots' out skipped
      end
  end.

Definition release_pending_acquisitions (s : Scene) : Mem Src Scene :=
  _ ← release_all (prev_prev_acquisitions_ s);
  _ ← release_all (prev_acquisitions_ s);
  _ ← for_each free_layer (retire_prev_prev_ s);
  _ ← for_each free_layer (retire_prev_ s);
  _ ← for_each free_layer (retire_pending_ s);
  _ ← for_each free_source (retire_src_prev_prev_ s);
  _ ← for_each free_source (retire_src_prev_ s);
  _ ← for_each free_source (retire_src_pending_ s);
  mret (s {{ prev_prev_acquisitions_ := []; prev_acquisitions_ := [];
             retire_prev_prev_ := []; retire_prev_ := []; retire_pending_ := [];
             retire_src_prev_prev_ := []; retire_src_prev_ := []; retire_src_pending_ := [] }}).

Definition release_displaced (seq : Z) (s : Scene) : Mem Src Scene :=
  if (seq =? 0) || negb (seq =? last_commit_seq_ s) then mret s
  else _ ← release_all (prev_prev_acquisitions_ s); mret (s {{ prev_prev_acquisitions_ := [] }}).

End Scene.
