(* ===== verification/SceneFrame.v ===== *)
(** Frames and session changes of a scene: the rest of
    [src/scene/layer_scene.cpp] that moves buffers, layers or sources
    ([build_frame_into], [finalize_frame], [do_commit], the session hooks,
    [rebind], the destructor). *)
From S2P Require Import Prelude StateMonad DrmAbi FormatMod PlaneRegistry Layer Output Assignment AllocState.
From S2P Require Import RingPresenter BufferSource SceneLayer SceneMemory Scene.

Section SceneFrame.
Context {Src : Type} `{LayerBufferSource Src}.
Implicit Type s : Scene.

(** ** Building a frame *)

(** [ensure_stream_layer_pins]; [pick] is [pick_stream_plane] on this CRTC. *)
Fixpoint pin_streams (pick : Z -> list Z -> option Z) (already : list Z) (slots : list Slot)
  : Mem Src (list Slot) :=
  match slots with
  | [] => mret []
  | slot :: slots' =>
      match alive slot, scene_layer slot, stream_pinned_plane_id slot with
      | true, Some p, None =>
          l ← deref_layer p;
          src ← deref_source (source_ l);
          match (if src_driver_owns_binding src then pick (drm_fourcc (src_format src)) already else None) with
          | None => rest ← pin_streams pick already slots'; mret (slot :: rest)
          | Some plane_id =>
              r ← call_source (src_bind_to_plane plane_id) (source_ l);
              if has_value r
              then rest ← pin_streams pick (already ++ [plane_id]) slots';
                   mret (slot {{ stream_pinned_plane_id := Some plane_id }} :: rest)
              else rest ← pin_streams pick already slots'; mret (slot :: rest)
          end
      | _, _, _ => rest ← pin_streams pick already slots'; mret (slot :: rest)
      end
  end.

Definition pinned_planes (s : Scene) : list Z :=
  omap (fun slot => if alive slot then stream_pinned_plane_id slot else None) (slots_ s).

(** [None]: the CRTC's index could not be resolved. *)
Definition ensure_stream_layer_pins (pick : option (Z -> list Z -> option Z)) (s : Scene) : Mem Src Scene :=
  match pick with
  | None => mret s
  | Some pick => slots ← pin_streams pick (pinned_planes s) (slots_ s); mret (s {{ slots_ := slots }})
  end.

Definition live_planes_layers (s : Scene) : list positive :=
  omap (fun slot => if alive slot then planes_layer slot else None) (slots_ s).

Fixpoint any_stream (ps : list positive) : Mem Src bool :=
  match ps with
  | [] => mret false
  | p :: ps' =>
      l ← deref_layer p; src ← deref_source (source_ l);
      if src_driver_owns_binding src then mret true else any_stream ps'
  end.

Definition composite_unless_stream (slot : Slot) : Mem Src unit :=
  match alive slot, scene_layer slot, planes_layer slot with
  | true, Some p, Some q =>
      l ← deref_layer p; src ← deref_source (source_ l);
      if src_driver_owns_binding src then mret tt
      else planes_run (update_layer (set_transient_composited true) q)
  | _, _, _ => mret tt
  end.

Definition apply_exclusive_mixing_constraint (s : Scene) : Mem Src unit :=
  _ ← planes_run (update_layers (set_transient_composited false) (live_planes_layers s));
  if negb (mixing_probe_ran_ s) || negb (bool_decide (mixing_ s = Exclusive)) then mret tt
  else
    stream ← any_stream (live_layers s);
    if stream : bool then for_each composite_unless_stream (slots_ s) else mret tt.

Fixpoint any_wants_fence (acqs : list AcquisitionSlot) : Mem Src bool :=
  match acqs with
  | [] => mret false
  | a :: acqs' =>
      l ← deref_layer (acq_layer a); src ← deref_source (source_ l);
      if src_wants_release_fence src then mret true else any_wants_fence acqs'
  end.

(** The passes between acquiring and returning: they rewrite the planes'
    layers, and demote some of them into the canvas. *)
Definition run_passes (passes : BuildPasses) (acqs : list AcquisitionSlot) (s : Scene)
  : Mem Src (list AcquisitionSlot * Scene) :=
  let victims := omap (fun i => a ← acqs !! i; acq_planes_layer a) (bp_demoted passes) in
  _ ← planes_run (fun hp => Some (map_imap (fun p l => Some (bp_layers passes p l)) hp));
  _ ← planes_run (update_layers (set_transient_composited true) victims);
  mret (imap (fun i a => a {{ acq_mapped := bp_mapped passes i }}) acqs,
        s {{ allocator_ ::= bp_allocator passes; demoted_ ::= fun l => l ++ victims;
             last_canvas_plane_id_ := bp_canvas_plane passes }}).

Definition build_frame_into (pick : option (Z -> list Z -> option Z)) (passes : BuildPasses)
  (test_only : bool) (s : Scene) : Mem Src (expected (option FrameBuildState) * Scene) :=
  let total := layer_count s in
  if suspended_ s then mret (Val None, s)
  else
    s ← ensure_stream_layer_pins pick s;
    _ ← apply_exclusive_mixing_constraint s;
    _ ← planes_run (update_layers (set_transient_composited true) (demoted_ s));
    '(r, acqs, skipped) ← acquire_all (slots_ s) [] 0;
    match r with
    | Unexp e => _ ← release_all acqs; mret (Unexp e, s {{ scratch_acquisitions_ := [] }})
    | Val _ =>
        '(acqs, s) ← run_passes passes acqs s;
        match bp_failed passes with
        | Some (f, e) =>
            if hands_back f
            then _ ← release_all acqs; mret (Unexp e, s {{ scratch_acquisitions_ := [] }})
            else mret (Unexp e, s {{ scratch_acquisitions_ := acqs }})
        | None =>
            wants ← any_wants_fence acqs;
            mret (Val (Some (mkFrame acqs (bp_flags passes) test_only wants
                               (if bp_canvas_armed passes then bp_canvas_plane passes else None)
                               (bp_report passes (empty_report {{ layers_total := total; layers_skipped_no_frame := skipped }})))),
                  s {{ scratch_acquisitions_ := [] }})
        end
    end.

(** [FrameBuildStateDeleter]: a state dropped without being finalised. *)
Definition drop_frame (st : FrameBuildState) : Mem Src unit :=
  if bool_decide (fs_acquisitions st = []) then mret tt else release_all (fs_acquisitions st).

(** ** Finalising it *)

Definition record_layer_placements (canvas : option Z) (acqs : list AcquisitionSlot) : Mem Src unit :=
  for_each (fun a =>
    match acq_planes_layer a with
    | None => mret tt
    | Some q =>
        pl ← deref_plane_layer q;
        match assigned_plane_ pl with
        | Some plane_id => put_layer (acq_layer a) (record_placement AssignedToPlane (Some plane_id))
        | None =>
            if acq_mapped a && bool_decide (is_Some canvas)
            then put_layer (acq_layer a) (record_placement Composited canvas)
            else put_layer (acq_layer a) (record_placement Unassigned None)
        end
    end) acqs.

(** Each layer's current source is asked; [dup i] is the outcome of the [i]-th
    descriptor duplication. *)
Fixpoint stamp_fences (dup : nat -> option SyncFence) (i : nat) (acqs : list AcquisitionSlot)
  : Mem Src (list AcquisitionSlot) :=
  match acqs with
  | [] => mret []
  | a :: acqs' =>
      l ← deref_layer (acq_layer a); src ← deref_source (source_ l);
      rest ← stamp_fences dup (S i) acqs';
      mret ((if src_wants_release_fence src
             then match dup i with Some f => a {{ acq_release_fence := Some f }} | None => a end
             else a) :: rest)
  end.

(** The in-flight ring turns: what commit N-2 showed goes back, what is on
    screen and what was just queued move down, and the retired layers and
    sources follow one rotation behind. *)
Definition rotate (acqs : list AcquisitionSlot) (s : Scene) : Mem Src Scene :=
  _ ← release_all (prev_prev_acquisitions_ s);
  _ ← for_each free_layer (retire_prev_prev_ s);
  _ ← for_each free_source (retire_src_prev_prev_ s);
  mret (s {{ retire_prev_prev_ := retire_prev_ s; retire_prev_ := retire_pending_ s; retire_pending_ := [];
             retire_src_prev_prev_ := retire_src_prev_ s; retire_src_prev_ := retire_src_pending_ s;
             retire_src_pending_ := [];
             prev_prev_acquisitions_ := prev_acquisitions_ s; prev_acquisitions_ := acqs;
             scratch_acquisitions_ := []; last_commit_seq_ ::= fun n => u64 (n + 1) }}).

Definition note_refusal (e : errc) (fast : bool) (s : Scene) : Scene :=
  if decide (e = EACCES) then s {{ suspended_ := true }}
  else if fast then s {{ allocator_ ::= fmap invalidate_allocation }} else s.

Definition finalize_frame (st : FrameBuildState) (kernel_result : expected unit)
  (release_fence_src : option SyncFence) (dup : nat -> option SyncFence) (s : Scene)
  : Mem Src (expected CommitReport * Scene) :=
  match kernel_result with
  | Unexp e =>
      let s := note_refusal e (fb_delta_fast_path (fs_report st)) s in
      _ ← release_all (fs_acquisitions st);
      mret (Unexp e, s {{ scratch_acquisitions_ := [] }})
  | Val _ =>
      if fs_test_only st then
        _ ← release_all (fs_acquisitions st);
        mret (Val (fs_report st), s {{ scratch_acquisitions_ := [] }})
      else
        let s := s {{ first_commit_ := false; committed_canvas_plane_ := fs_canvas_plane st }} in
        _ ← for_each (fun p => put_layer p scene_mark_clean) (live_layers s);
        _ ← record_layer_placements (last_canvas_plane_id_ s) (fs_acquisitions st);
        _ ← planes_run (output_mark_clean (output_ s));
        let s := s {{ structure_dirty_ := false }} in
        s ← (if match release_fence_src with Some f => fence_valid f | None => false end
             then prev ← stamp_fences dup 0 (prev_acquisitions_ s); mret (s {{ prev_acquisitions_ := prev }})
             else mret s);
        s ← rotate (fs_acquisitions st) s;
        mret (Val ((fs_report st) {{ commit_seq := last_commit_seq_ s }}), s)
  end.

(** ** One commit *)

(** What the kernel does with the request: its verdict, whether the CRTC has
    OUT_FENCE_PTR, the fence imported from the descriptor it wrote, and the
    outcomes of the later duplications. *)
Record KernelSide := mkKernelSide {
  ks_result : expected unit;
  ks_out_fence_ptr : bool;
  ks_out_fence : option SyncFence;
  ks_dup : nat -> option SyncFence
}.

(** The fence the per-buffer stamping uses: none when the caller took it. *)
Definition release_fence_src (caller_wants internal_wants test_only : bool) (k : KernelSide) : option SyncFence :=
  let want := caller_wants || internal_wants in
  let committed :=
    if want && negb test_only && has_value (ks_result k) && ks_out_fence_ptr k
    then ks_out_fence k else None in
  match committed with
  | Some f => if fence_valid f then if caller_wants && negb internal_wants then None else Some f else None
  | None => None
  end.

(** [hook]: the answer of the commit hook, if one is set. *)
Definition do_commit (pick : option (Z -> list Z -> option Z)) (passes : BuildPasses)
  (test_only caller_wants : bool) (hook : option (expected unit)) (k : KernelSide) (s : Scene)
  : Mem Src (expected CommitReport * Scene) :=
  '(build, s) ← build_frame_into pick passes test_only s;
  match build with
  | Unexp e => mret (Unexp e, s)
  | Val None => mret (Val empty_report, s)
  | Val (Some st) =>
      match (if negb test_only then hook else None) with
      | Some (Unexp e) => finalize_frame st (Unexp e) None (fun _ => None) s
      | _ =>
          finalize_frame st (ks_result k)
            (release_fence_src caller_wants (fs_wants_release_fence st) test_only k) (ks_dup k) s
      end
  end.

(** ** Sessions, rebinding and the end *)

Definition on_session_paused (s : Scene) : Mem Src Scene :=
  s ← release_pending_acquisitions s;
  _ ← for_each (fun p => l ← deref_layer p; call_source_ src_on_session_paused (source_ l)) (live_layers s);
  mret (s {{ slots_ ::= map (fun slot => slot {{ stream_pinned_plane_id := None }}) }}).

Fixpoint resume_sources (ps : list positive) : Mem Src (expected unit) :=
  match ps with
  | [] => mret (Val tt)
  | p :: ps' =>
      l ← deref_layer p;
      r ← call_source src_on_session_resumed (source_ l);
      match r with Unexp e => mret (Unexp e) | Val _ => resume_sources ps' end
  end.

(** [read]: enumerating the planes and caching the properties on the new
    device; [fresh]: the allocator built on them. *)
Definition on_session_resumed (read : expected unit) (fresh : Allocator) (s : Scene)
  : Mem Src (expected unit * Scene) :=
  match read with
  | Unexp e => mret (Unexp e, s)
  | Val _ =>
      let s := s {{ allocator_ := Some fresh }} in
      r ← resume_sources (live_layers s);
      match r with
      | Unexp e => mret (Unexp e, s)
      | Val _ =>
          mret (Val tt, s {{ last_canvas_plane_id_ := None; committed_canvas_plane_ := None; demoted_ := [];
                             mixing_probe_ran_ := false; first_commit_ := true; suspended_ := false }})
      end
  end.

(** [output_ = Output(...)]: the new output marks the composition layer, the
    old one's layers are destroyed. *)
Definition reset_output (crtc_id : Z) (s : Scene) : Mem Src Output :=
  with_planes (fun hp => '(o, hp') ← make_output crtc_id (composition_planes_layer_ s) hp;
                         Some (o, foldr delete hp' (owned_layers_ (output_ s)))).

Fixpoint rebind_slots (slots : list Slot) (o : Output) : Mem Src (list Slot * Output) :=
  match slots with
  | [] => mret ([], o)
  | slot :: slots' =>
      match alive slot, scene_layer slot with
      | true, Some _ =>
          _ ← unbind_stream slot;
          '(q, o) ← with_planes (fun hp => let '(q, o, hp') := Output.add_layer o hp in Some (q, o, hp'));
          '(rest, o) ← rebind_slots slots' o;
          mret (slot {{ stream_pinned_plane_id := None; planes_layer := Some q }} :: rest, o)
      | _, _ =>
          '(rest, o) ← rebind_slots slots' o;
          mret (slot {{ stream_pinned_plane_id := None; planes_layer := None }} :: rest, o)
      end
  end.

(** The half-open interval check of a layer against the new mode. *)
Definition off_screen (mode_w mode_h : Z) (r : Rect) : bool :=
  (rx r + rw r <=? 0) || (ry r + rh r <=? 0) || (mode_w <=? rx r) || (mode_h <=? ry r).

Inductive Reason := DstRectOffScreen | RequiresScalingNotAvailable | FormatNotSupported.

Fixpoint incompatibilities (mode_w mode_h : Z) (ps : list positive) : Mem Src (list (LayerHandle * Reason)) :=
  match ps with
  | [] => mret []
  | p :: ps' =>
      l ← deref_layer p;
      rest ← incompatibilities mode_w mode_h ps';
      mret (if off_screen mode_w mode_h (dst_rect (display_ l)) then (handle_ l, DstRectOffScreen) :: rest else rest)
  end.

(** [read]: caching the properties of the new CRTC and connector. *)
Definition rebind (crtc_id mode_w mode_h : Z) (read : expected unit) (fresh : Allocator) (s : Scene)
  : Mem Src (expected (list (LayerHandle * Reason)) * Scene) :=
  s ← release_pending_acquisitions s;
  match read with
  | Unexp e => mret (Unexp e, s)
  | Val _ =>
      o ← reset_output crtc_id s;
      '(slots, o) ← rebind_slots (slots_ s) o;
      let s := s {{ slots_ := slots; output_ := o; allocator_ := Some fresh;
                    last_canvas_plane_id_ := None; committed_canvas_plane_ := None; demoted_ := [];
                    mixing_probe_ran_ := false; first_commit_ := true }} in
      report ← incompatibilities mode_w mode_h (live_layers s);
      mret (Val report, s)
  end.

(** The destructor: the ring is drained, then the members go. *)
Definition destroy (s : Scene) : Mem Src unit :=
  s ← release_pending_acquisitions s;
  for_each free_layer (omap scene_layer (slots_ s)).

End SceneFrame.
