(* ===== verification/SceneOwn.v ===== *)
(** What a scene owns, as an invariant of the memory: which layers and sources
    exist, and that every buffer acquired is released or still held.  The
    steps that free, release and call are shown to keep the books. *)
From S2P Require Import Prelude StateMonad Layer Output RingPresenter BufferSource SceneLayer SceneMemory Scene.

Lemma omap_ext_elem {A B} (f g : A -> option B) (l : list A) :
  (forall a, a ∈ l -> f a = g a) -> omap f l = omap g l.
Proof. intros Hf. apply list_omap_ext, Forall_Forall2_diag, Forall_forall, Hf. Qed.

(** Where a held buffer goes back to, and the buffer. *)
Definition source_at {Src} (w : World Src) (p : positive) : option positive := source_ <$> w_layers w !! p.

Definition target {Src} (w : World Src) (a : AcquisitionSlot) : option positive :=
  match acq_retired_source a with Some x => Some x | None => source_at w (acq_layer a) end.

Definition entry {Src} (w : World Src) (a : AcquisitionSlot) : option (positive * AcquiredBuffer) :=
  (fun t => (t, acq_buffer a)) <$> target w a.

(** Every buffer handed out was given back to its producer once, or is held,
    or is [lost]. *)
Definition balanced {Src} (w : World Src) (held : list AcquisitionSlot)
    (lost : list (positive * AcquiredBuffer)) : Prop :=
  acquired_of (w_calls w) ≡ₚ released_of (w_calls w) ++ omap (entry w) held ++ lost.

(** The layers [ls] and their sources, and the sources [ss], are what exists. *)
Record owns {Src} (w : World Src) (ls ss : list positive) : Prop := mkOwns {
  own_layers : forall p, is_Some (w_layers w !! p) <-> p ∈ ls;
  own_nodup : NoDup ls;
  own_sources : forall x, is_Some (w_sources w !! x) <-> x ∈ omap (source_at w) ls ++ ss;
  own_nodup_sources : NoDup (omap (source_at w) ls ++ ss);
  own_next : forall p, is_Some (w_layers w !! p) \/ is_Some (w_sources w !! p) -> (p < w_next w)%positive
}.

(** An entry whose layer, and retired source if any, are among these. *)
Definition entry_ok (ls ss : list positive) (a : AcquisitionSlot) : Prop :=
  acq_layer a ∈ ls /\ (forall x, acq_retired_source a = Some x -> x ∈ ss).

(** The objects are the same: no layer changed its handle or source. *)
Definition kept {Src} (w w' : World Src) : Prop :=
  (forall p, ident <$> w_layers w' !! p = ident <$> w_layers w !! p) /\
  (forall x, is_Some (w_sources w' !! x) <-> is_Some (w_sources w !! x)) /\
  w_next w' = w_next w.

Definition quiet {Src} (w w' : World Src) : Prop :=
  kept w w' /\ w_planes w' = w_planes w /\ w_calls w' = w_calls w.

(** Unfold one of the conjunctions above and split it. *)
Ltac split_rel := hnf; split_and!.

Section Own.
Context {Src : Type} `{HS : LayerBufferSource Src}.
Implicit Type w : World Src.
Implicit Types (held acqs : list AcquisitionSlot) (ls ss : list positive).

#[export] Instance kept_refl : Reflexive (kept (Src := Src)).
Proof. intros w. by split_rel. Qed.
#[export] Instance kept_trans : Transitive (kept (Src := Src)).
Proof.
  intros a b c (Hl & Hs & Hn) (Hl' & Hs' & Hn'). split_rel; [| |congruence].
  - intros p. by rewrite Hl'. - intros x. by rewrite Hs'.
Qed.
#[export] Instance quiet_refl : Reflexive (quiet (Src := Src)).
Proof. intros w. by split_rel. Qed.
#[export] Instance quiet_trans : Transitive (quiet (Src := Src)).
Proof. intros a b c (? & ? & ?) (? & ? & ?). split_rel; [by etrans|congruence..]. Qed.

Lemma quiet_kept w w' : quiet w w' -> kept w w'.
Proof. by intros (? & _). Qed.

Lemma source_at_kept w w' p : kept w w' -> source_at w' p = source_at w p.
Proof.
  intros (Hl & _). specialize (Hl p). unfold source_at.
  destruct (w_layers w' !! p), (w_layers w !! p); unfold ident in Hl; simpl in *; congruence.
Qed.

Lemma target_kept w w' a : kept w w' -> target w' a = target w a.
Proof. intros Hk. unfold target. by rewrite (source_at_kept w w'). Qed.

Lemma entry_kept w w' a : kept w w' -> entry w' a = entry w a.
Proof. intros Hk. unfold entry. by rewrite (target_kept w w'). Qed.

Lemma entries_ext w w' held :
  (forall a, a ∈ held -> entry w' a = entry w a) -> omap (entry w') held = omap (entry w) held.
Proof. apply omap_ext_elem. Qed.

Lemma layer_kept w w' p l : kept w w' -> w_layers w !! p = Some l ->
  exists l', w_layers w' !! p = Some l' /\ ident l' = ident l.
Proof.
  intros (Hl & _) Hp. specialize (Hl p). rewrite Hp in Hl.
  destruct (w_layers w' !! p) as [l'|]; [|done]. exists l'. split; [done|]. simpl in Hl. congruence.
Qed.

Lemma owns_kept w w' ls ss : kept w w' -> owns w ls ss -> owns w' ls ss.
Proof.
  intros Hk [Hl Hn Hs Hns Hlt]. pose proof Hk as (Hl' & Hs' & Hn').
  assert (Hlive : forall p, is_Some (w_layers w' !! p) <-> is_Some (w_layers w !! p)).
  { intros p. by rewrite <- (fmap_is_Some ident), Hl', fmap_is_Some. }
  assert (He : omap (source_at w') ls = omap (source_at w) ls).
  { apply omap_ext_elem. intros p _. by apply source_at_kept. }
  split.
  - intros p. by rewrite Hlive, Hl.
  - done.
  - intros x. by rewrite Hs', Hs, He.
  - by rewrite He.
  - intros p. rewrite Hlive, Hs', Hn'. apply Hlt.
Qed.

Lemma owns_perm w ls ls' ss ss' : ls ≡ₚ ls' -> ss ≡ₚ ss' -> owns w ls ss -> owns w ls' ss'.
Proof.
  intros Hp Hq [Hl Hn Hs Hns Hlt].
  assert (He : omap (source_at w) ls ++ ss ≡ₚ omap (source_at w) ls' ++ ss').
  { rewrite Hq. f_equiv. by rewrite Hp. }
  split; [|by rewrite <- Hp| |by rewrite <- He|done].
  - intros p. by rewrite Hl, Hp.
  - intros x. by rewrite Hs, He.
Qed.

Lemma owned_layer w ls ss p : owns w ls ss -> p ∈ ls ->
  exists l, w_layers w !! p = Some l /\ source_at w p = Some (source_ l) /\ is_Some (w_sources w !! source_ l).
Proof.
  intros Ho Hp. destruct (proj2 (own_layers w ls ss Ho p) Hp) as [l Hl]. exists l.
  assert (Hs : source_at w p = Some (source_ l)) by (unfold source_at; by rewrite Hl).
  split_and!; [done..|]. apply (own_sources w ls ss Ho). apply elem_of_app. left.
  apply list_elem_of_omap. by exists p.
Qed.

Lemma entry_live w ls ss a : owns w ls ss -> entry_ok ls ss a ->
  exists t, target w a = Some t /\ is_Some (w_sources w !! t).
Proof.
  intros Ho [Hl Hr]. unfold target. destruct (acq_retired_source a) as [x|].
  - exists x. split; [done|]. apply (own_sources w ls ss Ho), elem_of_app. right. by apply Hr.
  - destruct (owned_layer w ls ss _ Ho Hl) as (l & _ & -> & Hs). eauto.
Qed.

Lemma entry_ok_incl ls ls' ss ss' a : ls ⊆ ls' -> ss ⊆ ss' -> entry_ok ls ss a -> entry_ok ls' ss' a.
Proof. intros Hl Hs [? Hr]. split; [by apply Hl|]. intros x Hx. by apply Hs, Hr. Qed.

Lemma entries_incl ls ls' ss ss' acqs :
  ls ⊆ ls' -> ss ⊆ ss' -> Forall (entry_ok ls ss) acqs -> Forall (entry_ok ls' ss') acqs.
Proof. intros Hl Hs Ha. eapply Forall_impl; [exact Ha|]. intros a. by apply entry_ok_incl. Qed.

(** ** Calls on the sources *)

Lemma kept_source w x f :
  is_Some (w_sources w !! x) -> kept w (w {{ w_sources ::= <[x := f]> }}).
Proof.
  intros Hx. destruct w as [L S P n c]; simpl in *. split_rel; simpl; [done| |done].
  intros y. destruct (decide (y = x)) as [->|Hne]; [|by rewrite lookup_insert_ne].
  rewrite lookup_insert_eq. by split.
Qed.

Lemma quiet_source w x f :
  is_Some (w_sources w !! x) -> quiet w (w {{ w_sources ::= <[x := f]> }}).
Proof. intros Hx. split_rel; [by apply kept_source | by destruct w..]. Qed.

Lemma wp_call_quiet {A} (f : Src -> A * Src) x w :
  is_Some (w_sources w !! x) -> wp (call_source f x) w (fun _ w' => quiet w w').
Proof. intros [y Hy]. eapply wp_call_source; [done|]. apply quiet_source. eauto. Qed.

Lemma wp_call_quiet_ (f : Src -> Src) x w :
  is_Some (w_sources w !! x) -> wp (call_source_ f x) w (fun _ w' => quiet w w').
Proof. apply wp_call_quiet. Qed.

Lemma quiet_put w p l f :
  w_layers w !! p = Some l -> ident (f l) = ident l -> quiet w (w {{ w_layers ::= <[p := f l]> }}).
Proof.
  intros Hl Hi. destruct w as [L S P n c]; simpl in *. split_rel; simpl; [split_rel; simpl|..]; try done.
  intros q. simpl. destruct (decide (q = p)) as [->|Hne]; [|by rewrite lookup_insert_ne].
  rewrite lookup_insert_eq, Hl. simpl. by rewrite Hi.
Qed.

Lemma wp_put_quiet p f w :
  is_Some (w_layers w !! p) -> (forall l, ident (f l) = ident l) ->
  wp (put_layer p f) w (fun _ w' => quiet w w').
Proof. intros [l Hl] Hi. eapply wp_put_layer; [done|]. by apply quiet_put. Qed.

(** ** Releasing *)

Lemma acquired_app cs cs' : acquired_of (cs ++ cs') = acquired_of cs ++ acquired_of cs'.
Proof. apply omap_app. Qed.
Lemma released_app cs cs' : released_of (cs ++ cs') = released_of cs ++ released_of cs'.
Proof. apply omap_app. Qed.

Lemma balanced_perm w held held' lost : held ≡ₚ held' -> balanced w held lost -> balanced w held' lost.
Proof. intros Hp. unfold balanced. by rewrite Hp. Qed.

Lemma balanced_ext w w' held lost :
  w_calls w' = w_calls w -> (forall a, a ∈ held -> entry w' a = entry w a) ->
  balanced w held lost -> balanced w' held lost.
Proof. intros Hc He. unfold balanced. by rewrite Hc, (entries_ext w w' held He). Qed.

Lemma balanced_quiet w w' held lost : quiet w w' -> balanced w held lost -> balanced w' held lost.
Proof. intros (Hk & _ & Hc). apply balanced_ext; [done|]. intros a _. by apply entry_kept. Qed.

(** Releasing some held buffers: the objects stay, the books stay balanced. *)
Definition gives_back (acqs : list AcquisitionSlot) w w' : Prop :=
  kept w w' /\ w_planes w' = w_planes w /\
  (forall held lost, balanced w (acqs ++ held) lost -> balanced w' held lost).

Lemma wp_release_one a w ls ss :
  owns w ls ss -> entry_ok ls ss a -> wp (release_one a) w (fun _ w' => gives_back [a] w w').
Proof.
  intros Ho Ha. destruct (entry_live w ls ss a Ho Ha) as (t & Ht & Hs).
  assert (Hr : wp (release_target a) w (fun t' w' => t' = t /\ w' = w)).
  { unfold release_target, target in *. destruct (acq_retired_source a) as [x|].
    - injection Ht as ->. by apply wp_ret.
    - unfold source_at in Ht. destruct (w_layers w !! acq_layer a) as [l|] eqn:El; [|done].
      injection Ht as <-. apply wp_bind. eapply wp_deref_layer; [done|]. by apply wp_ret. }
  apply wp_bind. eapply wp_mono; [exact Hr|]. intros t' w' [-> ->].
  apply wp_bind. eapply wp_mono; [by apply wp_call_quiet_|]. intros [] w' (Hk & Hp & Hc).
  apply wp_log. destruct w' as [L S P n c]; simpl in *. split_rel; [done..|].
  intros held lost Hb. unfold balanced in *; simpl in *.
  rewrite acquired_app, released_app; simpl. rewrite app_nil_r, <- app_assoc. simpl.
  rewrite (entries_ext w _ held) by (intros b _; by apply (entry_kept w (mkWorld L S P n c))).
  unfold entry in Hb at 1. rewrite Ht in Hb. simpl in Hb. subst c. by rewrite Hb.
Qed.

Lemma wp_release_all acqs w ls ss :
  owns w ls ss -> Forall (entry_ok ls ss) acqs ->
  wp (release_all acqs) w (fun _ w' => gives_back acqs w w').
Proof.
  intros Ho Ha. unfold release_all. revert w Ho. induction Ha as [|a acqs Ha _ IH]; intros w Ho; simpl.
  { apply wp_ret. by split_rel. }
  apply wp_bind. eapply wp_mono; [by eapply wp_release_one|]. intros [] w1 (Hk1 & Hp1 & Hb1).
  eapply wp_mono; [apply IH; by eapply owns_kept|]. intros [] w2 (Hk2 & Hp2 & Hb2).
  split_rel; [by etrans | congruence |]. intros held lost Hb. apply Hb2, Hb1. exact Hb.
Qed.

(** ** Freeing *)

Definition frees (ls : list positive) w w' : Prop :=
  (forall p, p ∈ ls -> w_layers w' !! p = w_layers w !! p) /\
  w_planes w' = w_planes w /\ w_calls w' = w_calls w.

Lemma wp_free_owned p w ls ss :
  owns w (p :: ls) ss -> wp (free_layer p) w (fun _ w' => owns w' ls ss /\ frees ls w w').
Proof.
  intros Ho. destruct (owned_layer w (p :: ls) ss p Ho) as (l & Hl & Hsl & Hs); [by left|].
  destruct Ho as [Hll Hn Hss Hns Hlt]. apply NoDup_cons in Hn as [Hp Hn].
  eapply wp_free_layer; [done..|]. simpl in *. rewrite Hsl in *. simpl in *.
  destruct w as [L S P n c]; simpl in *.
  assert (Hne : forall q, q ∈ ls -> delete p L !! q = L !! q).
  { intros q Hq. apply lookup_delete_ne. by intros ->. }
  split; [|by split_rel]. apply NoDup_cons in Hns as [Hnl Hns].
  assert (He : omap (source_at (mkWorld (delete p L) (delete (source_ l) S) P n c)) ls
               = omap (source_at (mkWorld L S P n c)) ls).
  { apply omap_ext_elem. intros q Hq. unfold source_at; simpl. by rewrite Hne. }
  split; simpl.
  - intros q. destruct (decide (q = p)) as [->|Hqp].
    + rewrite lookup_delete_eq. split; [by intros []|]. done.
    + rewrite lookup_delete_ne, Hll, elem_of_cons by done. naive_solver.
  - done.
  - intros x. rewrite He. destruct (decide (x = source_ l)) as [->|Hx].
    + rewrite lookup_delete_eq. split; [by intros []|]. done.
    + rewrite lookup_delete_ne, Hss, elem_of_cons by done. naive_solver.
  - by rewrite He.
  - intros q. rewrite !lookup_delete_is_Some. intros [[_ Hq]|[_ Hq]]; apply Hlt; auto.
Qed.

Lemma wp_free_layers ps w ls ss :
  owns w (ps ++ ls) ss -> wp (for_each free_layer ps) w (fun _ w' => owns w' ls ss /\ frees ls w w').
Proof.
  revert w. induction ps as [|p ps IH]; intros w Ho; simpl in *.
  { apply wp_ret. split; [done|by split_rel]. }
  apply wp_bind. eapply wp_mono; [by apply wp_free_owned|]. intros [] w1 (Ho1 & Hl1 & Hp1 & Hc1).
  eapply wp_mono; [by apply IH|]. intros [] w2 (Ho2 & Hl2 & Hp2 & Hc2). split; [done|].
  split_rel; [|congruence..]. intros q Hq. rewrite Hl2, Hl1; [done| |done].
  apply elem_of_app. by right.
Qed.

Lemma wp_free_sources xs w ls ss :
  owns w ls (xs ++ ss) ->
  wp (for_each free_source xs) w (fun _ w' => owns w' ls ss /\ w_layers w' = w_layers w /\
                                              w_planes w' = w_planes w /\ w_calls w' = w_calls w).
Proof.
  revert w. induction xs as [|x xs IH]; intros w Ho; simpl in *.
  { by apply wp_ret. }
  apply wp_bind. apply wp_free_source.
  { apply (own_sources w _ _ Ho), elem_of_app. right. by left. }
  destruct w as [L S P n c]; simpl in *. eapply wp_mono; [apply IH|by intros [] w' ?].
  destruct Ho as [Hll Hn Hss Hns Hlt]; simpl in *. rewrite <- Permutation_middle in Hns.
  apply NoDup_cons in Hns as [Hx Hns]. split; simpl; [done|done| |done|].
  - intros y. destruct (decide (y = x)) as [->|Hne].
    + rewrite lookup_delete_eq. split; [by intros []|]. done.
    + rewrite lookup_delete_ne, Hss, <- Permutation_middle, elem_of_cons by done. naive_solver.
  - intros q. rewrite lookup_delete_is_Some. intros [Hq|[_ Hq]]; apply Hlt; auto.
Qed.

End Own.
