(* ===== verification/SceneInv.v ===== *)
(** The invariant of a scene, and that every operation on its layer table
    keeps it: no dangling pointer is followed, nothing is freed twice, and the
    buffers in the ring keep going to the producers they came from. *)
From S2P Require Import Prelude StateMonad DrmAbi Layer Output AllocState RingPresenter BufferSource.
From S2P Require Import SceneLayer SceneMemory Scene SceneFrame SceneOwn.

Definition slot_layers (s : Scene) : list positive := omap scene_layer (slots_ s).

Definition scene_owned (s : Scene) : list positive :=
  slot_layers s ++ retire_pending_ s ++ retire_prev_ s ++ retire_prev_prev_ s.

Definition retired_sources (s : Scene) : list positive :=
  retire_src_pending_ s ++ retire_src_prev_ s ++ retire_src_prev_prev_ s.

Definition slot_ok {Src} (w : World Src) (i : nat) (slot : Slot) : Prop :=
  if alive slot
  then exists p q l, scene_layer slot = Some p /\ planes_layer slot = Some q /\
         w_layers w !! p = Some l /\ handle_ l = mkHandle (N.of_nat i + 1) (generation slot)
  else scene_layer slot = None /\ planes_layer slot = None.

(** An acquisition of the frame being built. *)
Definition flight_ok (s : Scene) (a : AcquisitionSlot) : Prop :=
  entry_ok (slot_layers s ++ retire_pending_ s) [] a /\
  (forall q, acq_planes_layer a = Some q -> q ∈ owned_layers_ (output_ s)).

(** [fl]: the acquisitions of the frame being built, if one is. *)
Record scene_inv {Src} (fl : list AcquisitionSlot) (s : Scene) (w : World Src) : Prop := mkInv {
  inv_owns : owns w (scene_owned s) (retired_sources s);
  inv_slots : forall i slot, slots_ s !! i = Some slot -> slot_ok w i slot;
  inv_free : NoDup (free_ids_ s) /\
             (forall i, i ∈ free_ids_ s <-> exists slot, slots_ s !! i = Some slot /\ alive slot = false);
  inv_output : output_ok (output_ s) (w_planes w);
  inv_planes : owned_layers_ (output_ s) ≡ₚ omap planes_layer (slots_ s);
  inv_comp : composition_layer_ (output_ s) = Some (composition_planes_layer_ s);
  inv_demoted : forall q, q ∈ demoted_ s -> q ∈ owned_layers_ (output_ s);
  inv_flight : Forall (flight_ok s) fl;
  inv_prev : Forall (entry_ok (slot_layers s ++ retire_pending_ s ++ retire_prev_ s)
                              (retire_src_pending_ s ++ retire_src_prev_ s)) (prev_acquisitions_ s);
  inv_prev_prev : Forall (entry_ok (scene_owned s) (retired_sources s)) (prev_prev_acquisitions_ s)
}.

(** The held buffers as the display sees them: layer, producer and buffer. *)
Definition frame_of {Src} (w : World Src) (acqs : list AcquisitionSlot)
  : list (positive * (positive * AcquiredBuffer)) :=
  omap (fun a => pair (acq_layer a) <$> entry w a) acqs.

Definition ring_same {Src} (s : Scene) (w : World Src) (s' : Scene) (w' : World Src) : Prop :=
  frame_of w' (prev_acquisitions_ s') = frame_of w (prev_acquisitions_ s) /\
  frame_of w' (prev_prev_acquisitions_ s') = frame_of w (prev_prev_acquisitions_ s).

(** What an operation that moves no buffer leaves: the invariant, the ring and
    the frame being built with their producers, and no call logged. *)
Definition undisturbed {Src} (fl : list AcquisitionSlot) (s : Scene) (w : World Src)
    (s' : Scene) (w' : World Src) : Prop :=
  scene_inv fl s' w' /\ ring_same s w s' w' /\ frame_of w' fl = frame_of w fl /\ w_calls w' = w_calls w.

Lemma omap_cons_app {A B} (f : A -> option B) x l : omap f (x :: l) = option_list (f x) ++ omap f l.
Proof. csimpl. by destruct (f x). Qed.

Lemma omap_insert_perm {A B} (f : A -> option B) (l : list A) i x y :
  l !! i = Some x -> omap f l ++ option_list (f y) ≡ₚ option_list (f x) ++ omap f (<[i := y]> l).
Proof.
  intros Hi. rewrite <- (take_drop_middle l i x Hi) at 1.
  rewrite insert_take_drop by (by eapply lookup_lt_Some).
  rewrite !omap_app, !omap_cons_app, <- !app_assoc, (Permutation_app_swap_app (option_list (f x)) (omap f (take i l))).
  do 2 apply Permutation_app_head. apply Permutation_app_comm.
Qed.

Section SceneInv.
Context {Src : Type} `{HS : LayerBufferSource Src}.
Implicit Types (w : World Src) (s : Scene) (fl acqs : list AcquisitionSlot).

Lemma slot_ok_kept w w' i slot : kept w w' -> slot_ok w i slot -> slot_ok w' i slot.
Proof.
  intros Hk. unfold slot_ok. destruct (alive slot); [|done]. intros (p & q & l & ? & ? & Hl & Hh).
  destruct (layer_kept w w' p l Hk Hl) as (l' & Hl' & Hi). exists p, q, l'. split_and!; try done.
  unfold ident in Hi. congruence.
Qed.

Lemma frame_of_ext w w' acqs :
  (forall a, a ∈ acqs -> entry w' a = entry w a) -> frame_of w' acqs = frame_of w acqs.
Proof. intros He. apply omap_ext_elem. intros a Ha. by rewrite He. Qed.

Lemma frame_of_kept w w' acqs : kept w w' -> frame_of w' acqs = frame_of w acqs.
Proof. intros Hk. apply frame_of_ext. intros a _. by apply entry_kept. Qed.

Lemma frame_of_entries w acqs : omap (entry w) acqs = (frame_of w acqs).*2.
Proof.
  induction acqs as [|a acqs IH]; [done|]. unfold frame_of. rewrite !omap_cons_app, IH, fmap_app.
  by destruct (entry w a).
Qed.

(** The live slots are the slots with a layer. *)
Lemma live_layers_all s w :
  (forall i slot, slots_ s !! i = Some slot -> slot_ok w i slot) -> live_layers s = slot_layers s.
Proof.
  intros Hs. apply omap_ext_elem. intros slot [i Hi]%list_elem_of_lookup. specialize (Hs i slot Hi).
  unfold slot_ok in Hs. destruct (alive slot); [done|]. by destruct Hs as [-> _].
Qed.

Lemma live_planes_all s w :
  (forall i slot, slots_ s !! i = Some slot -> slot_ok w i slot) ->
  live_planes_layers s = omap planes_layer (slots_ s).
Proof.
  intros Hs. apply omap_ext_elem. intros slot [i Hi]%list_elem_of_lookup. specialize (Hs i slot Hi).
  unfold slot_ok in Hs. destruct (alive slot); [done|]. by destruct Hs as [_ ->].
Qed.

(** The same objects, with the planes' layers still there. *)
Lemma output_ok_alive o hp hp' :
  output_ok o hp -> (forall q, is_Some (hp !! q) -> is_Some (hp' !! q)) -> output_ok o hp'.
Proof.
  intros (Hn & Hp & Hl & Hc) Ha. split_and!; [done|done|by auto|].
  intros c Hcc. destruct (Hc c Hcc). auto.
Qed.

Lemma scene_inv_kept fl s w w' :
  kept w w' -> (forall q, is_Some (w_planes w !! q) -> is_Some (w_planes w' !! q)) ->
  scene_inv fl s w -> scene_inv fl s w'.
Proof.
  intros Hk Hp [Ho Hs Hf Hout Hpl Hc Hd Hfl Hpr Hpp]. split; try done.
  - by eapply owns_kept. - intros i slot Hi. eapply slot_ok_kept; [done|auto].
  - by eapply output_ok_alive.
Qed.

Lemma scene_inv_quiet fl s w w' : quiet w w' -> scene_inv fl s w -> scene_inv fl s w'.
Proof. intros (Hk & Hp & _). apply scene_inv_kept; [done|]. by rewrite Hp. Qed.

Lemma undisturbed_quiet fl s w w' : quiet w w' -> scene_inv fl s w -> undisturbed fl s w s w'.
Proof.
  intros Hq Hi. pose proof Hq as (Hk & _ & Hc). split_rel; [by eapply scene_inv_quiet | | |done].
  - split; by apply frame_of_kept. - by apply frame_of_kept.
Qed.

Lemma scene_layer_live fl s w p :
  scene_inv fl s w -> p ∈ slot_layers s ->
  exists l, w_layers w !! p = Some l /\ source_at w p = Some (source_ l) /\
            is_Some (w_sources w !! source_ l).
Proof.
  intros Hi Hp. eapply owned_layer; [apply (inv_owns _ _ _ Hi)|]. apply elem_of_app. by left.
Qed.

Lemma slot_for_spec h s i :
  slot_for h s = Some i ->
  exists slot, slots_ s !! i = Some slot /\ alive slot = true /\
    h = mkHandle (N.of_nat i + 1) (generation slot) /\ N.to_nat (h_id h - 1) = i.
Proof.
  unfold slot_for. destruct (_ || _) eqn:Er; [done|]. apply orb_false_iff in Er as [E0%N.eqb_neq _].
  destruct (slots_ s !! N.to_nat (h_id h - 1)) as [slot|] eqn:Es; [|done].
  destruct (alive slot) eqn:Ea; simpl; [|done]. destruct (Z.eqb_spec (generation slot) (h_generation h)) as [Eg|]; [|done].
  simpl. intros [= <-]. exists slot. split_and!; [done..| |done].
  destruct h as [hi hg]; simpl in *. f_equal; [lia|done].
Qed.

(** ** Adding a layer *)

Lemma entry_same w w' ls ss ls' ss' a :
  owns w ls ss -> entry_ok ls' ss' a -> ls' ⊆ ls ->
  (forall p, p ∈ ls -> source_at w' p = source_at w p) -> entry w' a = entry w a.
Proof.
  intros Ho [Hl _] Hi Hs. unfold entry, target. destruct (acq_retired_source a); [done|].
  by rewrite Hs by (by apply Hi).
Qed.

Lemma frame_same w w' ls ss ls' ss' acqs :
  owns w ls ss -> Forall (entry_ok ls' ss') acqs -> ls' ⊆ ls ->
  (forall p, p ∈ ls -> source_at w' p = source_at w p) -> frame_of w' acqs = frame_of w acqs.
Proof.
  intros Ho Ha Hi Hs. apply frame_of_ext. intros a Hin. rewrite Forall_forall in Ha.
  eapply entry_same; eauto.
Qed.

(** Every held buffer of a scene keeps its producer if the layers do. *)
Lemma frames_same fl s w w' :
  scene_inv fl s w -> (forall p, p ∈ scene_owned s -> source_at w' p = source_at w p) ->
  frame_of w' (prev_acquisitions_ s) = frame_of w (prev_acquisitions_ s) /\
  frame_of w' (prev_prev_acquisitions_ s) = frame_of w (prev_prev_acquisitions_ s) /\
  frame_of w' fl = frame_of w fl.
Proof.
  intros [Ho _ _ _ _ _ _ Hfl Hp Hpp] Hs. split_and!.
  - eapply frame_same; [done..| |done]. unfold scene_owned. set_solver.
  - by eapply frame_same.
  - eapply frame_same; [done|eapply Forall_impl; [exact Hfl|by intros a [? _]]| |done].
    unfold scene_owned. set_solver.
Qed.

(** The slot taken: dead, with its generation; the others stay. *)
Record slot_taken (s : Scene) (i : nat) (s1 : Scene) (slot : Slot) : Prop := mkTaken {
  tk_lookup : slots_ s1 !! i = Some slot;
  tk_empty : scene_layer slot = None /\ planes_layer slot = None;
  tk_generation : generation_at i s1 = generation_at i s;
  tk_dead : forall slot', slots_ s !! i = Some slot' -> alive slot' = false;
  tk_others : forall j, j <> i -> slots_ s1 !! j = slots_ s !! j;
  tk_free : NoDup (free_ids_ s1) /\
            (forall j, j ∈ free_ids_ s1 <-> j <> i /\ exists slot', slots_ s1 !! j = Some slot' /\ alive slot' = false);
  tk_layers : slot_layers s1 = slot_layers s;
  tk_planes : omap planes_layer (slots_ s1) = omap planes_layer (slots_ s);
  tk_rest : s1 = s {{ slots_ := slots_ s1; free_ids_ := free_ids_ s1 }}
}.

Lemma slot_dead w i slot : alive slot = false -> slot_ok w i slot -> scene_layer slot = None /\ planes_layer slot = None.
Proof. unfold slot_ok. by intros ->. Qed.

Lemma take_slot_spec fl s w :
  scene_inv fl s w -> exists i s1 slot, take_slot s = (i, s1) /\ slot_taken s i s1 slot.
Proof.
  intros Hi. pose proof (inv_slots _ _ _ Hi) as Hs. destruct (inv_free _ _ _ Hi) as [Hn Hf]. clear Hi.
  unfold take_slot. destruct (last (free_ids_ s)) as [i|] eqn:El.
  - apply last_Some in El as [free El]. rewrite El in Hn, Hf.
    destruct (proj1 (Hf i)) as (slot & Hi & Hd); [set_solver|].
    apply NoDup_app in Hn as (Hn & Hni & _). assert (Hi' : i ∉ free) by (intros Hx; by apply (Hni i Hx), list_elem_of_singleton).
    eexists i, _, slot. split; [done|]. destruct s; simpl in *. subst. rewrite removelast_last.
    split; simpl; try done.
    + by eapply slot_dead; eauto.
    + intros slot'. by rewrite Hi; intros [= <-].
    + split; [done|]. intros j. specialize (Hf j). rewrite elem_of_app, list_elem_of_singleton in Hf.
      rewrite <- Hf. split; [|naive_solver]. intros Hj. split; [by intros ->|]. by left.
  - apply last_None in El. eexists _, _, empty_slot. split; [done|]. destruct s; simpl in *. subst.
    split; simpl; try done.
    + by rewrite lookup_app_r, Nat.sub_diag by done.
    + unfold generation_at; simpl. rewrite lookup_app_r, Nat.sub_diag by done. simpl.
      by rewrite lookup_ge_None_2.
    + intros slot' ?%lookup_lt_Some. lia.
    + intros j Hj. destruct (decide (j < length slots_)%nat); [by rewrite lookup_app_l|].
      rewrite !lookup_ge_None_2; [done| |]; rewrite ?length_app; simpl; lia.
    + split; [constructor|]. intros j. split; [by intros ?%not_elem_of_nil|].
      intros (Hj & slot' & Hl & Hd). apply Hf. exists slot'. split; [|done].
      by apply lookup_snoc_Some in Hl as [[_ ?]|[? _]].
    + unfold slot_layers; simpl. rewrite omap_app. simpl. by rewrite app_nil_r.
    + rewrite omap_app. simpl. by rewrite app_nil_r.
Qed.

Lemma owns_grow w ls ss src h (desc : LayerDesc Src) hp :
  owns w ls ss ->
  owns (mkWorld (<[Pos.succ (w_next w) := make_scene_layer h (w_next w) desc]> (w_layers w))
                (<[w_next w := src]> (w_sources w)) hp (Pos.succ (Pos.succ (w_next w))) (w_calls w))
       (Pos.succ (w_next w) :: ls) ss.
Proof.
  intros [Hl Hn Hs Hns Hlt]. destruct w as [L S P n c]; simpl in *.
  assert (Hfl : forall p, p ∈ ls -> p <> Pos.succ n).
  { intros p Hp. assert (p < n)%positive by (apply Hlt; left; by apply Hl). lia. }
  assert (Hfs : forall x, x ∈ omap (source_at (mkWorld L S P n c)) ls ++ ss -> x <> n).
  { intros x Hx. assert (x < n)%positive by (apply Hlt; right; by apply Hs). lia. }
  match goal with |- owns ?W _ _ => set (w' := W) end.
  assert (He : omap (source_at w') ls = omap (source_at (mkWorld L S P n c)) ls).
  { apply omap_ext_elem. intros p Hp. unfold source_at; simpl. by rewrite lookup_insert_ne by (by apply not_eq_sym, Hfl). }
  assert (Hc : omap (source_at w') (Pos.succ n :: ls) = n :: omap (source_at (mkWorld L S P n c)) ls).
  { rewrite omap_cons_app, He. unfold source_at at 1; simpl. by rewrite lookup_insert_eq. }
  split; rewrite ?Hc; cbn [w_layers w_sources w_next w' app].
  - intros p. rewrite elem_of_cons. destruct (decide (p = Pos.succ n)) as [->|Hp].
    + rewrite lookup_insert_eq. split; [by left|eauto].
    + rewrite lookup_insert_ne by done. rewrite Hl. naive_solver.
  - apply NoDup_cons. split; [|done]. intros Hp. by apply (Hfl _ Hp).
  - intros x. rewrite elem_of_cons. destruct (decide (x = n)) as [->|Hx].
    + rewrite lookup_insert_eq. split; [by left|eauto].
    + rewrite lookup_insert_ne by done. rewrite Hs. naive_solver.
  - apply NoDup_cons. split; [|done]. intros Hx. by apply (Hfs _ Hx).
  - intros p. rewrite !lookup_insert_is_Some'. intros [[<-|Hp]|[<-|Hp]]; [lia| |lia|].
    + assert (p < n)%positive by auto. lia. + assert (p < n)%positive by auto. lia.
Qed.

Definition slot_added (s : Scene) (h : LayerHandle) (p : positive) (s' : Scene) : Prop :=
  exists i q pin, h = mkHandle (N.of_nat i + 1) (u32 (generation_at i s + 1)) /\
    (forall slot, slots_ s !! i = Some slot -> alive slot = false) /\
    (forall j, j <> i -> slots_ s' !! j = slots_ s !! j) /\
    slots_ s' !! i = Some (mkSlot (Some p) (Some q) (h_generation h) true pin).

Lemma output_add_spec o hp :
  exists q o' hp', Output.add_layer o hp = (q, o', hp') /\
    owned_layers_ o' = owned_layers_ o ++ [q] /\ composition_layer_ o' = composition_layer_ o /\
    is_Some (hp' !! q) /\ (forall x, is_Some (hp !! x) -> is_Some (hp' !! x)).
Proof.
  unfold Output.add_layer. eexists _, _, _. split; [done|]. destruct o; simpl. split_and!; [done..| |].
  - rewrite lookup_insert_eq. eauto.
  - intros x Hx. rewrite lookup_insert_is_Some'. by right.
Qed.

Lemma undisturbed_refl fl s w : scene_inv fl s w -> undisturbed fl s w s w.
Proof. intros Hi. by apply undisturbed_quiet. Qed.

(** The table after the new layer [p] (twin [q]) went into the slot taken. *)
Lemma add_layer_inv fl s w i s1 slot q o hp src (desc : LayerDesc Src) h :
  scene_inv fl s w -> slot_taken s i s1 slot ->
  h = mkHandle (N.of_nat i + 1) (u32 (generation_at i s1 + 1)) ->
  output_ok o hp -> owned_layers_ o = owned_layers_ (output_ s) ++ [q] ->
  composition_layer_ o = composition_layer_ (output_ s) ->
  let p := Pos.succ (w_next w) in
  let s' := s1 {{ slots_ ::= alter (fun slot => mkSlot (Some p) (Some q) (h_generation h) true
                                                     (stream_pinned_plane_id slot)) i;
                  output_ := o; structure_dirty_ := true; demoted_ := [] }} in
  let w' := mkWorld (<[p := make_scene_layer h (w_next w) desc]> (w_layers w))
              (<[w_next w := src]> (w_sources w)) hp (Pos.succ p) (w_calls w) in
  undisturbed fl s w s' w' /\ slot_added s h p s'.
Proof.
  intros Hi [Hl Hem Hg Hd Hot Hf Hla Hpl Hre] Hh Ho Hoo Hoc p.
  set (slot' := mkSlot (Some p) (Some q) (h_generation h) true (stream_pinned_plane_id slot)).
  assert (Hal : forall f, alter f i (slots_ s1) = <[i := f slot]> (slots_ s1)).
  { intros f. apply list_eq. intros j. destruct (decide (j = i)) as [->|Hj].
    - rewrite list_lookup_alter_eq, Hl. by rewrite list_lookup_insert_eq by (by eapply lookup_lt_Some).
    - by rewrite list_lookup_alter_ne, list_lookup_insert_ne by done. }
  intros s' w'.
  assert (Hsl : slots_ s' = <[i := slot']> (slots_ s1)).
  { etrans; [|apply (Hal (fun sl => mkSlot (Some p) (Some q) (h_generation h) true (stream_pinned_plane_id sl)))].
    unfold s'. by destruct s1. }
  assert (Hlay : slot_layers s' ≡ₚ p :: slot_layers s).
  { pose proof (omap_insert_perm scene_layer (slots_ s1) i slot slot' Hl) as Hp.
    unfold slot_layers. rewrite Hsl. rewrite (proj1 Hem) in Hp. simpl in Hp.
    change (omap scene_layer (slots_ s1)) with (slot_layers s1) in Hp. rewrite Hla in Hp. rewrite <- Hp.
    by rewrite Permutation_app_comm. }
  assert (Hpla : omap planes_layer (slots_ s') ≡ₚ q :: omap planes_layer (slots_ s)).
  { pose proof (omap_insert_perm planes_layer (slots_ s1) i slot slot' Hl) as Hp.
    rewrite Hsl. rewrite (proj2 Hem) in Hp. simpl in Hp. rewrite Hpl in Hp. rewrite <- Hp.
    by rewrite Permutation_app_comm. }
  assert (Hrest : retire_pending_ s' = retire_pending_ s /\ retire_prev_ s' = retire_prev_ s /\
    retire_prev_prev_ s' = retire_prev_prev_ s /\ retired_sources s' = retired_sources s /\
    retire_src_pending_ s' = retire_src_pending_ s /\ retire_src_prev_ s' = retire_src_prev_ s /\
    prev_acquisitions_ s' = prev_acquisitions_ s /\ prev_prev_acquisitions_ s' = prev_prev_acquisitions_ s /\
    composition_planes_layer_ s' = composition_planes_layer_ s).
  { unfold s'. rewrite Hre. by destruct s. }
  destruct Hrest as (Hr1 & Hr2 & Hr3 & Hr4 & Hr5 & Hr6 & Hr7 & Hr8 & Hr9).
  assert (Hown : scene_owned s' ≡ₚ p :: scene_owned s) by (unfold scene_owned; by rewrite Hlay, Hr1, Hr2, Hr3).
  pose proof Hi as [Hio His _ _ Hip Hic _ Hifl Hipr Hipp].
  assert (Hsa : forall x, x ∈ scene_owned s -> w_layers w' !! x = w_layers w !! x).
  { intros x Hx. unfold w'; simpl. rewrite lookup_insert_ne; [done|]. intros <-.
    assert (p < w_next w)%positive; [|unfold p in *; lia]. apply (own_next _ _ _ Hio). left. by apply (own_layers _ _ _ Hio). }
  destruct (frames_same fl s w w' Hi) as (Hf1 & Hf2 & Hf3).
  { intros x Hx. unfold source_at. by rewrite Hsa. }
  assert (Hslot : forall j sl, slots_ s' !! j = Some sl -> slot_ok w' j sl).
  { intros j sl. rewrite Hsl. destruct (decide (j = i)) as [->|Hj].
    - rewrite list_lookup_insert_eq by (by eapply lookup_lt_Some). intros [= <-].
      exists p, q, (make_scene_layer h (w_next w) desc). unfold w'; simpl.
      split_and!; [done..|by rewrite lookup_insert_eq|]. by rewrite Hh.
    - rewrite list_lookup_insert_ne, Hot by done. intros Hsj. specialize (His j sl Hsj).
      unfold slot_ok in *. destruct (alive sl); [|done]. destruct His as (x & y & l & ? & ? & ? & ?).
      exists x, y, l. split_and!; try done. rewrite Hsa; [done|]. apply elem_of_app. left.
      apply list_elem_of_omap. exists sl. split; [by eapply list_elem_of_lookup_2|done]. }
  split; [split_rel|].
  - split.
    + eapply owns_perm; [symmetry; exact Hown|by rewrite Hr4|]. by apply owns_grow.
    + exact Hslot.
    + replace (free_ids_ s') with (free_ids_ s1) by (unfold s'; by destruct s1).
      destruct Hf as [Hfn Hfs]. split; [done|]. intros j. rewrite Hfs, Hsl.
      destruct (decide (j = i)) as [->|Hj].
      * rewrite list_lookup_insert_eq by (by eapply lookup_lt_Some). split; [by intros []|].
        intros (sl & [= <-] & ?). done.
      * rewrite list_lookup_insert_ne by done. naive_solver.
    + unfold s', w'. by destruct s1.
    + replace (output_ s') with o by (unfold s'; by destruct s1).
      rewrite Hoo, Hpla, <- Hip. by rewrite Permutation_app_comm.
    + rewrite Hr9. replace (output_ s') with o by (unfold s'; by destruct s1). by rewrite Hoc.
    + replace (demoted_ s') with (@nil positive) by (unfold s'; by destruct s1). by intros x ?%not_elem_of_nil.
    + eapply Forall_impl; [exact Hifl|]. intros a [Ha Hq]. unfold flight_ok.
      replace (output_ s') with o by (unfold s'; by destruct s1). split.
      * eapply entry_ok_incl; [| |exact Ha]; [|done]. rewrite Hlay, Hr1. set_solver.
      * intros x Hx. rewrite Hoo. apply elem_of_app. left. by apply Hq.
    + rewrite Hr7. eapply entries_incl; [| |exact Hipr]; [rewrite Hlay, Hr1, Hr2; set_solver|by rewrite Hr5, Hr6].
    + rewrite Hr8. eapply entries_incl; [| |exact Hipp]; [rewrite Hown; set_solver|by rewrite Hr4].
  - split; by rewrite ?Hr7, ?Hr8.
  - done.
  - done.
  - exists i, q, (stream_pinned_plane_id slot). rewrite Hh, Hg. split_and!; [done|done| |].
    + intros j Hj. by rewrite Hsl, list_lookup_insert_ne, Hot by done.
    + rewrite Hsl, list_lookup_insert_eq by (by eapply lookup_lt_Some). unfold slot'. by rewrite Hh, Hg.
Qed.

Lemma wp_add_layer fl s w desc :
  scene_inv fl s w ->
  wp (add_layer desc s) w (fun r w' => undisturbed fl s w r.2 w' /\
    match r.1 with Val h => exists p, slot_added s h p r.2 | Unexp _ => r.2 = s end).
Proof.
  intros Hi. unfold add_layer. destruct (ld_source desc) as [src|]; [|apply wp_ret; by split; [apply undisturbed_refl|]].
  destruct (_ && _); [apply wp_ret; by split; [apply undisturbed_refl|]|].
  destruct (take_slot_spec fl s w Hi) as (i & s1 & slot & -> & Ht).
  assert (Ho1 : output_ s1 = output_ s) by (rewrite (tk_rest _ _ _ _ Ht); by destruct s).
  cbv zeta. rewrite Ho1.
  destruct (output_add_spec (output_ s) (w_planes w)) as (q & o & hp & Ha & Hoo & Hoc & Hq & Hhp).
  pose proof (add_layer_ok (output_ s) (w_planes w) (inv_output _ _ _ Hi)) as Hok. rewrite Ha in Hok.
  apply wp_bind. eapply wp_with_planes; [by rewrite Ha|]. cbv beta iota.
  assert (Hc : wp (if ld_force_composited desc then planes_run (update_layer set_composited q) else mret tt)
                 (w {{ w_planes := hp }})
                 (fun _ w' => exists hp', output_ok o hp' /\ w' = w {{ w_planes := hp' }})).
  { destruct (ld_force_composited desc); [|apply wp_ret; by exists hp].
    destruct (output_ok_update o hp set_composited q Hok Hq) as (hp' & Hu & Hok' & _).
    eapply wp_planes_run; [by destruct w|]. exists hp'. split; [done|]. by destruct w. }
  apply wp_bind. eapply wp_mono; [exact Hc|]. intros [] w' (hp' & Hok' & ->).
  apply wp_bind, wp_new_source. apply wp_bind, wp_new_scene_layer. apply wp_ret.
  destruct (add_layer_inv fl s w i s1 slot q o hp' src desc _ Hi Ht eq_refl Hok' Hoo Hoc) as [Hu Hsa].
  destruct w; split; [exact Hu | eexists; exact Hsa].
Qed.

(** ** Replacing a source *)

Lemma owns_exchange w ls ss p l src :
  owns w ls ss -> w_layers w !! p = Some l ->
  owns (mkWorld (<[p := (exchange_source (w_next w) l).2]> (w_layers w)) (<[w_next w := src]> (w_sources w))
                (w_planes w) (Pos.succ (w_next w)) (w_calls w))
       ls (source_ l :: ss).
Proof.
  intros Ho Hl. assert (Hp : p ∈ ls) by (apply (own_layers _ _ _ Ho); eauto).
  apply elem_of_Permutation in Hp as [ls0 Hp].
  eapply owns_perm; [symmetry; exact Hp|reflexivity|].
  apply (owns_perm _ _ _ _ _ Hp (reflexivity ss)) in Ho. clear Hp ls.
  destruct Ho as [Hll Hn Hss Hns Hlt]. destruct w as [L S P n c]; simpl in *.
  apply NoDup_cons in Hn as [Hp Hn]. unfold source_at at 1 in Hns. unfold source_at at 1 in Hss. simpl in *.
  rewrite Hl in *. simpl in *.
  match goal with |- owns ?W _ _ => set (w' := W) end.
  assert (Hc : omap (source_at w') (p :: ls0) = n :: omap (source_at (mkWorld L S P n c)) ls0).
  { rewrite omap_cons_app. unfold source_at at 1; simpl. rewrite lookup_insert_eq. simpl. f_equal.
    apply omap_ext_elem. intros q Hq. unfold source_at; simpl. rewrite lookup_insert_ne; [done|].
    by intros ->. }
  assert (Hfresh : S !! n = None).
  { destruct (S !! n) eqn:E; [|done]. assert (n < n)%positive; [|lia]. apply Hlt. right. eauto. }
  split; rewrite ?Hc; cbn [w_layers w_sources w_next w' app].
  - intros q. destruct (decide (q = p)) as [->|Hq].
    + rewrite lookup_insert_eq. split; [by left|eauto].
    + by rewrite lookup_insert_ne, Hll.
  - by apply NoDup_cons.
  - intros x. rewrite <- Permutation_middle. destruct (decide (x = n)) as [->|Hx].
    + rewrite lookup_insert_eq. split; [by left|eauto].
    + rewrite lookup_insert_ne, Hss by done. rewrite !elem_of_cons. naive_solver.
  - rewrite <- Permutation_middle. apply NoDup_cons. split; [|done].
    intros Hx. apply Hss in Hx. rewrite Hfresh in Hx. by destruct Hx.
  - intros q. rewrite !lookup_insert_is_Some'. intros [[<-|Hq]|[<-|Hq]]; [|assert (q < n)%positive by auto; lia|lia|assert (q < n)%positive by auto; lia].
    assert (p < n)%positive by (apply Hlt; left; eauto). lia.
Qed.

Lemma retarget_entry w w' layer old l a :
  w_layers w !! layer = Some l -> source_ l = old ->
  (forall p, p <> layer -> source_at w' p = source_at w p) ->
  entry w' (retarget layer old a) = entry w a /\ acq_layer (retarget layer old a) = acq_layer a.
Proof.
  intros Hl Ho Hs. unfold retarget, entry, target. destruct a as [al ap ab am an af ar]; simpl.
  case_bool_decide as Hal; simpl.
  - destruct ar as [x|]; simpl; [done|]. subst. split; [|done]. unfold source_at. by rewrite Hl.
  - split; [|done]. destruct ar; [done|]. by rewrite Hs.
Qed.

Lemma frame_retarget w w' layer l acqs :
  w_layers w !! layer = Some l -> (forall p, p <> layer -> source_at w' p = source_at w p) ->
  frame_of w' (map (retarget layer (source_ l)) acqs) = frame_of w acqs.
Proof.
  intros Hl Hs. induction acqs as [|a acqs IH]; [done|]. unfold frame_of in *. cbn [map].
  rewrite !omap_cons_app, IH.
  by destruct (retarget_entry w w' layer (source_ l) l a Hl eq_refl Hs) as [-> ->].
Qed.

Lemma retarget_ok ls ss ss' layer old acqs :
  ss ⊆ ss' -> old ∈ ss' -> Forall (entry_ok ls ss) acqs -> Forall (entry_ok ls ss') (map (retarget layer old) acqs).
Proof.
  intros Hs Ho Ha. apply Forall_map. eapply Forall_impl; [exact Ha|]. intros a [Hl Hr].
  unfold retarget. destruct a as [al ap ab am an af ar]; simpl in *. destruct (bool_decide (al = layer)); simpl.
  - destruct ar as [x|]; simpl; (split; [done|]); simpl; intros y [= <-]; auto.
  - split; [done|]. simpl. auto.
Qed.

Lemma wp_replace_source s w h new :
  scene_inv [] s w ->
  wp (replace_source h new s) w (fun r w' => undisturbed [] s w r.2 w' /\
    slots_ r.2 = slots_ s /\ (match r.1 with Val _ => True | Unexp _ => r.2 = s end)).
Proof.
  intros Hi. unfold replace_source.
  destruct new as [src|]; [|apply wp_ret; by split_and!; [apply undisturbed_refl|..]].
  destruct (_ && _); [apply wp_ret; by split_and!; [apply undisturbed_refl|..]|].
  destruct (get_layer h s) as [p|] eqn:Eg; [|apply wp_ret; by split_and!; [apply undisturbed_refl|..]].
  assert (Hp : p ∈ slot_layers s).
  { unfold get_layer in Eg. destruct (slot_for h s) as [i|]; [|done]. simpl in Eg.
    destruct (slots_ s !! i) as [slot|] eqn:Es; [|done]. apply list_elem_of_omap.
    exists slot. split; [by eapply list_elem_of_lookup_2|done]. }
  destruct (scene_layer_live _ _ _ _ Hi Hp) as (l & Hl & Hsl & Hs).
  apply wp_bind, wp_new_source. apply wp_bind. eapply wp_deref_layer; [by destruct w|].
  apply wp_bind. eapply wp_put_layer; [by destruct w|].
  pose proof (owns_exchange w _ _ p l src (inv_owns _ _ _ Hi) Hl) as Hown.
  match type of Hown with owns ?W _ _ => set (w1 := W) in Hown end.
  match goal with |- wp _ ?W _ => replace W with w1 by by destruct w end.
  assert (Hothers : forall q, q <> p -> source_at w1 q = source_at w q).
  { intros q Hq. unfold source_at, w1; simpl. by rewrite lookup_insert_ne. }
  apply wp_bind. eapply wp_mono.
  { apply wp_call_quiet_. apply (own_sources _ _ _ Hown), elem_of_app. right. simpl. by left. }
  intros [] w2 Hq. apply wp_ret. pose proof Hq as (Hk & Hpl & Hc).
  assert (Hothers2 : forall q, q <> p -> source_at w2 q = source_at w q).
  { intros q Hqp. rewrite (source_at_kept w1 w2) by done. auto. }
  split_and!; [split_rel| by destruct s | done].
  - destruct Hi as [Ho Hsl' Hf Hout Hpla Hcomp Hd Hfl Hpr Hpp].
    destruct s; simpl in *; split; simpl in *; try done.
    + eapply owns_kept; [done|]. eapply owns_perm; [reflexivity| |exact Hown].
      unfold retired_sources; simpl. rewrite <- app_assoc. simpl. apply Permutation_middle.
    + intros i slot Hi. eapply slot_ok_kept; [done|]. specialize (Hsl' i slot Hi). unfold slot_ok in *.
      destruct (alive slot); [|done]. destruct Hsl' as (x & q & l' & ? & ? & Hx & Hh).
      destruct (decide (x = p)) as [->|Hxp].
      * exists p, q, (exchange_source (w_next w) l).2. simpl. rewrite lookup_insert_eq.
        rewrite Hl in Hx. injection Hx as <-. split_and!; [done..|by destruct l].
      * exists x, q, l'. simpl. rewrite lookup_insert_ne by done. done.
    + eapply output_ok_alive; [done|]. intros x Hx. rewrite Hpl. exact Hx.
    + by intros q ?%not_elem_of_nil.
    + eapply retarget_ok; [| |exact Hpr]; unfold retired_sources; simpl; set_solver.
    + eapply retarget_ok; [| |exact Hpp]; unfold retired_sources; simpl; set_solver.
  - split; destruct s; simpl; by apply frame_retarget.
  - done.
  - rewrite Hc. by destruct w.
Qed.

(** ** Removing a layer *)

Lemma slot_live s w i slot :
  (forall j sl, slots_ s !! j = Some sl -> slot_ok w j sl) -> slots_ s !! i = Some slot -> alive slot = true ->
  exists p q, scene_layer slot = Some p /\ planes_layer slot = Some q /\ p ∈ slot_layers s /\
              q ∈ omap planes_layer (slots_ s).
Proof.
  intros Hs Hi Ha. pose proof (Hs i slot Hi) as Hok. unfold slot_ok in Hok. rewrite Ha in Hok.
  destruct Hok as (p & q & l & Hp & Hq & _). exists p, q. split_and!; [done..| |];
    apply list_elem_of_omap; exists slot; (split; [by eapply list_elem_of_lookup_2|done]).
Qed.

Lemma wp_source_call fl s w p (f : Src -> Src) :
  scene_inv fl s w -> p ∈ slot_layers s ->
  wp (l ← deref_layer p; call_source_ f (source_ l)) w (fun _ w' => quiet w w').
Proof.
  intros Hi Hp. destruct (scene_layer_live _ _ _ _ Hi Hp) as (l & Hl & _ & Hs).
  apply wp_bind. eapply wp_deref_layer; [done|]. by apply wp_call_quiet_.
Qed.

Lemma wp_unbind_stream fl s w slot p :
  scene_inv fl s w -> scene_layer slot = Some p -> p ∈ slot_layers s ->
  wp (unbind_stream slot) w (fun _ w' => quiet w w').
Proof.
  intros Hi Hp Hin. unfold unbind_stream. rewrite Hp.
  destruct (stream_pinned_plane_id slot) as [z|]; [by eapply wp_source_call|by apply wp_ret].
Qed.

(** The table after slot [i] was emptied. *)
Lemma remove_layer_inv s w w' i slot p q pin :
  scene_inv [] s w -> slots_ s !! i = Some slot -> alive slot = true ->
  scene_layer slot = Some p -> planes_layer slot = Some q ->
  kept w w' -> w_planes w' = (Output.remove_layer q (output_ s) (w_planes w)).2 -> w_calls w' = w_calls w ->
  undisturbed [] s w
    (s {{ slots_ ::= <[i := mkSlot None None (generation slot) false pin]>;
          free_ids_ ::= fun l => l ++ [i];
          allocator_ ::= fmap (forget_layer (Some q));
          output_ := (Output.remove_layer q (output_ s) (w_planes w)).1;
          retire_pending_ ::= fun l => l ++ [p];
          structure_dirty_ := true; demoted_ := [] }}) w'.
Proof.
  intros [Ho Hs Hf Hout Hpla Hcomp Hd Hfl Hpr Hpp] Hi Ha Hp Hq Hk Hpl Hc.
  pose proof (omap_insert_perm scene_layer (slots_ s) i slot (mkSlot None None (generation slot) false pin) Hi) as Hl.
  pose proof (omap_insert_perm planes_layer (slots_ s) i slot (mkSlot None None (generation slot) false pin) Hi) as Hl'.
  rewrite Hp in Hl. rewrite Hq in Hl'. rewrite app_nil_r in Hl. rewrite app_nil_r in Hl'. simpl in Hl, Hl'.
  assert (Hlt : (i < length (slots_ s))%nat) by (by eapply lookup_lt_Some).
  destruct s; simpl in *. unfold slot_layers, scene_owned, retired_sources in *; simpl in *.
  split_rel; simpl; [split; unfold scene_owned, retired_sources, slot_layers; simpl| | |done].
  - eapply owns_kept; [done|]. eapply owns_perm; [|reflexivity|exact Ho].
    unfold slot_layers; simpl. rewrite Hl. simpl. rewrite <- app_assoc. simpl.
    by rewrite <- !Permutation_middle.
  - intros j sl. destruct (decide (j = i)) as [->|Hj].
    + rewrite list_lookup_insert_eq by done. by intros [= <-].
    + rewrite list_lookup_insert_ne by done. intros Hsj. eapply slot_ok_kept; [done|by apply Hs].
  - destruct Hf as [Hn Hf]. assert (Hni : i ∉ free_ids_).
    { intros Hx. apply Hf in Hx as (sl & Hsl & Hd'). congruence. }
    split.
    + apply NoDup_app. split_and!; [done| |apply NoDup_singleton].
      intros j Hj Hji. apply list_elem_of_singleton in Hji. by subst.
    + intros j. rewrite elem_of_app, list_elem_of_singleton, Hf. destruct (decide (j = i)) as [->|Hj].
      * rewrite list_lookup_insert_eq by done. split; [intros _; eauto|]. by right.
      * rewrite list_lookup_insert_ne by done. naive_solver.
  - rewrite Hpl. exact (remove_layer_ok q output_ (w_planes w) Hout).
  - destruct Hout as (Hn & _). destruct output_; simpl in *. rewrite Hpla in Hn |- *. rewrite Hl' in Hn |- *.
    apply NoDup_cons in Hn as [Hqn _]. rewrite filter_cons, decide_False by tauto.
    rewrite filter_every; [done|]. intros x Hx ->. done.
  - destruct output_; simpl in *. done.
  - by intros x ?%not_elem_of_nil.
  - done.
  - eapply entries_incl; [| |exact Hpr]; [|done]. unfold slot_layers; simpl. rewrite Hl. set_solver.
  - eapply entries_incl; [| |exact Hpp]; [|done]. unfold scene_owned, slot_layers; simpl. rewrite Hl. set_solver.
  - split; simpl; by apply frame_of_kept.
  - done.
Qed.

Lemma wp_remove_layer s w h :
  scene_inv [] s w ->
  wp (remove_layer h s) w (fun s' w' => undisturbed [] s w s' w' /\
    match slot_for h s with
    | None => s' = s
    | Some i => exists slot pin, slots_ s !! i = Some slot /\
        slots_ s' = <[i := mkSlot None None (generation slot) false pin]> (slots_ s)
    end).
Proof.
  intros Hi. unfold remove_layer. destruct (slot_for h s) as [i|] eqn:Eh.
  2: { apply wp_ret. split; [by apply undisturbed_refl|done]. }
  apply slot_for_spec in Eh as (slot & Es & Ha & _ & Hid). rewrite Es, Hid.
  destruct (slot_live s w i slot (inv_slots _ _ _ Hi) Es Ha) as (p & q & Hp & Hq & Hpl & _).
  apply wp_bind. eapply wp_mono; [by eapply wp_unbind_stream|]. intros [] w1 Hk1. cbv zeta.
  rewrite Hp, Hq. apply wp_bind. eapply wp_with_planes; [reflexivity|].
  apply wp_bind. set (w2 := w1 {{ w_planes := _ }}).
  pose proof Hk1 as (Hk & Hpl1 & Hc1).
  assert (Hk2 : kept w w2) by (destruct w1; exact Hk).
  destruct (scene_layer_live _ _ _ _ Hi Hpl) as (l0 & Hl0 & _ & Hs0).
  destruct (layer_kept w w2 p l0 Hk2 Hl0) as (l & Hl & Hid'). unfold ident in Hid'.
  apply wp_bind. eapply wp_deref_layer; [done|].
  eapply wp_mono; [apply wp_call_quiet_; apply Hk2; congruence|]. intros [] w3 (Hk3 & Hpl3 & Hc3).
  apply wp_ret.
  assert (Hw2 : w_planes w2 = (Output.remove_layer q (output_ s) (w_planes w)).2 /\ w_calls w2 = w_calls w).
  { unfold w2. rewrite <- Hpl1, <- Hc1. by destruct w1. }
  split.
  - apply (remove_layer_inv s w w3 i slot p q None); try done; [by etrans|..]; destruct Hw2; congruence.
  - exists slot, None. split; [done|]. by destruct s.
Qed.

End SceneInv.
