(* ===== verification/SceneRing.v ===== *)
(** The in-flight ring: draining it, giving the displaced buffers back, and
    the session changes that empty it. *)
From S2P Require Import Prelude StateMonad DrmAbi Layer Output AllocState RingPresenter BufferSource.
From S2P Require Import SceneLayer SceneMemory Scene SceneFrame SceneOwn SceneInv.

(** The ring's held buffers, oldest first, and the frame being built. *)
Definition held_buffers (fl : list AcquisitionSlot) (s : Scene) : list AcquisitionSlot :=
  prev_prev_acquisitions_ s ++ prev_acquisitions_ s ++ fl.

Section SceneRing.
Context {Src : Type} `{HS : LayerBufferSource Src}.
Implicit Types (w : World Src) (s : Scene) (fl acqs : list AcquisitionSlot).

Lemma balanced_frames w w' held held' lost :
  w_calls w' = w_calls w -> frame_of w' held' = frame_of w held ->
  balanced w held lost -> balanced w' held' lost.
Proof. intros Hc Hf. unfold balanced. by rewrite Hc, !frame_of_entries, Hf. Qed.

Lemma frame_of_app w acqs acqs' : frame_of w (acqs ++ acqs') = frame_of w acqs ++ frame_of w acqs'.
Proof. apply omap_app. Qed.

Lemma balanced_undisturbed fl s w s' w' lost :
  undisturbed fl s w s' w' -> balanced w (held_buffers fl s) lost -> balanced w' (held_buffers fl s') lost.
Proof.
  intros (_ & (Hp & Hpp) & Hf & Hc). apply balanced_frames; [done|].
  unfold held_buffers. by rewrite !frame_of_app, Hp, Hpp, Hf.
Qed.

Lemma prev_entries fl s w : scene_inv fl s w ->
  Forall (entry_ok (scene_owned s) (retired_sources s)) (prev_acquisitions_ s).
Proof.
  intros Hi. eapply entries_incl; [| |exact (inv_prev _ _ _ Hi)];
    unfold scene_owned, retired_sources; set_solver.
Qed.

Lemma flight_entries fl s w : scene_inv fl s w ->
  Forall (entry_ok (scene_owned s) (retired_sources s)) fl.
Proof.
  intros Hi. eapply Forall_impl; [exact (inv_flight _ _ _ Hi)|]. intros a [Ha _].
  eapply entry_ok_incl; [| |exact Ha]; unfold scene_owned; set_solver.
Qed.

Lemma slots_ok_ident s w w' :
  (forall i slot, slots_ s !! i = Some slot -> slot_ok w i slot) ->
  (forall p, p ∈ slot_layers s -> ident <$> w_layers w' !! p = ident <$> w_layers w !! p) ->
  forall i slot, slots_ s !! i = Some slot -> slot_ok w' i slot.
Proof.
  intros Hs Hl i slot Hi. pose proof (Hs i slot Hi) as Hok. unfold slot_ok in *.
  destruct (alive slot); [|done]. destruct Hok as (p & q & l & Hp & Hq & Hlp & Hh).
  assert (Hin : p ∈ slot_layers s).
  { apply list_elem_of_omap. exists slot. split; [by eapply list_elem_of_lookup_2|done]. }
  specialize (Hl p Hin). rewrite Hlp in Hl. destruct (w_layers w' !! p) as [l'|] eqn:El'; [|done].
  exists p, q, l'. split_and!; try done. unfold ident in Hl; simpl in Hl. congruence.
Qed.

(** ** Draining *)

Lemma app_reversed (a b c d : list positive) : a ++ b ++ c ++ d ≡ₚ d ++ c ++ b ++ a.
Proof.
  by rewrite (Permutation_app_comm a), (Permutation_app_comm b), (Permutation_app_comm c), <- !app_assoc.
Qed.

Definition drained s s' : Prop :=
  slots_ s' = slots_ s /\ free_ids_ s' = free_ids_ s /\ output_ s' = output_ s /\
  composition_planes_layer_ s' = composition_planes_layer_ s /\ demoted_ s' = demoted_ s /\
  prev_acquisitions_ s' = [] /\ prev_prev_acquisitions_ s' = [] /\
  retire_pending_ s' = [] /\ retire_prev_ s' = [] /\ retire_prev_prev_ s' = [] /\
  retired_sources s' = [] /\ first_commit_ s' = first_commit_ s /\
  structure_dirty_ s' = structure_dirty_ s.

Lemma wp_release_pending s w :
  scene_inv [] s w ->
  wp (release_pending_acquisitions s) w (fun s' w' =>
    scene_inv [] s' w' /\ drained s s' /\ w_planes w' = w_planes w /\
    (forall p, p ∈ slot_layers s -> ident <$> w_layers w' !! p = ident <$> w_layers w !! p) /\
    (forall lost, balanced w (held_buffers [] s) lost -> balanced w' [] lost)).
Proof.
  intros Hi. pose proof Hi as [Ho Hs Hf Hout Hpla Hcomp Hd _ _ Hpp].
  unfold release_pending_acquisitions.
  apply wp_bind. eapply wp_mono; [by eapply wp_release_all|]. intros [] w1 (Hk1 & Hp1 & Hb1).
  apply wp_bind. eapply wp_mono.
  { eapply wp_release_all; [by eapply owns_kept|by eapply prev_entries]. }
  intros [] w2 (Hk2 & Hp2 & Hb2). pose proof (owns_kept _ _ _ _ (kept_trans _ _ _ Hk1 Hk2) Ho) as Ho2.
  assert (Hperm : scene_owned s ≡ₚ retire_prev_prev_ s ++ retire_prev_ s ++ retire_pending_ s ++ slot_layers s).
  { apply app_reversed. }
  assert (Hperm' : retired_sources s ≡ₚ retire_src_prev_prev_ s ++ retire_src_prev_ s ++ retire_src_pending_ s ++ []).
  { apply (app_reversed []). }
  apply (owns_perm _ _ _ _ _ Hperm Hperm') in Ho2.
  do 3 (apply wp_bind; eapply wp_mono; [by apply wp_free_layers|];
        let w3 := fresh "w" in let Ho3 := fresh "Ho" in let Hf3 := fresh "Hfr" in
        intros [] w3 (Ho3 & Hf3)).
  do 3 (apply wp_bind; eapply wp_mono; [by apply wp_free_sources|];
        let w3 := fresh "w" in let Ho3 := fresh "Ho" in let Hf3 := fresh "Hfs" in
        intros [] w3 (Ho3 & Hf3)).
  apply wp_ret.
  pose proof Hfr as (Hla & Hpa & Hca). pose proof Hfr0 as (Hlb & Hpb & Hcb). pose proof Hfr1 as (Hlc & Hpc & Hcc).
  destruct Hfs as (Hld & Hpd & Hcd), Hfs0 as (Hle & Hpe & Hce), Hfs1 as (Hlf & Hpf & Hcf).
  match goal with |- scene_inv _ _ ?W /\ _ => set (w' := W) in * end.
  assert (Hplanes : w_planes w' = w_planes w) by congruence.
  assert (Hident : forall p, p ∈ slot_layers s -> ident <$> w_layers w' !! p = ident <$> w_layers w !! p).
  { intros p Hp. rewrite Hlf, Hle, Hld, Hlc, Hlb, Hla by set_solver.
    rewrite (proj1 Hk2), (proj1 Hk1). done. }
  split_and!; [|destruct s; split_rel; done|done|done|].
  - destruct s; simpl in *. split; simpl; try done.
    + unfold scene_owned, retired_sources, slot_layers; simpl. by rewrite app_nil_r.
    + by eapply (slots_ok_ident (mkScene _ _ _ _ _ _ _ _ _ _ _ _ _ _ _ _ _ _ _ _ _ _ _)).
    + by rewrite Hplanes.
  - intros lost Hb. unfold held_buffers in Hb. rewrite app_nil_r in Hb.
    apply Hb1 in Hb. rewrite <- (app_nil_r (prev_acquisitions_ s)) in Hb. apply Hb2 in Hb.
    apply (balanced_frames w2 w' [] [] lost); [congruence|done|done].
Qed.

Definition displaced (seq : Z) s : bool := negb (seq =? 0) && (seq =? last_commit_seq_ s).

Lemma wp_release_displaced fl s w seq :
  scene_inv fl s w ->
  wp (release_displaced seq s) w (fun s' w' =>
    scene_inv fl s' w' /\ s' = (if displaced seq s then s {{ prev_prev_acquisitions_ := [] }} else s) /\
    kept w w' /\
    (forall lost, balanced w (held_buffers fl s) lost -> balanced w' (held_buffers fl s') lost)).
Proof.
  intros Hi. unfold release_displaced, displaced.
  destruct (seq =? 0), (seq =? last_commit_seq_ s); simpl; try (apply wp_ret; by split_and!).
  apply wp_bind. eapply wp_mono; [eapply wp_release_all; [apply (inv_owns _ _ _ Hi)|apply (inv_prev_prev _ _ _ Hi)]|].
  intros [] w1 (Hk & Hp & Hb). apply wp_ret.
  assert (Hi1 : scene_inv fl s w1) by (eapply scene_inv_kept; [done| |done]; by rewrite Hp).
  split_and!; [|done|done|].
  - destruct Hi1. destruct s; simpl in *. by split.
  - intros lost Hbal. apply Hb in Hbal. by destruct s.
Qed.

(** ** Changes outside the table and the ring *)

Definition core s := (slots_ s, free_ids_ s, composition_planes_layer_ s, output_ s,
  (prev_acquisitions_ s, prev_prev_acquisitions_ s),
  (retire_pending_ s, retire_prev_ s, retire_prev_prev_ s),
  (retire_src_pending_ s, retire_src_prev_ s, retire_src_prev_prev_ s)).

Lemma scene_inv_core fl s s' w :
  core s' = core s -> (forall q, q ∈ demoted_ s' -> q ∈ demoted_ s) -> scene_inv fl s w -> scene_inv fl s' w.
Proof.
  intros Hc Hd [Ho Hs Hf Hout Hpla Hcomp Hdm Hfl Hpr Hpp]. destruct s, s'; unfold core in Hc; simpl in *.
  injection Hc as -> -> -> -> -> -> -> -> -> -> -> ->. split; try done; simpl. auto.
Qed.

Lemma undisturbed_core fl s s' w w' :
  core s' = core s -> (forall q, q ∈ demoted_ s' -> q ∈ demoted_ s) ->
  scene_inv fl s w' -> kept w w' -> w_calls w' = w_calls w -> undisturbed fl s w s' w'.
Proof.
  intros Hc Hd Hi Hk Hcalls. split_rel; [by eapply scene_inv_core| |by apply frame_of_kept|done].
  unfold core in Hc. injection Hc. intros. split; rewrite (frame_of_kept w w') by done; congruence.
Qed.

(** Slots that changed in their stream pin alone. *)
Definition unpinned (slot : Slot) : Slot := slot {{ stream_pinned_plane_id := None }}.

Lemma unpinned_alive slot slot' : unpinned slot = unpinned slot' -> alive slot = alive slot'.
Proof. by destruct slot, slot'; intros [=]. Qed.

Lemma slot_ok_unpinned w i slot slot' : unpinned slot' = unpinned slot -> slot_ok w i slot -> slot_ok w i slot'.
Proof. destruct slot, slot'. unfold unpinned; simpl. intros [= -> -> -> ->]. done. Qed.

Lemma map_unpinned_omap {A} (f : Slot -> option A) slots slots' :
  (forall slot, f (unpinned slot) = f slot) -> map unpinned slots' = map unpinned slots ->
  omap f slots' = omap f slots.
Proof.
  intros Hf. revert slots'. induction slots as [|x slots IH]; intros [|x' slots']; try done.
  cbn [map]. intros Hc. pose proof (f_equal (hd (unpinned x)) Hc) as Hx. pose proof (f_equal tail Hc) as Hr.
  cbn [hd tail] in Hx, Hr. rewrite !omap_cons_app, (IH slots' Hr).
  by rewrite <- (Hf x'), <- (Hf x), Hx.
Qed.

Lemma scene_inv_pins fl s w slots :
  map unpinned slots = map unpinned (slots_ s) -> scene_inv fl s w -> scene_inv fl (s {{ slots_ := slots }}) w.
Proof.
  intros Hm [Ho Hs Hf Hout Hpla Hcomp Hd Hfl Hpr Hpp]. destruct s; simpl in *.
  assert (Hl : omap scene_layer slots = omap scene_layer slots_) by (apply map_unpinned_omap; [by intros []|done]).
  assert (Hq : omap planes_layer slots = omap planes_layer slots_) by (apply map_unpinned_omap; [by intros []|done]).
  assert (Hat : forall i, unpinned <$> slots !! i = unpinned <$> slots_ !! i).
  { intros i. rewrite <- !list_lookup_fmap. by f_equal. }
  split; unfold scene_owned, retired_sources, slot_layers in *; simpl in *; rewrite ?Hl, ?Hq; try done.
  - intros i slot Hi. specialize (Hat i). rewrite Hi in Hat. symmetry in Hat.
    destruct (slots_ !! i) as [slot0|] eqn:E0; [|done]. apply (inj Some) in Hat.
    eapply slot_ok_unpinned; [|by apply Hs]. by symmetry.
  - destruct Hf as [Hn Hf]. split; [done|]. intros i. rewrite Hf. specialize (Hat i).
    split; intros (slot & Hi & Hdead); rewrite Hi in Hat.
    + destruct (slots !! i) as [slot'|]; [|done]. exists slot'. split; [done|]. by rewrite <- Hdead, (unpinned_alive _ _ (inj Some _ _ Hat)).
    + destruct (slots_ !! i) as [slot'|]; [|done]. exists slot'. split; [done|]. by rewrite <- Hdead, (unpinned_alive _ _ (inj Some _ _ Hat)).
  - eapply Forall_impl; [exact Hfl|]. intros a [Ha Hq']. split; [|done].
    unfold slot_layers in *; simpl in *. by rewrite Hl.
Qed.

Lemma wp_for_each_quiet {A} (f : A -> Mem Src unit) l w :
  (forall a w1, a ∈ l -> quiet w w1 -> wp (f a) w1 (fun _ w2 => quiet w1 w2)) ->
  wp (for_each f l) w (fun _ w' => quiet w w').
Proof.
  intros Hf. apply (wp_for_each f (fun l' w' => quiet w w' /\ l' ⊆ l)).
  - by split.
  - intros a l' w1 [Hq Hin]. eapply wp_mono; [apply Hf; [set_solver|done]|].
    intros [] w2 Hq2. split; [by etrans|set_solver].
  - by intros w' [? _].
Qed.

(** ** Sessions *)

Lemma wp_on_session_paused s w :
  scene_inv [] s w ->
  wp (on_session_paused s) w (fun s' w' =>
    scene_inv [] s' w' /\ slots_ s' = map unpinned (slots_ s) /\
    prev_acquisitions_ s' = [] /\ prev_prev_acquisitions_ s' = [] /\
    (forall lost, balanced w (held_buffers [] s) lost -> balanced w' [] lost)).
Proof.
  intros Hi. unfold on_session_paused. apply wp_bind.
  eapply wp_mono; [by apply wp_release_pending|]. intros s1 w1 (Hi1 & Hd & _ & _ & Hb).
  apply wp_bind. eapply wp_mono.
  { apply wp_for_each_quiet. intros p w2 Hp Hq. eapply wp_source_call; [by eapply scene_inv_quiet|].
    by rewrite <- (live_layers_all s1 w1) by apply (inv_slots _ _ _ Hi1). }
  intros [] w2 Hq. apply wp_ret.
  destruct Hd as (Hsl & _ & _ & _ & _ & Hp & Hpp & _).
  split_and!; [|by rewrite <- Hsl; destruct s1|by rewrite <- Hp; destruct s1|by rewrite <- Hpp; destruct s1|].
  - assert (Hm : s1 {{ slots_ ::= map (fun slot => slot {{ stream_pinned_plane_id := None }}) }}
                 = s1 {{ slots_ := map unpinned (slots_ s1) }}) by (by destruct s1).
    rewrite Hm. apply scene_inv_pins; [|by eapply scene_inv_quiet].
    rewrite map_map. apply map_ext. by intros [].
  - intros lost Hbal. eapply balanced_quiet; [done|]. auto.
Qed.

Lemma wp_resume_sources fl s w ps :
  scene_inv fl s w -> (forall p, p ∈ ps -> p ∈ slot_layers s) ->
  wp (resume_sources ps) w (fun _ w' => quiet w w').
Proof.
  revert w. induction ps as [|p ps IH]; intros w Hi Hps; simpl; [by apply wp_ret|].
  destruct (scene_layer_live _ _ _ _ Hi (Hps p ltac:(by left))) as (l & Hl & _ & Hs).
  apply wp_bind. eapply wp_deref_layer; [done|]. apply wp_bind. eapply wp_mono; [by apply wp_call_quiet|].
  intros r w1 Hq. destruct r as [[]|e]; [|by apply wp_ret].
  eapply wp_mono; [apply IH; [by eapply scene_inv_quiet|intros q Hq'; apply Hps; by right]|].
  intros r w2 Hq2. by etrans.
Qed.

Lemma wp_on_session_resumed fl s w read fresh :
  scene_inv fl s w ->
  wp (on_session_resumed read fresh s) w (fun r w' =>
    undisturbed fl s w r.2 w' /\ slots_ r.2 = slots_ s /\ prev_acquisitions_ r.2 = prev_acquisitions_ s).
Proof.
  intros Hi. unfold on_session_resumed. destruct read as [u|e]; [|apply wp_ret; by split_and!; [apply undisturbed_refl|..]].
  cbv zeta. apply wp_bind. eapply wp_mono.
  { eapply (wp_resume_sources fl s); [done|]. intros p. by rewrite <- (live_layers_all s w) by apply (inv_slots _ _ _ Hi). }
  intros r w1 Hq. pose proof (scene_inv_quiet fl s w w1 Hq Hi) as Hi1. destruct Hq as (Hk & _ & Hc).
  destruct r as [[]|e]; apply wp_ret; split_and!; try (by destruct s); apply undisturbed_core; try done;
    destruct s; simpl; try done. by intros q ?%not_elem_of_nil.
Qed.

(** ** Rebinding *)

Lemma foldr_delete_some (ps : list positive) (hp : heap) q :
  q ∉ ps -> foldr delete hp ps !! q = hp !! q.
Proof.
  induction ps as [|p ps IH]; intros Hq; [done|]. simpl. rewrite not_elem_of_cons in Hq.
  destruct Hq. rewrite lookup_delete_ne by done. auto.
Qed.

Lemma wp_reset_output fl s w crtc_id :
  scene_inv fl s w ->
  wp (reset_output crtc_id s) w (fun o w' =>
    kept w w' /\ w_calls w' = w_calls w /\ output_ok o (w_planes w') /\ owned_layers_ o = [] /\
    composition_layer_ o = Some (composition_planes_layer_ s)).
Proof.
  intros Hi. destruct (inv_output _ _ _ Hi) as (Hn & Hp & Hl & Hc).
  destruct (Hc _ (inv_comp _ _ _ Hi)) as [[l Hcl] Hco].
  unfold reset_output. eapply wp_with_planes.
  { unfold make_output, update_layer. rewrite Hcl. simpl. reflexivity. }
  destruct w as [L S P n c]; simpl in *. split_and!; [by split_rel|done| |done..].
  split_and!; simpl; [constructor|done|by intros p ?%not_elem_of_nil|].
  intros c' [= <-]. split; [|by intros ?%not_elem_of_nil].
  rewrite foldr_delete_some, lookup_insert_eq by done. eauto.
Qed.

(** What a rebind makes of a slot: a live one gets a new twin. *)
Definition same_tenant (slot slot' : Slot) : Prop :=
  scene_layer slot' = scene_layer slot /\ generation slot' = generation slot /\ alive slot' = alive slot.

Definition rebound (slot slot' : Slot) : Prop :=
  same_tenant slot slot' /\
  (if alive slot then is_Some (planes_layer slot') else planes_layer slot' = None).

Lemma wp_rebind_slots slots o w :
  (forall slot, slot ∈ slots -> if alive slot
    then exists p l, scene_layer slot = Some p /\ w_layers w !! p = Some l /\ is_Some (w_sources w !! source_ l)
    else True) ->
  output_ok o (w_planes w) ->
  wp (rebind_slots slots o) w (fun r w' =>
    kept w w' /\ w_calls w' = w_calls w /\ output_ok r.2 (w_planes w') /\
    owned_layers_ r.2 = owned_layers_ o ++ omap planes_layer r.1 /\
    composition_layer_ r.2 = composition_layer_ o /\ Forall2 rebound slots r.1).
Proof.
  revert o w. induction slots as [|slot slots IH]; intros o w Hs Ho; cbn [rebind_slots].
  { apply wp_ret. split_and!; try done; simpl; by rewrite app_nil_r. }
  assert (Hhead := Hs slot ltac:(by left)). assert (Htail := fun sl Hin => Hs sl (list_elem_of_further _ slot _ Hin)).
  destruct (alive slot) eqn:Ea.
  2: { apply wp_bind. eapply wp_mono; [by apply IH|]. intros [rest o'] w' (Hk & Hc & Hok & Hown & Hcomp & Hf).
       apply wp_ret. split_and!; try done; simpl in *.
       constructor; [|done]. destruct slot; simpl in *; subst. by split_rel. }
  destruct Hhead as (p & l & Hp & Hl & Hsrc). rewrite Hp.
  assert (Hu : wp (unbind_stream slot) w (fun _ w' => quiet w w')).
  { unfold unbind_stream. rewrite Hp. destruct (stream_pinned_plane_id slot); [|by apply wp_ret].
    apply wp_bind. eapply wp_deref_layer; [done|]. by apply wp_call_quiet_. }
  apply wp_bind. eapply wp_mono; [exact Hu|]. intros [] w1 (Hk1 & Hp1 & Hc1).
  destruct (output_add_spec o (w_planes w1)) as (q & o1 & hp1 & Ha & Hoo & Hoc & Hq & Hhp).
  rewrite <- Hp1 in Ho. pose proof (add_layer_ok o (w_planes w1) Ho) as Hok. rewrite Ha in Hok.
  apply wp_bind. eapply wp_with_planes; [by rewrite Ha|]. cbv beta iota.
  assert (Hk1' : kept w (w1 {{ w_planes := hp1 }})) by (by destruct w1).
  apply wp_bind. eapply wp_mono.
  { apply IH; [|by destruct w1]. intros sl Hin. specialize (Htail sl Hin). destruct (alive sl); [|done].
    destruct Htail as (p' & l' & Hp' & Hl' & Hs'). destruct (layer_kept _ _ _ _ Hk1' Hl') as (l'' & Hl'' & Hid).
    exists p', l''. split_and!; [done..|]. apply Hk1'. unfold ident in Hid. congruence. }
  intros [rest o'] w2 (Hk2 & Hc2 & Hok2 & Hown & Hcomp & Hf). apply wp_ret. simpl in *.
  split_and!; [by etrans|rewrite Hc2, <- Hc1; by destruct w1|done| |congruence|].
  - rewrite Hown, Hoo, <- app_assoc. by destruct slot.
  - constructor; [|done]. destruct slot; simpl in *; subst. split_rel; try done; simpl. eauto.
Qed.

Lemma omap_rebound slots slots' : Forall2 rebound slots slots' -> omap scene_layer slots' = omap scene_layer slots.
Proof.
  intros Hf. symmetry. apply list_omap_ext. eapply Forall2_impl; [exact Hf|]. by intros x y [(-> & _) _].
Qed.

Lemma slot_ok_rebound w i slot slot' : rebound slot slot' -> slot_ok w i slot -> slot_ok w i slot'.
Proof.
  intros [(Hl & Hg & Ha) Hp]. unfold slot_ok. rewrite Ha, Hl, Hg. destruct (alive slot).
  - intros (p & q & l & ? & ? & ? & ?). destruct Hp as [q' Hq']. eauto 10.
  - by intros [-> _].
Qed.

Lemma rebind_inv s w w' s' slots o :
  scene_inv [] s w ->
  prev_acquisitions_ s' = [] -> prev_prev_acquisitions_ s' = [] ->
  core s' = core (s {{ slots_ := slots; output_ := o }}) -> demoted_ s' = [] ->
  kept w w' -> output_ok o (w_planes w') -> owned_layers_ o = omap planes_layer slots ->
  composition_layer_ o = Some (composition_planes_layer_ s) -> Forall2 rebound (slots_ s) slots ->
  scene_inv [] s' w'.
Proof.
  intros [Ho Hs Hf Hout Hpla Hcomp Hd Hfl Hpr Hpp] Hpe Hppe Hcore Hdem Hk Hok Hown Hc Hreb.
  pose proof (omap_rebound _ _ Hreb) as Hl.
  destruct s, s'; unfold core in Hcore; simpl in *.
  injection Hcore as -> -> -> -> -> -> -> -> -> -> -> ->. subst.
  split; unfold scene_owned, retired_sources, slot_layers in *; simpl in *; rewrite ?Hl; try done.
  - by eapply owns_kept.
  - intros i slot' Hi. destruct (Forall2_lookup_r _ _ _ _ _ Hreb Hi) as (slot & Hi0 & Hr).
    eapply slot_ok_rebound; [done|]. eapply slot_ok_kept; [done|auto].
  - destruct Hf as [Hn Hf]. split; [done|]. intros i. rewrite Hf. split; intros (slot & Hi & Hdead).
    + destruct (Forall2_lookup_l _ _ _ _ _ Hreb Hi) as (slot' & Hi' & [(_ & _ & Ha) _]).
      exists slot'. split; [done|congruence].
    + destruct (Forall2_lookup_r _ _ _ _ _ Hreb Hi) as (slot' & Hi' & [(_ & _ & Ha) _]).
      exists slot'. split; [done|congruence].
  - by rewrite Hown.
  - by intros q ?%not_elem_of_nil.
Qed.

Lemma tenants_refl slots : Forall2 same_tenant slots slots.
Proof. apply Forall_Forall2_diag, Forall_forall. intros x _. by split_rel. Qed.

Lemma wp_incompatibilities s w mode_w mode_h ps :
  scene_inv [] s w -> (forall p, p ∈ ps -> p ∈ slot_layers s) ->
  wp (incompatibilities mode_w mode_h ps) w (fun _ w' => w' = w).
Proof.
  intros Hi. induction ps as [|p ps IH]; intros Hps; simpl; [by apply wp_ret|].
  destruct (scene_layer_live [] s w p Hi) as (l & Hl & _); [apply Hps; by left|].
  apply wp_bind. eapply wp_deref_layer; [done|]. apply wp_bind. eapply wp_mono.
  { apply IH. intros q Hq. apply Hps. by right. }
  intros rest w' ->. by apply wp_ret.
Qed.

Lemma live_in_slots fl s w p : scene_inv fl s w -> p ∈ live_layers s -> p ∈ slot_layers s.
Proof. intros Hi. by rewrite (live_layers_all s w) by apply (inv_slots _ _ _ Hi). Qed.

Lemma wp_rebind s w crtc_id mode_w mode_h read fresh :
  scene_inv [] s w ->
  wp (rebind crtc_id mode_w mode_h read fresh s) w (fun r w' =>
    scene_inv [] r.2 w' /\ Forall2 same_tenant (slots_ s) (slots_ r.2) /\
    prev_acquisitions_ r.2 = [] /\ prev_prev_acquisitions_ r.2 = [] /\
    (forall lost, balanced w (held_buffers [] s) lost -> balanced w' [] lost)).
Proof.
  intros Hi. unfold rebind. apply wp_bind. eapply wp_mono; [by apply wp_release_pending|].
  intros s1 w1 (Hi1 & Hd & _ & _ & Hb).
  destruct Hd as (Hsl & _ & _ & _ & _ & Hp & Hpp & _).
  destruct read as [u|e]; [|apply wp_ret; split_and!; try done; simpl; rewrite Hsl; apply tenants_refl].
  apply wp_bind. eapply wp_mono; [by apply (wp_reset_output [])|]. intros o w2 (Hk2 & Hc2 & Hok2 & Hown & Hcomp).
  apply wp_bind. eapply wp_mono.
  { apply wp_rebind_slots; [|done]. intros slot [i Hsi]%list_elem_of_lookup.
    destruct (alive slot) eqn:Ea; [|done].
    destruct (slot_live s1 w1 i slot (inv_slots _ _ _ Hi1) Hsi Ea) as (p & q & Hlp & _ & Hin & _).
    destruct (scene_layer_live _ _ _ _ Hi1 Hin) as (l & Hl & _ & Hs).
    destruct (layer_kept _ _ _ _ Hk2 Hl) as (l' & Hl' & Hid). exists p, l'. split_and!; [done..|].
    apply Hk2. unfold ident in Hid. congruence. }
  intros [slots o'] w3 (Hk3 & Hc3 & Hok3 & Hown3 & Hcomp3 & Hreb).
  cbn [fst snd] in *. cbv beta iota zeta. match goal with |- context [live_layers ?S] => set (s2 := S) end.
  assert (Hi2 : scene_inv [] s2 w3).
  { eapply (rebind_inv s1 w1 w3 s2 slots o'); try done; try (by destruct s1); [by etrans| |congruence].
    by rewrite Hown3, Hown. }
  apply wp_bind. eapply wp_mono.
  { apply (wp_incompatibilities s2 w3 mode_w mode_h (live_layers s2) Hi2). intros p. by eapply live_in_slots. }
  intros report w4 ->. apply wp_ret. simpl in *.
  split_and!; [done| |by destruct s1|by destruct s1|].
  - rewrite <- Hsl. destruct s1; simpl in *.
    eapply Forall2_impl; [exact Hreb|]. by intros x y [? _].
  - intros lost Hbal. apply (balanced_ext w1); [congruence|by intros a ?%not_elem_of_nil|]. auto.
Qed.

End SceneRing.
