(* ===== verification/SceneBuild.v ===== *)
(** Building and finalising a frame keeps the invariant of the scene and the
    books of its buffers, whatever the placement in between comes to. *)
From S2P Require Import Prelude StateMonad DrmAbi Layer Output AllocState RingPresenter BufferSource.
From S2P Require Import SceneLayer SceneMemory Scene SceneFrame SceneOwn SceneInv SceneRing.

(** Nothing but the planes' layers, and they are still there. *)
Definition steady {Src} (w w' : World Src) : Prop :=
  kept w w' /\ (forall q, is_Some (w_planes w !! q) -> is_Some (w_planes w' !! q)) /\ w_calls w' = w_calls w.

Section SceneBuild.
Context {Src : Type} `{HS : LayerBufferSource Src}.
Implicit Types (w : World Src) (s : Scene) (fl acqs : list AcquisitionSlot).

#[export] Instance steady_refl : Reflexive (steady (Src := Src)).
Proof. intros w. by split_rel. Qed.
#[export] Instance steady_trans : Transitive (steady (Src := Src)).
Proof. intros a b c (? & Hp & ?) (? & Hp' & ?). split_rel; [by etrans|auto|congruence]. Qed.

Lemma quiet_steady w w' : quiet w w' -> steady w w'.
Proof. intros (? & Hp & ?). split_rel; [done|by rewrite Hp|done]. Qed.

Lemma scene_inv_steady fl s w w' : steady w w' -> scene_inv fl s w -> scene_inv fl s w'.
Proof. intros (Hk & Hp & _). by apply scene_inv_kept. Qed.

Lemma update_layers_alive f ps hp :
  (forall p, p ∈ ps -> is_Some (hp !! p)) ->
  exists hp', update_layers f ps hp = Some hp' /\ (forall q, is_Some (hp !! q) -> is_Some (hp' !! q)).
Proof.
  revert hp. induction ps as [|p ps IH]; intros hp Hps; cbn [update_layers]; [eauto|].
  destruct (update_layer_some f p hp) as (l & Hl & ->); [apply Hps; by left|]. cbn [mbind option_bind].
  assert (Ha : forall q, is_Some (hp !! q) -> is_Some (<[p := f l]> hp !! q)).
  { intros q Hq. rewrite lookup_insert_is_Some'. by right. }
  destruct (IH (<[p := f l]> hp)) as (hp' & -> & Hp'); [|eauto].
  intros q Hq. apply Ha, Hps. by right.
Qed.

Lemma twin_live fl s w q :
  scene_inv fl s w -> q ∈ owned_layers_ (output_ s) -> is_Some (w_planes w !! q).
Proof. intros Hi. destruct (inv_output _ _ _ Hi) as (_ & _ & Hl & _). apply Hl. Qed.

Lemma wp_update_planes fl s w f ps :
  scene_inv fl s w -> (forall p, p ∈ ps -> p ∈ owned_layers_ (output_ s)) ->
  wp (planes_run (update_layers f ps)) w (fun _ w' => steady w w').
Proof.
  intros Hi Hps.
  destruct (update_layers_alive f ps (w_planes w)) as (hp & Hu & Ha); [intros p Hp; eapply twin_live; eauto|].
  eapply wp_planes_run; [exact Hu|]. destruct w; simpl in *. split_rel; [by split_rel|done|done].
Qed.

Lemma wp_for_each_steady {A} (f : A -> Mem Src unit) l w :
  (forall a w1, a ∈ l -> steady w w1 -> wp (f a) w1 (fun _ w2 => steady w1 w2)) ->
  wp (for_each f l) w (fun _ w' => steady w w').
Proof.
  intros Hf. apply (wp_for_each f (fun l' w' => steady w w' /\ l' ⊆ l)).
  - by split.
  - intros a l' w1 [Hq Hin]. eapply wp_mono; [apply Hf; [set_solver|done]|].
    intros [] w2 Hq2. split; [by etrans|set_solver].
  - by intros w' [? _].
Qed.

(** ** Before the buffers *)

Lemma in_slot_layers s slot p : slot ∈ slots_ s -> scene_layer slot = Some p -> p ∈ slot_layers s.
Proof. intros Hin Hp. apply list_elem_of_omap. by exists slot. Qed.

Lemma in_planes fl s w slot q :
  scene_inv fl s w -> slot ∈ slots_ s -> planes_layer slot = Some q -> q ∈ owned_layers_ (output_ s).
Proof.
  intros Hi Hin Hq. rewrite (inv_planes _ _ _ Hi). apply list_elem_of_omap. by exists slot.
Qed.

Lemma wp_pin_streams fl s w (pick : Z -> list Z -> option Z) already slots :
  scene_inv fl s w -> (forall slot, slot ∈ slots -> slot ∈ slots_ s) ->
  wp (pin_streams pick already slots) w (fun r w' => quiet w w' /\ map unpinned r = map unpinned slots).
Proof.
  revert w already. induction slots as [|slot slots IH]; intros w already Hi Hs; cbn [pin_streams].
  { by apply wp_ret. }
  assert (Hrest : forall w1 (al : list Z) (slot' : Slot), quiet w w1 -> unpinned slot' = unpinned slot ->
    wp (rest ← pin_streams pick al slots; mret (slot' :: rest)) w1
       (fun r w' => quiet w w' /\ map unpinned r = map unpinned (slot :: slots))).
  { intros w1 al slot' Hq Hu. apply wp_bind. eapply wp_mono.
    - apply IH; [by eapply scene_inv_quiet|]. intros sl Hin. apply Hs. by right.
    - intros r w' [Hq' Hm]. apply wp_ret. split; [by etrans|]. cbn [map]. by rewrite Hu, Hm. }
  destruct (alive slot); [|by apply Hrest].
  destruct (scene_layer slot) as [p|] eqn:Ep; [|by apply Hrest].
  destruct (stream_pinned_plane_id slot); [by apply Hrest|].
  destruct (scene_layer_live fl s w p Hi) as (l & Hl & _ & [src Hsrc]).
  { eapply in_slot_layers; [|done]. apply Hs. by left. }
  apply wp_bind. eapply wp_deref_layer; [done|]. apply wp_bind. eapply wp_deref_source; [done|].
  destruct (if src_driver_owns_binding src then pick (drm_fourcc (src_format src)) already else None) as [z|]; [|by apply Hrest].
  apply wp_bind. eapply wp_mono; [apply wp_call_quiet; eauto|]. intros r w1 Hq.
  destruct (has_value r); apply Hrest; done.
Qed.

Lemma wp_ensure_pins fl s w pick :
  scene_inv fl s w ->
  wp (ensure_stream_layer_pins pick s) w (fun s' w' =>
    quiet w w' /\ exists slots, s' = s {{ slots_ := slots }} /\ map unpinned slots = map unpinned (slots_ s)).
Proof.
  intros Hi. unfold ensure_stream_layer_pins. destruct pick as [pick|].
  - apply wp_bind. eapply wp_mono; [by eapply wp_pin_streams|]. intros slots w' [Hq Hm]. apply wp_ret. eauto.
  - apply wp_ret. split; [done|]. exists (slots_ s). by destruct s.
Qed.

Lemma wp_any_stream fl s w ps :
  scene_inv fl s w -> (forall p, p ∈ ps -> p ∈ slot_layers s) ->
  wp (any_stream ps) w (fun _ w' => w' = w).
Proof.
  intros Hi. induction ps as [|p ps IH]; intros Hps; simpl; [by apply wp_ret|].
  destruct (scene_layer_live fl s w p Hi) as (l & Hl & _ & [src Hsrc]); [apply Hps; by left|].
  apply wp_bind. eapply wp_deref_layer; [done|]. apply wp_bind. eapply wp_deref_source; [done|].
  destruct (src_driver_owns_binding src); [by apply wp_ret|]. apply IH. intros q Hq. apply Hps. by right.
Qed.

Lemma wp_mixing fl s w :
  scene_inv fl s w -> wp (apply_exclusive_mixing_constraint s) w (fun _ w' => steady w w').
Proof.
  intros Hi. unfold apply_exclusive_mixing_constraint. apply wp_bind. eapply wp_mono.
  { eapply wp_update_planes; [done|]. intros p.
    by rewrite (live_planes_all s w), (inv_planes _ _ _ Hi) by apply (inv_slots _ _ _ Hi). }
  intros [] w1 Hq1. pose proof (scene_inv_steady _ _ _ _ Hq1 Hi) as Hi1.
  destruct (_ || _); [by apply wp_ret|]. apply wp_bind. eapply wp_mono.
  { eapply (wp_any_stream fl s w1); [done|]. intros p. by rewrite (live_layers_all s w) by apply (inv_slots _ _ _ Hi). }
  intros b w2 ->. destruct b; [|by apply wp_ret].
  eapply wp_mono.
  { apply wp_for_each_steady. intros slot w2 Hin Hq2. pose proof (scene_inv_steady _ _ _ _ Hq2 Hi1) as Hi2.
    unfold composite_unless_stream. destruct (alive slot); [|by apply wp_ret].
    destruct (scene_layer slot) as [p|] eqn:Ep; [|by apply wp_ret].
    destruct (planes_layer slot) as [q|] eqn:Eq; [|by apply wp_ret].
    destruct (scene_layer_live fl s w2 p Hi2) as (l & Hl & _ & [src Hsrc]); [by eapply in_slot_layers|].
    apply wp_bind. eapply wp_deref_layer; [done|]. apply wp_bind. eapply wp_deref_source; [done|].
    destruct (src_driver_owns_binding src); [by apply wp_ret|].
    destruct (update_layer_some (set_transient_composited true) q (w_planes w2)) as (l' & Hl' & Hu).
    { eapply twin_live; [done|]. by eapply (in_planes fl s). }
    eapply wp_planes_run; [exact Hu|]. destruct w2; simpl in *. split_rel; [by split_rel| |done].
    intros x Hx. simpl. rewrite lookup_insert_is_Some'. by right. }
  intros [] w3 Hq3. by etrans.
Qed.

(** ** The buffers *)

Lemma wp_acquire_all fl s w slots out k :
  scene_inv fl s w -> (forall slot, slot ∈ slots -> slot ∈ slots_ s) ->
  wp (acquire_all slots out k) w (fun r w' =>
    kept w w' /\ w_planes w' = w_planes w /\ released_of (w_calls w') = released_of (w_calls w) /\
    exists new, r.1.2 = out ++ new /\ Forall (flight_ok s) new /\
      Forall (fun a => acq_layer a ∈ slot_layers s) new /\
      acquired_of (w_calls w') = acquired_of (w_calls w) ++ omap (entry w') new).
Proof.
  revert w out k. induction slots as [|slot slots IH]; intros w out k Hi Hs; cbn [acquire_all].
  { apply wp_ret. split_and!; try done. exists []. simpl. by rewrite !app_nil_r. }
  assert (Hs' : forall sl, sl ∈ slots -> sl ∈ slots_ s) by (intros sl Hin; apply Hs; by right).
  destruct (alive slot); [|by apply IH].
  destruct (scene_layer slot) as [p|] eqn:Ep; [|by apply IH].
  assert (Hp : p ∈ slot_layers s) by (eapply in_slot_layers; [apply Hs; by left|done]).
  destruct (scene_layer_live fl s w p Hi Hp) as (l & Hl & Hsl & Hsrc).
  apply wp_bind. eapply wp_deref_layer; [done|].
  apply wp_bind. eapply wp_mono; [by apply wp_call_quiet|]. intros r w1 Hq.
  pose proof (scene_inv_quiet _ _ _ _ Hq Hi) as Hi1. destruct Hq as (Hk & Hpl & Hc).
  destruct r as [b|e].
  - apply wp_bind, wp_log. set (w2 := w1 {{ w_calls ::= fun cs => cs ++ [CAcquire (source_ l) b] }}).
    assert (Hk2 : kept w w2) by (by destruct w1).
    eapply wp_mono; [apply IH; [eapply scene_inv_kept; [exact Hk2| |exact Hi]; destruct w1; simpl in *; by rewrite Hpl|done]|].
    intros r w3 (Hk3 & Hp3 & Hr3 & new & Hout & Hok & Hlay & Hacq).
    assert (Hc2 : w_calls w2 = w_calls w ++ [CAcquire (source_ l) b]) by (rewrite <- Hc; by destruct w1).
    split_and!; [by etrans|rewrite Hp3, <- Hpl; by destruct w1| |].
    + rewrite Hr3, Hc2, released_app. simpl. by rewrite app_nil_r.
    + set (a := mkAcquisition p (planes_layer slot) b false (stream_pinned_plane_id slot) None None) in *.
      exists (a :: new). rewrite Hout, <- app_assoc. split_and!; [done| | |].
      * constructor; [|done]. split; simpl; [split; simpl; [set_solver|done]|].
        intros q Hq. eapply in_planes; [done|apply Hs; by left|done].
      * by constructor.
      * rewrite Hacq, Hc2, acquired_app, <- app_assoc. f_equal. rewrite omap_cons_app. f_equal. simpl.
        assert (He : entry w3 a = entry w a) by (apply entry_kept; by etrans).
        rewrite He. unfold entry, target, a; simpl. by rewrite Hsl.
  - destruct (decide (e = EAGAIN)).
    + eapply wp_mono; [by apply IH|]. intros r w3 (Hk3 & Hp3 & Hr3 & Hrest).
      split_and!; [by etrans|congruence|congruence|]. by rewrite <- Hc.
    + apply wp_ret. split_and!; [done|done|by rewrite Hc|]. exists []. rewrite Hc. simpl. by rewrite !app_nil_r.
Qed.

Lemma scene_inv_flight fl fl' s w : Forall (flight_ok s) fl' -> scene_inv fl s w -> scene_inv fl' s w.
Proof. intros Hf []. by split. Qed.

Lemma scene_inv_owned_demoted fl s s' w :
  core s' = core s -> (forall q, q ∈ demoted_ s' -> q ∈ owned_layers_ (output_ s)) ->
  scene_inv fl s w -> scene_inv fl s' w.
Proof.
  intros Hc Hd [Ho Hs Hf Hout Hpla Hcomp _ Hfl Hpr Hpp]. destruct s, s'; unfold core in Hc; simpl in *.
  injection Hc as -> -> -> -> -> -> -> -> -> -> -> ->. by split.
Qed.

Lemma wp_release_flight fl s w :
  scene_inv fl s w ->
  wp (release_all fl) w (fun _ w' => scene_inv [] s w' /\ kept w w' /\
    (forall lost, balanced w (held_buffers fl s) lost -> balanced w' (held_buffers [] s) lost)).
Proof.
  intros Hi. eapply wp_mono; [eapply wp_release_all; [apply (inv_owns _ _ _ Hi)|by eapply flight_entries]|].
  intros [] w' (Hk & Hp & Hb). split_and!; [|done|].
  - eapply scene_inv_flight; [done|]. eapply scene_inv_kept; [done| |exact Hi]. by rewrite Hp.
  - intros lost Hbal. apply Hb. eapply balanced_perm; [|exact Hbal].
    unfold held_buffers. rewrite app_nil_r, app_assoc. apply Permutation_app_comm.
Qed.

Definition mark (f : nat -> bool) (i : nat) (a : AcquisitionSlot) : AcquisitionSlot := a {{ acq_mapped := f i }}.

Lemma frame_of_mark w f acqs : frame_of w (imap (mark f) acqs) = frame_of w acqs.
Proof.
  revert f. induction acqs as [|a acqs IH]; intros f; [done|]. rewrite imap_cons. unfold frame_of in *.
  rewrite !omap_cons_app. rewrite <- (IH (f ∘ S)). by destruct a.
Qed.

Lemma Forall_mark (P : AcquisitionSlot -> Prop) f acqs :
  (forall i a, P a -> P (mark f i a)) -> Forall P acqs -> Forall P (imap (mark f) acqs).
Proof.
  intros HP Ha. revert f HP. induction Ha as [|a acqs Ha _ IH]; intros f HP; [constructor|].
  rewrite imap_cons. constructor; [by apply HP|]. apply (IH (f ∘ S)). intros i b Hb. apply (HP (S i) b Hb).
Qed.

Lemma wp_run_passes passes acqs s w :
  scene_inv acqs s w ->
  wp (run_passes passes acqs s) w (fun r w' =>
    steady w w' /\ r.1 = imap (mark (bp_mapped passes)) acqs /\ core r.2 = core s /\
    last_commit_seq_ r.2 = last_commit_seq_ s /\ scene_inv r.1 r.2 w').
Proof.
  intros Hi. unfold run_passes. cbv zeta. set (victims := omap _ (bp_demoted passes)).
  assert (Hv : forall q, q ∈ victims -> q ∈ owned_layers_ (output_ s)).
  { intros q (i & _ & Hq)%list_elem_of_omap. destruct (acqs !! i) as [a|] eqn:Ea; [|done]. simpl in Hq.
    pose proof (inv_flight _ _ _ Hi) as Hf. rewrite Forall_forall in Hf.
    by apply (Hf a (list_elem_of_lookup_2 _ _ _ Ea)). }
  apply wp_bind. eapply wp_planes_run; [reflexivity|].
  match goal with |- wp _ ?W _ => set (w1 := W) end.
  assert (Hs1 : steady w w1).
  { destruct w; simpl in *. split_rel; [by split_rel| |done]. intros q [l Hl]. simpl in *.
    rewrite map_lookup_imap, Hl. simpl. eauto. }
  apply wp_bind. eapply wp_mono; [by eapply (wp_update_planes acqs s); [eapply scene_inv_steady|]|].
  intros [] w2 Hs2. apply wp_ret. simpl. split_and!; [by etrans|done|by destruct s|by destruct s|].
  assert (Hi2 : scene_inv acqs s w2) by (eapply scene_inv_steady; [|exact Hi]; by etrans).
  eapply scene_inv_flight.
  2: { eapply (scene_inv_owned_demoted acqs s); [by destruct s| |done].
       intros q Hq. assert (q ∈ demoted_ s \/ q ∈ victims) as [Hd|Hd]; [destruct s; simpl in *; by apply elem_of_app| |auto].
       by apply (inv_demoted _ _ _ Hi). }
  apply Forall_mark; [by intros i []|]. pose proof (inv_flight _ _ _ Hi) as Hf. destruct s; exact Hf.
Qed.

Lemma wp_any_wants_fence fl s w acqs :
  scene_inv fl s w -> Forall (flight_ok s) acqs -> wp (any_wants_fence acqs) w (fun _ w' => w' = w).
Proof.
  intros Hi Ha. induction Ha as [|a acqs [[Ha _] _] _ IH]; simpl; [by apply wp_ret|].
  destruct (owned_layer w _ _ (acq_layer a) (inv_owns _ _ _ Hi)) as (l & Hl & _ & [src Hsrc]).
  { unfold scene_owned. set_solver. }
  apply wp_bind. eapply wp_deref_layer; [done|]. apply wp_bind. eapply wp_deref_source; [done|].
  destruct (src_wants_release_fence src); [by apply wp_ret|done].
Qed.

(** How the scene may differ after a build: the ring and the layers are those
    of before. *)
Definition built s s' : Prop :=
  map unpinned (slots_ s') = map unpinned (slots_ s) /\
  prev_acquisitions_ s' = prev_acquisitions_ s /\ prev_prev_acquisitions_ s' = prev_prev_acquisitions_ s /\
  last_commit_seq_ s' = last_commit_seq_ s.

(** The buffers a failed build left in its scratch vector: the next build
    clears it, and nothing hands them back. *)
Definition left_in_scratch {A} (w : World Src) (r : expected A) s : list (positive * AcquiredBuffer) :=
  match r with Val _ => [] | Unexp _ => omap (entry w) (scratch_acquisitions_ s) end.

Definition leaky (passes : BuildPasses) : bool :=
  match bp_failed passes with Some (f, _) => negb (hands_back f) | None => false end.

Lemma held_core fl s s' : core s' = core s -> held_buffers fl s' = held_buffers fl s.
Proof. unfold core, held_buffers. intros Hc. injection Hc. intros. congruence. Qed.

Lemma built_core s s1 s' :
  core s' = core s1 -> last_commit_seq_ s' = last_commit_seq_ s1 -> built s s1 -> built s s'.
Proof.
  unfold core, built. intros Hc Hn (? & ? & ? & ?). injection Hc. intros. split_and!; congruence.
Qed.

Lemma balanced_steady w w' held lost : steady w w' -> balanced w held lost -> balanced w' held lost.
Proof. intros (Hk & _ & Hc). apply balanced_ext; [done|]. intros a _. by apply entry_kept. Qed.

Lemma balanced_acquired w w' s new lost :
  kept w w' -> released_of (w_calls w') = released_of (w_calls w) ->
  acquired_of (w_calls w') = acquired_of (w_calls w) ++ omap (entry w') new ->
  balanced w (held_buffers [] s) lost -> balanced w' (held_buffers new s) lost.
Proof.
  intros Hk Hr Ha Hb. unfold balanced in *. rewrite Hr, Ha, Hb. unfold held_buffers.
  rewrite !omap_app. simpl. rewrite app_nil_r, <- !app_assoc.
  rewrite !(entries_ext w w') by (intros a _; by apply entry_kept).
  rewrite (Permutation_app_comm lost). done.
Qed.

(** The end of a build that hands its buffers back. *)
Lemma wp_abandon fl s s' w :
  scene_inv fl s w -> core s' = core s -> demoted_ s' = demoted_ s ->
  wp (release_all fl) w (fun _ w' => kept w w' /\ scene_inv [] s' w' /\
    (forall lost, balanced w (held_buffers fl s) lost -> balanced w' (held_buffers [] s') lost)).
Proof.
  intros Hi Hc Hd. eapply wp_mono; [by apply wp_release_flight|]. intros [] w' (Hi' & Hk & Hb).
  split_and!; [done|eapply scene_inv_core; [done| |done]; by rewrite Hd|].
  rewrite (held_core _ _ _ Hc). exact Hb.
Qed.

Definition frame_acquisitions (r : expected (option FrameBuildState)) : list AcquisitionSlot :=
  match r with Val (Some st) => fs_acquisitions st | _ => [] end.

(** What a build leaves: the ring as it was, the acquisitions of the frame it
    returns held, those of one that failed given back or lost. *)
Definition build_post (passes : BuildPasses) (test_only : bool) s w
    (r : expected (option FrameBuildState) * Scene) w' : Prop :=
  kept w w' /\ built s r.2 /\ scene_inv (frame_acquisitions r.1) r.2 w' /\
  (forall st, r.1 = Val (Some st) -> fs_test_only st = test_only /\
     Forall (fun a => acq_layer a ∈ slot_layers s) (fs_acquisitions st)) /\
  (leaky passes = false -> left_in_scratch w' r.1 r.2 = []) /\
  (forall lost, balanced w (held_buffers [] s) lost ->
     balanced w' (held_buffers (frame_acquisitions r.1) r.2) (left_in_scratch w' r.1 r.2 ++ lost)).

(** After the buffers were acquired. *)
Lemma wp_after_acquire passes test_only total skipped new s w :
  scene_inv new s w -> Forall (fun a => acq_layer a ∈ slot_layers s) new ->
  wp ('(acqs, s) ← run_passes passes new s;
      match bp_failed passes with
      | Some (f, e) =>
          if hands_back f
          then _ ← release_all acqs; mret (Unexp e, s {{ scratch_acquisitions_ := [] }})
          else mret (Unexp e, s {{ scratch_acquisitions_ := acqs }})
      | None =>
          wants ← any_wants_fence acqs;
          mret (Val (Some (mkFrame acqs (bp_flags passes) test_only wants
                             (if bp_canvas_armed passes then bp_canvas_plane passes else None)
                             (bp_report passes (empty_report {{ layers_total := total; layers_skipped_no_frame := skipped }})))),
                s {{ scratch_acquisitions_ := [] }})
      end) w
     (fun r w' => kept w w' /\ core r.2 = core s /\ last_commit_seq_ r.2 = last_commit_seq_ s /\
        scene_inv (frame_acquisitions r.1) r.2 w' /\
        (forall st, r.1 = Val (Some st) -> fs_test_only st = test_only /\
           Forall (fun a => acq_layer a ∈ slot_layers s) (fs_acquisitions st)) /\
        (leaky passes = false -> left_in_scratch w' r.1 r.2 = []) /\
        (forall lost, balanced w (held_buffers new s) lost ->
           balanced w' (held_buffers (frame_acquisitions r.1) r.2) (left_in_scratch w' r.1 r.2 ++ lost))).
Proof.
  intros Hi Hlay. apply wp_bind. eapply wp_mono; [by apply wp_run_passes|].
  intros [acqs s1] w1 (Hs1 & Hacqs & Hc1 & Hn1 & Hi1). simpl in *. pose proof Hs1 as (Hk1 & _ & Hcalls).
  assert (Hb1 : forall lost, balanced w (held_buffers new s) lost -> balanced w1 (held_buffers acqs s1) lost).
  { intros lost. rewrite (held_core _ _ _ Hc1). apply balanced_frames; [done|]. unfold held_buffers.
    rewrite !frame_of_app, Hacqs, frame_of_mark. by rewrite !(frame_of_kept w w1). }
  destruct (bp_failed passes) as [[f e]|] eqn:Ef.
  - destruct (hands_back f) eqn:Eh.
    + apply wp_bind. eapply wp_mono.
      { eapply (wp_abandon acqs s1 (s1 {{ scratch_acquisitions_ := [] }})); [done|by destruct s1..]. }
      intros [] w2 (Hk2 & Hi2 & Hb2). apply wp_ret. simpl.
      split_and!; [by etrans|rewrite <- Hc1; by destruct s1|rewrite <- Hn1; by destruct s1|done|done| |].
      * by destruct s1.
      * intros lost Hb. apply Hb1, Hb2 in Hb. by destruct s1.
    + apply wp_ret. simpl.
      split_and!; [done|rewrite <- Hc1; by destruct s1|rewrite <- Hn1; by destruct s1| |done| |].
      * apply (scene_inv_core [] s1); [by destruct s1|by destruct s1|]. by apply (scene_inv_flight acqs).
      * unfold leaky. by rewrite Ef, Eh.
      * intros lost Hb. apply Hb1 in Hb. destruct s1; simpl in *.
        unfold balanced, held_buffers in *. rewrite Hb, !omap_app. simpl. by rewrite app_nil_r, <- !app_assoc.
  - apply wp_bind. eapply wp_mono; [eapply (wp_any_wants_fence acqs s1); [done|apply (inv_flight _ _ _ Hi1)]|].
    intros wants w2 ->. apply wp_ret. simpl.
    split_and!; [done|rewrite <- Hc1; by destruct s1|rewrite <- Hn1; by destruct s1| | |done|].
    + apply (scene_inv_core acqs s1); [by destruct s1|by destruct s1|done].
    + intros st [= <-]. simpl. split; [done|]. rewrite Hacqs. apply Forall_mark; [by intros i []|done].
    + intros lost Hb. rewrite (held_core acqs s1) by (by destruct s1).
      by apply Hb1.
Qed.

Lemma slot_layers_unpinned s s' :
  map unpinned (slots_ s') = map unpinned (slots_ s) -> slot_layers s' = slot_layers s.
Proof. intros Hm. apply map_unpinned_omap; [by intros []|done]. Qed.

Lemma wp_build_frame pick passes test_only s w :
  scene_inv [] s w ->
  wp (build_frame_into pick passes test_only s) w (fun r w' => build_post passes test_only s w r w').
Proof.
  intros Hi. unfold build_frame_into. cbv zeta. destruct (suspended_ s).
  { apply wp_ret. by split_rel. }
  apply wp_bind. eapply wp_mono; [by apply (wp_ensure_pins [])|]. intros s1 w1 (Hq1 & slots & -> & Hm).
  set (s1 := s {{ slots_ := slots }}).
  assert (Hi1 : scene_inv [] s1 w1) by (eapply scene_inv_quiet; [done|by apply scene_inv_pins]).
  assert (Hsl : slot_layers s1 = slot_layers s) by (apply slot_layers_unpinned; rewrite <- Hm; by destruct s).
  assert (Hbuilt : built s s1) by (split_rel; [rewrite <- Hm|..]; by destruct s).
  apply wp_bind. eapply wp_mono; [by apply (wp_mixing [] s1)|]. intros [] w2 Hq2.
  pose proof (scene_inv_steady _ _ _ _ Hq2 Hi1) as Hi2.
  apply wp_bind. eapply wp_mono; [eapply (wp_update_planes [] s1); [done|apply (inv_demoted _ _ _ Hi2)]|].
  intros [] w3 Hq3. pose proof (scene_inv_steady _ _ _ _ Hq3 Hi2) as Hi3.
  assert (Hs03 : steady w w3) by (etrans; [by apply quiet_steady|by etrans]). clear Hq1 Hq2 Hq3 Hi1 Hi2.
  apply wp_bind. eapply wp_mono; [by eapply (wp_acquire_all [] s1)|].
  intros [[r acqs] skipped] w4 (Hk4 & Hp4 & Hr4 & new & Hacqs & Hok & Hlay & Ha4). simpl in Hacqs. subst acqs.
  assert (Hi4 : scene_inv new s1 w4).
  { eapply scene_inv_flight; [done|]. eapply scene_inv_kept; [done| |exact Hi3]. by rewrite Hp4. }
  assert (Hk04 : kept w w4) by (etrans; [apply Hs03|done]).
  assert (Hb4 : forall lost, balanced w (held_buffers [] s) lost -> balanced w4 (held_buffers new s1) lost).
  { intros lost Hb. eapply balanced_acquired; [exact Hk4|done|done|]. eapply balanced_steady; [done|].
    by replace (held_buffers [] s1) with (held_buffers [] s) by (by destruct s). }
  rewrite Hsl in Hlay.
  destruct r as [u|e].
  - eapply wp_mono; [apply wp_after_acquire; [exact Hi4|by rewrite Hsl]|].
    intros [r s'] w5 (Hk5 & Hc5 & Hn5 & Hi5 & Hst & Hlost & Hb5). simpl in *.
    split_rel; simpl; [by etrans|by eapply built_core|done|by rewrite <- Hsl|done|auto].
  - apply wp_bind. eapply wp_mono.
    { apply (wp_abandon new s1 (s1 {{ scratch_acquisitions_ := [] }})); [done|by destruct s..]. }
    intros [] w5 (Hk5 & Hi5 & Hb5). apply wp_ret. split_rel; simpl; [by etrans| |done|done|by destruct s|].
    + eapply built_core; [| |exact Hbuilt]; by destruct s.
    + intros lost Hb. apply Hb4, Hb5 in Hb. by destruct s.
Qed.

(** ** Finalising *)

Lemma wp_drop_frame st s w :
  scene_inv (fs_acquisitions st) s w ->
  wp (drop_frame st) w (fun _ w' => kept w w' /\ scene_inv [] s w' /\
    (forall lost, balanced w (held_buffers (fs_acquisitions st) s) lost -> balanced w' (held_buffers [] s) lost)).
Proof.
  intros Hi. unfold drop_frame. case_bool_decide as He; [|by apply wp_abandon].
  apply wp_ret. rewrite He in *. by split_and!.
Qed.

Lemma wp_record_placements canvas acqs s w :
  scene_inv acqs s w -> wp (record_layer_placements canvas acqs) w (fun _ w' => quiet w w').
Proof.
  intros Hi. apply wp_for_each_quiet. intros a w1 Hin Hq. pose proof (scene_inv_quiet _ _ _ _ Hq Hi) as Hi1.
  pose proof (inv_flight _ _ _ Hi1) as Hf. rewrite Forall_forall in Hf. destruct (Hf a Hin) as [[Hl _] Hp].
  destruct (acq_planes_layer a) as [q|]; [|by apply wp_ret].
  destruct (twin_live _ _ _ q Hi1) as [pl Hpl]; [by apply Hp|].
  assert (Hlive : is_Some (w_layers w1 !! acq_layer a)).
  { apply (own_layers _ _ _ (inv_owns _ _ _ Hi1)). unfold scene_owned. set_solver. }
  apply wp_bind. eapply wp_deref_plane_layer; [done|].
  destruct (assigned_plane_ pl); [|destruct (_ && _)]; by apply wp_put_quiet.
Qed.

Lemma wp_stamp_fences dup i acqs fl s w :
  scene_inv fl s w -> Forall (entry_ok (scene_owned s) (retired_sources s)) acqs ->
  wp (stamp_fences dup i acqs) w (fun r w' => w' = w /\ frame_of w r = frame_of w acqs /\
    (forall ls ss, Forall (entry_ok ls ss) acqs -> Forall (entry_ok ls ss) r)).
Proof.
  intros Hi Ha. revert i. induction Ha as [|a acqs [Hl _] _ IH]; intros i; cbn [stamp_fences].
  { apply wp_ret. by split_and!. }
  destruct (owned_layer w _ _ (acq_layer a) (inv_owns _ _ _ Hi) Hl) as (l & Hll & _ & [src Hsrc]).
  apply wp_bind. eapply wp_deref_layer; [done|]. apply wp_bind. eapply wp_deref_source; [done|].
  apply wp_bind. eapply wp_mono; [apply IH|]. intros r w' (-> & Hf & Hok). apply wp_ret.
  set (a' := if src_wants_release_fence src then _ else a).
  assert (Ha' : acq_layer a' = acq_layer a /\ acq_retired_source a' = acq_retired_source a /\ acq_buffer a' = acq_buffer a).
  { unfold a'. destruct (src_wants_release_fence src); [|done]. destruct (dup i); [|done]. by destruct a. }
  destruct Ha' as (H1 & H2 & H3). split_and!; [done| |].
  - unfold frame_of in *. rewrite !omap_cons_app, Hf. f_equal. unfold entry, target. by rewrite H1, H2, H3.
  - intros ls ss [[Hx Hy] Hrest]%Forall_cons. constructor; [|by apply Hok]. split; rewrite ?H1, ?H2; done.
Qed.

Lemma wp_rotate acqs s w :
  scene_inv acqs s w ->
  wp (rotate acqs s) w (fun s' w' =>
    scene_inv [] s' w' /\ slots_ s' = slots_ s /\ last_commit_seq_ s' = u64 (last_commit_seq_ s + 1) /\
    structure_dirty_ s' = structure_dirty_ s /\ w_planes w' = w_planes w /\
    frame_of w' (prev_acquisitions_ s') = frame_of w acqs /\
    frame_of w' (prev_prev_acquisitions_ s') = frame_of w (prev_acquisitions_ s) /\
    (forall p, p ∈ slot_layers s -> ident <$> w_layers w' !! p = ident <$> w_layers w !! p) /\
    (forall lost, balanced w (held_buffers acqs s) lost -> balanced w' (held_buffers [] s') lost)).
Proof.
  intros Hi. pose proof Hi as [Ho Hs Hf Hout Hpla Hcomp Hd Hfl Hpr Hpp]. unfold rotate.
  apply wp_bind. eapply wp_mono; [by eapply wp_release_all|]. intros [] w1 (Hk1 & Hp1 & Hb1).
  pose proof (owns_kept _ _ _ _ Hk1 Ho) as Ho1.
  set (ls := slot_layers s ++ retire_pending_ s ++ retire_prev_ s).
  set (ss := retire_src_pending_ s ++ retire_src_prev_ s).
  assert (Hp : scene_owned s ≡ₚ retire_prev_prev_ s ++ ls).
  { rewrite (Permutation_app_comm (retire_prev_prev_ s)). unfold ls. by rewrite <- !app_assoc. }
  assert (Hp' : retired_sources s ≡ₚ retire_src_prev_prev_ s ++ ss).
  { rewrite (Permutation_app_comm (retire_src_prev_prev_ s)). unfold ss. by rewrite <- !app_assoc. }
  apply (owns_perm _ _ _ _ _ Hp Hp') in Ho1.
  apply wp_bind. eapply wp_mono; [by apply wp_free_layers|]. intros [] w2 (Ho2 & Hl2 & Hp2 & Hc2).
  apply wp_bind. eapply wp_mono; [by apply wp_free_sources|]. intros [] w3 (Ho3 & Hl3 & Hp3 & Hc3).
  apply wp_ret.
  assert (Hident : forall p, p ∈ ls -> ident <$> w_layers w3 !! p = ident <$> w_layers w !! p).
  { intros p Hin. rewrite Hl3, Hl2 by done. apply Hk1. }
  assert (Hframe : forall l ss' (l' : list AcquisitionSlot), l ⊆ ls -> Forall (entry_ok l ss') l' ->
                     frame_of w3 l' = frame_of w l').
  { intros l ss' l' Hin Hok. apply frame_of_ext. intros a Ha. rewrite Forall_forall in Hok.
    destruct (Hok a Ha) as [Hal _]. unfold entry, target. destruct (acq_retired_source a); [done|].
    assert (source_at w3 (acq_layer a) = source_at w (acq_layer a)) as ->; [|done].
    specialize (Hident (acq_layer a) (Hin _ Hal)). unfold source_at.
    destruct (w_layers w3 !! acq_layer a), (w_layers w !! acq_layer a); unfold ident in Hident; simpl in *; congruence. }
  assert (Hplanes : w_planes w3 = w_planes w) by congruence.
  assert (Hslots : forall i slot, slots_ s !! i = Some slot -> slot_ok w3 i slot).
  { eapply slots_ok_ident; [exact Hs|]. intros p Hin. apply Hident. unfold ls. set_solver. }
  assert (Hfa : frame_of w3 acqs = frame_of w acqs).
  { eapply (Hframe (slot_layers s ++ retire_pending_ s) []); [unfold ls; set_solver|].
    eapply Forall_impl; [exact Hfl|]. by intros a [? _]. }
  assert (Hfp : frame_of w3 (prev_acquisitions_ s) = frame_of w (prev_acquisitions_ s)) by (by eapply Hframe).
  split_and!; [|by destruct s|by destruct s|by destruct s|done|by destruct s|by destruct s|intros p Hin; apply Hident; unfold ls; set_solver|].
  - destruct s; simpl in *. split; unfold scene_owned, retired_sources, slot_layers in *; simpl in *; try done.
    + by rewrite Hplanes.
    + eapply Forall_impl; [exact Hfl|]. intros a [Ha _]. eapply entry_ok_incl; [| |exact Ha]; [|set_solver].
      unfold slot_layers; simpl. set_solver.
  - intros lost Hb. unfold held_buffers in Hb. apply Hb1 in Hb.
    eapply balanced_frames; [| |exact Hb]; [congruence|].
    unfold held_buffers. rewrite app_nil_r. destruct s; simpl in *. rewrite !frame_of_app, Hfa, Hfp.
    by rewrite !(frame_of_kept w w1).
Qed.

(** A frame that reached the screen turns the ring; any other gives its buffers
    back and leaves the ring alone. *)
Definition committed (kernel_result : expected unit) (st : FrameBuildState) : bool :=
  has_value kernel_result && negb (fs_test_only st).

Definition finalize_post (kernel_result : expected unit) (st : FrameBuildState) s w s' w' : Prop :=
  scene_inv [] s' w' /\ slots_ s' = slots_ s /\
  (forall lost, balanced w (held_buffers (fs_acquisitions st) s) lost -> balanced w' (held_buffers [] s') lost) /\
  if committed kernel_result st
  then frame_of w' (prev_acquisitions_ s') = frame_of w (fs_acquisitions st) /\
       frame_of w' (prev_prev_acquisitions_ s') = frame_of w (prev_acquisitions_ s) /\
       last_commit_seq_ s' = u64 (last_commit_seq_ s + 1) /\ structure_dirty_ s' = false
  else core s' = core s /\ kept w w' /\ last_commit_seq_ s' = last_commit_seq_ s.

Lemma wp_finalize_refused kernel_result st s s1 w (r : expected CommitReport) :
  scene_inv (fs_acquisitions st) s w -> committed kernel_result st = false ->
  core s1 = core s -> demoted_ s1 = demoted_ s -> last_commit_seq_ s1 = last_commit_seq_ s ->
  wp (_ ← release_all (fs_acquisitions st); mret (r, s1 {{ scratch_acquisitions_ := [] }})) w
     (fun r' w' => r'.1 = r /\ finalize_post kernel_result st s w r'.2 w').
Proof.
  intros Hi Hn Hc Hd Hl. set (s2 := s1 {{ scratch_acquisitions_ := [] }}).
  assert (Hc2 : core s2 = core s) by (rewrite <- Hc; by destruct s1).
  apply wp_bind. eapply wp_mono.
  { apply (wp_abandon _ s s2 w Hi Hc2). rewrite <- Hd. by destruct s1. }
  intros [] w' (Hk & Hi' & Hb). apply wp_ret. split; [done|]. unfold finalize_post. rewrite Hn. simpl.
  split_and!; try done; first [by injection Hc2; intros | rewrite <- Hl; by destruct s1].
Qed.

Lemma wp_turn kernel_result st fence dup s w (s1 : Scene) :
  scene_inv (fs_acquisitions st) s w -> committed kernel_result st = true ->
  core s1 = core s -> demoted_ s1 = demoted_ s -> last_commit_seq_ s1 = last_commit_seq_ s ->
  structure_dirty_ s1 = false ->
  wp (s2 ← (if match fence with Some f => fence_valid f | None => false end
            then prev ← stamp_fences dup 0 (prev_acquisitions_ s1); mret (s1 {{ prev_acquisitions_ := prev }})
            else mret s1);
      s3 ← rotate (fs_acquisitions st) s2;
      mret (Val ((fs_report st) {{ commit_seq := last_commit_seq_ s3 }}), s3)) w
     (fun r w' => finalize_post kernel_result st s w r.2 w').
Proof.
  intros Hi Hn Hc Hd Hl Hdirty.
  assert (Hi1 : scene_inv (fs_acquisitions st) s1 w) by (eapply scene_inv_core; [done|by rewrite Hd|done]).
  apply wp_bind. eapply (wp_mono _ _ (fun s2 w' => w' = w /\ scene_inv (fs_acquisitions st) s2 w /\
    slots_ s2 = slots_ s1 /\ last_commit_seq_ s2 = last_commit_seq_ s1 /\ structure_dirty_ s2 = false /\
    frame_of w (prev_acquisitions_ s2) = frame_of w (prev_acquisitions_ s1) /\
    prev_prev_acquisitions_ s2 = prev_prev_acquisitions_ s1)).
  { destruct (match fence with Some f => fence_valid f | None => false end); [|by apply wp_ret].
    apply wp_bind. eapply wp_mono; [eapply wp_stamp_fences; [done|by eapply prev_entries]|].
    intros prev w' (-> & Hf & Hok). apply wp_ret. split_and!; try (by destruct s1).
    destruct Hi1 as [Ho Hs Hfr Hout Hpla Hcomp Hdm Hfl Hpr Hpp]. apply Hok in Hpr. destruct s1; by split. }
  intros s2 w' (-> & Hi2 & Hsl & Hl2 & Hd2 & Hf & Hpp).
  apply wp_bind. eapply wp_mono; [by apply wp_rotate|].
  intros s3 w3 (Hi3 & Hsl3 & Hl3 & Hd3 & _ & Hfa & Hfp & _ & Hb). apply wp_ret. simpl.
  injection Hc as Hc1 _ _ _ Hc2 Hc3 _ _ _ _ _ _.
  split_rel; [done|congruence| |rewrite Hn; split_and!; try congruence].
  - intros lost Hbal. apply Hb. eapply balanced_frames; [reflexivity| |exact Hbal].
    unfold held_buffers. rewrite !frame_of_app, Hf, Hpp. congruence.
Qed.

Lemma finalize_post_steady kernel_result st s w w1 s' w' :
  steady w w1 -> finalize_post kernel_result st s w1 s' w' -> finalize_post kernel_result st s w s' w'.
Proof.
  intros Hq (Hi & Hsl & Hb & Hc). pose proof Hq as (Hk & _).
  split_rel; [done|done|intros lost Hbal; by apply Hb, (balanced_steady w)|].
  destruct (committed kernel_result st).
  - destruct Hc as (Hf & Hf' & ? & ?). rewrite Hf, Hf'. split_and!; try done; by apply frame_of_kept.
  - destruct Hc as (? & ? & ?). split_and!; [done|by etrans|done].
Qed.

Lemma wp_mark_live fl s w :
  scene_inv fl s w -> wp (for_each (fun p => put_layer p scene_mark_clean) (live_layers s)) w
    (fun _ w' => quiet w w').
Proof.
  intros Hi. apply wp_for_each_quiet. intros p w1 Hp Hq. apply wp_put_quiet; [|by intros []].
  rewrite (live_layers_all s w) in Hp by apply (inv_slots _ _ _ Hi).
  destruct (scene_layer_live fl s w1 p) as (l & Hl & _); [by eapply scene_inv_quiet|done|eauto].
Qed.

Lemma wp_mark_planes fl s w :
  scene_inv fl s w -> wp (planes_run (output_mark_clean (output_ s))) w (fun _ w' => steady w w').
Proof.
  intros Hi. destruct (output_mark_clean_spec (output_ s) (w_planes w) (inv_output _ _ _ Hi)) as (hp & Hm & _ & Hl).
  eapply wp_planes_run; [exact Hm|]. destruct w; simpl in *. split_rel; [by split_rel| |done].
  intros q [l Hq]. simpl in *. rewrite Hl, Hq. case_bool_decide; simpl; eauto.
Qed.

Lemma wp_finalize kernel_result st fence dup s w :
  scene_inv (fs_acquisitions st) s w ->
  wp (finalize_frame st kernel_result fence dup s) w (fun r w' =>
    finalize_post kernel_result st s w r.2 w').
Proof.
  intros Hi. unfold finalize_frame. cbv zeta. destruct kernel_result as [[]|e].
  2: { eapply wp_mono; [apply (wp_finalize_refused (Unexp e) st s (note_refusal e (fb_delta_fast_path (fs_report st)) s) w (Unexp e)); try done|by intros r w' [_ ?]];
       unfold note_refusal; destruct (decide (e = EACCES)), (fb_delta_fast_path (fs_report st)); by destruct s. }
  destruct (fs_test_only st) eqn:Et.
  { eapply wp_mono; [apply (wp_finalize_refused (Val tt) st s s w (Val (fs_report st))); try done|by intros r w' [_ ?]].
    unfold committed; simpl. by rewrite Et. }
  set (s1 := s {{ first_commit_ := false; committed_canvas_plane_ := fs_canvas_plane st }}).
  assert (Hi1 : scene_inv (fs_acquisitions st) s1 w) by (apply (scene_inv_core _ s); by destruct s).
  apply wp_bind. eapply wp_mono; [by eapply wp_mark_live|]. intros [] w1 Hq1.
  pose proof (scene_inv_quiet _ _ _ _ Hq1 Hi1) as Hi2.
  apply wp_bind. eapply wp_mono; [by eapply wp_record_placements|]. intros [] w2 Hq2.
  pose proof (scene_inv_quiet _ _ _ _ Hq2 Hi2) as Hi3.
  apply wp_bind. eapply wp_mono; [by eapply wp_mark_planes|]. intros [] w3 Hq3.
  assert (Hq : steady w w3) by (etrans; [by apply quiet_steady|]; etrans; [by apply quiet_steady|done]).
  eapply wp_mono.
  { apply (wp_turn (Val tt) st fence dup s w3); try (by destruct s).
    - by eapply scene_inv_steady.
    - unfold committed; simpl. by rewrite Et. }
  intros r w4 Hpost. by eapply finalize_post_steady.
Qed.

(** ** Destruction *)

Lemma wp_destroy s w :
  scene_inv [] s w ->
  wp (destroy s) w (fun _ w' => w_layers w' = ∅ /\ w_sources w' = ∅ /\
    (forall lost, balanced w (held_buffers [] s) lost -> balanced w' [] lost)).
Proof.
  intros Hi. unfold destroy. apply wp_bind. eapply wp_mono; [by apply wp_release_pending|].
  intros s1 w1 (Hi1 & Hd & _ & _ & Hb). pose proof (inv_owns _ _ _ Hi1) as Ho.
  destruct Hd as (_ & _ & _ & _ & _ & _ & _ & Hr1 & Hr2 & Hr3 & Hrs & _).
  unfold scene_owned in Ho. rewrite Hr1, Hr2, Hr3, Hrs in Ho. simpl in Ho.
  eapply wp_mono; [by apply wp_free_layers|]. intros [] w2 (Ho2 & _ & _ & Hc).
  split_and!.
  - apply map_empty. intros p. apply eq_None_not_Some. rewrite (own_layers _ _ _ Ho2). apply not_elem_of_nil.
  - apply map_empty. intros p. apply eq_None_not_Some. rewrite (own_sources _ _ _ Ho2). apply not_elem_of_nil.
  - intros lost Hbal. apply (balanced_ext w1); [done|by intros a ?%not_elem_of_nil|auto].
Qed.

End SceneBuild.
