(* ===== verification/SceneLife.v ===== *)
(** Every run of a scene: the operations of its interface in any order, the
    producers and the display included, and what holds throughout. *)
From S2P Require Import Prelude StateMonad DrmAbi Layer Output AllocState RingPresenter BufferSource.
From S2P Require Import SceneLayer SceneMemory Scene SceneFrame SceneOwn SceneInv SceneRing SceneBuild.

(** ** Runs *)

Inductive SceneOp (Src : Type) :=
  | OAdd (desc : LayerDesc Src)
  | OReplace (h : LayerHandle) (new : option Src)
  | ORemove (h : LayerHandle)
  | OEdit (h : LayerHandle) (cond : bool) (e : LayerEdit)
  | OBuild (pick : option (Z -> list Z -> option Z)) (passes : BuildPasses) (test_only : bool)
  | OFinalize (kernel_result : expected unit) (fence : option SyncFence) (dup : nat -> option SyncFence)
  | ODrop
  | OFlip
  | ODisplaced (seq : Z)
  | OPause
  | OResume (read : expected unit) (fresh : Allocator)
  | ORebind (crtc_id mode_w mode_h : Z) (read : expected unit) (fresh : Allocator)
  | OProduce (x : positive) (f : Src -> Src).
Arguments OAdd {Src}.
Arguments OReplace {Src}.
Arguments ORemove {Src}.
Arguments OEdit {Src}.
Arguments OBuild {Src}.
Arguments OFinalize {Src}.
Arguments ODrop {Src}.
Arguments OFlip {Src}.
Arguments ODisplaced {Src}.
Arguments OPause {Src}.
Arguments OResume {Src}.
Arguments ORebind {Src}.
Arguments OProduce {Src}.

(** A frame on the display: each layer shown, with its producer and buffer. *)
Definition Frame : Type := list (positive * (positive * AcquiredBuffer)).

(** What a run remembers beside the scene: the frame being built, the buffers
    failed builds left behind, the frames the display may be scanning out
    (the newest first), the handles given out with their layers, and the ones
    removed. *)
Record Run := mkRun {
  r_flight : option FrameBuildState;
  r_lost : list (positive * AcquiredBuffer);
  r_scan : list Frame;
  r_named : list (LayerHandle * positive);
  r_removed : list LayerHandle
}.

Definition flight (g : Run) : list AcquisitionSlot :=
  match r_flight g with Some st => fs_acquisitions st | None => [] end.

Definition on_screen (g : Run) : Frame := default [] (head (r_scan g)).

Section SceneLife.
Context {Src : Type} `{HS : LayerBufferSource Src}.
Implicit Types (w : World Src) (s : Scene) (g : Run) (acqs : list AcquisitionSlot).

(** After a commit each acquired layer shows its buffer; a layer that is still
    there but had no frame keeps the one it showed. *)
Definition shown (new : Frame) s acqs (old : Frame) : Frame :=
  new ++ filter (fun e => e.1 ∈ slot_layers s /\ e.1 ∉ (acq_layer <$> acqs)) old.

Definition edit_layer (h : LayerHandle) (cond : bool) (e : LayerEdit) (s : Scene) : Mem Src unit :=
  match get_layer h s with
  | Some p => put_layer p (apply_edit cond e)
  | None => mret tt
  end.

Definition name_of (r : expected LayerHandle) (s : Scene) : list (LayerHandle * positive) :=
  match r with
  | Val h => match get_layer h s with Some p => [(h, p)] | None => [] end
  | Unexp _ => []
  end.

Definition run_op (op : SceneOp Src) (s : Scene) (g : Run) : Mem Src (Scene * Run) :=
  match op with
  | OAdd desc =>
      '(r, s) ← add_layer desc s;
      mret (s, g {{ r_named ::= fun l => name_of r s ++ l }})
  | OReplace h new => '(_, s) ← replace_source h new s; mret (s, g)
  | ORemove h =>
      s' ← remove_layer h s;
      mret (s', g {{ r_removed ::= fun l => if bool_decide (is_Some (slot_for h s)) then h :: l else l }})
  | OEdit h cond e => _ ← edit_layer h cond e s; mret (s, g)
  | OBuild pick passes test_only =>
      '(r, s) ← build_frame_into pick passes test_only s;
      lost ← gets (fun w => left_in_scratch w r s);
      mret (s, g {{ r_flight := match r with Val st => st | Unexp _ => None end;
                    r_lost ::= fun l => lost ++ l }})
  | OFinalize kernel_result fence dup =>
      match r_flight g with
      | None => mret (s, g)
      | Some st =>
          '(_, s) ← finalize_frame st kernel_result fence dup s;
          new ← gets (fun w => frame_of w (prev_acquisitions_ s));
          mret (s, g {{ r_flight := None;
                        r_scan ::= fun scan =>
                          if committed kernel_result st
                          then shown new s (fs_acquisitions st) (on_screen g) :: scan
                          else scan }})
      end
  | ODrop =>
      match r_flight g with
      | None => mret (s, g)
      | Some st => _ ← drop_frame st; mret (s, g {{ r_flight := None }})
      end
  | OFlip => mret (s, g {{ r_scan ::= take 1 }})
  | ODisplaced seq => s ← release_displaced seq s; mret (s, g)
  | OPause => s ← on_session_paused s; mret (s, g {{ r_scan := [] }})
  | OResume read fresh => '(_, s) ← on_session_resumed read fresh s; mret (s, g)
  | ORebind crtc_id mode_w mode_h read fresh => '(_, s) ← rebind crtc_id mode_w mode_h read fresh s; mret (s, g {{ r_scan := [] }})
  | OProduce x f => _ ← call_source_ f x; mret (s, g)
  end.

(** What the callers respect: between a build and its finalisation no layer is
    removed, no source replaced and no session or binding changed; the kernel
    accepts a frame once the one before has landed, and each frame covers the
    layers on screen; buffers are only taken back early after the flip; pauses
    and rebinds come when nothing is scanned out. *)
Definition op_allowed (op : SceneOp Src) (s : Scene) w (g : Run) : Prop :=
  match op with
  | OReplace _ _ | ORemove _ | OBuild _ _ _ | OPause | ORebind _ _ _ _ _ => r_flight g = None
  | OFinalize kernel_result _ _ =>
      exists st, r_flight g = Some st /\
        (committed kernel_result st = true ->
         (length (r_scan g) <= 1)%nat /\
         forall e, e ∈ on_screen g -> e.1 ∈ slot_layers s -> e.1 ∈ (acq_layer <$> fs_acquisitions st))
  | ODrop => is_Some (r_flight g)
  | ODisplaced seq => displaced seq s = true -> (length (r_scan g) <= 1)%nat
  | OProduce x _ => is_Some (w_sources w !! x)
  | _ => True
  end.

Inductive reach : Scene -> World Src -> Run -> Prop :=
  | reach_start comp crtc_id o a mixing hp0 hp :
      make_output crtc_id comp hp0 = Some (o, hp) ->
      reach (make_scene comp o a mixing) (mkWorld ∅ ∅ hp 1%positive []) (mkRun None [] [] [] [])
  | reach_step s w g op s' g' w' :
      reach s w g -> op_allowed op s w g -> run_op op s g w = Some ((s', g'), w') -> reach s' w' g'.

(** ** The invariant of a run *)

(** The frames being scanned out are the ring's. *)
Definition scan_ok (scan : list Frame) s w : Prop :=
  match scan with
  | [] => True
  | [f] => f = frame_of w (prev_acquisitions_ s)
  | [f; f'] => f = frame_of w (prev_acquisitions_ s) /\ f' = frame_of w (prev_prev_acquisitions_ s)
  | _ => False
  end.

Record run_inv s w g : Prop := mkRunInv {
  ri_scene : scene_inv (flight g) s w;
  ri_books : balanced w (held_buffers (flight g) s) (r_lost g);
  ri_scan : scan_ok (r_scan g) s w
}.

Lemma scan_ok_same scan s w s' w' :
  ring_same s w s' w' -> scan_ok scan s w -> scan_ok scan s' w'.
Proof. intros [Hp Hpp]. unfold scan_ok. destruct scan as [|f [|f' [|]]]; rewrite ?Hp, ?Hpp; done. Qed.

Lemma run_inv_undisturbed s w g s' w' g' :
  undisturbed (flight g) s w s' w' -> flight g' = flight g -> r_lost g' = r_lost g -> r_scan g' = r_scan g ->
  run_inv s w g -> run_inv s' w' g'.
Proof.
  intros Hu Hf Hl Hs [Hi Hb Hsc]. pose proof Hu as (Hi' & Hr & _). split; rewrite ?Hf, ?Hl, ?Hs.
  - done.
  - by eapply balanced_undisturbed.
  - by eapply scan_ok_same.
Qed.

Lemma edit_undisturbed fl s w h cond e :
  scene_inv fl s w -> wp (edit_layer h cond e s) w (fun _ w' => undisturbed fl s w s w').
Proof.
  intros Hi. unfold edit_layer. destruct (get_layer h s) as [p|] eqn:Eg.
  2: { apply wp_ret. by apply undisturbed_refl. }
  assert (Hp : p ∈ slot_layers s).
  { unfold get_layer in Eg. destruct (slot_for h s) as [i|]; [|done]. simpl in Eg.
    destruct (slots_ s !! i) as [slot|] eqn:Es; [|done]. apply list_elem_of_omap.
    exists slot. split; [by eapply list_elem_of_lookup_2|done]. }
  destruct (scene_layer_live _ _ _ _ Hi Hp) as (l & Hl & _).
  eapply wp_mono; [apply wp_put_quiet; [eauto|intros ?; apply apply_edit_ident]|].
  intros [] w' Hq. by apply undisturbed_quiet.
Qed.

Lemma shown_covered new s acqs (old : Frame) :
  (forall e, e ∈ old -> e.1 ∈ slot_layers s -> e.1 ∈ (acq_layer <$> acqs)) -> shown new s acqs old = new.
Proof.
  intros Hc. unfold shown. transitivity (new ++ []); [f_equal|apply app_nil_r].
  apply filter_none. intros e He [Hl Hn]. by apply Hn, Hc.
Qed.

(** What an operation does to the table of handles. *)
Definition table_step (op : SceneOp Src) s g s' g' : Prop :=
  match op with
  | OAdd _ =>
      r_removed g' = r_removed g /\
      ((exists h p, slot_added s h p s' /\ r_named g' = (h, p) :: r_named g) \/
       (s' = s /\ r_named g' = r_named g))
  | ORemove h =>
      r_named g' = r_named g /\
      match slot_for h s with
      | None => s' = s /\ r_removed g' = r_removed g
      | Some i => r_removed g' = h :: r_removed g /\ exists slot pin, slots_ s !! i = Some slot /\
          slots_ s' = <[i := mkSlot None None (generation slot) false pin]> (slots_ s)
      end
  | _ => Forall2 same_tenant (slots_ s) (slots_ s') /\ r_named g' = r_named g /\ r_removed g' = r_removed g
  end.

Lemma get_layer_added s h p s' : slot_added s h p s' -> get_layer h s' = Some p.
Proof.
  intros (i & q & pin & -> & _ & _ & Hi). pose proof (lookup_lt_Some _ _ _ Hi) as Hlt.
  unfold get_layer, slot_for; simpl in *.
  destruct (N.eqb_spec (N.of_nat i + 1) 0); [lia|].
  destruct (N.ltb_spec (N.of_nat (length (slots_ s'))) (N.of_nat i + 1)); [lia|]. simpl.
  replace (N.to_nat (N.of_nat i + 1 - 1)) with i by lia. rewrite Hi. simpl. rewrite Z.eqb_refl. simpl.
  rewrite Hi. done.
Qed.

Lemma tenants_eq slots slots' : slots' = slots -> Forall2 same_tenant slots slots'.
Proof. intros ->. apply tenants_refl. Qed.

Lemma tenants_unpinned slots slots' : map unpinned slots' = map unpinned slots -> Forall2 same_tenant slots slots'.
Proof.
  revert slots'. induction slots as [|x slots IH]; intros [|x' slots']; try done.
  cbn [map]. intros Hc. pose proof (f_equal (hd (unpinned x)) Hc) as Hx. pose proof (f_equal tail Hc) as Hr.
  cbn [hd tail] in Hx, Hr. constructor; [|by apply IH].
  destruct x, x'; unfold unpinned in Hx; simpl in *. injection Hx as -> -> -> ->. by split_rel.
Qed.

(** ** Every operation keeps the invariant *)

Definition keeps (op : SceneOp Src) s g (r : Scene * Run) w' : Prop :=
  run_inv r.1 w' r.2 /\ table_step op s g r.1 r.2.

Lemma keep_add desc s w g :
  run_inv s w g -> wp (run_op (OAdd desc) s g) w (fun r w' => keeps (OAdd desc) s g r w').
Proof.
  intros Hi. apply wp_bind. eapply wp_mono; [eapply wp_add_layer; apply (ri_scene _ _ _ Hi)|].
  intros [r s'] w' [Hu Hr]. apply wp_ret. simpl in *. split; simpl.
  - eapply run_inv_undisturbed; [exact Hu|by destruct g..|done].
  - split; [by destruct g|]. destruct r as [h|e].
    + destruct Hr as [p Hr]. left. exists h, p. split; [done|]. unfold name_of.
      rewrite (get_layer_added _ _ _ _ Hr). by destruct g.
    + right. split; [done|by destruct g].
Qed.

Lemma keep_replace h new s w g :
  run_inv s w g -> r_flight g = None ->
  wp (run_op (OReplace h new) s g) w (fun r w' => keeps (OReplace h new) s g r w').
Proof.
  intros Hi Hf. assert (Hfl : flight g = []) by (unfold flight; by rewrite Hf).
  pose proof (ri_scene _ _ _ Hi) as Hs. rewrite Hfl in Hs.
  apply wp_bind. eapply wp_mono; [by apply wp_replace_source|]. intros [r s'] w' (Hu & Hsl & _). apply wp_ret.
  simpl in *. split; simpl.
  - eapply run_inv_undisturbed; [by rewrite Hfl|done..].
  - split_and!; [by apply tenants_eq|done..].
Qed.

Lemma keep_remove h s w g :
  run_inv s w g -> r_flight g = None ->
  wp (run_op (ORemove h) s g) w (fun r w' => keeps (ORemove h) s g r w').
Proof.
  intros Hi Hf. assert (Hfl : flight g = []) by (unfold flight; by rewrite Hf).
  pose proof (ri_scene _ _ _ Hi) as Hs. rewrite Hfl in Hs.
  apply wp_bind. eapply wp_mono; [by apply wp_remove_layer|]. intros s' w' (Hu & Hsl). apply wp_ret.
  assert (Hfl' : flight (g {{ r_removed ::= fun l => if bool_decide (is_Some (slot_for h s)) then h :: l else l }}) = flight g)
    by (by destruct g).
  split; simpl.
  - eapply run_inv_undisturbed; [by rewrite Hfl|exact Hfl'|by destruct g..|done].
  - split; [by destruct g|]. destruct (slot_for h s) as [i|].
    + split; [by destruct g|done].
    + split; [done|by destruct g].
Qed.

Lemma keep_build pick passes test_only s w g :
  run_inv s w g -> r_flight g = None ->
  wp (run_op (OBuild pick passes test_only) s g) w (fun r w' => keeps (OBuild pick passes test_only) s g r w').
Proof.
  intros [Hs Hb Hsc] Hf. assert (Hfl : flight g = []) by (unfold flight; by rewrite Hf).
  rewrite Hfl in Hs, Hb.
  apply wp_bind. eapply wp_mono; [by apply wp_build_frame|].
  intros [r s'] w' (Hk & (Hm & Hp & Hpp & _) & Hi & _ & _ & Hbal). simpl in *.
  apply wp_bind, wp_gets, wp_ret.
  assert (Hfr : frame_acquisitions r = match (match r with Val st => st | Unexp _ => None end) with
                                       | Some st => fs_acquisitions st | None => [] end) by (by destruct r as [[]|]).
  split; simpl; destruct g; simpl in *.
  - split; simpl.
    + unfold flight; simpl. by rewrite <- Hfr.
    + unfold flight; simpl. rewrite <- Hfr. auto.
    + eapply scan_ok_same; [|exact Hsc]. split; rewrite ?Hp, ?Hpp; by apply frame_of_kept.
  - split_and!; [by apply tenants_unpinned|done..].
Qed.

Lemma keep_finalize kernel_result fence dup s w g :
  run_inv s w g -> op_allowed (OFinalize kernel_result fence dup) s w g ->
  wp (run_op (OFinalize kernel_result fence dup) s g) w
     (fun r w' => keeps (OFinalize kernel_result fence dup) s g r w').
Proof.
  intros [Hs Hb Hsc] (st & Hst & Hcov). unfold flight in Hs, Hb. cbn [run_op]. rewrite Hst in *.
  apply wp_bind. eapply wp_mono; [by apply wp_finalize|]. intros [r s'] w' (Hi & Hsl & Hbal & Hc). simpl in *.
  apply wp_bind, wp_gets, wp_ret. split; simpl; destruct g as [fl lost scan named removed]; simpl in *.
  2: { split_and!; [by apply tenants_eq|done..]. }
  split; unfold flight; simpl; [done|auto|].
  destruct (committed kernel_result st).
  - destruct (Hcov eq_refl) as [Hlen Hin]. destruct Hc as (Hp & Hpp & _).
    assert (Hl : slot_layers s' = slot_layers s) by (unfold slot_layers; by rewrite Hsl).
    rewrite shown_covered; [|intros e He Hlay; apply Hin; [done|by rewrite <- Hl]].
    unfold on_screen in *; simpl in *. destruct scan as [|f [|]]; simpl in *; [done| |lia].
    split; [done|]. by rewrite Hpp.
  - destruct Hc as (Hcore & Hk & _). eapply scan_ok_same; [|exact Hsc].
    unfold core in Hcore. injection Hcore. intros. split; rewrite (frame_of_kept w w') by done; congruence.
Qed.

Lemma keep_drop s w g :
  run_inv s w g -> is_Some (r_flight g) -> wp (run_op ODrop s g) w (fun r w' => keeps ODrop s g r w').
Proof.
  intros [Hs Hb Hsc] [st Hst]. unfold flight in Hs, Hb. cbn [run_op]. rewrite Hst in *.
  apply wp_bind. eapply wp_mono; [by apply wp_drop_frame|]. intros [] w' (Hk & Hi & Hbal). apply wp_ret.
  destruct g; simpl in *. split; simpl; [|split_and!; [apply tenants_refl|done..]].
  split; unfold flight; simpl; [done|auto|]. eapply scan_ok_same; [|exact Hsc]. split; by apply frame_of_kept.
Qed.

Lemma keep_displaced seq s w g :
  run_inv s w g -> (displaced seq s = true -> (length (r_scan g) <= 1)%nat) ->
  wp (run_op (ODisplaced seq) s g) w (fun r w' => keeps (ODisplaced seq) s g r w').
Proof.
  intros [Hs Hb Hsc] Hlen. apply wp_bind. eapply wp_mono; [by apply wp_release_displaced|].
  intros s' w' (Hi & He & Hk & Hbal). apply wp_ret. split; simpl.
  - split; [done|auto|]. rewrite He. destruct (displaced seq s).
    + specialize (Hlen eq_refl). destruct (r_scan g) as [|f [|]]; simpl in *; [done| |lia].
      rewrite Hsc. destruct s; simpl. symmetry. by apply frame_of_kept.
    + eapply scan_ok_same; [|exact Hsc]. split; by apply frame_of_kept.
  - split_and!; [apply tenants_eq|done..]. rewrite He. destruct (displaced seq s); [by destruct s|done].
Qed.

(** Where the ring was emptied nothing is on the display. *)
Lemma run_inv_empty s w g s' w' :
  r_flight g = None -> scene_inv [] s' w' ->
  prev_acquisitions_ s' = [] -> prev_prev_acquisitions_ s' = [] ->
  balanced w' [] (r_lost g) -> run_inv s' w' (g {{ r_scan := [] }}).
Proof.
  intros Hf Hi Hp Hpp Hb. destruct g; simpl in *. subst. split; unfold flight; simpl; [done| |done].
  unfold held_buffers. by rewrite Hp, Hpp.
Qed.

Lemma keep_pause s w g :
  run_inv s w g -> r_flight g = None -> wp (run_op OPause s g) w (fun r w' => keeps OPause s g r w').
Proof.
  intros [Hs Hb _] Hf. unfold flight in Hs, Hb. rewrite Hf in Hs, Hb.
  apply wp_bind. eapply wp_mono; [by apply wp_on_session_paused|]. intros s' w' (Hi & Hsl & Hp & Hpp & Hbal).
  apply wp_ret. split; simpl; [apply (run_inv_empty s w); auto|].
  split_and!; [|by destruct g..]. apply tenants_unpinned. rewrite Hsl, map_map. apply map_ext. by intros [].
Qed.

Lemma keep_rebind crtc_id mode_w mode_h read fresh s w g :
  run_inv s w g -> r_flight g = None ->
  wp (run_op (ORebind crtc_id mode_w mode_h read fresh) s g) w (fun r w' => keeps (ORebind crtc_id mode_w mode_h read fresh) s g r w').
Proof.
  intros [Hs Hb _] Hf. unfold flight in Hs, Hb. rewrite Hf in Hs, Hb.
  apply wp_bind. eapply wp_mono; [by apply wp_rebind|]. intros [r s'] w' (Hi & Hsl & Hp & Hpp & Hbal).
  apply wp_ret. split; simpl in *; [apply (run_inv_empty s w); auto|]. split_and!; [done|by destruct g..].
Qed.

Lemma keep_resume read fresh s w g :
  run_inv s w g -> wp (run_op (OResume read fresh) s g) w (fun r w' => keeps (OResume read fresh) s g r w').
Proof.
  intros Hi. apply wp_bind. eapply wp_mono; [apply wp_on_session_resumed, (ri_scene _ _ _ Hi)|].
  intros [r s'] w' (Hu & Hsl & _). apply wp_ret. split; simpl in *; [by eapply run_inv_undisturbed|].
  split_and!; [by apply tenants_eq|done..].
Qed.

Lemma keep_same (m : Mem Src unit) op s w g :
  run_inv s w g -> (forall w', table_step op s g s g) ->
  wp m w (fun _ w' => undisturbed (flight g) s w s w') ->
  wp (_ ← m; mret (s, g)) w (fun r w' => keeps op s g r w').
Proof.
  intros Hi Ht Hm. apply wp_bind. eapply wp_mono; [exact Hm|]. intros [] w' Hu. apply wp_ret.
  split; simpl; [by eapply run_inv_undisturbed|auto].
Qed.

Lemma keep_op op s w g :
  run_inv s w g -> op_allowed op s w g -> wp (run_op op s g) w (fun r w' => keeps op s g r w').
Proof.
  intros Hi Ha. pose proof (ri_scene _ _ _ Hi) as Hs.
  assert (Hsame : Forall2 same_tenant (slots_ s) (slots_ s) /\ r_named g = r_named g /\ r_removed g = r_removed g)
    by (by split_and!; [apply tenants_refl|..]).
  destruct op; simpl in Ha.
  - by apply keep_add. - by apply keep_replace. - by apply keep_remove.
  - apply keep_same; [done|done|by apply edit_undisturbed].
  - by apply keep_build. - by apply keep_finalize. - by apply keep_drop.
  - apply wp_ret. destruct Hi as [_ Hb Hsc], g as [fl lost scan named removed]. split; simpl; [|done].
    split; simpl in *; [done|done|]. by destruct scan as [|f [|f' []]]; simpl in *; try done; destruct Hsc.
  - by apply keep_displaced. - by apply keep_pause. - by apply keep_resume. - by apply keep_rebind.
  - apply keep_same; [done|done|]. eapply wp_mono; [by apply wp_call_quiet_|].
    intros [] w' Hq. by apply undisturbed_quiet.
Qed.

Lemma run_inv_start comp crtc_id o a mixing hp0 hp :
  make_output crtc_id comp hp0 = Some (o, hp) ->
  run_inv (make_scene comp o a mixing) (mkWorld ∅ ∅ hp 1%positive []) (mkRun None [] [] [] []).
Proof.
  intros Hm. pose proof (make_output_ok _ _ _ _ _ Hm) as Hok.
  unfold make_output in Hm. destruct (update_layer _ comp hp0) as [hp1|]; [|done]. injection Hm as <- <-.
  split; [|apply Permutation_refl|done]. split; unfold scene_owned, retired_sources, slot_layers, flight; simpl; try done.
  - split; simpl; [|constructor| |constructor|]; intros p; rewrite !lookup_empty.
    + split; [by intros []|by intros ?%not_elem_of_nil].
    + split; [by intros []|by intros ?%not_elem_of_nil].
    + by intros [[]|[]].
  - split; [constructor|]. intros i. split; [by intros ?%not_elem_of_nil|].
    intros (slot & Hi & _). by rewrite lookup_nil in Hi.
Qed.

Lemma reach_inv s w g : reach s w g -> run_inv s w g.
Proof.
  induction 1 as [comp crtc_id o a mixing hp0 hp Hm | s w g op s' g' w' _ IH Ha Hr]; [by eapply run_inv_start|].
  destruct (keep_op op s w g IH Ha) as ([s1 g1] & w1 & Hr1 & Hi & _).
  rewrite Hr in Hr1. by injection Hr1 as <- <- <-.
Qed.

Lemma reach_table s w g op s' g' w' :
  reach s w g -> op_allowed op s w g -> run_op op s g w = Some ((s', g'), w') -> table_step op s g s' g'.
Proof.
  intros Hre Ha Hr. destruct (keep_op op s w g (reach_inv _ _ _ Hre) Ha) as ([s1 g1] & w1 & Hr1 & _ & Ht).
  rewrite Hr in Hr1. by injection Hr1 as <- <- <-.
Qed.

End SceneLife.
