(* ===== verification/SceneLive.v ===== *)
(** What becomes of the layers and sources a scene retires: which operations
    move them along the two-deep ring, and that each is freed when its turn
    comes, no sooner and no later. *)
From S2P Require Import Prelude StateMonad DrmAbi Layer Output AllocState RingPresenter BufferSource.
From S2P Require Import SceneLayer SceneMemory Scene SceneFrame SceneOwn SceneInv SceneRing SceneBuild SceneLife.

(** The retirement lists, the newest first. *)
Definition retirees (s : Scene) : list (list positive) := [retire_pending_ s; retire_prev_ s; retire_prev_prev_ s].
Definition retired_srcs (s : Scene) : list (list positive) :=
  [retire_src_pending_ s; retire_src_prev_ s; retire_src_prev_prev_ s].

(** How many places an operation moves them: one for an accepted frame, all
    of them when the ring is drained. *)
Definition credit {Src} (op : SceneOp Src) (g : Run) : nat :=
  match op, r_flight g with
  | OFinalize kernel_result _ _, Some st => if committed kernel_result st then 1 else 0
  | OPause, _ | ORebind _ _ _ _ _, _ => 3
  | _, _ => 0
  end.

(** A run from one state to another, with the places moved on the way. *)
Inductive follows {Src} `{LayerBufferSource Src} (s0 : Scene) (w0 : World Src) (g0 : Run)
  : nat -> Scene -> World Src -> Run -> Prop :=
  | follows_here : follows s0 w0 g0 0 s0 w0 g0
  | follows_step n s w g op s' g' w' :
      follows s0 w0 g0 n s w g -> op_allowed op s w g -> run_op op s g w = Some ((s', g'), w') ->
      follows s0 w0 g0 (n + credit op g) s' w' g'.

Section Yields.
Context {Src : Type} `{HS : LayerBufferSource Src}.
Implicit Types (w : World Src) (s : Scene) (g : Run).

(** Locations are not given out again, and a layer's source is the one it had
    or a new one. *)
Definition later w w' : Prop :=
  (w_next w <= w_next w')%positive /\
  forall p x, source_at w' p = Some x -> source_at w p = Some x \/ (w_next w <= x)%positive.

#[export] Instance later_preorder : PreOrder later.
Proof.
  split.
  - intros w. by split; [lia|auto].
  - intros a b c [Hn Hs] [Hn' Hs']. split; [lia|]. intros p x Hx.
    destruct (Hs' p x Hx) as [Hb|Hb]; [|right; lia]. destruct (Hs p x Hb); [by left|by right].
Qed.

Definition yields_at {A} w (m : Mem Src A) (Q : A -> Prop) : Prop :=
  forall a w', m w = Some (a, w') -> later w w' /\ Q a.
(** Whenever it returns. *)
Definition yields {A} (m : Mem Src A) (Q : A -> Prop) : Prop := forall w, yields_at w m Q.
Definition anything {A} (a : A) : Prop := True.

Lemma yields_ret {A} (a : A) (Q : A -> Prop) : Q a -> yields (mret a) Q.
Proof. intros HQ w b w' [= <- <-]. by split. Qed.

Lemma yields_at_bind {A B} w (m : Mem Src A) (f : A -> Mem Src B) (P : A -> Prop) (Q : B -> Prop) :
  yields_at w m P -> (forall a w1, later w w1 -> P a -> yields_at w1 (f a) Q) -> yields_at w (m ≫= f) Q.
Proof.
  intros Hm Hf b w' (a & w1 & Ha & Hb)%bind_run. destruct (Hm a w1 Ha) as [Hl HP].
  destruct (Hf a w1 Hl HP b w' Hb) as [Hl' HQ]. split; [by etrans|done].
Qed.

Lemma yields_bind {A B} (m : Mem Src A) (f : A -> Mem Src B) (P : A -> Prop) (Q : B -> Prop) :
  yields m P -> (forall a, P a -> yields (f a) Q) -> yields (m ≫= f) Q.
Proof. intros Hm Hf w. eapply yields_at_bind; [apply Hm|]. intros a w1 _ Ha. by apply Hf. Qed.

Lemma yields_for_each {A} (f : A -> Mem Src unit) l :
  (forall a, yields (f a) anything) -> yields (for_each f l) anything.
Proof.
  intros Hf. induction l as [|a l IH]; simpl; [by apply yields_ret|].
  by eapply yields_bind; [apply Hf|intros _ _].
Qed.

Lemma later_same w w' : w_layers w' = w_layers w -> w_next w' = w_next w -> later w w'.
Proof. intros Hl Hn. split; [by rewrite Hn|]. intros p x. unfold source_at. rewrite Hl. by left. Qed.

Lemma yields_pure {A} (f : World Src -> option A) : yields (fun w => a ← f w; Some (a, w)) anything.
Proof. intros w a w' Hr. destruct (f w) as [b|]; simplify_eq/=. by split. Qed.
Lemma yields_deref_layer p : yields (deref_layer p) anything.
Proof. apply (yields_pure (fun w => w_layers w !! p)). Qed.
Lemma yields_deref_source x : yields (deref_source x) anything.
Proof. apply (yields_pure (fun w => w_sources w !! x)). Qed.
Lemma yields_deref_plane_layer q : yields (deref_plane_layer q) anything.
Proof. apply (yields_pure (fun w => w_planes w !! q)). Qed.
Lemma yields_gets {A} (f : World Src -> A) : yields (gets f) anything.
Proof. intros w a w' [= <- <-]. by split. Qed.

Lemma yields_call {A} (f : Src -> A * Src) x : yields (call_source f x) anything.
Proof.
  intros w a w' Hr. unfold call_source in Hr. destruct (w_sources w !! x); simplify_eq/=.
  split; [|done]. by apply later_same; destruct w.
Qed.
Lemma yields_call_ (f : Src -> Src) x : yields (call_source_ f x) anything.
Proof. apply yields_call. Qed.
Lemma yields_log c : yields (log c) anything.
Proof. intros w a w' [= <- <-]. split; [|done]. by apply later_same; destruct w. Qed.
Lemma yields_with_planes {A} (f : heap -> option (A * heap)) : yields (with_planes f) anything.
Proof.
  intros w a w' Hr. unfold with_planes in Hr. destruct (f (w_planes w)) as [[b hp]|]; simplify_eq/=.
  split; [|done]. by apply later_same; destruct w.
Qed.
Lemma yields_planes_run f : yields (planes_run f) anything.
Proof. apply yields_with_planes. Qed.
Lemma yields_free_source x : yields (free_source x) anything.
Proof.
  intros w a w' Hr. unfold free_source in Hr. destruct (w_sources w !! x); simplify_eq/=.
  split; [|done]. by apply later_same; destruct w.
Qed.

Lemma yields_put p f : (forall l, ident (f l) = ident l) -> yields (put_layer p f) anything.
Proof.
  intros Hf w a w' Hr. unfold put_layer in Hr. destruct (w_layers w !! p) as [l|] eqn:El; simplify_eq/=.
  split; [|done]. split; [by destruct w|]. intros q x. unfold source_at. left. destruct w; simpl in *.
  destruct (decide (q = p)) as [->|Hq]; [|by rewrite lookup_insert_ne in H by done].
  rewrite lookup_insert_eq in H. rewrite El. simpl in *. specialize (Hf l). unfold ident in Hf. congruence.
Qed.

Lemma yields_free_layer p : yields (free_layer p) anything.
Proof.
  eapply yields_bind; [apply yields_deref_layer|intros l _].
  eapply yields_bind; [apply yields_free_source|intros _ _].
  intros w a w' [= <- <-]. split; [|done]. split; [by destruct w|]. intros q x. unfold source_at. left.
  destruct w; simpl in *. by destruct (decide (q = p)) as [->|Hq]; [rewrite lookup_delete_eq in H|rewrite lookup_delete_ne in H].
Qed.

End Yields.

Create HintDb yields.
#[export] Hint Resolve yields_deref_layer yields_deref_source yields_deref_plane_layer yields_gets yields_call
  yields_call_ yields_log yields_with_planes yields_planes_run yields_free_source yields_free_layer
  yields_for_each : yields.

(** Step through an operation: what is known of its parts, the rest by cases. *)
Ltac yield_step :=
  match goal with
  | |- yields (mret _) _ => apply yields_ret; try exact I
  | |- yields (_ ≫= _) _ =>
      first [eapply yields_bind; [by eauto 3 with yields | intros ? ?; cbv beta]
            | eapply (yields_bind _ _ anything); [ | intros ? _; cbv beta]]
  | |- yields (match ?x with _ => _ end) _ => destruct x
  | |- yields _ anything => by eauto 3 with yields
  end.
Ltac yields := repeat yield_step.

Section SceneLive.
Context {Src : Type} `{HS : LayerBufferSource Src}.
Implicit Types (w : World Src) (s : Scene) (g : Run).

(** ** What each operation does to the retirement lists *)

Definition same_lists s s' : Prop :=
  retirees s' = retirees s /\ retired_srcs s' = retired_srcs s /\
  map scene_layer (slots_ s') = map scene_layer (slots_ s).

Definition turned s s' : Prop :=
  retirees s' = [] :: take 2 (retirees s) /\ retired_srcs s' = [] :: take 2 (retired_srcs s) /\
  map scene_layer (slots_ s') = map scene_layer (slots_ s).

Definition emptied s s' : Prop :=
  retirees s' = [[]; []; []] /\ retired_srcs s' = [[]; []; []] /\
  map scene_layer (slots_ s') = map scene_layer (slots_ s).

Lemma same_lists_trans s s1 s2 : same_lists s s1 -> same_lists s1 s2 -> same_lists s s2.
Proof. intros (Hr & Hs & Hl) (Hr' & Hs' & Hl'). hnf. by rewrite Hr', Hs', Hl'. Qed.

Lemma yields_release_all acqs : yields (release_all (Src := Src) acqs) anything.
Proof. apply yields_for_each. intros a. unfold release_one, release_target. yields. Qed.
Hint Resolve yields_release_all : yields.

Lemma yields_unbind slot : yields (unbind_stream (Src := Src) slot) anything.
Proof. unfold unbind_stream. yields. Qed.
Hint Resolve yields_unbind : yields.

Lemma yields_acquire_all slots : forall out skipped, yields (acquire_all (Src := Src) slots out skipped) anything.
Proof. induction slots as [|slot slots IH]; intros out skipped; simpl; yields; apply IH. Qed.
Hint Resolve yields_acquire_all : yields.

Lemma yields_pin_streams pick slots : forall already,
  yields (pin_streams (Src := Src) pick already slots) (fun slots' => map scene_layer slots' = map scene_layer slots).
Proof.
  induction slots as [|slot slots IH]; intros already; simpl; [by apply yields_ret|].
  destruct slot; simpl. yields; try (by apply IH); simpl in *; by f_equal.
Qed.

Lemma yields_any_stream ps : yields (any_stream (Src := Src) ps) anything.
Proof. induction ps as [|p ps IH]; simpl; [by apply yields_ret|]. by yields. Qed.
Hint Resolve yields_any_stream : yields.

Lemma yields_any_wants_fence acqs : yields (any_wants_fence (Src := Src) acqs) anything.
Proof. induction acqs as [|a acqs IH]; simpl; [by apply yields_ret|]. by yields. Qed.
Hint Resolve yields_any_wants_fence : yields.

Lemma yields_composite slot : yields (composite_unless_stream (Src := Src) slot) anything.
Proof. unfold composite_unless_stream. by yields. Qed.
Hint Resolve yields_composite : yields.

Lemma yields_stamp dup acqs : forall i, yields (stamp_fences (Src := Src) dup i acqs) anything.
Proof. induction acqs as [|a acqs IH]; intros i; simpl; [by apply yields_ret|]. yields; try apply IH; done. Qed.
Hint Resolve yields_stamp : yields.

Lemma yields_resume_sources ps : yields (resume_sources (Src := Src) ps) anything.
Proof. induction ps as [|p ps IH]; simpl; [by apply yields_ret|]. by yields. Qed.
Hint Resolve yields_resume_sources : yields.

Lemma yields_incompatibilities mw mh ps : yields (incompatibilities (Src := Src) mw mh ps) anything.
Proof. induction ps as [|p ps IH]; simpl; [by apply yields_ret|]. by yields. Qed.
Hint Resolve yields_incompatibilities : yields.

Lemma yields_mixing s : yields (apply_exclusive_mixing_constraint (Src := Src) s) anything.
Proof. unfold apply_exclusive_mixing_constraint. by yields. Qed.
Hint Resolve yields_mixing : yields.

Lemma yields_record canvas acqs : yields (record_layer_placements (Src := Src) canvas acqs) anything.
Proof.
  apply yields_for_each. intros a. yields; try done; apply yields_put; by intros [].
Qed.
Hint Resolve yields_record : yields.

Lemma yields_mark_clean ps : yields (for_each (fun p => put_layer (Src := Src) p scene_mark_clean) ps) anything.
Proof. apply yields_for_each. intros p. apply yields_put. by intros []. Qed.
Hint Resolve yields_mark_clean : yields.

Lemma yields_edit h cond e s : yields (edit_layer (Src := Src) h cond e s) anything.
Proof. unfold edit_layer. yields. apply yields_put. intros l. apply apply_edit_ident. Qed.
Hint Resolve yields_edit : yields.

Lemma yields_pins pick s : yields (ensure_stream_layer_pins (Src := Src) pick s) (same_lists s).
Proof.
  unfold ensure_stream_layer_pins. destruct pick as [pick|]; [|by apply yields_ret].
  eapply yields_bind; [apply yields_pin_streams|]. intros slots Hm. apply yields_ret. by destruct s.
Qed.
Hint Resolve yields_pins : yields.

Lemma same_lists_set s s1 s2 :
  same_lists s s1 -> retirees s2 = retirees s1 -> retired_srcs s2 = retired_srcs s1 -> slots_ s2 = slots_ s1 ->
  same_lists s s2.
Proof. intros (Hr & Hs & Hl) Hr' Hs' Hl'. hnf. by rewrite Hr', Hs', Hl'. Qed.

Lemma yields_run_passes passes acqs s :
  yields (run_passes (Src := Src) passes acqs s) (fun r => same_lists s r.2).
Proof. unfold run_passes. cbv zeta. yields. by destruct s. Qed.
Hint Resolve yields_run_passes : yields.

Lemma yields_build pick passes test_only s :
  yields (build_frame_into (Src := Src) pick passes test_only s) (fun r => same_lists s r.2).
Proof.
  unfold build_frame_into. cbv zeta. destruct (suspended_ s); [by apply yields_ret|].
  eapply yields_bind; [apply yields_pins|intros s1 H1]. do 2 yield_step.
  eapply yields_bind; [apply yields_acquire_all|intros [[r acqs] skipped] _].
  destruct r as [[]|e].
  2: { yields. apply (same_lists_set s s1); by destruct s1. }
  eapply yields_bind; [apply yields_run_passes|intros [acqs2 s2] H2]. simpl in H2.
  assert (H3 : same_lists s s2) by (by apply (same_lists_trans s s1)).
  yields; apply (same_lists_set s s2); by destruct s2.
Qed.
Hint Resolve yields_build : yields.

Lemma yields_rotate acqs s : yields (rotate (Src := Src) acqs s) (turned s).
Proof. unfold rotate. yields. by destruct s. Qed.

Lemma yields_release_pending s : yields (release_pending_acquisitions (Src := Src) s) (emptied s).
Proof. unfold release_pending_acquisitions. yields. by destruct s. Qed.

Lemma yields_drop st : yields (drop_frame (Src := Src) st) anything.
Proof. unfold drop_frame. yields. Qed.
Hint Resolve yields_drop : yields.

Lemma yields_displaced seq s : yields (release_displaced (Src := Src) seq s) (same_lists s).
Proof. unfold release_displaced. yields; by destruct s. Qed.

Lemma yields_pause s : yields (on_session_paused (Src := Src) s) (emptied s).
Proof.
  unfold on_session_paused. eapply yields_bind; [apply yields_release_pending|intros s1 (Hr & Hs & Hl)].
  eapply (yields_bind _ _ anything); [apply yields_for_each; intros p; yields|intros _ _]. apply yields_ret.
  split_and!; [by destruct s1..|]. rewrite <- Hl. destruct s1; simpl. rewrite map_map. apply map_ext. by intros [].
Qed.

Lemma yields_resume read fresh s :
  yields (on_session_resumed (Src := Src) read fresh s) (fun r => same_lists s r.2).
Proof. unfold on_session_resumed. cbv zeta. yields; by destruct s. Qed.

Lemma yields_rebind_slots slots : forall o,
  yields (rebind_slots (Src := Src) slots o) (fun r => map scene_layer r.1 = map scene_layer slots).
Proof.
  induction slots as [|slot slots IH]; intros o; simpl; [by apply yields_ret|].
  destruct slot as [[p|] q gen [] pin]; simpl; yields; try (by apply IH); simpl in *; by f_equal.
Qed.

Lemma yields_rebind crtc_id mode_w mode_h read fresh s :
  yields (rebind (Src := Src) crtc_id mode_w mode_h read fresh s) (fun r => emptied s r.2).
Proof.
  unfold rebind. eapply yields_bind; [apply yields_release_pending|intros s1 (Hr & Hs & Hl)].
  destruct read as [[]|e]; [|by apply yields_ret]. cbv zeta.
  eapply (yields_bind _ _ anything); [apply yields_with_planes|intros o _].
  eapply yields_bind; [apply yields_rebind_slots|intros [slots o2] Hm]. simpl in Hm.
  yields. split_and!; [by destruct s1..|]. rewrite <- Hl, <- Hm. by destruct s1.
Qed.

Lemma yields_finalize st kernel_result fence dup s :
  yields (finalize_frame (Src := Src) st kernel_result fence dup s)
    (fun r => if committed kernel_result st then turned s r.2 else same_lists s r.2).
Proof.
  unfold finalize_frame, committed. destruct kernel_result as [[]|e].
  2: { cbv zeta. yield_step. apply yields_ret. unfold note_refusal.
       destruct (decide _); [|destruct (fb_delta_fast_path _)]; by destruct s. }
  destruct (fs_test_only st); simpl; [yields; by destruct s|]. cbv zeta. do 3 yield_step.
  match goal with |- yields ((if ?b then _ else _) ≫= _) _ => set (f := b) end. clearbody f.
  eapply (yields_bind _ _ (same_lists s)).
  { destruct f; yields; by destruct s. }
  intros s2 (Hr & Hs & Hl). eapply yields_bind; [apply yields_rotate|intros s3 (Hr3 & Hs3 & Hl3)].
  apply yields_ret. cbn [snd]. hnf. by rewrite Hr3, Hs3, Hl3, Hr, Hs, Hl.
Qed.

(** ** One operation *)

Record retire_step (c : nat) s w s' w' : Prop := mkRetireStep {
  rs_later : later w w';
  rs_slots : forall p, p ∈ slot_layers s' -> p ∈ slot_layers s \/ (w_next w <= p)%positive;
  rs_lists : match c with
    | 0%nat => exists ps xs,
        retirees s' = [retire_pending_ s ++ ps; retire_prev_ s; retire_prev_prev_ s] /\
        (forall p, p ∈ ps -> p ∈ slot_layers s) /\
        retired_srcs s' = [retire_src_pending_ s ++ xs; retire_src_prev_ s; retire_src_prev_prev_ s] /\
        (forall x, x ∈ xs -> exists q, q ∈ slot_layers s /\ source_at w q = Some x)
    | 1%nat => retirees s' = [] :: take 2 (retirees s) /\ retired_srcs s' = [] :: take 2 (retired_srcs s)
    | _ => retirees s' = [[]; []; []] /\ retired_srcs s' = [[]; []; []]
    end
}.

Lemma slot_layers_map s s' : map scene_layer (slots_ s') = map scene_layer (slots_ s) -> slot_layers s' = slot_layers s.
Proof.
  unfold slot_layers. generalize (slots_ s). induction (slots_ s') as [|x xs IH]; intros [|y ys]; try done.
  cbn [map]. intros Hc. pose proof (f_equal (hd (scene_layer y)) Hc) as Hx. pose proof (f_equal tail Hc) as Hr.
  cbn [hd tail] in Hx, Hr. by rewrite !omap_cons_app, Hx, (IH _ Hr).
Qed.

Lemma retire_same s w s' w' : later w w' -> same_lists s s' -> retire_step 0 s w s' w'.
Proof.
  intros Hl (Hr & Hs & Hm). split; [done|rewrite (slot_layers_map _ _ Hm); by left|].
  exists [], []. rewrite Hr, Hs, !app_nil_r. split_and!; [done| |done|]; by intros ? ?%not_elem_of_nil.
Qed.

Lemma retire_turned s w s' w' : later w w' -> turned s s' -> retire_step 1 s w s' w'.
Proof. intros Hl (Hr & Hs & Hm). split; [done|rewrite (slot_layers_map _ _ Hm); by left|done]. Qed.

Lemma retire_emptied s w s' w' : later w w' -> emptied s s' -> retire_step 3 s w s' w'.
Proof. intros Hl (Hr & Hs & Hm). split; [done|rewrite (slot_layers_map _ _ Hm); by left|done]. Qed.

Lemma take_slot_layers s :
  slot_layers (take_slot s).2 = slot_layers s /\ retirees (take_slot s).2 = retirees s /\
  retired_srcs (take_slot s).2 = retired_srcs s.
Proof.
  unfold take_slot. destruct (last (free_ids_ s)); destruct s; simpl; [done|].
  split; [|done]. unfold slot_layers; simpl. by rewrite omap_app, app_nil_r.
Qed.

Lemma alter_layers f i s p :
  p ∈ omap scene_layer (alter f i (slots_ s)) -> p ∈ slot_layers s \/ exists slot, scene_layer (f slot) = Some p.
Proof.
  intros (slot & [j Hj]%list_elem_of_lookup & Hp)%list_elem_of_omap. destruct (decide (j = i)) as [->|Hji].
  - rewrite list_lookup_alter_eq in Hj. destruct (slots_ s !! i) as [slot0|]; simplify_eq/=. right. eauto.
  - rewrite list_lookup_alter_ne in Hj by done. left. apply list_elem_of_omap. exists slot.
    split; [by eapply list_elem_of_lookup_2|done].
Qed.

(** A new layer over a new source. *)
Lemma new_layer_run {B} (src : Src) (mk : positive -> SceneLayer) (F : positive -> B) w b w' :
  (forall sl, source_ (mk sl) = sl) ->
  (sl ← new_source src; p ← new_scene_layer (mk sl); mret (F p)) w = Some (b, w') ->
  later w w' /\ exists p, b = F p /\ (w_next w <= p)%positive.
Proof.
  intros Hmk. destruct w as [L S P n c]. unfold new_source, new_scene_layer, mbind, st_bind, mret, st_ret; simpl.
  intros [= <- <-]. split; [|exists (Pos.succ n); split; [done|simpl; lia]]. split; simpl; [lia|].
  intros p x. unfold source_at; simpl. destruct (decide (p = Pos.succ n)) as [->|Hp].
  - rewrite lookup_insert_eq. simpl. rewrite Hmk. intros [= <-]. right. lia.
  - rewrite lookup_insert_ne by done. by left.
Qed.

Lemma retire_add desc s w r s' w' : add_layer desc s w = Some ((r, s'), w') -> retire_step 0 s w s' w'.
Proof.
  unfold add_layer. intros Hr.
  destruct (ld_source desc) as [src|]; [|injection Hr as <- <- <-; by apply retire_same].
  destruct (_ && _); [injection Hr as <- <- <-; by apply retire_same|].
  destruct (take_slot_layers s) as (Hl & Ht & Hts). destruct (take_slot s) as [i s1]. simpl in *. cbv zeta in Hr.
  apply bind_run in Hr as ([q o] & w1 & H1 & Hr). apply bind_run in Hr as ([] & w2 & H2 & Hr).
  assert (Hlt : later w w2).
  { etrans; [apply (yields_with_planes _ _ _ _ H1)|]. destruct (ld_force_composited desc).
    - apply (yields_planes_run _ _ _ _ H2). - by injection H2 as <-. }
  apply new_layer_run in Hr as [Hlt' (p & He & Hp)]; [|done]. injection He as -> ->.
  split; [by etrans| |].
  - intros x. unfold slot_layers at 1; simpl. intros [Hx|[slot Hx]]%alter_layers; [left; by rewrite <- Hl|].
    simpl in Hx. injection Hx as <-. right. destruct Hlt. lia.
  - exists [], []. rewrite !app_nil_r. split_and!.
    + etrans; [|exact Ht]. by destruct s1. + by intros ? ?%not_elem_of_nil.
    + etrans; [|exact Hts]. by destruct s1. + by intros ? ?%not_elem_of_nil.
Qed.

Lemma get_layer_slot h s p : get_layer h s = Some p -> p ∈ slot_layers s.
Proof.
  unfold get_layer. destruct (slot_for h s) as [i|]; [|done]. simpl.
  destruct (slots_ s !! i) as [slot|] eqn:Es; [|done]. simpl. intros Hp. apply list_elem_of_omap.
  exists slot. split; [by eapply list_elem_of_lookup_2|done].
Qed.

Lemma retire_replace h new s w r s' w' : replace_source h new s w = Some ((r, s'), w') ->
  retire_step 0 s w s' w' /\
  forall p x, get_layer h s = Some p -> source_at w p = Some x -> source_at w' p <> Some x -> x ∈ retire_src_pending_ s'.
Proof.
  unfold replace_source. intros Hr.
  destruct new as [src|]; [|injection Hr as <- <- <-; split; [by apply retire_same|done]].
  destruct (_ && _); [injection Hr as <- <- <-; split; [by apply retire_same|done]|].
  destruct (get_layer h s) as [p|] eqn:Eg; [|injection Hr as <- <- <-; split; [by apply retire_same|done]].
  apply bind_run in Hr as (sl & w1 & [= <- <-] & Hr). apply bind_run in Hr as (l & w2 & Hl & Hr).
  unfold deref_layer in Hl. destruct (w_layers _ !! p) as [l0|] eqn:El; [|done]. injection Hl as -> <-.
  cbv zeta in Hr. apply bind_run in Hr as ([] & w3 & H3 & Hr). apply bind_run in Hr as ([] & w4 & H4 & Hr).
  apply (yields_call _ _ _) in H4 as [H4 _]. injection Hr as _ <- <-.
  unfold put_layer in H3. rewrite El in H3. injection H3 as <-.
  assert (Hlw : w_layers w !! p = Some l) by (by destruct w). split.
  2: { intros q x [= <-] Hx _. unfold source_at in Hx. rewrite Hlw in Hx. injection Hx as <-.
       destruct s, l; simpl. set_solver. }
  split.
  - etrans; [|exact H4]. destruct w as [L S P n c]; simpl in *. split; simpl; [lia|].
    intros q x. unfold source_at; simpl. destruct (decide (q = p)) as [->|Hq].
    + rewrite lookup_insert_eq. destruct l; simpl. intros [= <-]. right. lia.
    + rewrite lookup_insert_ne by done. by left.
  - intros q. rewrite (slot_layers_map s) by (by destruct s). by left.
  - exists [], [source_ l]. rewrite app_nil_r. split_and!; [by destruct s|by intros ? ?%not_elem_of_nil|by destruct s; destruct l|].
    intros x ->%list_elem_of_singleton. exists p. split; [by eapply get_layer_slot|]. unfold source_at. by rewrite Hlw.
Qed.

Lemma retire_remove h s w s' w' : remove_layer h s w = Some (s', w') ->
  retire_step 0 s w s' w' /\
  forall p, get_layer h s = Some p -> p ∈ retire_pending_ s' /\ retired_srcs s' = retired_srcs s.
Proof.
  unfold remove_layer, get_layer. intros Hr.
  destruct (slot_for h s) as [i|]; [|injection Hr as <- <-; split; [by apply retire_same|done]]. simpl.
  destruct (slots_ s !! i) as [slot|] eqn:Es; [|injection Hr as <- <-; split; [by apply retire_same|done]].
  simpl. cbv zeta in Hr. apply bind_run in Hr as ([] & w1 & H1 & Hr). apply bind_run in Hr as (o & w2 & H2 & Hr).
  apply bind_run in Hr as ([] & w3 & H3 & Hr). injection Hr as <- <-. split.
  2: { intros p Hp. rewrite Hp. destruct s; simpl. split; [set_solver|done]. }
  split.
  - etrans; [apply (yields_unbind _ _ _ _ H1)|]. etrans.
    { destruct (planes_layer slot); [apply (yields_with_planes _ _ _ _ H2)|by injection H2 as _ <-]. }
    destruct (scene_layer slot) as [p|]; [|by injection H3 as <-].
    eapply (yields_bind _ _ anything anything); [apply yields_deref_layer|intros l _; apply yields_call_|exact H3].
  - intros p. unfold slot_layers at 1; simpl. left.
    assert (Hi : p ∈ omap scene_layer (<[i := mkSlot None None (generation slot) false
                   (match scene_layer slot with Some _ => None | None => stream_pinned_plane_id slot end)]> (slots_ s)))
      by (by destruct s). clear H.
    apply list_elem_of_omap in Hi as (sl & [j Hj]%list_elem_of_lookup & Hp). destruct (decide (j = i)) as [->|Hji].
    + apply lookup_lt_Some in Es. rewrite list_lookup_insert_eq in Hj by done. by injection Hj as <-.
    + rewrite list_lookup_insert_ne in Hj by done. apply list_elem_of_omap. exists sl.
      split; [by eapply list_elem_of_lookup_2|done].
  - exists (option_list (scene_layer slot)), []. rewrite app_nil_r. split_and!; [by destruct s| |by destruct s|by intros ? ?%not_elem_of_nil].
    intros p Hp. destruct (scene_layer slot) as [p0|] eqn:Ep; [|by apply not_elem_of_nil in Hp].
    apply list_elem_of_singleton in Hp as ->. apply list_elem_of_omap. exists slot.
    split; [by eapply list_elem_of_lookup_2|done].
Qed.

Lemma retire_op op s w g s' g' w' :
  op_allowed op s w g -> run_op op s g w = Some ((s', g'), w') -> retire_step (credit op g) s w s' w'.
Proof.
  intros Ha Hr.
  destruct op as [desc|h new|h|h cond e|pick passes test_only|kr fence dup| | |seq| |rd fresh|crtc mw mh rd fresh|x f];
    cbn [run_op credit] in *.
  - apply bind_run in Hr as ([r s1] & w1 & H1 & [= <- _ <-]). by eapply retire_add.
  - apply bind_run in Hr as ([r s1] & w1 & H1 & [= <- _ <-]). by eapply (retire_replace h).
  - apply bind_run in Hr as (s1 & w1 & H1 & [= <- _ <-]). by apply (retire_remove h).
  - apply bind_run in Hr as ([] & w1 & H1 & [= <- _ <-]). apply retire_same; [by apply (yields_edit _ _ _ _ _ _ _ H1)|done].
  - apply bind_run in Hr as ([r s1] & w1 & H1 & [= <- _ <-]).
    destruct (yields_build _ _ _ _ _ _ _ H1). by apply retire_same.
  - destruct Ha as (st & Hst & _). rewrite Hst in *.
    apply bind_run in Hr as ([r s1] & w1 & H1 & [= <- _ <-]).
    destruct (yields_finalize _ _ _ _ _ _ _ _ H1) as [Hl Hs]. simpl in Hs.
    destruct (committed kr st); [by apply retire_turned|by apply retire_same].
  - destruct (r_flight g) as [st|]; [|injection Hr as <- _ <-; by apply retire_same].
    apply bind_run in Hr as ([] & w1 & H1 & [= <- _ <-]). apply retire_same; [by apply (yields_drop _ _ _ _ H1)|done].
  - injection Hr as <- _ <-. by apply retire_same.
  - apply bind_run in Hr as (s1 & w1 & H1 & [= <- _ <-]). destruct (yields_displaced _ _ _ _ _ H1). by apply retire_same.
  - apply bind_run in Hr as (s1 & w1 & H1 & [= <- _ <-]). destruct (yields_pause _ _ _ _ H1). by apply retire_emptied.
  - apply bind_run in Hr as ([r s1] & w1 & H1 & [= <- _ <-]). destruct (yields_resume _ _ _ _ _ _ H1). by apply retire_same.
  - apply bind_run in Hr as ([r s1] & w1 & H1 & [= <- _ <-]). destruct (yields_rebind _ _ _ _ _ _ _ _ _ H1). by apply retire_emptied.
  - apply bind_run in Hr as ([] & w1 & H1 & [= <- _ <-]). apply retire_same; [by apply (yields_call_ _ _ _ _ _ H1)|done].
Qed.

(** ** Places in the ring *)

(** In list [k], or gone. *)
Definition place (k : nat) (p : positive) (ls : list (list positive)) : Prop :=
  match ls !! k with Some l => p ∈ l | None => p ∉ concat ls end.

Lemma place_grow k p a b c ps : place k p [a; b; c] -> p ∉ ps -> place k p [a ++ ps; b; c].
Proof. intros Hp Hn. destruct k as [|[|[|k]]]; unfold place in *; simpl in *; set_solver. Qed.

Lemma place_turn k p a b c : NoDup (a ++ b ++ c) -> place k p [a; b; c] -> place (k + 1) p [[]; a; b].
Proof.
  intros (_ & Hab & (_ & Hbc & _)%NoDup_app)%NoDup_app Hp. rewrite Nat.add_1_r.
  destruct k as [|[|[|k]]]; unfold place in *; simpl in *; try done; try set_solver.
Qed.

Lemma place_empty k p : place (k + 3) p [[]; []; []].
Proof. unfold place. rewrite lookup_ge_None_2 by (simpl; lia). by intros ?%not_elem_of_nil. Qed.

Lemma credit_cases op g : credit (Src := Src) op g = 0%nat \/ credit op g = 1%nat \/ credit op g = 3%nat.
Proof. destruct op; simpl; auto; destruct (r_flight g) as [st|]; auto. destruct (committed _ st); auto. Qed.

Lemma owned_retirees s : scene_owned s = slot_layers s ++ concat (retirees s).
Proof. unfold scene_owned, retirees. simpl. by rewrite app_nil_r. Qed.

Lemma retired_concat s : retired_sources s = concat (retired_srcs s).
Proof. unfold retired_sources, retired_srcs. simpl. by rewrite app_nil_r. Qed.

Lemma omap_nodup_inj {A B} (f : A -> option B) (l : list A) a b y :
  NoDup (omap f l) -> a ∈ l -> b ∈ l -> f a = Some y -> f b = Some y -> a = b.
Proof.
  induction l as [|c l IH]; [by intros _ ?%not_elem_of_nil|]. rewrite omap_cons_app.
  intros (_ & Hd & Hn)%NoDup_app [->|Ha]%elem_of_cons [->|Hb]%elem_of_cons Hfa Hfb; [done| | |by apply IH];
    exfalso; [rewrite Hfa in Hd|rewrite Hfb in Hd]; apply (Hd y); try (by left); apply list_elem_of_omap; eauto.
Qed.

(** A retired layer, [k] places on. *)
Record layer_fate (k : nat) (p : positive) s w : Prop := mkLayerFate {
  lf_place : place k p (retirees s);
  lf_slots : p ∉ slot_layers s;
  lf_next : (p < w_next w)%positive
}.

(** A source [k] places on, which only the layers [qs] still have. *)
Record source_fate (k : nat) (x : positive) (qs : list positive) s w : Prop := mkSourceFate {
  sf_place : place k x (retired_srcs s);
  sf_next : (x < w_next w)%positive;
  sf_layers : forall q, source_at w q = Some x -> q ∈ qs
}.

Lemma layer_fate_step fl c k p s w s' w' :
  scene_inv fl s w -> c = 0%nat \/ c = 1%nat \/ c = 3%nat -> retire_step c s w s' w' ->
  layer_fate k p s w -> layer_fate (k + c) p s' w'.
Proof.
  intros Hi Hc [[Hn _] Hs Hl] [Hp Hps Hpn]. split; [| |lia].
  - pose proof (own_nodup _ _ _ (inv_owns _ _ _ Hi)) as (_ & _ & Hnd)%NoDup_app.
    destruct Hc as [->|[->| ->]].
    + destruct Hl as (ps & xs & -> & Hin & _). rewrite Nat.add_0_r. apply place_grow; [done|].
      intros Hx%Hin. done.
    + destruct Hl as [-> _]. unfold retirees in Hp. simpl in *. by eapply place_turn.
    + destruct Hl as [-> _]. apply place_empty.
  - intros [?|?]%Hs; [done|lia].
Qed.

Lemma source_fate_step fl c k x qs s w s' w' :
  scene_inv fl s w -> c = 0%nat \/ c = 1%nat \/ c = 3%nat -> retire_step c s w s' w' ->
  (forall q, q ∈ qs -> q ∉ slot_layers s) ->
  source_fate k x qs s w -> source_fate (k + c) x qs s' w'.
Proof.
  intros Hi Hc [[Hn Hso] Hs Hl] Hqs [Hp Hxn Hx]. split; [|lia|].
  - pose proof (own_nodup_sources _ _ _ (inv_owns _ _ _ Hi)) as (_ & _ & Hnd)%NoDup_app.
    destruct Hc as [->|[->| ->]].
    + destruct Hl as (ps & xs & _ & _ & -> & Hin). rewrite Nat.add_0_r. apply place_grow; [done|].
      intros (q & Hq & Hxq)%Hin. by apply (Hqs q), Hq; apply Hx.
    + destruct Hl as [_ ->]. unfold retired_srcs in Hp. simpl in *. by eapply place_turn.
    + destruct Hl as [_ ->]. apply place_empty.
  - intros q [Hq|Hq]%Hso; [auto|lia].
Qed.

Lemma place_in k p a b c : place k p [a; b; c] -> p ∈ concat [a; b; c] <-> (k < 3)%nat.
Proof.
  intros Hp. destruct k as [|[|[|k]]]; unfold place in Hp; simpl in *.
  1-3: split; [lia|]; set_solver.
  split; [done|lia].
Qed.

Lemma layer_fate_alive fl k p s w :
  scene_inv fl s w -> layer_fate k p s w -> is_Some (w_layers w !! p) <-> (k < 3)%nat.
Proof.
  intros Hi [Hp Hs _]. rewrite (own_layers _ _ _ (inv_owns _ _ _ Hi)), owned_retirees, elem_of_app.
  unfold retirees in *. rewrite <- (place_in k p) by done. tauto.
Qed.

Lemma source_fate_alive fl k x s w :
  scene_inv fl s w -> source_fate k x [] s w -> is_Some (w_sources w !! x) <-> (k < 3)%nat.
Proof.
  intros Hi [Hp _ Hx]. rewrite (own_sources _ _ _ (inv_owns _ _ _ Hi)), retired_concat, elem_of_app.
  unfold retired_srcs in *. rewrite <- (place_in k x) by done. split; [|tauto].
  intros [(q & _ & Hq)%list_elem_of_omap|]; [|done]. by apply Hx, not_elem_of_nil in Hq.
Qed.

Lemma source_gone fl k x p s w :
  scene_inv fl s w -> layer_fate k p s w -> source_fate 3 x [p] s w -> (3 <= k)%nat -> w_sources w !! x = None.
Proof.
  intros Hi Hf [Hp _ Hx] Hk. apply eq_None_not_Some. rewrite (own_sources _ _ _ (inv_owns _ _ _ Hi)).
  intros [(q & _ & Hq)%list_elem_of_omap|Hr]%elem_of_app; [|by rewrite retired_concat in Hr].
  pose proof (Hx q Hq) as ->%list_elem_of_singleton.
  assert (Ha : is_Some (w_layers w !! p)) by (unfold source_at in Hq; by destruct (w_layers w !! p)).
  apply (layer_fate_alive _ _ _ _ _ Hi Hf) in Ha. lia.
Qed.

(** ** Runs *)

Lemma reach_follows s0 w0 g0 n s w g : reach s0 w0 g0 -> follows s0 w0 g0 n s w g -> reach s w g.
Proof. intros Hr. induction 1; [done|]. by eapply reach_step. Qed.

Lemma layer_fate_run s0 w0 g0 n s w g p :
  reach s0 w0 g0 -> follows s0 w0 g0 n s w g -> layer_fate 0 p s0 w0 -> layer_fate n p s w.
Proof.
  intros Hr Hf Hp. induction Hf as [|n s w g op s' g' w' Hf IH Ha Hrun]; [done|].
  eapply layer_fate_step; [|apply credit_cases|by eapply retire_op|done].
  apply (ri_scene _ _ _ (reach_inv _ _ _ (reach_follows _ _ _ _ _ _ _ Hr Hf))).
Qed.

Lemma source_fate_run s0 w0 g0 n s w g k x qs :
  reach s0 w0 g0 -> follows s0 w0 g0 n s w g -> source_fate k x qs s0 w0 ->
  (forall q, q ∈ qs -> layer_fate 0 q s0 w0) -> source_fate (k + n) x qs s w.
Proof.
  intros Hr Hf Hx Hqs. induction Hf as [|n s w g op s' g' w' Hf IH Ha Hrun]; [by rewrite Nat.add_0_r|].
  rewrite Nat.add_assoc. eapply source_fate_step; [|apply credit_cases|by eapply retire_op| |done].
  - apply (ri_scene _ _ _ (reach_inv _ _ _ (reach_follows _ _ _ _ _ _ _ Hr Hf))).
  - intros q Hq. by eapply lf_slots, layer_fate_run; [| |apply Hqs].
Qed.

(** A frame in flight can be dropped and the session paused. *)
Lemma can_drain s w g : reach s w g -> exists m s' w' g', follows s w g m s' w' g' /\ (3 <= m)%nat.
Proof.
  intros Hr.
  assert (Hd : exists m s1 w1 g1, follows s w g m s1 w1 g1 /\ r_flight g1 = None).
  { destruct (r_flight g) as [st|] eqn:Ef; [|exists 0%nat, s, w, g; split; [constructor|done]].
    assert (Ha : op_allowed ODrop s w g) by (by eexists).
    destruct (keep_op ODrop s w g (reach_inv _ _ _ Hr) Ha) as ([s1 g1] & w1 & Hrun & _).
    exists (0 + 0)%nat, s1, w1, g1. split; [eapply (follows_step _ _ _ _ _ _ _ ODrop); [constructor|done|done]|].
    cbn [run_op] in Hrun. rewrite Ef in Hrun. apply bind_run in Hrun as ([] & w2 & _ & [= _ <- _]). by destruct g. }
  destruct Hd as (m & s1 & w1 & g1 & Hf & Hn).
  destruct (keep_op OPause s1 w1 g1 (reach_inv _ _ _ (reach_follows _ _ _ _ _ _ _ Hr Hf)) Hn) as ([s2 g2] & w2 & Hrun & _).
  exists (m + 3)%nat, s2, w2, g2. split; [by eapply (follows_step _ _ _ _ _ _ _ OPause)|lia].
Qed.

Lemma reach_next fl s w p : scene_inv fl s w -> p ∈ scene_owned s -> (p < w_next w)%positive.
Proof. intros Hi Hp. apply (own_next _ _ _ (inv_owns _ _ _ Hi)). left. by apply (own_layers _ _ _ (inv_owns _ _ _ Hi)). Qed.

Lemma removed_fate s w g h s1 g1 w1 p x :
  reach s w g -> op_allowed (ORemove h) s w g -> run_op (ORemove h) s g w = Some ((s1, g1), w1) ->
  get_layer h s = Some p -> source_at w p = Some x ->
  layer_fate 0 p s1 w1 /\ source_fate 3 x [p] s1 w1.
Proof.
  intros Hr Ha Hrun Hg Hx. pose proof (reach_inv _ _ _ Hr) as Hi. pose proof (ri_scene _ _ _ Hi) as Hs.
  pose proof (ri_scene _ _ _ (reach_inv _ _ _ (reach_step _ _ _ _ _ _ _ Hr Ha Hrun))) as Hs1.
  cbn [run_op] in Hrun. apply bind_run in Hrun as (s2 & w2 & Hrem & [= <- _ <-]).
  apply retire_remove in Hrem as [[[Hn Hso] _ _] Hpend]. destruct (Hpend p Hg) as [Hp Hsame].
  pose proof (get_layer_slot _ _ _ Hg) as Hslot.
  assert (Hown : p ∈ scene_owned s2) by (unfold scene_owned; set_solver).
  pose proof (own_nodup_sources _ _ _ (inv_owns _ _ _ Hs)) as Hnd.
  assert (Hin : x ∈ omap (source_at w) (scene_owned s)).
  { apply list_elem_of_omap. exists p. split; [unfold scene_owned; set_solver|done]. }
  assert (Hxn : (x < w_next w)%positive).
  { apply (own_next _ _ _ (inv_owns _ _ _ Hs)). right. apply (own_sources _ _ _ (inv_owns _ _ _ Hs)).
    apply elem_of_app. by left. }
  split; split; try lia.
  - done.
  - pose proof (own_nodup _ _ _ (inv_owns _ _ _ Hs1)) as (_ & Hdis & _)%NoDup_app.
    intros Hsl. apply (Hdis p Hsl). set_solver.
  - by eapply reach_next.
  - rewrite Hsame. unfold place. simpl. apply NoDup_app in Hnd as (_ & Hdis & _).
    rewrite app_nil_r. by apply Hdis.
  - intros q [Hq|Hq]%Hso; [|lia]. apply list_elem_of_singleton.
    assert (Hal : is_Some (w_layers w !! q)) by (unfold source_at in Hq; by destruct (w_layers w !! q)).
    rewrite (own_layers _ _ _ (inv_owns _ _ _ Hs)) in Hal. apply NoDup_app in Hnd as [Hnd _].
    eapply omap_nodup_inj; [exact Hnd|exact Hal| |exact Hq|exact Hx]. unfold scene_owned; set_solver.
Qed.

Lemma replaced_fate s w g h new s1 g1 w1 p x :
  reach s w g -> op_allowed (OReplace h new) s w g -> run_op (OReplace h new) s g w = Some ((s1, g1), w1) ->
  get_layer h s = Some p -> source_at w p = Some x -> source_at w1 p <> Some x -> source_fate 0 x [] s1 w1.
Proof.
  intros Hr Ha Hrun Hg Hx Hch.
  pose proof (ri_scene _ _ _ (reach_inv _ _ _ (reach_step _ _ _ _ _ _ _ Hr Ha Hrun))) as Hs1.
  cbn [run_op] in Hrun. apply bind_run in Hrun as ([r s2] & w2 & Hrep & [= <- _ <-]).
  apply retire_replace in Hrep as [_ Hp]. specialize (Hp p x Hg Hx Hch).
  assert (Hin : x ∈ retired_sources s2) by (unfold retired_sources; set_solver).
  split; [done| |].
  - apply (own_next _ _ _ (inv_owns _ _ _ Hs1)). right. apply (own_sources _ _ _ (inv_owns _ _ _ Hs1)). set_solver.
  - intros q Hq. exfalso.
    pose proof (own_nodup_sources _ _ _ (inv_owns _ _ _ Hs1)) as (_ & Hdis & _)%NoDup_app.
    apply (Hdis x); [|done]. apply list_elem_of_omap. exists q. split; [|done].
    apply (own_layers _ _ _ (inv_owns _ _ _ Hs1)). unfold source_at in Hq. by destruct (w_layers w2 !! q).
Qed.

(** C11. What a scene retires it frees in time, and not before: a layer removed by
    its handle, and a source replaced in its layer, is there until three more
    frames have been accepted (or the session was paused or the output rebound,
    which drains the ring), whatever else happens in between, and gone from
    then on, the layer with its source; and from every state such a point can
    be reached, so nothing retired is kept for good. *)
Theorem retired_are_freed_in_time s w g op s1 g1 w1 n s2 w2 g2 :
  reach s w g -> op_allowed op s w g -> run_op op s g w = Some ((s1, g1), w1) -> follows s1 w1 g1 n s2 w2 g2 ->
  (forall h p x, op = ORemove h -> get_layer h s = Some p -> source_at w p = Some x ->
     (is_Some (w_layers w2 !! p) <-> (n < 3)%nat) /\ ((3 <= n)%nat -> w_sources w2 !! x = None)) /\
  (forall h new p x, op = OReplace h new -> get_layer h s = Some p ->
     source_at w p = Some x -> source_at w1 p <> Some x ->
     (is_Some (w_sources w2 !! x) <-> (n < 3)%nat)) /\
  (exists m s3 w3 g3, follows s2 w2 g2 m s3 w3 g3 /\ (3 <= n + m)%nat).
Proof.
  intros Hr Ha Hrun Hf. pose proof (reach_step _ _ _ _ _ _ _ Hr Ha Hrun) as Hr1.
  pose proof (reach_follows _ _ _ _ _ _ _ Hr1 Hf) as Hr2.
  pose proof (ri_scene _ _ _ (reach_inv _ _ _ Hr2)) as Hi. split_and!.
  - intros h p x -> Hg Hx. destruct (removed_fate _ _ _ _ _ _ _ _ _ Hr Ha Hrun Hg Hx) as [Hp Hxf].
    pose proof (layer_fate_run _ _ _ _ _ _ _ _ Hr1 Hf Hp) as Hp2. split; [by eapply layer_fate_alive|].
    intros Hn. eapply (source_gone _ n x p s2 w2); [done|done| |done].
    pose proof (source_fate_run _ _ _ _ _ _ _ _ _ _ Hr1 Hf Hxf) as [Hpl Hxn Hxs].
    { by intros q ->%list_elem_of_singleton. }
    split; [|done|done]. unfold place in *. by rewrite lookup_ge_None_2 in Hpl by (simpl; lia).
  - intros h new p x -> Hg Hx Hch. eapply source_fate_alive; [done|].
    apply (source_fate_run s1 w1 g1 n s2 w2 g2 0); [done|done|exact (replaced_fate _ _ _ _ _ _ _ _ _ _ Hr Ha Hrun Hg Hx Hch)|by intros q ?%not_elem_of_nil].
  - destruct (can_drain _ _ _ Hr2) as (m & s3 & w3 & g3 & Hf3 & Hm). exists m, s3, w3, g3. split; [done|lia].
Qed.

End SceneLive.
