(* ===== verification/SceneProps.v ===== *)
(** The theorems on scenes: no operation follows a dangling pointer, buffers go
    back to their producers once and not while they may be on screen, handles
    name what they were given for; and what goes wrong where the code does not
    keep its own rules. *)
From S2P Require Import Prelude StateMonad DrmAbi Layer Output AllocState RingPresenter BufferSource.
From S2P Require Import SceneLayer SceneMemory Scene SceneFrame SceneOwn SceneInv SceneRing SceneBuild SceneLife.

Section SceneProps.
Context {Src : Type} `{HS : LayerBufferSource Src}.
Implicit Types (w : World Src) (s : Scene) (g : Run) (acqs : list AcquisitionSlot).

Lemma wp_any_changed fl s w ps :
  scene_inv fl s w -> (forall p, p ∈ ps -> p ∈ slot_layers s) -> wp (any_changed ps) w (fun _ w' => w' = w).
Proof.
  intros Hi. induction ps as [|p ps IH]; intros Hps; simpl; [by apply wp_ret|].
  destruct (scene_layer_live fl s w p Hi) as (l & Hl & _ & [src Hsrc]); [apply Hps; by left|].
  apply wp_bind. eapply wp_deref_layer; [done|]. destruct (sl_dirty_ l); [by apply wp_ret|].
  apply wp_bind. eapply wp_deref_source; [done|]. destruct (src_has_fresh_content src); [by apply wp_ret|].
  apply IH. intros q Hq. apply Hps. by right.
Qed.

Lemma wp_find_tag fl s w tag ps :
  scene_inv fl s w -> (forall p, p ∈ ps -> p ∈ slot_layers s) -> wp (find_tag tag ps) w (fun _ w' => w' = w).
Proof.
  intros Hi. induction ps as [|p ps IH]; intros Hps; simpl; [by apply wp_ret|].
  destruct (scene_layer_live fl s w p Hi) as (l & Hl & _); [apply Hps; by left|].
  apply wp_bind. eapply wp_deref_layer; [done|]. destruct (identity_tag_ l =? tag); [by apply wp_ret|].
  apply IH. intros q Hq. apply Hps. by right.
Qed.


(** Only a leaky build loses buffers. *)
Lemma lost_step op s w g s' g' w' :
  run_inv s w g -> op_allowed op s w g -> run_op op s g w = Some ((s', g'), w') ->
  (forall pick passes test_only, op = OBuild pick passes test_only -> leaky passes = false) ->
  r_lost g' = r_lost g.
Proof.
  intros Hr Ha Hrun Hn. pose proof (ri_scene _ _ _ Hr) as Hi.
  destruct op as [desc|h new|h|h cond e|pick passes test_only|kr fence dup| | |seq| |rd fresh|crtc mw mh rd fresh|x f];
    cbn [run_op] in Hrun;
    try (apply bind_run in Hrun as (r & w1 & _ & Hrun); try destruct r; injection Hrun as <- <- <-;
         first [done | by destruct g]).
  - apply bind_run in Hrun as ([r s1] & w1 & Hb & Hrun). injection Hrun as <- <- <-.
    simpl in Ha. unfold flight in Hi. rewrite Ha in Hi.
    destruct (wp_build_frame pick passes test_only s w Hi) as ([r' s'] & w' & Hb' & Hpost).
    rewrite Hb in Hb'. injection Hb' as <- <- <-. destruct Hpost as (_ & _ & _ & _ & Hl & _).
    destruct g; simpl in *. by rewrite Hl by eauto.
  - destruct (r_flight g) as [st|]; [|by injection Hrun as <- <- <-].
    apply bind_run in Hrun as ([r s1] & w1 & _ & Hrun). injection Hrun as <- <- <-. by destruct g.
  - destruct (r_flight g) as [st|]; [|by injection Hrun as <- <- <-].
    apply bind_run in Hrun as ([] & w1 & _ & Hrun). injection Hrun as <- <- <-. by destruct g.
  - injection Hrun as <- <- <-. by destruct g.
Qed.

Lemma scan_held g s w :
  scan_ok (r_scan g) s w ->
  exists resting, omap (entry w) (held_buffers (flight g) s) ≡ₚ
    (concat (r_scan g)).*2 ++ omap (entry w) (flight g) ++ resting.
Proof.
  intros Hs. unfold held_buffers. rewrite !omap_app. unfold scan_ok in Hs.
  set (pp := omap (entry w) (prev_prev_acquisitions_ s)). set (pr := omap (entry w) (prev_acquisitions_ s)).
  set (fl := omap (entry w) (flight g)).
  destruct (r_scan g) as [|f [|f' [|]]]; [| | |done]; simpl.
  - exists (pp ++ pr). rewrite app_assoc. apply Permutation_app_comm.
  - exists pp. subst f. rewrite app_nil_r, <- frame_of_entries. fold pr.
    by rewrite (Permutation_app_comm pp), <- app_assoc.
  - exists []. destruct Hs as [-> ->]. rewrite !app_nil_r, fmap_app, <- !frame_of_entries. fold pr pp.
    rewrite app_assoc. by rewrite (Permutation_app_comm pp).
Qed.


(** ** Handles *)

(** Where a handle points. *)
Definition slot_of (h : LayerHandle) : nat := N.to_nat (h_id h - 1).

Record names_ok s g : Prop := mkNames {
  nm_range : forall h p, (h, p) ∈ r_named g ->
    h_id h <> 0%N /\ (slot_of h < length (slots_ s))%nat /\ 1 <= h_generation h <= generation_at (slot_of h) s;
  nm_nodup : NoDup (r_named g).*1;
  nm_count : forall i, 0 <= generation_at i s <= Z.of_nat (length (r_named g));
  nm_removed : forall h, h ∈ r_removed g -> h ∈ (r_named g).*1 /\ slot_for h s = None;
  nm_live : forall h p, (h, p) ∈ r_named g -> h ∉ r_removed g -> get_layer h s = Some p;
  nm_known : forall h i, slot_for h s = Some i -> h ∈ (r_named g).*1
}.

Lemma slot_for_tenants slots slots' h s s' :
  Forall2 same_tenant slots slots' -> slots_ s = slots -> slots_ s' = slots' -> slot_for h s' = slot_for h s.
Proof.
  intros Hf Hs Hs'. unfold slot_for. rewrite Hs, Hs', <- (Forall2_length _ _ _ Hf).
  destruct (_ || _); [done|]. destruct (slots !! N.to_nat (h_id h - 1)) as [x|] eqn:Ex.
  - destruct (Forall2_lookup_l _ _ _ _ _ Hf Ex) as (y & -> & (_ & Hg & Ha)). by rewrite Hg, Ha.
  - destruct (slots' !! N.to_nat (h_id h - 1)) as [y|] eqn:Ey; [|done].
    destruct (Forall2_lookup_r _ _ _ _ _ Hf Ey) as (x & Hx & _). congruence.
Qed.

Lemma get_layer_tenants h s s' :
  Forall2 same_tenant (slots_ s) (slots_ s') -> get_layer h s' = get_layer h s.
Proof.
  intros Hf. unfold get_layer. rewrite (slot_for_tenants _ _ h s s' Hf eq_refl eq_refl).
  destruct (slot_for h s) as [i|]; [|done]. simpl. destruct (slots_ s !! i) as [x|] eqn:Ex.
  - destruct (Forall2_lookup_l _ _ _ _ _ Hf Ex) as (y & -> & (Hl & _)). done.
  - destruct (slots_ s' !! i) as [y|] eqn:Ey; [|done].
    destruct (Forall2_lookup_r _ _ _ _ _ Hf Ey) as (x & Hx & _). congruence.
Qed.

Lemma generation_tenants i s s' :
  Forall2 same_tenant (slots_ s) (slots_ s') -> generation_at i s' = generation_at i s.
Proof.
  intros Hf. unfold generation_at. destruct (slots_ s !! i) as [x|] eqn:Ex.
  - destruct (Forall2_lookup_l _ _ _ _ _ Hf Ex) as (y & -> & (_ & Hg & _)). done.
  - destruct (slots_ s' !! i) as [y|] eqn:Ey; [|done].
    destruct (Forall2_lookup_r _ _ _ _ _ Hf Ey) as (x & Hx & _). congruence.
Qed.

Lemma names_tenants s s' g g' :
  Forall2 same_tenant (slots_ s) (slots_ s') -> r_named g' = r_named g -> r_removed g' = r_removed g ->
  names_ok s g -> names_ok s' g'.
Proof.
  intros Hf Hn Hr [Hra Hnd Hc Hrm Hl Hkn]. split; rewrite ?Hn, ?Hr.
  - intros h p Hin. rewrite (generation_tenants _ _ _ Hf), <- (Forall2_length _ _ _ Hf). by eapply Hra.
  - done.
  - intros i. rewrite (generation_tenants _ _ _ Hf). apply Hc.
  - intros h Hin. rewrite (slot_for_tenants _ _ h s s' Hf eq_refl eq_refl). auto.
  - intros h p Hin Hni. rewrite (get_layer_tenants _ _ _ Hf). auto.
  - intros h i. rewrite (slot_for_tenants _ _ h s s' Hf eq_refl eq_refl). apply Hkn.
Qed.

(** Another slot's handles do not notice. *)
Lemma slot_for_other h s s' :
  length (slots_ s) = length (slots_ s') \/ (slot_of h < length (slots_ s))%nat /\ (length (slots_ s) <= length (slots_ s'))%nat ->
  slots_ s' !! slot_of h = slots_ s !! slot_of h -> h_id h <> 0%N -> slot_for h s' = slot_for h s.
Proof.
  intros Hl He Hz. unfold slot_for, slot_of in *. rewrite He.
  destruct (N.eqb_spec (h_id h) 0); [done|]. simpl. destruct Hl as [->|[Hlt Hle]]; [done|].
  destruct (N.ltb_spec (N.of_nat (length (slots_ s'))) (h_id h)), (N.ltb_spec (N.of_nat (length (slots_ s))) (h_id h)); lia || done.
Qed.

Lemma slot_for_dead h s i :
  (forall slot, slots_ s !! slot_of h = Some slot -> alive slot = false \/ generation slot <> h_generation h) ->
  slot_for h s = Some i -> False.
Proof.
  intros Hd Hs. apply slot_for_spec in Hs as (slot & Hi & Ha & -> & Hid). simpl in *.
  destruct (Hd slot); [unfold slot_of; simpl; by rewrite Hid|congruence|done].
Qed.

Lemma get_layer_same h s s' :
  slot_for h s' = slot_for h s -> slots_ s' !! slot_of h = slots_ s !! slot_of h -> get_layer h s' = get_layer h s.
Proof.
  intros Hs He. unfold get_layer. rewrite Hs. destruct (slot_for h s) as [i|] eqn:E; [|done]. simpl.
  apply slot_for_spec in E as (slot & _ & _ & _ & Hid). unfold slot_of in He. by rewrite Hid in He; rewrite He.
Qed.

Lemma slot_added_length s h p s' : slot_added s h p s' -> (length (slots_ s) <= length (slots_ s'))%nat.
Proof.
  intros (i & q & pin & _ & _ & Ho & Hi). apply lookup_lt_Some in Hi.
  destruct (decide (length (slots_ s) <= length (slots_ s'))%nat) as [|Hn]; [done|exfalso].
  specialize (Ho (length (slots_ s')) ltac:(lia)). rewrite lookup_ge_None_2 in Ho by done.
  symmetry in Ho. apply lookup_ge_None_1 in Ho. lia.
Qed.

Lemma slot_of_inj h h' :
  h_id h <> 0%N -> h_id h' <> 0%N -> slot_of h = slot_of h' -> h_generation h = h_generation h' -> h = h'.
Proof. destruct h, h'; unfold slot_of; simpl. intros. f_equal; [lia|done]. Qed.

Lemma in_names (l : list (LayerHandle * positive)) h : h ∈ l.*1 -> exists p, (h, p) ∈ l.
Proof. intros ([h' p] & -> & Hin)%list_elem_of_fmap. eauto. Qed.

Lemma names_add s s' g g' h p :
  slot_added s h p s' -> r_named g' = (h, p) :: r_named g -> r_removed g' = r_removed g ->
  Z.of_nat (length (r_named g')) < 2 ^ 32 -> names_ok s g -> names_ok s' g'.
Proof.
  intros Ha Hn Hr Hlt [Hra Hnd Hc Hrm Hl Hkn]. rewrite Hn in Hlt. simpl in Hlt.
  pose proof (slot_added_length _ _ _ _ Ha) as Hlen. pose proof (get_layer_added _ _ _ _ Ha) as Hget.
  destruct Ha as (i & q & pin & Hh & Hd & Ho & Hi).
  assert (Hg : u32 (generation_at i s + 1) = generation_at i s + 1) by (apply wrap_small; specialize (Hc i); unfold in_u; lia).
  rewrite Hg in Hh. assert (Hs : slot_of h = i) by (rewrite Hh; unfold slot_of; simpl; lia).
  assert (Hz : h_id h <> 0%N) by (rewrite Hh; simpl; lia).
  assert (Hgi : h_generation h = generation_at i s + 1) by (by rewrite Hh).
  assert (Hgen : forall j, generation_at j s' = if decide (j = i) then generation_at i s + 1 else generation_at j s).
  { intros j. unfold generation_at at 1. destruct (decide (j = i)) as [->|Hj].
    - rewrite Hi. simpl. done. - by rewrite Ho. }
  assert (Hsame : forall h' p', (h', p') ∈ r_named g -> slot_of h' <> i ->
    slot_for h' s' = slot_for h' s /\ slots_ s' !! slot_of h' = slots_ s !! slot_of h').
  { intros h' p' Hin Hne. destruct (Hra h' p' Hin) as (Hz' & Hlt' & _). split; [|by apply Ho].
    apply slot_for_other; [right; lia|by apply Ho|done]. }
  split; rewrite ?Hn, ?Hr.
  - intros h' p' [[= -> ->]|Hin]%elem_of_cons.
    + rewrite Hs, Hgi, Hgen, decide_True by done. specialize (Hc i). pose proof (lookup_lt_Some _ _ _ Hi). lia.
    + destruct (Hra h' p' Hin) as (Hz' & Hlt' & Hr'). rewrite Hgen. destruct (decide (slot_of h' = i)) as [E|E]; [rewrite E in *|]; lia.
  - simpl. apply NoDup_cons. split; [|done]. intros (p' & Hin)%in_names.
    destruct (Hra h p' Hin) as (_ & _ & _ & Hle). rewrite Hs, Hgi in Hle. lia.
  - intros j. rewrite Hgen. simpl. pose proof (Hc j). pose proof (Hc i). destruct (decide (j = i)); lia.
  - intros h' Hin. destruct (Hrm h' Hin) as [Hnm Hnone]. split; [by right|].
    destruct (in_names _ _ Hnm) as [p' Hp']. destruct (decide (slot_of h' = i)) as [E|E].
    + destruct (slot_for h' s') as [k|] eqn:Ek; [|done]. exfalso. eapply slot_for_dead; [|exact Ek].
      rewrite E, Hi. intros slot [= <-]. right. simpl. destruct (Hra h' p' Hp') as (_ & _ & Hle). rewrite E in Hle.
      rewrite Hgi. lia.
    + by rewrite (proj1 (Hsame h' p' Hp' E)).
  - intros h' p' [[= -> ->]|Hin]%elem_of_cons; [done|]. intros Hni.
    pose proof (Hl h' p' Hin Hni) as Hgl. destruct (decide (slot_of h' = i)) as [E|E].
    + exfalso. unfold get_layer in Hgl. destruct (slot_for h' s) as [k|] eqn:Ek; [|done].
      eapply slot_for_dead; [|exact Ek]. rewrite E. intros slot Hsl. left. by apply Hd.
    + rewrite <- Hgl. by apply get_layer_same; apply (Hsame h' p').
  - intros h' j Hj. pose proof Hj as Hj'. apply slot_for_spec in Hj' as (slot & Hsl & Hal & He & Hid).
    destruct (decide (j = i)) as [->|Hne].
    + rewrite Hi in Hsl. injection Hsl as <-. simpl in He. assert (h' = h) as -> by (by rewrite He, Hgi, Hh).
      by left.
    + right. apply (Hkn h' j). rewrite <- Hj. symmetry. apply slot_for_other.
      * right. unfold slot_of. rewrite Hid. split; [|done]. rewrite Ho in Hsl by done. by eapply lookup_lt_Some.
      * apply Ho. unfold slot_of. by rewrite Hid.
      * rewrite He. simpl. lia.
Qed.

Lemma names_remove s s' g g' h i slot pin :
  slot_for h s = Some i -> slots_ s !! i = Some slot ->
  slots_ s' = <[i := mkSlot None None (generation slot) false pin]> (slots_ s) ->
  r_named g' = r_named g -> r_removed g' = h :: r_removed g -> names_ok s g -> names_ok s' g'.
Proof.
  intros Hf Hs Hsl Hn Hr [Hra Hnd Hc Hrm Hl Hkn].
  pose proof Hf as Hf'. apply slot_for_spec in Hf' as (slot' & Hs' & Hal & Hh & Hid). rewrite Hs in Hs'. injection Hs' as <-.
  assert (Hlt : (i < length (slots_ s))%nat) by (by eapply lookup_lt_Some).
  assert (Hlen : length (slots_ s') = length (slots_ s)) by (by rewrite Hsl, length_insert).
  assert (Hgen : forall j, generation_at j s' = generation_at j s).
  { intros j. unfold generation_at. rewrite Hsl. destruct (decide (j = i)) as [->|Hj].
    - by rewrite list_lookup_insert_eq, Hs. - by rewrite list_lookup_insert_ne. }
  assert (Hdead : forall h', slot_of h' = i -> slot_for h' s' = None).
  { intros h' E. destruct (slot_for h' s') as [k|] eqn:Ek; [|done]. exfalso. eapply slot_for_dead; [|exact Ek].
    rewrite E, Hsl, list_lookup_insert_eq by done. intros sl [= <-]. by left. }
  assert (Hother : forall h', h_id h' <> 0%N -> slot_of h' <> i ->
    slot_for h' s' = slot_for h' s /\ slots_ s' !! slot_of h' = slots_ s !! slot_of h').
  { intros h' Hz E. assert (slots_ s' !! slot_of h' = slots_ s !! slot_of h') by (by rewrite Hsl, list_lookup_insert_ne).
    split; [|done]. apply slot_for_other; [by left|done|done]. }
  split; rewrite ?Hn, ?Hr.
  - intros h' p' Hin. rewrite Hlen, Hgen. by eapply Hra.
  - done.
  - intros j. by rewrite Hgen.
  - intros h' [->|Hin]%elem_of_cons.
    + split; [by eapply Hkn|]. apply Hdead. by unfold slot_of.
    + destruct (Hrm h' Hin) as [Hnm Hnone]. split; [done|]. destruct (in_names _ _ Hnm) as [p' Hp'].
      destruct (decide (slot_of h' = i)); [by apply Hdead|].
      rewrite (proj1 (Hother h' ltac:(by eapply Hra) ltac:(done))). done.
  - intros h' p' Hin [Hne Hni]%not_elem_of_cons. pose proof (Hl h' p' Hin Hni) as Hgl.
    assert (Hz : h_id h' <> 0%N) by (by eapply Hra). destruct (decide (slot_of h' = i)) as [E|E].
    + exfalso. apply Hne. unfold get_layer in Hgl. destruct (slot_for h' s) as [k|] eqn:Ek; [|done].
      apply slot_for_spec in Ek as (sl & Hk & _ & Hh' & Hid'). unfold slot_of in E. rewrite Hid' in E. rewrite E in Hk, Hh'.
      rewrite Hs in Hk. injection Hk as <-. congruence.
    + rewrite <- Hgl. by apply get_layer_same; apply Hother.
  - intros h' j Hj. destruct (decide (slot_of h' = i)) as [E|E]; [by rewrite Hdead in Hj|].
    apply (Hkn h' j). rewrite <- Hj. symmetry. apply Hother; [|done].
    apply slot_for_spec in Hj as (sl & _ & _ & -> & _). simpl. lia.
Qed.

Lemma names_step op s w g s' g' w' :
  reach s w g -> op_allowed op s w g -> run_op op s g w = Some ((s', g'), w') ->
  (length (r_named g) <= length (r_named g'))%nat /\
  (Z.of_nat (length (r_named g')) < 2 ^ 32 -> names_ok s g -> names_ok s' g').
Proof.
  intros Hre Ha Hr. pose proof (reach_table _ _ _ _ _ _ _ Hre Ha Hr) as Ht.
  destruct op; cbn [table_step] in Ht;
    try (destruct Ht as (Hf & Hn & Hm); split; [by rewrite Hn|intros _; by apply names_tenants]).
  - destruct Ht as (Hm & [(h & p & Hadd & Hn)|[-> Hn]]).
    + split; [rewrite Hn; simpl; lia|]. intros Hlt. by eapply names_add.
    + split; [by rewrite Hn|]. intros _. apply names_tenants; [apply tenants_refl|done..].
  - destruct Ht as (Hn & Ht). split; [by rewrite Hn|]. intros _. destruct (slot_for h s) as [i|] eqn:E.
    + destruct Ht as (Hm & slot & pin & Hs & Hsl). by eapply names_remove.
    + destruct Ht as [-> Hm]. apply names_tenants; [apply tenants_refl|done..].
Qed.

(** C12. A handle names the layer it was given for from [add_layer] until
    [remove_layer], and nothing afterwards, however its slot is reused, as long
    as fewer than 2^32 layers were ever added (the generation is 32 bits wide);
    no two additions are given the same handle. *)
Theorem handle_names_its_layer s w g :
  reach s w g -> Z.of_nat (length (r_named g)) < 2 ^ 32 ->
  NoDup (r_named g).*1 /\
  forall h p, (h, p) ∈ r_named g ->
    get_layer h s = if bool_decide (h ∈ r_removed g) then None else Some p.
Proof.
  intros Hr Hlt. assert (Hn : names_ok s g).
  { revert Hlt. induction Hr as [comp crtc_id o a mixing hp0 hp Hm | s w g op s' g' w' Hre IH Ha Hrun]; intros Hlt.
    - split; simpl; try (intros ? ?; by intros ?%not_elem_of_nil); [constructor| |by intros ? ?%not_elem_of_nil|].
      + intros i. unfold generation_at; simpl. destruct i; simpl; lia.
      + intros h i. unfold slot_for; simpl. by destruct (_ || _).
    - destruct (names_step _ _ _ _ _ _ _ Hre Ha Hrun) as [Hle Hstep]. apply Hstep; [done|]. apply IH. lia. }
  destruct Hn as [_ Hnd _ Hrm Hl _]. split; [done|]. intros h p Hin.
  case_bool_decide as Hb; [|by apply Hl]. unfold get_layer. by rewrite (proj2 (Hrm h Hb)).
Qed.

End SceneProps.
