(* ===== verification/SceneRuns.v ===== *)
(** Concrete runs of a scene: a checker for runs, the witnesses of the theorems
    on scenes, and what happens where the code or a caller breaks a rule. *)
From S2P Require Import Prelude StateMonad DrmAbi FormatMod PlaneRegistry Layer Output Assignment AllocState.
From S2P Require Import RingPresenter BufferSource.
From S2P Require Import SceneLayer SceneMemory Scene SceneFrame SceneOwn SceneInv SceneRing SceneBuild SceneLife SceneLive SceneProps.

(** What the callers respect, decided. *)
Definition op_ok (op : SceneOp Queue) (s : Scene) (w : World Queue) (g : Run) : bool :=
  match op with
  | OReplace _ _ | ORemove _ | OBuild _ _ _ | OPause | ORebind _ _ _ _ _ => negb (bool_decide (is_Some (r_flight g)))
  | OFinalize kernel_result _ _ =>
      match r_flight g with
      | None => false
      | Some st =>
          negb (committed kernel_result st) ||
          ((length (r_scan g) <=? 1)%nat &&
           forallb (fun e => negb (bool_decide (e.1 ∈ slot_layers s)) ||
                             bool_decide (e.1 ∈ (acq_layer <$> fs_acquisitions st))) (on_screen g))
      end
  | ODrop => bool_decide (is_Some (r_flight g))
  | ODisplaced seq => negb (displaced seq s) || (length (r_scan g) <=? 1)%nat
  | OProduce x _ => bool_decide (is_Some (w_sources w !! x))
  | _ => true
  end.

Lemma op_ok_allowed op s w g : op_ok op s w g = true -> op_allowed op s w g.
Proof.
  assert (Hn : forall o : option FrameBuildState, negb (bool_decide (is_Some o)) = true -> o = None).
  { intros [st|]; [|done]. rewrite bool_decide_eq_true_2 by eauto. done. }
  destruct op; simpl; try done; try apply Hn; try apply bool_decide_eq_true_1.
  - destruct (r_flight g) as [st|]; [|done]. intros Hok. exists st. split; [done|]. intros Hc.
    rewrite Hc in Hok. simpl in Hok. apply andb_true_iff in Hok as [Hl Hf]. split; [by apply Nat.leb_le|].
    intros e He Hin. rewrite forallb_forall in Hf. specialize (Hf e (proj1 (list_elem_of_In _ _) He)).
    rewrite bool_decide_eq_true_2 in Hf by done. simpl in Hf. by apply bool_decide_eq_true_1 in Hf.
  - intros Hok Hd. rewrite Hd in Hok. by apply Nat.leb_le.
Qed.

Fixpoint run_ops (ops : list (SceneOp Queue)) (s : Scene) (w : World Queue) (g : Run)
  : option (Scene * World Queue * Run) :=
  match ops with
  | [] => Some (s, w, g)
  | op :: ops' => '((s', g'), w') ← run_op op s g w; run_ops ops' s' w' g'
  end.

Fixpoint ops_ok (ops : list (SceneOp Queue)) (s : Scene) (w : World Queue) (g : Run) : bool :=
  match ops with
  | [] => true
  | op :: ops' => op_ok op s w g &&
      match run_op op s g w with Some ((s', g'), w') => ops_ok ops' s' w' g' | None => false end
  end.

Lemma run_ops_reach ops s w g s' w' g' :
  reach s w g -> ops_ok ops s w g = true -> run_ops ops s w g = Some (s', w', g') -> reach s' w' g'.
Proof.
  revert s w g. induction ops as [|op ops IH]; intros s w g Hr Hok Hrun; simpl in *; [by injection Hrun as <- <- <-|].
  apply andb_true_iff in Hok as [Hop Hok]. destruct (run_op op s g w) as [[[s1 g1] w1]|] eqn:E; [|done].
  apply (IH s1 w1 g1); [|done|done]. by eapply reach_step; [|apply op_ok_allowed|].
Qed.

Fixpoint ops_credit (ops : list (SceneOp Queue)) (s : Scene) (w : World Queue) (g : Run) : nat :=
  match ops with
  | [] => 0
  | op :: ops' => credit op g +
      match run_op op s g w with Some ((s', g'), w') => ops_credit ops' s' w' g' | None => 0 end
  end.

Lemma run_ops_follows ops s0 w0 g0 n s w g s' w' g' :
  follows s0 w0 g0 n s w g -> ops_ok ops s w g = true -> run_ops ops s w g = Some (s', w', g') ->
  follows s0 w0 g0 (n + ops_credit ops s w g) s' w' g'.
Proof.
  revert n s w g. induction ops as [|op ops IH]; intros n s w g Hf Hok Hrun; simpl in *.
  { injection Hrun as <- <- <-. by rewrite Nat.add_0_r. }
  apply andb_true_iff in Hok as [Hop Hok]. destruct (run_op op s g w) as [[[s1 g1] w1]|] eqn:E; [|done].
  rewrite Nat.add_assoc. apply IH; [|done|done]. by eapply follows_step; [|apply op_ok_allowed|].
Qed.

(** ** A scene *)

Definition sample_allocator : Allocator :=
  mkAllocator empty_registry ∅ None 0 false [] None None None [] 0 TestCache.empty [] 16 0 [] ∅ [] false
    [] [] [] no_diagnostics.

Definition sample_output : Output := mkOutput 40 [] [] (Some 1%positive).
Definition sample_planes : heap := {[1%positive := set_is_composition true new_layer]}.
Definition scene0 : Scene := make_scene 1 sample_output sample_allocator Unsupported.
Definition world0 : World Queue := mkWorld ∅ ∅ sample_planes 1%positive [].
Definition run0 : Run := mkRun None [] [] [] [].

Lemma scene0_reach : reach scene0 world0 run0.
Proof. by apply (reach_start 1 40 sample_output sample_allocator Unsupported {[1%positive := new_layer]}). Qed.

(** A build whose passes all succeed, and one that stops at [f]. *)
Definition passes_ok : BuildPasses :=
  mkPasses (fun _ l => l) (fun a => a) [] (fun _ => false) false None 0 (fun r => r) None.
Definition passes_failing (f : BuildFailure) : BuildPasses :=
  mkPasses (fun _ l => l) (fun a => a) [] (fun _ => false) false None 0 (fun r => r) (Some (f, Errno 22)).

Definition sample_layer (q : Queue) : LayerDesc Queue := mkLayerDesc (Some q) default_display Generic 0 0 false None 7.
Definition forced_layer : LayerDesc Queue :=
  mkLayerDesc (Some [11]) default_display Generic 0 0 true None 7.
Definition OFrame : list (SceneOp Queue) :=
  [OBuild None passes_ok false; OFinalize (Val tt) None (fun _ => None); OFlip].

(** Two layers, two frames, a removal, a third frame, a new layer in the slot
    left, and a refused frame. *)
Definition sample_run : list (SceneOp Queue) :=
  [OAdd (sample_layer [11; 12; 13; 14]); OAdd (sample_layer [21; 22])] ++ OFrame ++ OFrame ++
  [ORemove (mkHandle 2 1)] ++ OFrame ++
  [OAdd (sample_layer [31]); OBuild None passes_ok false; OFinalize (Unexp (Errno 16)) None (fun _ => None)].

Definition after (ops : list (SceneOp Queue)) : Scene * World Queue * Run :=
  default (scene0, world0, run0) (run_ops ops scene0 world0 run0).
Definition after_scene ops := (after ops).1.1.
Definition after_world ops := (after ops).1.2.
Definition after_run ops := (after ops).2.

Lemma after_reach ops :
  ops_ok ops scene0 world0 run0 = true -> is_Some (run_ops ops scene0 world0 run0) ->
  reach (after_scene ops) (after_world ops) (after_run ops).
Proof.
  intros Hok [[[s w] g] Hr]. unfold after_scene, after_world, after_run, after. rewrite Hr. simpl.
  by eapply run_ops_reach; [apply scene0_reach| |].
Qed.

Lemma sample_reach : reach (after_scene sample_run) (after_world sample_run) (after_run sample_run).
Proof. apply after_reach; [by vm_compute|]. apply (bool_decide_unpack _). by vm_compute. Qed.

Example sample_screen :
  (fun e => ab_fb_id e.2.2) <$> on_screen (after_run sample_run) = [13] /\
  ab_fb_id <$> (acquired_of (w_calls (after_world sample_run))).*2 = [11; 21; 12; 22; 13; 14; 31] /\
  ab_fb_id <$> (released_of (w_calls (after_world sample_run))).*2 = [11; 21; 14; 31].
Proof. by vm_compute. Qed.



Lemma handle_names_its_layer_witness :
  let s := after_scene sample_run in let g := after_run sample_run in
  (mkHandle 2 1, 4%positive) ∈ r_named g /\ (mkHandle 2 2, 6%positive) ∈ r_named g /\
  get_layer (mkHandle 2 1) s = None /\ get_layer (mkHandle 2 2) s = Some 6%positive.
Proof.
  assert (Hlt : Z.of_nat (length (r_named (after_run sample_run))) < 2 ^ 32) by (by vm_compute).
  assert (H1 : (mkHandle 2 1, 4%positive) ∈ r_named (after_run sample_run))
    by (apply (bool_decide_unpack _); by vm_compute).
  assert (H2 : (mkHandle 2 2, 6%positive) ∈ r_named (after_run sample_run))
    by (apply (bool_decide_unpack _); by vm_compute).
  split; [exact H1|]. split; [exact H2|].
  pose proof (proj2 (handle_names_its_layer _ _ _ sample_reach Hlt)) as Hn.
  split; [rewrite (Hn _ _ H1) | rewrite (Hn _ _ H2)]; by vm_compute.
Defined.

(** A source replaced and its layer removed: both are there for two more frames. *)
Definition two_layers : list (SceneOp Queue) :=
  [OAdd (sample_layer [11; 12; 13; 14; 15; 16]); OAdd (sample_layer [21; 22; 23; 24; 25])] ++ OFrame.
Definition replace_first : SceneOp Queue := OReplace (mkHandle 1 1) (Some [31; 32; 33; 34; 35]).
Definition remove_second : SceneOp Queue := ORemove (mkHandle 2 1).

Lemma run_ops_app ops ops' s w g s1 w1 g1 :
  run_ops ops s w g = Some (s1, w1, g1) -> run_ops (ops ++ ops') s w g = run_ops ops' s1 w1 g1.
Proof.
  revert s w g. induction ops as [|op ops IH]; intros s w g Hr; simpl in *; [by injection Hr as -> -> ->|].
  destruct (run_op op s g w) as [[[s2 g2] w2]|]; [by apply IH|done].
Qed.

Lemma run_ops_after ops s w g :
  run_ops ops scene0 world0 run0 = Some (s, w, g) -> after_scene ops = s /\ after_world ops = w /\ after_run ops = g.
Proof. intros Hr. unfold after_scene, after_world, after_run, after. by rewrite Hr. Qed.

Lemma after_follows ops ops' :
  is_Some (run_ops ops scene0 world0 run0) ->
  ops_ok ops' (after_scene ops) (after_world ops) (after_run ops) = true ->
  is_Some (run_ops ops' (after_scene ops) (after_world ops) (after_run ops)) ->
  follows (after_scene ops) (after_world ops) (after_run ops)
    (ops_credit ops' (after_scene ops) (after_world ops) (after_run ops))
    (after_scene (ops ++ ops')) (after_world (ops ++ ops')) (after_run (ops ++ ops')).
Proof.
  intros [[[s w] g] Hr] Hok [[[s' w'] g'] Hr']. destruct (run_ops_after _ _ _ _ Hr) as (E1 & E2 & E3). rewrite E1, E2, E3 in *.
  pose proof (run_ops_app ops ops' _ _ _ _ _ _ Hr) as Ha. rewrite Hr' in Ha.
  destruct (run_ops_after _ _ _ _ Ha) as (-> & -> & ->).
  apply (run_ops_follows ops' s w g 0 s w g); [constructor|done|done].
Qed.

Lemma after_op ops op :
  is_Some (run_ops ops scene0 world0 run0) ->
  is_Some (run_op op (after_scene ops) (after_run ops) (after_world ops)) ->
  run_op op (after_scene ops) (after_run ops) (after_world ops) =
    Some ((after_scene (ops ++ [op]), after_run (ops ++ [op])), after_world (ops ++ [op])).
Proof.
  intros [[[s w] g] Hr]. destruct (run_ops_after _ _ _ _ Hr) as (-> & -> & ->). intros [[[s' g'] w'] Hr'].
  pose proof (run_ops_app ops [op] _ _ _ _ _ _ Hr) as Ha. simpl in Ha. rewrite Hr' in Ha |- *.
  by destruct (run_ops_after _ _ _ _ Ha) as (-> & -> & ->).
Qed.

Abbreviation retiring := (two_layers ++ [remove_second]).
Abbreviation replacing := (two_layers ++ [replace_first]).
Definition three_frames : list (SceneOp Queue) := OFrame ++ OFrame ++ OFrame.

Lemma retired_are_freed_in_time_witness :
  let w2 := after_world (retiring ++ OFrame ++ OFrame) in let w3 := after_world (retiring ++ three_frames) in
  let v2 := after_world (replacing ++ OFrame ++ OFrame) in let v3 := after_world (replacing ++ three_frames) in
  is_Some (w_layers w2 !! 4%positive) /\ ~ is_Some (w_layers w3 !! 4%positive) /\ w_sources w3 !! 3%positive = None /\
  is_Some (w_sources v2 !! 1%positive) /\ ~ is_Some (w_sources v3 !! 1%positive).
Proof.
  assert (H0 : is_Some (run_ops two_layers scene0 world0 run0)) by (apply (bool_decide_unpack _); by vm_compute).
  assert (Hr : reach (after_scene two_layers) (after_world two_layers) (after_run two_layers))
    by (apply after_reach; [by vm_compute|done]).
  assert (H1 : is_Some (run_ops retiring scene0 world0 run0)) by (apply (bool_decide_unpack _); by vm_compute).
  assert (H2 : is_Some (run_ops replacing scene0 world0 run0)) by (apply (bool_decide_unpack _); by vm_compute).
  pose proof (after_op two_layers remove_second H0 ltac:(apply (bool_decide_unpack _); by vm_compute)) as Hop1.
  pose proof (after_op two_layers replace_first H0 ltac:(apply (bool_decide_unpack _); by vm_compute)) as Hop2.
  assert (Ha1 : op_allowed remove_second (after_scene two_layers) (after_world two_layers) (after_run two_layers))
    by (by vm_compute).
  assert (Ha2 : op_allowed replace_first (after_scene two_layers) (after_world two_layers) (after_run two_layers))
    by (by vm_compute).
  pose proof (after_follows retiring (OFrame ++ OFrame) H1 ltac:(by vm_compute)
                ltac:(apply (bool_decide_unpack _); by vm_compute)) as Fw2.
  pose proof (after_follows retiring three_frames H1 ltac:(by vm_compute)
                ltac:(apply (bool_decide_unpack _); by vm_compute)) as Fw3.
  pose proof (after_follows replacing (OFrame ++ OFrame) H2 ltac:(by vm_compute)
                ltac:(apply (bool_decide_unpack _); by vm_compute)) as Fv2.
  pose proof (after_follows replacing three_frames H2 ltac:(by vm_compute)
                ltac:(apply (bool_decide_unpack _); by vm_compute)) as Fv3.
  assert (Hg1 : get_layer (mkHandle 2 1) (after_scene two_layers) = Some 4%positive) by (by vm_compute).
  assert (Hx1 : source_at (after_world two_layers) 4 = Some 3%positive) by (by vm_compute).
  assert (Hg2 : get_layer (mkHandle 1 1) (after_scene two_layers) = Some 2%positive) by (by vm_compute).
  assert (Hx2 : source_at (after_world two_layers) 2 = Some 1%positive) by (by vm_compute).
  assert (Hy2 : source_at (after_world replacing) 2 <> Some 1%positive) by (by vm_compute).
  destruct (retired_are_freed_in_time _ _ _ _ _ _ _ _ _ _ _ Hr Ha1 Hop1 Fw2) as (Hw2 & _).
  destruct (retired_are_freed_in_time _ _ _ _ _ _ _ _ _ _ _ Hr Ha1 Hop1 Fw3) as (Hw3 & _).
  destruct (retired_are_freed_in_time _ _ _ _ _ _ _ _ _ _ _ Hr Ha2 Hop2 Fv2) as (_ & Hv2 & _).
  destruct (retired_are_freed_in_time _ _ _ _ _ _ _ _ _ _ _ Hr Ha2 Hop2 Fv3) as (_ & Hv3 & _).
  destruct (Hw2 _ _ _ eq_refl Hg1 Hx1) as [Hw2' _]. destruct (Hw3 _ _ _ eq_refl Hg1 Hx1) as [Hw3' Hs3].
  specialize (Hv2 _ _ _ _ eq_refl Hg2 Hx2 Hy2). specialize (Hv3 _ _ _ _ eq_refl Hg2 Hx2 Hy2).
  assert (C1 : ops_credit (OFrame ++ OFrame) (after_scene retiring) (after_world retiring) (after_run retiring) = 2%nat)
    by (vm_compute; reflexivity).
  assert (C2 : ops_credit three_frames (after_scene retiring) (after_world retiring) (after_run retiring) = 3%nat)
    by (vm_compute; reflexivity).
  assert (C3 : ops_credit (OFrame ++ OFrame) (after_scene replacing) (after_world replacing) (after_run replacing) = 2%nat)
    by (vm_compute; reflexivity).
  assert (C4 : ops_credit three_frames (after_scene replacing) (after_world replacing) (after_run replacing) = 3%nat)
    by (vm_compute; reflexivity).
  rewrite C1 in Hw2'. rewrite C2 in Hw3', Hs3. rewrite C3 in Hv2. rewrite C4 in Hv3.
  cbv zeta. split_and!; [apply Hw2'; lia|intros Hx%Hw3'; lia|apply Hs3; lia|apply Hv2; lia|intros Hx%Hv3; lia].
Defined.

(** ** Where a rule is broken *)

(** A build that fails while the acquire fences, the damage clips, the plane
    colours or the pinned layers are armed keeps its buffers in the scratch
    vector, which the next build clears: they never go back. *)
Definition failing_run : list (SceneOp Queue) :=
  [OAdd (sample_layer [11; 12; 13]); OBuild None (passes_failing DamageClips) false] ++ OFrame.

Lemma failed_build_loses_buffers :
  reach (after_scene failing_run) (after_world failing_run) (after_run failing_run) /\
  ab_fb_id <$> (r_lost (after_run failing_run)).*2 = [11] /\
  exists w', destroy (after_scene failing_run) (after_world failing_run) = Some (tt, w') /\
    ab_fb_id <$> (released_of (w_calls w')).*2 = [12].
Proof.
  split; [apply after_reach; [by vm_compute|apply (bool_decide_unpack _); by vm_compute]|].
  split; [by vm_compute|]. eexists. split; vm_compute; reflexivity.
Qed.

(** A source that answers EAGAIN once its layer is on a plane: the plane keeps
    scanning the old buffer out, and two commits later the buffer is released. *)
Definition starving_run : list (SceneOp Queue) :=
  [OAdd (sample_layer [11]); OAdd (sample_layer [21; 22; 23])] ++ OFrame ++ OFrame ++ OFrame.

Lemma skipped_layer_released_on_screen :
  is_Some (run_ops starving_run scene0 world0 run0) /\
  ab_fb_id <$> (released_of (w_calls (after_world starving_run))).*2 = [11; 21] /\
  (fun e => ab_fb_id e.2.2) <$> on_screen (after_run starving_run) = [23; 11].
Proof. split; [apply (bool_decide_unpack _); by vm_compute|]. by vm_compute. Qed.

(** A source replaced between the build and the finalisation: the frame being
    built is not retargeted, and its buffer goes to the new producer. *)
Definition replacing_run : list (SceneOp Queue) :=
  [OAdd (sample_layer [11]); OBuild None passes_ok false; OReplace (mkHandle 1 1) (Some [21]);
   OFinalize (Unexp (Errno 16)) None (fun _ => None)].

Lemma replace_during_build_misdirects :
  is_Some (run_ops replacing_run scene0 world0 run0) /\
  (fun e => (e.1, ab_fb_id e.2)) <$> acquired_of (w_calls (after_world replacing_run)) = [(1%positive, 11)] /\
  (fun e => (e.1, ab_fb_id e.2)) <$> released_of (w_calls (after_world replacing_run)) = [(3%positive, 11)].
Proof. split; [apply (bool_decide_unpack _); by vm_compute|]. by vm_compute. Qed.

(** A layer removed between the build and the finalisation: the placement
    record follows a pointer to its planes layer, which is gone. *)
Definition removing_run : list (SceneOp Queue) :=
  [OAdd (sample_layer [11]); OBuild None passes_ok false; ORemove (mkHandle 1 1)].

Lemma remove_during_build_dangles :
  is_Some (run_ops removing_run scene0 world0 run0) /\
  run_ops (removing_run ++ [OFinalize (Val tt) None (fun _ => None)]) scene0 world0 run0 = None.
Proof. split; [apply (bool_decide_unpack _); by vm_compute|]. by vm_compute. Qed.

(** After [rebind] the new CRTC shows nothing, but a scene whose layers are
    clean and whose sources are idle reports no change to commit. *)
Definition rebound_run : list (SceneOp Queue) :=
  [OAdd forced_layer] ++ OFrame ++ [ORebind 41 640 480 (Val tt) sample_allocator].

Lemma rebound_scene_reports_no_change :
  reach (after_scene rebound_run) (after_world rebound_run) (after_run rebound_run) /\
  first_commit_ (after_scene rebound_run) = true /\
  r_scan (after_run rebound_run) = [] /\
  content_changed (after_scene rebound_run) (after_world rebound_run) = Some (false, after_world rebound_run).
Proof.
  split; [apply after_reach; [by vm_compute|apply (bool_decide_unpack _); by vm_compute]|].
  split_and!; by vm_compute.
Qed.

(** And a layer added with [force_composited] is no longer composited: its new
    planes layer starts from the defaults. *)
Definition forced (ops : list (SceneOp Queue)) : list bool :=
  (fun q => match w_planes (after_world ops) !! q with Some l => force_composited_ l | None => false end)
    <$> live_planes_layers (after_scene ops).

Lemma rebind_forgets_force_composited :
  forced ([OAdd forced_layer] ++ OFrame) = [true] /\ forced rebound_run = [false].
Proof. split; by vm_compute. Qed.
