(* ===== verification/HdrMetadata.v ===== *)
(** What a source says of its HDR content, as the kernel is told it:
    [src/display/hdr_metadata.hpp] and [src/display/hdr_metadata.cpp].

    A [float] is a binary32 value of the Standard Library's [SpecFloat]; the
    serialized structure is laid out as [hdr_output_metadata] of
    [drm_mode.h] on a little-endian machine, its padding zero. *)
From Stdlib Require Import SpecFloat.
From S2P Require Import Prelude SceneLayer.

Record Chromaticity := mkXY { cx : spec_float; cy : spec_float }.
Record ColorimetryInfo := mkColorimetry {
  red : Chromaticity; green : Chromaticity; blue : Chromaticity; white : Chromaticity;
  has_primaries : bool; has_default_white : bool
}.

Record HdrSourceMetadata := mkHdr {
  eotf : TransferFunction;
  display_primaries : ColorimetryInfo;
  max_display_mastering_luminance : Z;
  min_display_mastering_luminance : Z;
  max_content_light_level : Z;
  max_frame_average_light_level : Z
}.

Definition eotf_value (t : TransferFunction) : Z :=
  match t with TraditionalGammaSdr => 0 | TraditionalGammaHdr => 1 | SmpteSt2084Pq => 2 | Bt2100Hlg => 3 end.

(** ** Coordinates *)

(** [std::round] of a value that is neither infinite nor NaN: half away from
    zero. *)
Definition std_round (v : spec_float) : option Z :=
  match v with
  | S754_zero _ => Some 0
  | S754_finite s m e =>
      let mag := if 0 <=? e then Z.pos m * 2 ^ e else (Z.pos m + 2 ^ (- e - 1)) / 2 ^ (- e) in
      Some (if s then - mag else mag)
  | _ => None
  end.

(** [50000.0F] *)
Definition f50000 : spec_float := S754_finite false 12800000 (-8).

(** [None]: converting a NaN, which is undefined. *)
Definition cie_to_u16 (v : spec_float) : option Z :=
  if negb (SFleb (S754_zero false) v) then Some 0
  else
    match SFmul 24 128 v f50000 with
    | S754_infinity false => Some 0xFFFF
    | scaled => r ← std_round scaled; Some (if 65535 <=? r then 0xFFFF else r mod 2 ^ 16)
    end.

(** ** Serialization *)

Definition le16 (v : Z) : list Z := [v mod 2 ^ 8; v / 2 ^ 8 mod 2 ^ 8].

(** The 16-bit words after the leading [metadata_type]: [eotf] with the inner
    [metadata_type], the primaries in green, blue, red order, the white point,
    the luminances. *)
Definition hdr_words (src : HdrSourceMetadata) : option (list Z) :=
  let p := display_primaries src in
  xys ← mapM cie_to_u16 [cx (green p); cy (green p); cx (blue p); cy (blue p); cx (red p); cy (red p);
                          cx (white p); cy (white p)];
  Some (eotf_value (eotf src) :: xys ++
        [max_display_mastering_luminance src; min_display_mastering_luminance src;
         max_content_light_level src; max_frame_average_light_level src]).

Definition serialize_words (ws : list Z) : list Z := le16 0 ++ le16 0 ++ concat (map le16 ws) ++ [0; 0].
Definition serialize_hdr_metadata (src : HdrSourceMetadata) : option (list Z) :=
  serialize_words <$> hdr_words src.

(** ** The hash *)

Definition k_offset_basis : Z := 0xCBF29CE484222325.
Definition k_prime : Z := 0x100000001B3.

Definition fnv_step (h b : Z) : Z := u64 (Z.lxor h b * k_prime).
Definition fnv1a_64 (data : list Z) : Z := foldl fnv_step k_offset_basis data.
Definition hdr_metadata_hash (src : HdrSourceMetadata) : option Z := fnv1a_64 <$> serialize_hdr_metadata src.

(** ** The words are in range *)

Lemma std_round_nonneg m e r : std_round (S754_finite false m e) = Some r -> 0 <= r.
Proof.
  simpl. intros [= <-]. destruct (Z.leb_spec 0 e).
  - pose proof (Z.pow_nonneg 2 e). nia.
  - apply Z.div_pos; [|apply Z.pow_pos_nonneg; lia]. pose proof (Z.pow_nonneg 2 (- e - 1)). lia.
Qed.

Lemma shr_nonneg mrs e n : 0 <= shr_m mrs -> 0 <= shr_m (shr mrs e n).1.
Proof.
  intros H. destruct n as [|p|p]; simpl; [done| |done].
  assert (H1 : forall x, 0 <= shr_m x -> 0 <= shr_m (shr_1 x)).
  { intros [m r s]. destruct m as [|[q|q|]|q]; simpl; lia. }
  revert mrs H. induction p as [p IH|p IH|]; intros mrs H; simpl; auto.
Qed.

Lemma shr_fexp_nonneg m e l : 0 <= m -> 0 <= shr_m (shr_fexp 24 128 m e l).1.
Proof. intros Hm. apply shr_nonneg. by destruct l as [|[]]. Qed.

(** A product of two non-negative numbers is not NaN, nor negative. *)
Lemma round_positive mz ez :
  match binary_round_aux 24 128 false (Z.pos mz) ez loc_Exact with
  | S754_zero s | S754_infinity s | S754_finite s _ _ => s = false
  | S754_nan => False
  end.
Proof.
  unfold binary_round_aux. pose proof (shr_fexp_nonneg (Z.pos mz) ez loc_Exact ltac:(lia)) as H1.
  destruct (shr_fexp 24 128 (Z.pos mz) ez loc_Exact) as [r1 e1]. simpl in H1.
  assert (H2 : 0 <= round_nearest_even (shr_m r1) (loc_of_shr_record r1)).
  { unfold round_nearest_even. destruct (loc_of_shr_record r1) as [|[]]; [lia|destruct (Z.even _); lia|lia|lia]. }
  pose proof (shr_fexp_nonneg _ e1 loc_Exact H2) as H3.
  destruct (shr_fexp 24 128 (round_nearest_even (shr_m r1) (loc_of_shr_record r1)) e1 loc_Exact) as [r2 e2].
  simpl in H3. destruct (shr_m r2) as [|m|m]; [done|by destruct (Z.leb _ _)|lia].
Qed.

Lemma cie_to_u16_range v : exists r, cie_to_u16 v = Some r /\ in_u 16 r.
Proof.
  unfold cie_to_u16, in_u. destruct (SFleb (S754_zero false) v) eqn:El; [|exists 0; by split].
  cbn [negb]. destruct v as [s|[]| |[] m e]; try done; [exists 0; by split|exists 65535; by split|].
  unfold SFmul, f50000. cbn [xorb].
  pose proof (round_positive (m * 12800000) (e + -8)) as Hr.
  destruct (binary_round_aux 24 128 false (Z.pos (m * 12800000)) (e + -8) loc_Exact) as [s|s| |s m' e']; subst;
    [exists 0; by split|exists 65535; by split|done|].
  destruct (std_round (S754_finite false m' e')) as [r|] eqn:Er; [|done].
  pose proof (std_round_nonneg _ _ _ Er) as H0. cbn [mbind option_bind]. eexists. split; [done|].
  destruct (Z.leb_spec 65535 r); [lia|]. apply Z.mod_pos_bound. lia.
Qed.

Definition hdr_ok (src : HdrSourceMetadata) : Prop :=
  in_u 16 (max_display_mastering_luminance src) /\ in_u 16 (min_display_mastering_luminance src) /\
  in_u 16 (max_content_light_level src) /\ in_u 16 (max_frame_average_light_level src).

Lemma hdr_words_ok src : hdr_ok src -> exists ws, hdr_words src = Some ws /\ length ws = 13%nat /\ Forall (in_u 16) ws.
Proof.
  intros (H1 & H2 & H3 & H4). unfold hdr_words. cbv zeta.
  assert (Hm : forall l, exists xs, mapM cie_to_u16 l = Some xs /\ length xs = length l /\ Forall (in_u 16) xs).
  { induction l as [|v l (xs & IH & Hn & Hf)]; [by exists []|]. destruct (cie_to_u16_range v) as (r & Hr & Hu).
    exists (r :: xs). simpl. rewrite Hr. simpl. rewrite IH. simpl. split_and!; [done|by f_equal|by constructor]. }
  match goal with |- context [mapM cie_to_u16 ?l] => destruct (Hm l) as (xs & -> & Hn & Hf) end. simpl in *.
  eexists. split; [done|]. split; [simpl; rewrite length_app, Hn; done|].
  constructor; [destruct (eotf src); by unfold in_u|]. apply Forall_app. split; [done|].
  repeat (constructor; [done|]); constructor.
Qed.

(** ** What the hash tells apart *)

Lemma le16_inj x y : in_u 16 x -> in_u 16 y -> le16 x = le16 y -> x = y.
Proof.
  unfold in_u, le16. intros Hx Hy [= H1 H2].
  rewrite (Z.mod_small (x / 2 ^ 8)) in H2 by (split; [apply Z.div_pos; lia|apply Z.div_lt_upper_bound; lia]).
  rewrite (Z.mod_small (y / 2 ^ 8)) in H2 by (split; [apply Z.div_pos; lia|apply Z.div_lt_upper_bound; lia]).
  pose proof (Z.div_mod x (2 ^ 8) ltac:(lia)). pose proof (Z.div_mod y (2 ^ 8) ltac:(lia)). lia.
Qed.

Lemma lxor_range w a b : 0 <= w -> in_u w a -> in_u w b -> in_u w (Z.lxor a b).
Proof.
  unfold in_u. intros Hw Ha Hb. assert (Hn : 0 <= Z.lxor a b) by (apply Z.lxor_nonneg; lia). split; [done|].
  destruct (Z.eq_dec (Z.lxor a b) 0) as [->|Hz]; [lia|]. apply Z.log2_lt_pow2; [lia|].
  eapply Z.le_lt_trans; [apply Z.log2_lxor; lia|]. apply Z.max_lub_lt.
  - destruct (Z.eq_dec a 0) as [->|]; [|apply Z.log2_lt_pow2; lia]. destruct (Z.eq_dec w 0); [subst; simpl in *|simpl; lia].
    assert (b = 0) by lia. subst. by simpl in Hz.
  - destruct (Z.eq_dec b 0) as [->|]; [|apply Z.log2_lt_pow2; lia]. destruct (Z.eq_dec w 0); [subst; simpl in *|simpl; lia].
    assert (a = 0) by lia. subst. by simpl in Hz.
Qed.

Lemma lxor_cancel a b c : Z.lxor a c = Z.lxor b c -> a = b.
Proof.
  intros H. apply (f_equal (fun z => Z.lxor z c)) in H. by rewrite !Z.lxor_assoc, !Z.lxor_nilpotent, !Z.lxor_0_r in H.
Qed.

(** The multiplier is odd: a step loses nothing. *)
Lemma times_prime_inj a b : in_u 64 a -> in_u 64 b -> u64 (a * k_prime) = u64 (b * k_prime) -> a = b.
Proof.
  unfold in_u, wrap. intros Ha Hb Hm. set (inv := 0xce965057aff6957b).
  assert (Hi : (k_prime * inv) mod 2 ^ 64 = 1) by (by vm_compute).
  assert (Hr : forall z, 0 <= z < 2 ^ 64 -> ((z * k_prime) mod 2 ^ 64 * inv) mod 2 ^ 64 = z).
  { intros z Hz. rewrite Zmult_mod_idemp_l, <- Z.mul_assoc, <- Zmult_mod_idemp_r, Hi, Z.mul_1_r. by apply Z.mod_small. }
  rewrite <- (Hr a Ha), <- (Hr b Hb). by rewrite Hm.
Qed.

Lemma fnv_step_range h b : in_u 64 (fnv_step h b).
Proof. by apply wrap_range. Qed.

Lemma fnv_step_inj h h' b : in_u 64 h -> in_u 64 h' -> in_u 8 b -> fnv_step h b = fnv_step h' b -> h = h'.
Proof.
  intros Hh Hh' Hb Hs. assert (Hb' : in_u 64 b) by (unfold in_u in *; lia).
  apply (lxor_cancel h h' b), times_prime_inj; [by apply lxor_range..|exact Hs].
Qed.

Lemma fnv_steps_inj data h h' :
  in_u 64 h -> in_u 64 h' -> Forall (in_u 8) data -> foldl fnv_step h data = foldl fnv_step h' data -> h = h'.
Proof.
  intros Hh Hh' Hd. revert h h' Hh Hh'. induction Hd as [|b data Hb Hd IH]; intros h h' Hh Hh'; [done|].
  simpl. intros Hf. apply IH in Hf; [|apply fnv_step_range..]. by eapply fnv_step_inj.
Qed.

Lemma fnv_range data h : in_u 64 h -> in_u 64 (foldl fnv_step h data).
Proof. revert h. induction data as [|b data IH]; intros h Hh; [done|]. apply IH, fnv_step_range. Qed.

(** The bits above the low byte come through [xor] with a byte. *)
Lemma lxor_high h a : 0 <= h -> in_u 8 a -> Z.lxor h a / 2 ^ 8 = h / 2 ^ 8.
Proof.
  intros Hh Ha. rewrite <- !Z.shiftr_div_pow2, Z.shiftr_lxor by lia.
  rewrite (Z.shiftr_div_pow2 a) by lia. rewrite (Z.div_small a) by done. apply Z.lxor_0_r.
Qed.

Lemma same_high x y : x / 2 ^ 8 = y / 2 ^ 8 -> Z.abs (x - y) < 2 ^ 8.
Proof.
  intros H. pose proof (Z.div_mod x (2 ^ 8) ltac:(lia)). pose proof (Z.div_mod y (2 ^ 8) ltac:(lia)).
  pose proof (Z.mod_pos_bound x (2 ^ 8) ltac:(lia)). pose proof (Z.mod_pos_bound y (2 ^ 8) ltac:(lia)). lia.
Qed.

(** The multiplier has a bit far above two bytes: what two successive bytes
    change, no second byte undoes. *)
Lemma fnv_pair_distinct h a b a' b' :
  in_u 64 h -> in_u 8 a -> in_u 8 b -> in_u 8 a' -> in_u 8 b' ->
  fnv_step (fnv_step h a) b = fnv_step (fnv_step h a') b' -> a = a' /\ b = b'.
Proof.
  intros Hh Ha Hb Ha' Hb' Hs. set (x := fnv_step h a) in *. set (x' := fnv_step h a') in *.
  assert (Hx : in_u 64 x) by apply fnv_step_range. assert (Hx' : in_u 64 x') by apply fnv_step_range.
  assert (H8 : forall z, in_u 8 z -> in_u 64 z) by (unfold in_u; lia).
  apply times_prime_inj in Hs; [|apply lxor_range; auto; lia..].
  assert (Hhigh : x / 2 ^ 8 = x' / 2 ^ 8).
  { rewrite <- (lxor_high x b), <- (lxor_high x' b') by (done || (unfold in_u in *; lia)). by rewrite Hs. }
  apply same_high in Hhigh.
  assert (Hd : Z.abs (Z.lxor h a - Z.lxor h a') < 2 ^ 8).
  { apply same_high. rewrite !lxor_high by (done || (unfold in_u in *; lia)). done. }
  destruct (Z.eq_dec (Z.lxor h a) (Z.lxor h a')) as [He|Hne].
  - assert (a = a') as ->.
    { apply (lxor_cancel _ _ h). by rewrite !(Z.lxor_comm _ h). }
    split; [done|]. apply (lxor_cancel _ _ x). rewrite !(Z.lxor_comm _ x). exact Hs.
  - exfalso. unfold x, x', fnv_step, wrap, k_prime in Hhigh.
    set (u := Z.lxor h a) in *. set (v := Z.lxor h a') in *. clearbody u v.
    pose proof (Z.div_mod (u * 0x100000001B3) (2 ^ 64) ltac:(lia)) as Eu.
    pose proof (Z.div_mod (v * 0x100000001B3) (2 ^ 64) ltac:(lia)) as Ev.
    set (ru := (u * 0x100000001B3) mod 2 ^ 64) in *. set (rv := (v * 0x100000001B3) mod 2 ^ 64) in *.
    set (qu := u * 0x100000001B3 / 2 ^ 64) in *. set (qv := v * 0x100000001B3 / 2 ^ 64) in *.
    clearbody ru rv qu qv. clear - Hhigh Hd Hne Eu Ev. assert (qu = qv) by lia. lia.
Qed.

Lemma le16_bytes v : Forall (in_u 8) (le16 v).
Proof. unfold le16. repeat constructor; apply Z.mod_pos_bound; lia. Qed.

Lemma words_bytes ws : Forall (in_u 8) (concat (map le16 ws)).
Proof. induction ws as [|w ws IH]; cbn [map concat]; [constructor|]. apply Forall_app. split; [apply le16_bytes|done]. Qed.

(** The hash tells apart two metadata that differ in one 16-bit field of the
    serialized structure (a luminance, a light level, one coordinate of a
    primary, the transfer function): no such change is ever taken for content
    already on the connector. *)
Theorem hash_separates_fields (src src' : HdrSourceMetadata) l r x y :
  hdr_ok src -> hdr_ok src' ->
  hdr_words src = Some (l ++ x :: r) -> hdr_words src' = Some (l ++ y :: r) -> x <> y ->
  exists h h', hdr_metadata_hash src = Some h /\ hdr_metadata_hash src' = Some h' /\ h <> h'.
Proof.
  intros Ho Ho' Hw Hw' Hxy. unfold hdr_metadata_hash, serialize_hdr_metadata. rewrite Hw, Hw'. simpl.
  destruct (hdr_words_ok src Ho) as (ws & Hws & _ & Hf). rewrite Hw in Hws. injection Hws as <-.
  destruct (hdr_words_ok src' Ho') as (ws' & Hws' & _ & Hf'). rewrite Hw' in Hws'. injection Hws' as <-.
  apply Forall_app in Hf as [_ [Hx Hr]%Forall_cons]. apply Forall_app in Hf' as [_ [Hy _]%Forall_cons].
  eexists _, _. split; [done|]. split; [done|]. unfold fnv1a_64, serialize_words.
  set (pre := le16 0 ++ le16 0). rewrite !(app_assoc (le16 0)). fold pre.
  rewrite !map_app, !concat_app. cbn [map concat]. rewrite <- !app_assoc, !foldl_app.
  set (h := foldl fnv_step (foldl fnv_step k_offset_basis pre) (concat (map le16 l))).
  assert (Hh : in_u 64 h) by (by apply fnv_range, fnv_range).
  intros He. apply fnv_steps_inj in He; [|apply fnv_range, fnv_range, Hh..|by repeat constructor].
  apply fnv_steps_inj in He; [|apply fnv_range, Hh..|apply words_bytes].
  unfold le16 in He. simpl in He.
  apply fnv_pair_distinct in He; [|done|apply Z.mod_pos_bound; lia..].
  destruct He as [H1 H2]. apply Hxy, le16_inj; [done..|]. unfold le16. congruence.
Qed.

(** The kernel reads back what was written: the layout loses no word. *)
Lemma serialize_inj ws ws' :
  Forall (in_u 16) ws -> Forall (in_u 16) ws' -> serialize_words ws = serialize_words ws' -> ws = ws'.
Proof.
  intros Hw Hw' He. unfold serialize_words in He. do 2 apply app_inv_head in He. apply app_inv_tail in He.
  revert ws' Hw' He. induction Hw as [|w ws Hu _ IH]; intros ws' Hw' He; destruct Hw' as [|w' ws' Hu' Hw']; [done..|].
  cbn [map concat] in He. unfold le16 in He. simpl in He. injection He as H1 H2 H3. f_equal.
  - apply le16_inj; [done..|]. unfold le16. simpl. congruence.
  - by apply IH.
Qed.

(** ** Concrete metadata *)

(** A literal: [m * 2^-e], the nearest binary32 value. *)
Definition lit (m : positive) (e : Z) : spec_float := S754_finite false m (- e).

(** BT.2020 primaries and D65. *)
Definition bt2020_colorimetry : ColorimetryInfo :=
  mkColorimetry (mkXY (lit 11878269 24) (lit 9797894 25)) (mkXY (lit 11408507 26) (lit 13371441 24))
    (mkXY (lit 8791261 26) (lit 12348031 28)) (mkXY (lit 10492471 25) (lit 11039408 25)) true true.

Definition sample_hdr (max_cll : Z) : HdrSourceMetadata := mkHdr SmpteSt2084Pq bt2020_colorimetry 1000 50 max_cll 400.

Example sample_hdr_words :
  hdr_words (sample_hdr 1000) =
    Some [2; 8500; 39850; 6550; 2300; 35400; 14600; 15635; 16450; 1000; 50; 1000; 400].
Proof. by vm_compute. Qed.

Lemma hash_separates_fields_witness :
  exists h h', hdr_metadata_hash (sample_hdr 1000) = Some h /\ hdr_metadata_hash (sample_hdr 1001) = Some h' /\ h <> h'.
Proof.
  apply (hash_separates_fields (sample_hdr 1000) (sample_hdr 1001)
           [2; 8500; 39850; 6550; 2300; 35400; 14600; 15635; 16450; 1000; 50] [400] 1000 1001);
    [by vm_compute|by vm_compute|by vm_compute|by vm_compute|lia].
Defined.

(** A coordinate that moves by less than a step of the encoding is a change of
    a field that the hash does not see. *)
Definition nudged_white : HdrSourceMetadata :=
  (sample_hdr 1000) {{ display_primaries := bt2020_colorimetry {{ white := mkXY (lit 10492472 25) (lit 11039408 25) }} }}.

Lemma nudged_coordinate_keeps_the_hash :
  display_primaries nudged_white <> display_primaries (sample_hdr 1000) /\
  hdr_metadata_hash nudged_white = hdr_metadata_hash (sample_hdr 1000).
Proof. split; [done|by vm_compute]. Qed.
