(* ===== verification/HdrCache.v ===== *)
(** The HDR metadata blobs of the CRTCs: [src/display/hdr_metadata_cache.hpp]
    and [src/display/hdr_metadata_cache.cpp], with the owning wrapper of
    [src/display/hdr_metadata.cpp].

    A blob is destroyed by the wrapper that owns it; a moved-from wrapper is
    empty.  The calls to the kernel are logged. *)
From S2P Require Import Prelude SceneLayer HdrMetadata.

Record HdrMetadataBlob := mkBlob { blob_fd : Z; blob_id : Z; content_hash : Z }.
#[global] Instance HdrMetadataBlob_eq_dec : EqDecision HdrMetadataBlob.
Proof. solve_decision. Defined.

Record Entry := mkCacheEntry { e_blob : HdrMetadataBlob; e_hash : Z }.

(** [destroyed_], [forgotten_]: the blobs given to
    [drmModeDestroyPropertyBlob] and those only let go of, the oldest first. *)
Record HdrMetadataCache := mkHdrCache {
  active_ : gmap Z Entry;
  pending_destruction_ : list HdrMetadataBlob;
  destroyed_ : list HdrMetadataBlob;
  forgotten_ : list HdrMetadataBlob
}.
Definition new_cache : HdrMetadataCache := mkHdrCache ∅ [] [] [].

(** [reset]: what the wrapper destroys. *)
Definition reset (b : HdrMetadataBlob) : list HdrMetadataBlob :=
  if negb (blob_id b =? 0) && (0 <=? blob_fd b) then [b] else [].

Definition destroy_blobs (bs : list HdrMetadataBlob) (c : HdrMetadataCache) : HdrMetadataCache :=
  c {{ destroyed_ ::= fun l => l ++ concat (map reset bs) }}.

Definition active_blobs (c : HdrMetadataCache) : list HdrMetadataBlob := (fun kv => e_blob kv.2) <$> map_to_list (active_ c).

(** [None] outside: the metadata cannot be serialized. *)
Definition set_with_factory (crtc_id : Z) (src : option HdrSourceMetadata)
    (factory : HdrSourceMetadata -> expected HdrMetadataBlob) (c : HdrMetadataCache)
    : option (expected Z * HdrMetadataCache) :=
  match src with
  | None =>
      Some (Val 0,
            match active_ c !! crtc_id with
            | Some e => c {{ pending_destruction_ ::= fun l => l ++ [e_blob e]; active_ ::= delete crtc_id }}
            | None => c
            end)
  | Some src =>
      new_hash ← hdr_metadata_hash src;
      match active_ c !! crtc_id with
      | Some e =>
          if e_hash e =? new_hash then Some (Val (blob_id (e_blob e)), c)
          else
            match factory src with
            | Unexp err => Some (Unexp err, c)
            | Val b => Some (Val (blob_id b),
                c {{ pending_destruction_ ::= fun l => l ++ [e_blob e];
                     active_ ::= <[crtc_id := mkCacheEntry b new_hash]> }})
            end
      | None =>
          match factory src with
          | Unexp err => Some (Unexp err, c)
          | Val b => Some (Val (blob_id b), c {{ active_ ::= <[crtc_id := mkCacheEntry b new_hash]> }})
          end
      end
  end.

Definition acknowledge_committed (c : HdrMetadataCache) : HdrMetadataCache :=
  (destroy_blobs (pending_destruction_ c) c) {{ pending_destruction_ := [] }}.

Definition clear_for_session_loss (c : HdrMetadataCache) : HdrMetadataCache :=
  c {{ forgotten_ ::= fun l => l ++ active_blobs c ++ pending_destruction_ c;
       active_ := ∅; pending_destruction_ := [] }}.

Definition flush (c : HdrMetadataCache) : HdrMetadataCache :=
  (destroy_blobs (pending_destruction_ c ++ active_blobs c) c) {{ active_ := ∅; pending_destruction_ := [] }}.

(** The destructor: the members, in reverse order. *)
Definition drop_cache (c : HdrMetadataCache) : HdrMetadataCache :=
  (destroy_blobs (pending_destruction_ c ++ active_blobs c) c) {{ active_ := ∅; pending_destruction_ := [] }}.

Definition pending_destruction_count (c : HdrMetadataCache) : nat := length (pending_destruction_ c).
Definition current_blob_id (crtc_id : Z) (c : HdrMetadataCache) : Z :=
  match active_ c !! crtc_id with Some e => blob_id (e_blob e) | None => 0 end.
Definition current_content_hash (crtc_id : Z) (c : HdrMetadataCache) : Z :=
  match active_ c !! crtc_id with Some e => e_hash e | None => 0 end.

(** ** Runs *)

Inductive CacheOp :=
  | CSet (crtc_id : Z) (src : option HdrSourceMetadata) (made : expected HdrMetadataBlob)
  | CAck | CLoss | CFlush.

(** Which operation makes a blob of the kernel's. *)
Definition makes (crtc_id : Z) (src : option HdrSourceMetadata) (c : HdrMetadataCache) : bool :=
  match src with
  | None => false
  | Some s => negb (bool_decide (e_hash <$> active_ c !! crtc_id = hdr_metadata_hash s))
  end.

Record Books := mkBooks { bk_cache : HdrMetadataCache; bk_made : list HdrMetadataBlob }.

Definition run_cache (op : CacheOp) (b : Books) : option (option (expected Z) * Books) :=
  let c := bk_cache b in
  match op with
  | CSet crtc src made =>
      '(r, c') ← set_with_factory crtc src (fun _ => made) c;
      Some (Some r, mkBooks c' (bk_made b ++ (if makes crtc src c then match made with Val x => [x] | _ => [] end else [])))
  | CAck => Some (None, b {{ bk_cache := acknowledge_committed c }})
  | CLoss => Some (None, b {{ bk_cache := clear_for_session_loss c }})
  | CFlush => Some (None, b {{ bk_cache := flush c }})
  end.

Definition owned_blobs (c : HdrMetadataCache) : list HdrMetadataBlob := active_blobs c ++ pending_destruction_ c.

(** A blob made is the kernel's: it has an id and a descriptor, and no blob
    still held has them. *)
Definition fresh_blob (made : expected HdrMetadataBlob) (c : HdrMetadataCache) : Prop :=
  forall b, made = Val b ->
    blob_id b <> 0 /\ 0 <= blob_fd b /\
    forall b', b' ∈ owned_blobs c -> (blob_fd b', blob_id b') <> (blob_fd b, blob_id b).

Inductive cache_reach : Books -> Prop :=
  | cache_start : cache_reach (mkBooks new_cache [])
  | cache_step b op r b' :
      cache_reach b ->
      (forall crtc src made, op = CSet crtc src made -> fresh_blob made (bk_cache b)) ->
      run_cache op b = Some (r, b') -> cache_reach b'.

Record cache_inv (b : Books) : Prop := mkCacheInv {
  ci_books : bk_made b ≡ₚ owned_blobs (bk_cache b) ++ destroyed_ (bk_cache b) ++ forgotten_ (bk_cache b);
  ci_nodup : NoDup ((fun x => (blob_fd x, blob_id x)) <$> owned_blobs (bk_cache b));
  ci_real : forall x, x ∈ owned_blobs (bk_cache b) -> reset x = [x]
}.

Lemma hash_total src : exists h, hdr_metadata_hash src = Some h.
Proof.
  unfold hdr_metadata_hash, serialize_hdr_metadata, hdr_words. cbv zeta.
  assert (Hm : forall l, exists xs, mapM cie_to_u16 l = Some xs).
  { induction l as [|v l [xs IH]]; [by exists []|]. destruct (cie_to_u16_range v) as (r & Hr & _).
    exists (r :: xs). simpl. rewrite Hr. simpl. by rewrite IH. }
  match goal with |- context [mapM cie_to_u16 ?l] => destruct (Hm l) as (xs & ->) end. simpl. eauto.
Qed.

Lemma resets_all bs : (forall x, x ∈ bs -> reset x = [x]) -> concat (map reset bs) = bs.
Proof.
  induction bs as [|b bs IH]; intros Hb; [done|]. cbn [map concat]. rewrite (Hb b), IH; [done|set_solver|set_solver].
Qed.

Definition blobs_of (m : gmap Z Entry) : list HdrMetadataBlob := (fun kv => e_blob kv.2) <$> map_to_list m.

Lemma blobs_insert crtc e m : blobs_of (<[crtc := e]> m) ≡ₚ e_blob e :: blobs_of (delete crtc m).
Proof.
  rewrite <- insert_delete_eq. unfold blobs_of. by rewrite map_to_list_insert by apply lookup_delete_eq.
Qed.

Lemma blobs_delete crtc e m : m !! crtc = Some e -> blobs_of m ≡ₚ e_blob e :: blobs_of (delete crtc m).
Proof. intros He. unfold blobs_of. by rewrite <- (map_to_list_delete _ _ _ He). Qed.

Lemma blobs_missing crtc (m : gmap Z Entry) : m !! crtc = None -> delete crtc m = m.
Proof. apply delete_id. Qed.

(** What a [set] comes to: it answers with the blob now cached, owns the one
    made beside the ones it owned, and destroys nothing. *)
Lemma set_spec crtc src made c :
  exists r c', set_with_factory crtc src (fun _ => made) c = Some (r, c') /\
    owned_blobs c' ≡ₚ (if makes crtc src c then match made with Val x => [x] | _ => [] end else []) ++ owned_blobs c /\
    destroyed_ c' = destroyed_ c /\ forgotten_ c' = forgotten_ c /\
    (forall i, r = Val i -> current_blob_id crtc c' = i) /\
    (forall k, k <> crtc -> active_ c' !! k = active_ c !! k) /\
    pending_destruction_ c `prefix_of` pending_destruction_ c'.
Proof.
  unfold set_with_factory, makes, current_blob_id. destruct src as [src|].
  2: { eexists _, _. split; [done|]. destruct c as [act pen des fgt]; simpl. destruct (act !! crtc) as [e|] eqn:Ee; simpl.
       - split_and!; try done; [|by intros i [= <-]; rewrite lookup_delete_eq|intros k Hk; by rewrite lookup_delete_ne|by apply prefix_app_r].
         unfold owned_blobs, active_blobs; simpl. fold (blobs_of (delete crtc act)). fold (blobs_of act).
         rewrite (blobs_delete _ _ _ Ee). simpl. rewrite app_assoc. apply Permutation_app_comm.
       - split_and!; try done. intros i [= <-]. by rewrite Ee. }
  destruct (hash_total src) as [h ->]. simpl.
  destruct c as [act pen des fgt]; simpl. destruct (act !! crtc) as [e|] eqn:Ee; simpl.
  - destruct (Z.eqb_spec (e_hash e) h) as [->|Hne].
    + eexists _, _. split; [done|]. rewrite bool_decide_eq_true_2 by done. split_and!; try done.
      intros i [= <-]. simpl. by rewrite Ee.
    + rewrite bool_decide_eq_false_2 by congruence. destruct made as [b|err]; (eexists _, _; split; [done|]); simpl.
      * split_and!; try done; [|by intros i [= <-]; rewrite lookup_insert_eq|intros k Hk; by rewrite lookup_insert_ne|by apply prefix_app_r].
        unfold owned_blobs, active_blobs; simpl. fold (blobs_of (<[crtc := mkCacheEntry b h]> act)). fold (blobs_of act).
        rewrite blobs_insert, (blobs_delete _ _ _ Ee). simpl. constructor. rewrite app_assoc. apply Permutation_app_comm.
      * by split_and!.
  - destruct made as [b|err]; (eexists _, _; split; [done|]); simpl.
    + split_and!; try done; [|by intros i [= <-]; rewrite lookup_insert_eq|intros k Hk; by rewrite lookup_insert_ne].
      unfold owned_blobs, active_blobs; simpl. fold (blobs_of (<[crtc := mkCacheEntry b h]> act)). fold (blobs_of act).
      by rewrite blobs_insert, blobs_missing.
    + by split_and!.
Qed.

(** The content behind the answer. *)
Lemma set_content crtc src made c id c' :
  set_with_factory crtc src (fun _ => made) c = Some (Val id, c') ->
  match src with
  | None => id = 0
  | Some s => exists e, active_ c' !! crtc = Some e /\ blob_id (e_blob e) = id /\ hdr_metadata_hash s = Some (e_hash e)
  end.
Proof.
  unfold set_with_factory. destruct src as [s|]; [|by intros [= <- _]].
  destruct (hdr_metadata_hash s) as [h|] eqn:Eh; simpl; [|done].
  destruct c as [act pen des fgt]; simpl. destruct (act !! crtc) as [e|] eqn:Ee; simpl.
  - destruct (Z.eqb_spec (e_hash e) h) as [<-|_]; [intros [= <- <-]; exists e; simpl; by rewrite Ee|].
    destruct made as [b|]; [|done]. intros [= <- <-]. exists (mkCacheEntry b h). simpl. by rewrite lookup_insert_eq.
  - destruct made as [b|]; [|done]. intros [= <- <-]. exists (mkCacheEntry b h). simpl. by rewrite lookup_insert_eq.
Qed.

Lemma destroy_blobs_spec bs c :
  (forall x, x ∈ bs -> reset x = [x]) -> destroyed_ (destroy_blobs bs c) = destroyed_ c ++ bs.
Proof. intros Hb. unfold destroy_blobs. destruct c; simpl. by rewrite resets_all. Qed.

Lemma cache_inv_step b op r b' :
  cache_inv b -> (forall crtc src made, op = CSet crtc src made -> fresh_blob made (bk_cache b)) ->
  run_cache op b = Some (r, b') -> cache_inv b'.
Proof.
  intros [Hb Hn Hr] Hf Hrun. destruct b as [c mk]; simpl in *. destruct op as [crtc src made| | |]; simpl in Hrun.
  - destruct (set_spec crtc src made c) as (r' & c' & Hs & Ho & Hd & Hg & _). rewrite Hs in Hrun. injection Hrun as <- <-.
    specialize (Hf crtc src made eq_refl). simpl in Hf.
    set (new := if makes crtc src c then match made with Val x => [x] | _ => [] end else []) in *.
    assert (Hnew : new = [] \/ exists x, made = Val x /\ new = [x]).
    { unfold new. destruct (makes crtc src c), made; eauto. }
    split; cbn [bk_cache bk_made].
    + rewrite Hd, Hg, Ho, Hb. rewrite Permutation_app_comm. by rewrite <- app_assoc.
    + rewrite Ho, fmap_app. destruct Hnew as [->|(x & Hm & ->)]; [done|]. destruct (Hf x Hm) as (_ & _ & Hfr).
      simpl. apply NoDup_cons. split; [|done]. intros (y & Hy & Hin)%list_elem_of_fmap. by apply (Hfr y Hin).
    + intros x. rewrite Ho, elem_of_app. intros [Hx|Hx]; [|auto].
      destruct Hnew as [->|(y & Hm & ->)]; [by apply not_elem_of_nil in Hx|]. apply list_elem_of_singleton in Hx as ->.
      destruct (Hf y Hm) as (Hi & Hfd & _). unfold reset. rewrite (proj2 (Z.eqb_neq _ _)), (proj2 (Z.leb_le _ _)) by done. done.
  - injection Hrun as <- <-. unfold owned_blobs in *.
    assert (Hp : forall x, x ∈ pending_destruction_ c -> reset x = [x]) by (intros; apply Hr, elem_of_app; by right).
    pose proof (destroy_blobs_spec _ c Hp) as Hd. unfold acknowledge_committed. split; simpl.
    + destruct c as [act pen des fgt]; unfold owned_blobs, active_blobs in *; simpl in *. rewrite Hd, app_nil_r, Hb, <- !app_assoc.
      apply Permutation_app_head. rewrite !app_assoc. apply Permutation_app_tail, Permutation_app_comm.
    + destruct c as [act pen des fgt]; unfold owned_blobs, active_blobs in *; simpl in *. rewrite app_nil_r. rewrite fmap_app in Hn.
      by apply NoDup_app in Hn as [Hn _].
    + intros x. destruct c as [act pen des fgt]; unfold owned_blobs, active_blobs in *; simpl in *. rewrite app_nil_r. intros Hx.
      apply Hr, elem_of_app. by left.
  - injection Hrun as <- <-. unfold clear_for_session_loss. split; simpl.
    + destruct c as [act pen des fgt]; unfold owned_blobs, active_blobs in *; simpl in *. rewrite map_to_list_empty. simpl.
      rewrite Hb. rewrite (Permutation_app_comm (_ ++ pen)), <- !app_assoc. done.
    + destruct c; unfold owned_blobs, active_blobs; simpl. rewrite map_to_list_empty. constructor.
    + intros x. destruct c; unfold owned_blobs, active_blobs; simpl. rewrite map_to_list_empty. by intros ?%not_elem_of_nil.
  - injection Hrun as <- <-. unfold flush. unfold owned_blobs in *.
    assert (Hp : forall x, x ∈ pending_destruction_ c ++ active_blobs c -> reset x = [x]).
    { intros x Hx. apply Hr. rewrite elem_of_app in *. tauto. }
    pose proof (destroy_blobs_spec _ c Hp) as Hd. split; simpl.
    + destruct c as [act pen des fgt]; unfold owned_blobs, active_blobs in *; simpl in *. rewrite Hd, map_to_list_empty. simpl.
      rewrite Hb, (Permutation_app_comm pen), !app_assoc. apply Permutation_app_tail. rewrite <- !app_assoc.
      rewrite app_assoc. apply Permutation_app_comm.
    + destruct c; unfold owned_blobs, active_blobs; simpl. rewrite map_to_list_empty. constructor.
    + intros x. destruct c; unfold owned_blobs, active_blobs; simpl. rewrite map_to_list_empty. by intros ?%not_elem_of_nil.
Qed.

Lemma cache_reach_inv b : cache_reach b -> cache_inv b.
Proof.
  induction 1 as [|b op r b' _ IH Hf Hr]; [|by eapply cache_inv_step].
  split; simpl; [done|constructor|by intros x ?%not_elem_of_nil].
Qed.

(** C21. Blobs are neither lost nor destroyed under the connector: in every run of
    the cache each blob made is held, was destroyed once or was let go of with
    its session; a [set] always returns, destroys nothing, makes a blob only for
    new content and answers with the blob now cached for the CRTC; an
    acknowledged commit destroys exactly the blobs that were replaced before it
    and keeps the cached ones; and dropping the cache leaves none behind. *)
Theorem hdr_blobs_accounted (b : Books) :
  cache_reach b ->
  bk_made b ≡ₚ owned_blobs (bk_cache b) ++ destroyed_ (bk_cache b) ++ forgotten_ (bk_cache b) /\
  (forall crtc src made, exists r c', set_with_factory crtc src (fun _ => made) (bk_cache b) = Some (r, c') /\
     destroyed_ c' = destroyed_ (bk_cache b) /\
     (forall i, r = Val i -> current_blob_id crtc c' = i) /\
     (forall k, k <> crtc -> current_blob_id k c' = current_blob_id k (bk_cache b)) /\
     (forall s, src = Some s -> e_hash <$> active_ (bk_cache b) !! crtc = hdr_metadata_hash s ->
        r = Val (current_blob_id crtc (bk_cache b)) /\ c' = bk_cache b)) /\
  (destroyed_ (acknowledge_committed (bk_cache b)) = destroyed_ (bk_cache b) ++ pending_destruction_ (bk_cache b) /\
   forall k, current_blob_id k (acknowledge_committed (bk_cache b)) = current_blob_id k (bk_cache b)) /\
  (bk_made b ≡ₚ destroyed_ (drop_cache (bk_cache b)) ++ forgotten_ (drop_cache (bk_cache b)) /\
   owned_blobs (drop_cache (bk_cache b)) = []).
Proof.
  intros Hre. destruct (cache_reach_inv b Hre) as [Hb Hn Hr]. split_and!; [done| | | | |].
  - intros crtc src made. destruct (set_spec crtc src made (bk_cache b)) as (r & c' & Hs & _ & Hd & _ & Hi & Hk & _).
    exists r, c'. split_and!; [done..| |].
    + intros k Hkc. unfold current_blob_id. by rewrite Hk.
    + intros s -> He. unfold set_with_factory in Hs. destruct (hash_total s) as [h Hh]. rewrite Hh in He, Hs.
      unfold current_blob_id. simpl in Hs. destruct (active_ (bk_cache b) !! crtc) as [e|]; [|done].
      injection He as He. rewrite (proj2 (Z.eqb_eq _ _) He) in Hs. by injection Hs as <- <-.
  - unfold acknowledge_committed. rewrite <- (destroy_blobs_spec _ (bk_cache b)); [by destruct (bk_cache b)|].
    intros x Hx. apply Hr, elem_of_app. by right.
  - intros k. unfold acknowledge_committed, destroy_blobs, current_blob_id. by destruct (bk_cache b).
  - assert (Hp : forall x, x ∈ pending_destruction_ (bk_cache b) ++ active_blobs (bk_cache b) -> reset x = [x]).
    { intros x Hx. apply Hr. unfold owned_blobs. rewrite elem_of_app in *. tauto. }
    pose proof (destroy_blobs_spec _ (bk_cache b) Hp) as Hd. unfold drop_cache.
    destruct (bk_cache b) as [act pen des fgt]; unfold owned_blobs, active_blobs in *; simpl in *. rewrite Hd, Hb.
    rewrite (Permutation_app_comm pen), !app_assoc. apply Permutation_app_tail. rewrite <- !app_assoc.
    rewrite app_assoc. apply Permutation_app_comm.
  - unfold drop_cache, destroy_blobs, owned_blobs, active_blobs. destruct (bk_cache b); simpl. by rewrite map_to_list_empty.
Qed.

(** Three frames: content set, kept, replaced and acknowledged. *)
Definition blob_a : HdrMetadataBlob := mkBlob 3 71 0.
Definition blob_b : HdrMetadataBlob := mkBlob 3 72 0.
Definition cache_ops : list CacheOp :=
  [CSet 40 (Some (sample_hdr 1000)) (Val blob_a); CAck; CSet 40 (Some (sample_hdr 1000)) (Unexp (Errno 22));
   CSet 40 (Some (sample_hdr 1001)) (Val blob_b)].

Fixpoint run_caches (ops : list CacheOp) (b : Books) : option Books :=
  match ops with [] => Some b | op :: ops' => '(_, b') ← run_cache op b; run_caches ops' b' end.

Definition sample_books : Books := default (mkBooks new_cache []) (run_caches cache_ops (mkBooks new_cache [])).

Definition fresh_blobb (made : expected HdrMetadataBlob) (c : HdrMetadataCache) : bool :=
  match made with
  | Val b => negb (blob_id b =? 0) && (0 <=? blob_fd b) &&
      forallb (fun b' => negb (bool_decide ((blob_fd b', blob_id b') = (blob_fd b, blob_id b)))) (owned_blobs c)
  | Unexp _ => true
  end.

Fixpoint caches_ok (ops : list CacheOp) (b : Books) : bool :=
  match ops with
  | [] => true
  | op :: ops' =>
      match op with CSet _ _ made => fresh_blobb made (bk_cache b) | _ => true end &&
      match run_cache op b with Some (_, b') => caches_ok ops' b' | None => false end
  end.

Lemma fresh_blobb_fresh made c : fresh_blobb made c = true -> fresh_blob made c.
Proof.
  intros Hf b ->. simpl in Hf. apply andb_true_iff in Hf as [[Hi Hd]%andb_true_iff Hf].
  split_and!; [by apply negb_true_iff, Z.eqb_neq in Hi|by apply Z.leb_le|].
  intros b' Hb'. rewrite forallb_forall in Hf. specialize (Hf b' (proj1 (list_elem_of_In _ _) Hb')).
  by apply negb_true_iff, bool_decide_eq_false_1 in Hf.
Qed.

Lemma caches_reach ops b b' : cache_reach b -> caches_ok ops b = true -> run_caches ops b = Some b' -> cache_reach b'.
Proof.
  revert b. induction ops as [|op ops IH]; intros b Hr Hok Hrun; simpl in *; [by injection Hrun as <-|].
  apply andb_true_iff in Hok as [Hf Hok]. destruct (run_cache op b) as [[r b1]|] eqn:E; [|done].
  apply (IH b1); [|done|done]. eapply cache_step; [done| |done].
  intros crtc src made ->. by apply fresh_blobb_fresh.
Qed.

Lemma sample_books_reach : cache_reach sample_books.
Proof. apply (caches_reach cache_ops (mkBooks new_cache [])); [constructor|by vm_compute|by vm_compute]. Qed.

Lemma hdr_blobs_accounted_witness :
  cache_reach sample_books /\ destroyed_ (acknowledge_committed (bk_cache sample_books)) = [blob_a] /\
  current_blob_id 40 (acknowledge_committed (bk_cache sample_books)) = 72.
Proof.
  split; [exact sample_books_reach|].
  destruct (hdr_blobs_accounted _ sample_books_reach) as (_ & _ & [Hd Hk] & _).
  rewrite Hd, Hk. split; vm_compute; reflexivity.
Defined.
