(* ===== verification/OutputSignaling.v ===== *)
(** What a connector can carry, and what it should signal for the layers of a
    frame: [src/display/connector_capabilities.hpp] and [.cpp],
    [src/scene/output_signaling.hpp] and [.cpp]. *)
From Stdlib Require Import SpecFloat.
From S2P Require Import Prelude DrmAbi PlaneRegistry SceneLayer HdrMetadata.

(** ** The connector *)

Inductive Colorspace :=
  | CsDefault | SmpteRf170mYcc | Bt709Ycc | XvYcc601 | XvYcc709 | SYcc601 | OpYcc601 | OpRgb
  | Bt2020Cycc | Bt2020Rgb | Bt2020Ycc | DciP3RgbD65 | DciP3RgbTheater | RgbWideFixed | RgbWideFloat.
#[global] Instance Colorspace_eq_dec : EqDecision Colorspace.
Proof. solve_decision. Defined.

Inductive BroadcastRgb := BrAutomatic | BrFull | BrLimited.
#[global] Instance BroadcastRgb_eq_dec : EqDecision BroadcastRgb.
Proof. solve_decision. Defined.

(** The [colorspace_*] fields are one function of the entry, and so are the
    [broadcast_rgb_*]. *)
Record ConnectorCapabilities := mkConnector {
  connector_id : Z;
  has_colorspace : bool;
  colorspace_of : Colorspace -> option Z;
  has_max_bpc : bool;
  max_bpc_min : option Z;
  max_bpc_max : option Z;
  max_bpc_current : option Z;
  has_hdr_output_metadata : bool;
  has_broadcast_rgb : bool;
  broadcast_rgb_of : BroadcastRgb -> option Z
}.
Definition no_connector_caps : ConnectorCapabilities :=
  mkConnector 0 false (fun _ => None) false None None None false false (fun _ => None).

Definition colorspace_names : list (string * Colorspace) :=
  [("Default", CsDefault); ("SMPTE_170M_YCC", SmpteRf170mYcc); ("BT709_YCC", Bt709Ycc); ("XVYCC_601", XvYcc601);
   ("XVYCC_709", XvYcc709); ("SYCC_601", SYcc601); ("opYCC_601", OpYcc601); ("opRGB", OpRgb);
   ("BT2020_CYCC", Bt2020Cycc); ("BT2020_RGB", Bt2020Rgb); ("BT2020_YCC", Bt2020Ycc);
   ("DCI-P3_RGB_D65", DciP3RgbD65); ("DCI-P3_RGB_Theater", DciP3RgbTheater);
   ("RGB_Wide_Gamut_Fixed_Point", RgbWideFixed); ("RGB_Wide_Gamut_Floating_Point", RgbWideFloat)].
Definition broadcast_names : list (string * BroadcastRgb) :=
  [("Automatic", BrAutomatic); ("Full", BrFull); ("Limited 16:235", BrLimited)].

Definition named_entry {A} (names : list (string * A)) (name : string) : option A :=
  snd <$> (snd <$> list_find (fun kv => kv.1 = name) names).

Definition put {A} `{EqDecision A} (k : A) (v : Z) (f : A -> option Z) : A -> option Z :=
  fun k' => if decide (k' = k) then Some v else f k'.

Definition apply_colorspace_enum (name : string) (value : Z) (c : ConnectorCapabilities) : ConnectorCapabilities :=
  match named_entry colorspace_names name with
  | Some cs => c {{ colorspace_of ::= put cs value }}
  | None => c
  end.
Definition apply_broadcast_rgb_enum (name : string) (value : Z) (c : ConnectorCapabilities) : ConnectorCapabilities :=
  match named_entry broadcast_names name with
  | Some b => c {{ broadcast_rgb_of ::= put b value }}
  | None => c
  end.

Definition colorspace_value (cs : Colorspace) (c : ConnectorCapabilities) : option Z := colorspace_of c cs.
Definition broadcast_rgb_value (b : BroadcastRgb) (c : ConnectorCapabilities) : option Z := broadcast_rgb_of c b.

Definition can_signal_hdr (c : ConnectorCapabilities) : bool :=
  has_hdr_output_metadata c && has_max_bpc c &&
  match max_bpc_max c with Some m => 10 <=? m | None => false end.

Section Probe.
Context `{abi : DrmAbi} `{kms : Kms}.

Definition parse_property (prop : drmModePropertyRes) (value : Z) (c : ConnectorCapabilities) : ConnectorCapabilities :=
  let named name := String.eqb (prop_name prop) name in
  let flag bit := has_flag (prop_flags prop) bit in
  if named "Colorspace" then
    let c := c {{ has_colorspace := true }} in
    if flag DRM_MODE_PROP_ENUM
    then foldl (fun c en => apply_colorspace_enum en.1 en.2 c) c (prop_enums prop) else c
  else if named "max bpc" then
    let c := c {{ has_max_bpc := true; max_bpc_current := Some value }} in
    match prop_values prop with
    | lo :: hi :: _ => if flag DRM_MODE_PROP_RANGE then c {{ max_bpc_min := Some lo; max_bpc_max := Some hi }} else c
    | _ => c
    end
  else if named "HDR_OUTPUT_METADATA" then c {{ has_hdr_output_metadata := true }}
  else if named "Broadcast RGB" then
    let c := c {{ has_broadcast_rgb := true }} in
    if flag DRM_MODE_PROP_ENUM
    then foldl (fun c en => apply_broadcast_rgb_enum en.1 en.2 c) c (prop_enums prop) else c
  else c.

(** [e]: errno, where the kernel lists no properties. *)
Definition probe_connector_capabilities (id : Z) (e : errc) : expected ConnectorCapabilities :=
  match drmModeObjectGetProperties id OBJECT_CONNECTOR with
  | None => Unexp e
  | Some props =>
      Val (foldl (fun c pv => match drmModeGetProperty pv.1 with
                              | Some prop => parse_property prop pv.2 c
                              | None => c
                              end) (no_connector_caps {{ connector_id := id }}) props)
  end.
End Probe.

(** ** What to signal *)

Definition gamut_rank (cp : ColorPrimaries) : Z :=
  match cp with PBt709 => 0 | PAdobeRgb => 1 | PDciP3 => 2 | PBt2020 => 3 end.

Definition d65 : Chromaticity := mkXY (lit 10492471 25) (lit 11039408 25).
Definition color_primaries_to_colorimetry (cp : ColorPrimaries) : ColorimetryInfo :=
  match cp with
  | PBt709 => mkColorimetry (mkXY (lit 10737418 24) (lit 11072963 25)) (mkXY (lit 10066330 25) (lit 10066330 24))
                (mkXY (lit 10066330 26) (lit 16106127 28)) d65 true true
  | PBt2020 => mkColorimetry (mkXY (lit 11878269 24) (lit 9797894 25)) (mkXY (lit 11408507 26) (lit 13371441 24))
                 (mkXY (lit 8791261 26) (lit 12348031 28)) d65 true true
  | PDciP3 => mkColorimetry (mkXY (lit 11408507 24) (lit 10737418 25)) (mkXY (lit 8891924 25) (lit 11576279 24))
                (mkXY (lit 10066330 26) (lit 16106127 28)) d65 true true
  | PAdobeRgb => mkColorimetry (mkXY (lit 10737418 24) (lit 11072963 25)) (mkXY (lit 14092861 26) (lit 11911823 24))
                   (mkXY (lit 10066330 26) (lit 16106127 28)) d65 true true
  end.

Fixpoint widest_loop (layers : list DisplayParams) (winner : option ColorPrimaries) (winner_rank : Z)
    : option ColorPrimaries :=
  match layers with
  | [] => winner
  | d :: layers' =>
      match color_primaries d with
      | None => widest_loop layers' winner winner_rank
      | Some cp =>
          let rank := gamut_rank cp in
          if negb (bool_decide (is_Some winner)) || (winner_rank <? rank)
          then widest_loop layers' (Some cp) rank else widest_loop layers' winner winner_rank
      end
  end.
Definition widest_gamut (layers : list DisplayParams) : option ColorPrimaries := widest_loop layers None 0.

Definition color_primaries_to_colorspace (cp : ColorPrimaries) : Colorspace :=
  match cp with PBt709 => CsDefault | PBt2020 => Bt2020Rgb | PDciP3 => DciP3RgbD65 | PAdobeRgb => OpRgb end.

Definition is_hdr (tf : TransferFunction) : bool := bool_decide (tf = SmpteSt2084Pq \/ tf = Bt2100Hlg).

Fixpoint hdr_loop (layers : list DisplayParams) (hdr_eotf : option TransferFunction) : option TransferFunction :=
  match layers with
  | [] => hdr_eotf
  | d :: layers' =>
      match source_eotf d with
      | None => hdr_loop layers' hdr_eotf
      | Some tf =>
          if negb (is_hdr tf) then hdr_loop layers' hdr_eotf
          else if negb (bool_decide (is_Some hdr_eotf)) || bool_decide (tf = SmpteSt2084Pq)
          then hdr_loop layers' (Some tf) else hdr_loop layers' hdr_eotf
      end
  end.

Record OutputSignalling := mkSignalling {
  colorspace : option Colorspace;
  hdr_metadata : option HdrSourceMetadata;
  hdr_downgraded : bool
}.

Definition derive_output_signaling (layers : list DisplayParams) (caps : option ConnectorCapabilities)
    : OutputSignalling :=
  let widest := widest_gamut layers in
  let md := (fun tf => mkHdr tf (color_primaries_to_colorimetry (default PBt2020 widest)) 0 0 0 0)
              <$> hdr_loop layers None in
  let cs := color_primaries_to_colorspace <$> widest in
  match caps, md with
  | Some c, Some _ => if can_signal_hdr c then mkSignalling cs md false else mkSignalling cs None true
  | _, _ => mkSignalling cs md false
  end.

(** ** What the choice means *)

Lemma gamut_rank_inj a b : gamut_rank a = gamut_rank b -> a = b.
Proof. by destruct a, b. Qed.

Lemma gamut_rank_nonneg a : 0 <= gamut_rank a.
Proof. by destruct a. Qed.

Definition primaries_in (layers : list DisplayParams) : list ColorPrimaries := omap color_primaries layers.

Lemma primaries_cons d layers : primaries_in (d :: layers) = option_list (color_primaries d) ++ primaries_in layers.
Proof. unfold primaries_in. csimpl. by destruct (color_primaries d). Qed.

Lemma widest_loop_spec layers winner rank :
  (forall w, winner = Some w -> rank = gamut_rank w) ->
  match widest_loop layers winner rank with
  | None => winner = None /\ primaries_in layers = []
  | Some w => w ∈ option_list winner ++ primaries_in layers /\
      forall cp, cp ∈ option_list winner ++ primaries_in layers -> gamut_rank cp <= gamut_rank w
  end.
Proof.
  revert winner rank. induction layers as [|d layers IH]; intros winner rank Hr; cbn [widest_loop].
  { destruct winner as [w|]; [|done]. simpl. split; [by left|]. intros cp ->%list_elem_of_singleton. lia. }
  rewrite primaries_cons. destruct (color_primaries d) as [cp|]; cbn [option_list app].
  - destruct (negb _ || _) eqn:Eb.
    + specialize (IH (Some cp) (gamut_rank cp)). destruct (widest_loop layers (Some cp) (gamut_rank cp)) as [w|].
      * destruct IH as [Hw Hm]; [by intros ? [= <-]|]. simpl in *. split; [set_solver|].
        intros c [Hc|Hc]%elem_of_app; [|by apply Hm].
        destruct winner as [w0|]; [|by apply not_elem_of_nil in Hc]. apply list_elem_of_singleton in Hc as ->.
        rewrite (Hr w0 eq_refl) in Eb. rewrite bool_decide_eq_true_2 in Eb by eauto. simpl in Eb.
        apply Z.ltb_lt in Eb. pose proof (Hm cp ltac:(by left)). lia.
      * by destruct IH as [? _]; [intros ? [= <-]|].
    + apply orb_false_iff in Eb as [Es Eb]. apply negb_false_iff, bool_decide_eq_true_1 in Es as [w0 ->].
      apply Z.ltb_ge in Eb. rewrite (Hr w0 eq_refl) in Eb. specialize (IH (Some w0) rank Hr).
      destruct (widest_loop layers (Some w0) rank) as [w|]; [|by destruct IH].
      destruct IH as [Hw Hm]. simpl in *. split; [set_solver|].
      intros c [->|[->|Hc]%elem_of_cons]%elem_of_cons; [apply Hm; by left|pose proof (Hm w0 ltac:(by left)); lia|apply Hm; by right].
  - by apply IH.
Qed.

Definition hdr_eotfs (layers : list DisplayParams) : list TransferFunction :=
  filter (fun tf => is_hdr tf = true) (omap source_eotf layers).

Lemma hdr_eotfs_cons d layers :
  hdr_eotfs (d :: layers) =
    match source_eotf d with Some tf => if is_hdr tf then tf :: hdr_eotfs layers else hdr_eotfs layers | None => hdr_eotfs layers end.
Proof.
  unfold hdr_eotfs. csimpl. destruct (source_eotf d) as [tf|]; [|done].
  destruct (is_hdr tf) eqn:E; [by rewrite filter_cons_True|]. rewrite filter_cons_False; [done|congruence].
Qed.

Lemma hdr_loop_spec layers found :
  (forall tf, found = Some tf -> is_hdr tf = true) ->
  match hdr_loop layers found with
  | None => found = None /\ hdr_eotfs layers = []
  | Some tf => tf ∈ option_list found ++ hdr_eotfs layers /\
      (SmpteSt2084Pq ∈ option_list found ++ hdr_eotfs layers -> tf = SmpteSt2084Pq)
  end.
Proof.
  revert found. induction layers as [|d layers IH]; intros found Hf; cbn [hdr_loop].
  { destruct found as [tf|]; [|done]. simpl. split; [by left|]. by intros ?%list_elem_of_singleton. }
  rewrite hdr_eotfs_cons. destruct (source_eotf d) as [tf|]; [|by apply IH].
  destruct (is_hdr tf) eqn:Eh; cbn [negb]; [|by apply IH]. destruct (negb _ || _) eqn:Eb.
  - specialize (IH (Some tf)). destruct (hdr_loop layers (Some tf)) as [t|].
    + destruct IH as [Ht Hq]; [by intros ? [= <-]|]. simpl in *. split; [set_solver|].
      intros [Hin|Hin]%elem_of_app; [|by apply Hq]. destruct found as [f0|]; [|by apply not_elem_of_nil in Hin].
      apply list_elem_of_singleton in Hin as <-. rewrite bool_decide_eq_true_2 in Eb by eauto. simpl in Eb.
      apply bool_decide_eq_true_1 in Eb as ->. apply Hq. by left.
    + by destruct IH as [? _]; [intros ? [= <-]|].
  - apply orb_false_iff in Eb as [Es Eb]. apply negb_false_iff, bool_decide_eq_true_1 in Es as [f0 ->].
    apply bool_decide_eq_false_1 in Eb. specialize (IH (Some f0) Hf).
    destruct (hdr_loop layers (Some f0)) as [t|]; [|by destruct IH]. destruct IH as [Ht Hq]. simpl in *.
    split; [set_solver|]. intros [Hin|[Hin|Hin]%elem_of_cons]%elem_of_cons; [apply Hq; rewrite Hin; by left|congruence|apply Hq; by right].
Qed.

(** The colour space signalled is that of the widest gamut among the layers, and
    HDR is signalled exactly when a layer is HDR and the connector carries it,
    PQ winning over HLG; a frame whose HDR the connector cannot carry is
    marked. *)
Theorem signalling_spec (layers : list DisplayParams) (caps : option ConnectorCapabilities) :
  let s := derive_output_signaling layers caps in
  let carries := match caps with Some c => can_signal_hdr c | None => true end in
  match colorspace s with
  | None => primaries_in layers = []
  | Some cs => exists w, w ∈ primaries_in layers /\ cs = color_primaries_to_colorspace w /\
      forall cp, cp ∈ primaries_in layers -> gamut_rank cp <= gamut_rank w
  end /\
  match hdr_metadata s with
  | None => hdr_eotfs layers = [] \/ carries = false
  | Some md => carries = true /\ eotf md ∈ hdr_eotfs layers /\
      (SmpteSt2084Pq ∈ hdr_eotfs layers -> eotf md = SmpteSt2084Pq)
  end /\
  (hdr_downgraded s = true <-> hdr_eotfs layers <> [] /\ carries = false).
Proof.
  cbv zeta. unfold derive_output_signaling.
  pose proof (widest_loop_spec layers None 0 ltac:(done)) as Hw. fold (widest_gamut layers) in Hw. simpl in Hw.
  pose proof (hdr_loop_spec layers None ltac:(done)) as Hh. simpl in Hh.
  assert (Hcs : match color_primaries_to_colorspace <$> widest_gamut layers with
    | None => primaries_in layers = []
    | Some cs => exists w, w ∈ primaries_in layers /\ cs = color_primaries_to_colorspace w /\
        forall cp, cp ∈ primaries_in layers -> gamut_rank cp <= gamut_rank w
    end).
  { destruct (widest_gamut layers) as [w|]; simpl; [|by destruct Hw]. destruct Hw. eauto. }
  destruct (hdr_loop layers None) as [tf|]; simpl.
  - destruct Hh as [Hin Hq]. assert (Hne : hdr_eotfs layers <> []) by (intros He; rewrite He in Hin; by apply not_elem_of_nil in Hin).
    destruct caps as [c|]; simpl; [destruct (can_signal_hdr c); simpl|];
      (split; [exact Hcs|]); split_and!; try done; try (by right); split; try done; intros [_ ?]; done.
  - destruct Hh as [_ He]. destruct caps as [c|]; simpl; (split; [exact Hcs|]); (split; [by left|]);
      (split; [done|intros [Hn _]; by rewrite He in Hn]).
Qed.
