(* ===== verification/SceneSignals.v ===== *)
(** The output properties a scene writes beside its planes: the connector's
    colour space and HDR metadata, the CRTC's variable refresh and regamma
    (the [inject_*] functions of [src/scene/layer_scene.cpp] and the end of
    [build_frame_into]). *)
From S2P Require Import Prelude DrmAbi PlaneRegistry PropertyStore Atomic SceneLayer HdrMetadata HdrCache OutputSignaling.

Inductive OutputTransferFunction :=
  | OtfDefault | OtfIdentity | OtfSrgb | OtfBt709 | OtfPq | OtfGamma22 | OtfGamma24 | OtfGamma26.

Definition regamma_name (tf : OutputTransferFunction) : string :=
  match tf with
  | OtfIdentity => "Identity" | OtfSrgb => "sRGB inv_EOTF" | OtfBt709 => "BT.709 OETF" | OtfPq => "PQ inv_EOTF"
  | OtfGamma22 => "Gamma 2.2 inv_EOTF" | OtfGamma24 => "Gamma 2.4 inv_EOTF" | OtfGamma26 => "Gamma 2.6 inv_EOTF"
  | OtfDefault => "Default"
  end.

(** The members of [LayerScene::Impl] that remember what was asked for and
    what was last written; -1 is never. *)
Record Signals := mkSignals {
  connector_caps_ : ConnectorCapabilities;
  hdr_user_set_ : bool;
  desired_hdr_ : option HdrSourceMetadata;
  hdr_dirty_pending_ : bool;
  hdr_cache_ : HdrMetadataCache;
  last_written_hdr_blob_id_ : Z;
  vrr_user_set_ : bool;
  desired_vrr_ : bool;
  last_written_vrr_ : Z;
  regamma_tf_user_set_ : bool;
  desired_regamma_tf_ : OutputTransferFunction;
  last_written_regamma_ : Z;
  last_written_colorspace_value_ : option Z
}.
Definition new_signals (caps : ConnectorCapabilities) : Signals :=
  mkSignals caps false None false new_cache 0 false false (-1) false OtfDefault (-1) None.

Definition set_output_metadata (src : option HdrSourceMetadata) (g : Signals) : Signals :=
  g {{ desired_hdr_ := src; hdr_user_set_ := true; hdr_dirty_pending_ := true }}.
Definition set_vrr_enabled (enable : bool) (g : Signals) : Signals := g {{ desired_vrr_ := enable; vrr_user_set_ := true }}.
Definition set_output_transfer_function (tf : OutputTransferFunction) (g : Signals) : Signals :=
  g {{ desired_regamma_tf_ := tf; regamma_tf_user_set_ := true }}.

Section Inject.
Context `{abi : DrmAbi} `{kms : Kms} `{lib : Libdrm}.
(** The scene's binding and its property cache. *)
Context (crtc_id connector : Z) (props : PropertyStore).
Implicit Types (g : Signals) (req : AtomicRequest).

Definition Injected : Type := expected bool * Signals * AtomicRequest.

(** Add the write; [changed] and the new members where it was accepted. *)
Definition inject (obj prop val : Z) (changed : bool) g g' req : Injected :=
  let '(r, req) := add_property obj prop val req in
  match r with Unexp e => (Unexp e, g, req) | Val _ => (Val changed, g', req) end.

Definition inject_output_colorspace (desired : option Colorspace) g req : Injected :=
  match desired with
  | None => (Val false, g, req)
  | Some cs =>
      if negb (has_colorspace (connector_caps_ g)) then (Val false, g, req)
      else
        match (match colorspace_value cs (connector_caps_ g) with
               | Some v => Some v
               | None => colorspace_value CsDefault (connector_caps_ g)
               end) with
        | None => (Val false, g, req)
        | Some value =>
            if bool_decide (last_written_colorspace_value_ g = Some value) then (Val false, g, req)
            else
              match property_id connector "Colorspace" props with
              | Unexp _ => (Val false, g, req)
              | Val prop => inject connector prop value true g (g {{ last_written_colorspace_value_ := Some value }}) req
              end
        end
  end.

(** [factory] makes a blob.  [None]: the metadata cannot be serialized. *)
Definition inject_hdr_output_metadata (effective_md : option HdrSourceMetadata)
    (factory : HdrSourceMetadata -> expected HdrMetadataBlob) g req : option Injected :=
  if negb (hdr_user_set_ g) && negb (bool_decide (is_Some effective_md)) && (last_written_hdr_blob_id_ g =? 0)
  then Some (Val false, g, req)
  else
    match property_id connector "HDR_OUTPUT_METADATA" props with
    | Unexp _ => Some (Val false, g, req)
    | Val prop =>
        '(blob_id, cache) ← set_with_factory crtc_id effective_md factory (hdr_cache_ g);
        let g := g {{ hdr_cache_ := cache }} in
        match blob_id with
        | Unexp e => Some (Unexp e, g, req)
        | Val id =>
            Some (inject connector prop id (negb (id =? last_written_hdr_blob_id_ g)) g
                    (g {{ last_written_hdr_blob_id_ := id }}) req)
        end
    end.

Definition inject_vrr_enabled g req : Injected :=
  if negb (vrr_user_set_ g) then (Val false, g, req)
  else
    match property_id crtc_id "VRR_ENABLED" props with
    | Unexp _ => (Val false, g, req)
    | Val prop =>
        let value := if desired_vrr_ g then 1 else 0 in
        inject crtc_id prop value (negb (value =? last_written_vrr_ g)) g (g {{ last_written_vrr_ := value }}) req
    end.

Definition resolve_regamma_enum (prop : Z) (tf : OutputTransferFunction) : option Z :=
  p ← drmModeGetProperty prop;
  snd <$> (snd <$> list_find (fun en => en.1 = regamma_name tf) (prop_enums p)).

Definition inject_output_regamma_tf g req : Injected :=
  if negb (regamma_tf_user_set_ g) then (Val false, g, req)
  else
    match property_id crtc_id "AMD_CRTC_REGAMMA_TF" props with
    | Unexp _ => (Val false, g, req)
    | Val prop =>
        match resolve_regamma_enum prop (desired_regamma_tf_ g) with
        | None => (Val false, g, req)
        | Some value =>
            inject crtc_id prop value (negb (to_i32 value =? last_written_regamma_ g)) g
              (g {{ last_written_regamma_ := to_i32 value }}) req
        end
    end.

(** One after the other, each change asking for a modeset. *)
Definition then_inject (step : Signals -> AtomicRequest -> option Injected)
    (r : expected Z * Signals * AtomicRequest) : option (expected Z * Signals * AtomicRequest) :=
  let '(flags, g, req) := r in
  match flags with
  | Unexp e => Some r
  | Val flags =>
      '(needs, g, req) ← step g req;
      Some (match needs with
            | Unexp e => (Unexp e, g, req)
            | Val needs => (Val (if needs : bool then Z.lor flags DRM_MODE_ATOMIC_ALLOW_MODESET else flags), g, req)
            end)
  end.

Definition strip_async (async_flip_supported test_only : bool) (flags : Z) : Z :=
  if has_flag flags DRM_MODE_PAGE_FLIP_ASYNC &&
     (negb async_flip_supported || test_only || has_flag flags DRM_MODE_ATOMIC_ALLOW_MODESET)
  then Z.ldiff flags DRM_MODE_PAGE_FLIP_ASYNC else flags.

(** The end of a build: the signalling of the live layers, then the flags. *)
Definition inject_signals (layers : list DisplayParams) (factory : HdrSourceMetadata -> expected HdrMetadataBlob)
    (async_flip_supported test_only : bool) (flags : Z) g req : option (expected Z * Signals * AtomicRequest) :=
  let signaling := derive_output_signaling layers (Some (connector_caps_ g)) in
  let effective_hdr := if hdr_user_set_ g then desired_hdr_ g else hdr_metadata signaling in
  r ← then_inject (fun g req => Some (inject_output_colorspace (colorspace signaling) g req)) (Val flags, g, req);
  r ← then_inject (inject_hdr_output_metadata effective_hdr factory) r;
  r ← then_inject (fun g req => Some (inject_vrr_enabled g req)) r;
  '(flags, g, req) ← then_inject (fun g req => Some (inject_output_regamma_tf g req)) r;
  Some (match flags with Val f => Val (strip_async async_flip_supported test_only f) | e => e end, g, req).

(** What [finalize_frame] does to them after a real commit. *)
Definition signals_committed g : Signals := g {{ hdr_cache_ ::= acknowledge_committed; hdr_dirty_pending_ := false }}.

(** A new device: the capabilities are read again. *)
Definition signals_resumed (caps : ConnectorCapabilities) g : Signals :=
  g {{ hdr_cache_ ::= clear_for_session_loss; last_written_hdr_blob_id_ := 0;
       last_written_colorspace_value_ := None; connector_caps_ := caps }}.
Definition signals_rebound (caps : ConnectorCapabilities) g : Signals :=
  g {{ hdr_cache_ ::= flush; last_written_hdr_blob_id_ := 0;
       last_written_colorspace_value_ := None; connector_caps_ := caps }}.

(** [would_request_modeset] *)
Definition would_request_modeset (first_commit : bool) g : bool := first_commit || hdr_dirty_pending_ g.

(** ** What reaches the display *)

(** The value of each property, as the accepted requests left it. *)
Definition Display : Type := gmap (Z * Z) Z.
Definition apply_writes (ws : list Write) (d : Display) : Display :=
  foldl (fun d w => <[(w_object w, w_property w) := w_value w]> d) d ws.

Lemma apply_writes_app ws ws' d : apply_writes (ws ++ ws') d = apply_writes ws' (apply_writes ws d).
Proof. apply foldl_app. Qed.

Lemma apply_writes_other ws d k :
  (forall w, w ∈ ws -> (w_object w, w_property w) <> k) -> apply_writes ws d !! k = d !! k.
Proof.
  revert d. induction ws as [|w ws IH]; intros d Hw; [done|]. simpl. rewrite IH by (intros; apply Hw; by right).
  apply lookup_insert_ne. apply Hw. by left.
Qed.

(** The property and value each part of the signalling asks for. *)
Definition wanted_colorspace (desired : option Colorspace) g : option (Z * Z) :=
  cs ← desired;
  if negb (has_colorspace (connector_caps_ g)) then None
  else
    v ← (match colorspace_value cs (connector_caps_ g) with
         | Some v => Some v
         | None => colorspace_value CsDefault (connector_caps_ g)
         end);
    match property_id connector "Colorspace" props with Val p => Some (p, v) | Unexp _ => None end.

Definition wanted_vrr g : option (Z * Z) :=
  if negb (vrr_user_set_ g) then None
  else match property_id crtc_id "VRR_ENABLED" props with
       | Val p => Some (p, if desired_vrr_ g then 1 else 0)
       | Unexp _ => None
       end.

Definition wanted_regamma g : option (Z * Z) :=
  if negb (regamma_tf_user_set_ g) then None
  else match property_id crtc_id "AMD_CRTC_REGAMMA_TF" props with
       | Val p => pair p <$> resolve_regamma_enum p (desired_regamma_tf_ g)
       | Unexp _ => None
       end.

(** HDR: the property, where anything is or was signalled. *)
Definition wanted_hdr (effective_md : option HdrSourceMetadata) g : option Z :=
  if negb (hdr_user_set_ g) && negb (bool_decide (is_Some effective_md)) && (last_written_hdr_blob_id_ g =? 0) then None
  else match property_id connector "HDR_OUTPUT_METADATA" props with Val p => Some p | Unexp _ => None end.

Lemma inject_val obj prop val changed g g' req r g1 req1 :
  inject obj prop val changed g g' req = (Val r, g1, req1) ->
  r = changed /\ g1 = g' /\ writes req1 = writes req ++ [mkWrite obj prop val].
Proof.
  unfold inject. destruct (add_property obj prop val req) as [[[]|e] req2] eqn:Ea; [|done].
  destruct (add_property_writes _ _ _ _ _ _ Ea) as (_ & _ & Hw). intros [= <- <- <-]. done.
Qed.

Lemma colorspace_done desired g req b g1 req1 :
  inject_output_colorspace desired g req = (Val b, g1, req1) ->
  match wanted_colorspace desired g with
  | None => g1 = g /\ b = false /\ writes req1 = writes req
  | Some (p, v) =>
      if decide (last_written_colorspace_value_ g = Some v) then g1 = g /\ b = false /\ writes req1 = writes req
      else g1 = g {{ last_written_colorspace_value_ := Some v }} /\ b = true /\
           writes req1 = writes req ++ [mkWrite connector p v]
  end.
Proof.
  unfold inject_output_colorspace, wanted_colorspace. destruct desired as [cs|]; [|by intros [= <- <- <-]]. simpl.
  destruct (negb (has_colorspace _)); [by intros [= <- <- <-]|].
  destruct (match colorspace_value cs (connector_caps_ g) with Some _ => _ | None => _ end) as [v|]; [|by intros [= <- <- <-]].
  simpl. destruct (bool_decide_reflect (last_written_colorspace_value_ g = Some v)) as [He|Hne].
  - intros [= <- <- <-]. destruct (property_id connector "Colorspace" props) as [p|e]; [by rewrite decide_True|done].
  - destruct (property_id connector "Colorspace" props) as [p|e]; [|by intros [= <- <- <-]].
    intros (-> & -> & Hw)%inject_val. by rewrite decide_False.
Qed.

Lemma hdr_done md made g req b g1 req1 :
  inject_hdr_output_metadata md (fun _ => made) g req = Some (Val b, g1, req1) ->
  match wanted_hdr md g with
  | None => g1 = g /\ b = false /\ writes req1 = writes req
  | Some p => exists id cache, set_with_factory crtc_id md (fun _ => made) (hdr_cache_ g) = Some (Val id, cache) /\
      g1 = g {{ hdr_cache_ := cache; last_written_hdr_blob_id_ := id }} /\
      b = negb (id =? last_written_hdr_blob_id_ g) /\ writes req1 = writes req ++ [mkWrite connector p id]
  end.
Proof.
  unfold inject_hdr_output_metadata, wanted_hdr. destruct (_ && _ && _); [by intros [= <- <- <-]|].
  destruct (property_id connector "HDR_OUTPUT_METADATA" props) as [p|e]; [|by intros [= <- <- <-]].
  destruct (set_with_factory crtc_id md (fun _ => made) (hdr_cache_ g)) as [[[id|e] cache]|]; simpl; [|done|done].
  intros [= Hi]. apply inject_val in Hi as (-> & -> & Hw). exists id, cache. by destruct g.
Qed.

Lemma vrr_done g req b g1 req1 :
  inject_vrr_enabled g req = (Val b, g1, req1) ->
  match wanted_vrr g with
  | None => g1 = g /\ b = false /\ writes req1 = writes req
  | Some (p, v) => g1 = g {{ last_written_vrr_ := v }} /\ b = negb (v =? last_written_vrr_ g) /\
      writes req1 = writes req ++ [mkWrite crtc_id p v]
  end.
Proof.
  unfold inject_vrr_enabled, wanted_vrr. destruct (negb (vrr_user_set_ g)); [by intros [= <- <- <-]|].
  destruct (property_id crtc_id "VRR_ENABLED" props) as [p|e]; [|by intros [= <- <- <-]].
  by intros (-> & -> & Hw)%inject_val.
Qed.

Lemma regamma_done g req b g1 req1 :
  inject_output_regamma_tf g req = (Val b, g1, req1) ->
  match wanted_regamma g with
  | None => g1 = g /\ b = false /\ writes req1 = writes req
  | Some (p, v) => g1 = g {{ last_written_regamma_ := to_i32 v }} /\ b = negb (to_i32 v =? last_written_regamma_ g) /\
      writes req1 = writes req ++ [mkWrite crtc_id p v]
  end.
Proof.
  unfold inject_output_regamma_tf, wanted_regamma. destruct (negb (regamma_tf_user_set_ g)); [by intros [= <- <- <-]|].
  destruct (property_id crtc_id "AMD_CRTC_REGAMMA_TF" props) as [p|e]; [|by intros [= <- <- <-]].
  destruct (resolve_regamma_enum p _) as [v|]; simpl; [|by intros [= <- <- <-]].
  by intros (-> & -> & Hw)%inject_val.
Qed.

End Inject.

Section Steady.
Context `{abi : DrmAbi} `{kms : Kms} `{lib : Libdrm}.
Context (crtc_id connector : Z) (props : PropertyStore).
(** A property id is one property's, an object id one object's, and the two
    flags are different bits. *)
Context (ids_named : forall o n n' p, property_id o n props = Val p -> property_id o n' props = Val p -> n = n').
Context (objects_differ : crtc_id <> connector).
Context (flags_differ : DRM_MODE_ATOMIC_ALLOW_MODESET <> 0 /\
                        Z.land DRM_MODE_ATOMIC_ALLOW_MODESET DRM_MODE_PAGE_FLIP_ASYNC = 0).
Implicit Types (g : Signals) (req : AtomicRequest) (d : Display).

Definition signal_names : list (Z * string) :=
  [(connector, "Colorspace"); (connector, "HDR_OUTPUT_METADATA"); (crtc_id, "VRR_ENABLED"); (crtc_id, "AMD_CRTC_REGAMMA_TF")].

(** The properties of these, one [Display] key each. *)
Definition signal_key (on : Z * string) (k : Z * Z) : Prop :=
  k.1 = on.1 /\ property_id on.1 on.2 props = Val k.2.

(** The rest of the frame writes none of them. *)
Definition other_writes req : Prop :=
  forall w on, w ∈ writes req -> on ∈ signal_names -> ~ signal_key on (w_object w, w_property w).

(** Scenes whose every build was committed and accepted. *)
Inductive steady : Signals -> Display -> Prop :=
  | steady_start caps d :
      (forall k, signal_key (connector, "HDR_OUTPUT_METADATA") k -> d !! k = Some 0) -> steady (new_signals caps) d
  | steady_hdr src g d : steady g d -> steady (set_output_metadata src g) d
  | steady_vrr b g d : steady g d -> steady (set_vrr_enabled b g) d
  | steady_regamma tf g d : steady g d -> steady (set_output_transfer_function tf g) d
  | steady_frame layers made async flags req g d f g' req' :
      steady g d -> other_writes req ->
      inject_signals crtc_id connector props layers (fun _ => made) async false flags g req = Some (Val f, g', req') ->
      steady (signals_committed g') (apply_writes (writes req') d).

Record shown_ok g d : Prop := mkShown {
  so_colorspace : forall k v, signal_key (connector, "Colorspace") k ->
    last_written_colorspace_value_ g = Some v -> d !! k = Some v;
  so_hdr : forall k, signal_key (connector, "HDR_OUTPUT_METADATA") k -> d !! k = Some (last_written_hdr_blob_id_ g);
  so_vrr : forall k, signal_key (crtc_id, "VRR_ENABLED") k -> last_written_vrr_ g <> -1 -> d !! k = Some (last_written_vrr_ g);
  so_cache : last_written_hdr_blob_id_ g = current_blob_id crtc_id (hdr_cache_ g)
}.

(** What each part of a frame writes, and what it remembers. *)
Definition parts_ok (layers : list DisplayParams) (made : expected HdrMetadataBlob) g g' (cs hdr vrr reg : list Write) : Prop :=
  let signaling := derive_output_signaling layers (Some (connector_caps_ g)) in
  let md := if hdr_user_set_ g then desired_hdr_ g else hdr_metadata signaling in
  match wanted_colorspace connector props (colorspace signaling) g with
  | None => cs = [] /\ last_written_colorspace_value_ g' = last_written_colorspace_value_ g
  | Some (p, v) =>
      cs = (if decide (last_written_colorspace_value_ g = Some v) then [] else [mkWrite connector p v]) /\
      last_written_colorspace_value_ g' = Some v
  end /\
  match wanted_hdr connector props md g with
  | None => hdr = [] /\ last_written_hdr_blob_id_ g' = last_written_hdr_blob_id_ g /\ hdr_cache_ g' = hdr_cache_ g
  | Some p => exists id cache, set_with_factory crtc_id md (fun _ => made) (hdr_cache_ g) = Some (Val id, cache) /\
      hdr_cache_ g' = cache /\ hdr = [mkWrite connector p id] /\ last_written_hdr_blob_id_ g' = id
  end /\
  match wanted_vrr crtc_id props g with
  | None => vrr = [] /\ last_written_vrr_ g' = last_written_vrr_ g
  | Some (p, v) => vrr = [mkWrite crtc_id p v] /\ last_written_vrr_ g' = v
  end /\
  match wanted_regamma crtc_id props g with
  | None => reg = []
  | Some (p, v) => reg = [mkWrite crtc_id p v]
  end.

(** What one frame's injections wrote. *)
Record injected (layers : list DisplayParams) (made : expected HdrMetadataBlob) g req f g' req' : Prop := mkInjected {
  in_writes : exists cs hdr vrr reg, writes req' = writes req ++ cs ++ hdr ++ vrr ++ reg /\
    parts_ok layers made g g' cs hdr vrr reg;
  in_modeset : last_written_colorspace_value_ g' <> last_written_colorspace_value_ g \/
    last_written_hdr_blob_id_ g' <> last_written_hdr_blob_id_ g \/ last_written_vrr_ g' <> last_written_vrr_ g ->
    has_flag f DRM_MODE_ATOMIC_ALLOW_MODESET = true;
  in_async : has_flag f DRM_MODE_ATOMIC_ALLOW_MODESET = true -> has_flag f DRM_MODE_PAGE_FLIP_ASYNC = false
}.

Lemma has_flag_lor f : has_flag (Z.lor f DRM_MODE_ATOMIC_ALLOW_MODESET) DRM_MODE_ATOMIC_ALLOW_MODESET = true.
Proof.
  unfold has_flag. rewrite (Z.land_comm _ DRM_MODE_ATOMIC_ALLOW_MODESET), (Z.lor_comm f), Z.land_lor_distr_r, Z.land_diag.
  apply negb_true_iff, Z.eqb_neq. intros [Hz _]%Z.lor_eq_0_iff. by destruct flags_differ.
Qed.

Lemma has_flag_strip async test f :
  has_flag (strip_async async test f) DRM_MODE_ATOMIC_ALLOW_MODESET = has_flag f DRM_MODE_ATOMIC_ALLOW_MODESET /\
  (has_flag f DRM_MODE_ATOMIC_ALLOW_MODESET = true -> has_flag (strip_async async test f) DRM_MODE_PAGE_FLIP_ASYNC = false).
Proof.
  unfold strip_async. destruct (has_flag f DRM_MODE_PAGE_FLIP_ASYNC) eqn:Ea; simpl; [|done].
  destruct (negb async || test || has_flag f DRM_MODE_ATOMIC_ALLOW_MODESET) eqn:E.
  - split; [|intros _; unfold has_flag; by rewrite Z.land_ldiff].
    unfold has_flag. f_equal. f_equal. apply Z.bits_inj'. intros n Hn. rewrite !Z.land_spec, Z.ldiff_spec.
    pose proof (f_equal (fun z => Z.testbit z n) (proj2 flags_differ)) as Hb. simpl in Hb.
    rewrite Z.land_spec, Z.bits_0 in Hb. destruct (Z.testbit f n), (Z.testbit DRM_MODE_ATOMIC_ALLOW_MODESET n),
      (Z.testbit DRM_MODE_PAGE_FLIP_ASYNC n); done.
  - split; [done|]. apply orb_false_iff in E as [_ ->]. done.
Qed.

Lemma then_inject_val step r f g req :
  then_inject step r = Some (Val f, g, req) ->
  exists f0 g0 req0 b, r = (Val f0, g0, req0) /\ step g0 req0 = Some (Val b, g, req) /\
    f = if b : bool then Z.lor f0 DRM_MODE_ATOMIC_ALLOW_MODESET else f0.
Proof.
  unfold then_inject. destruct r as [[[f0|e] g0] req0]; [|done].
  destruct (step g0 req0) as [[[[b|e] g1] req1]|] eqn:Es; simpl; [|done|done]. intros [= <- <- <-]. eauto 10.
Qed.

(** The steps, each on its own members. *)
Lemma colorspace_step desired g req b g1 req1 :
  inject_output_colorspace connector props desired g req = (Val b, g1, req1) ->
  exists cs, g1 = g {{ last_written_colorspace_value_ := last_written_colorspace_value_ g1 }} /\
    writes req1 = writes req ++ cs /\
    (b = false -> last_written_colorspace_value_ g1 = last_written_colorspace_value_ g) /\
    match wanted_colorspace connector props desired g with
    | None => cs = [] /\ last_written_colorspace_value_ g1 = last_written_colorspace_value_ g
    | Some (p, v) =>
        cs = (if decide (last_written_colorspace_value_ g = Some v) then [] else [mkWrite connector p v]) /\
        last_written_colorspace_value_ g1 = Some v
    end.
Proof.
  intros H%colorspace_done. destruct (wanted_colorspace connector props desired g) as [[p v]|].
  - destruct (decide _) as [He|Hne]; destruct H as (-> & -> & Hw); [exists []; rewrite app_nil_r|exists [mkWrite connector p v]];
      split_and!; try done; by destruct g.
  - destruct H as (-> & -> & Hw). exists []. rewrite app_nil_r. split_and!; try done. by destruct g.
Qed.

Lemma hdr_step md made g req b g1 req1 :
  inject_hdr_output_metadata crtc_id connector props md (fun _ => made) g req = Some (Val b, g1, req1) ->
  exists hdr, g1 = g {{ hdr_cache_ := hdr_cache_ g1; last_written_hdr_blob_id_ := last_written_hdr_blob_id_ g1 }} /\
    writes req1 = writes req ++ hdr /\
    (b = false -> last_written_hdr_blob_id_ g1 = last_written_hdr_blob_id_ g) /\
    match wanted_hdr connector props md g with
    | None => hdr = [] /\ last_written_hdr_blob_id_ g1 = last_written_hdr_blob_id_ g /\ hdr_cache_ g1 = hdr_cache_ g
    | Some p => exists id cache, set_with_factory crtc_id md (fun _ => made) (hdr_cache_ g) = Some (Val id, cache) /\
        hdr_cache_ g1 = cache /\ hdr = [mkWrite connector p id] /\ last_written_hdr_blob_id_ g1 = id
    end.
Proof.
  intros H%hdr_done. destruct (wanted_hdr connector props md g) as [p|].
  - destruct H as (id & cache & Hs & -> & -> & Hw). eexists. split; [by destruct g|]. split; [exact Hw|].
    split; [intros He%negb_false_iff%Z.eqb_eq; by destruct g|]. exists id, cache. by destruct g.
  - destruct H as (-> & -> & Hw). exists []. rewrite app_nil_r. split_and!; try done. by destruct g.
Qed.

Lemma vrr_step g req b g1 req1 :
  inject_vrr_enabled crtc_id props g req = (Val b, g1, req1) ->
  exists vrr, g1 = g {{ last_written_vrr_ := last_written_vrr_ g1 }} /\ writes req1 = writes req ++ vrr /\
    (b = false -> last_written_vrr_ g1 = last_written_vrr_ g) /\
    match wanted_vrr crtc_id props g with
    | None => vrr = [] /\ last_written_vrr_ g1 = last_written_vrr_ g
    | Some (p, v) => vrr = [mkWrite crtc_id p v] /\ last_written_vrr_ g1 = v
    end.
Proof.
  intros H%vrr_done. destruct (wanted_vrr crtc_id props g) as [[p v]|].
  - destruct H as (-> & -> & Hw). eexists. split; [by destruct g|]. split; [exact Hw|].
    split; [intros He%negb_false_iff%Z.eqb_eq; by destruct g|]. by destruct g.
  - destruct H as (-> & -> & Hw). exists []. rewrite app_nil_r. split_and!; try done. by destruct g.
Qed.

Lemma regamma_step g req b g1 req1 :
  inject_output_regamma_tf crtc_id props g req = (Val b, g1, req1) ->
  exists reg, g1 = g {{ last_written_regamma_ := last_written_regamma_ g1 }} /\ writes req1 = writes req ++ reg /\
    match wanted_regamma crtc_id props g with
    | None => reg = []
    | Some (p, v) => reg = [mkWrite crtc_id p v]
    end.
Proof.
  intros H%regamma_done. destruct (wanted_regamma crtc_id props g) as [[p v]|].
  - destruct H as (-> & -> & Hw). eexists. split; [by destruct g|]. by split; [exact Hw|].
  - destruct H as (-> & -> & Hw). exists []. rewrite app_nil_r. split_and!; try done. by destruct g.
Qed.

Lemma injects layers made async flags g req f g' req' :
  inject_signals crtc_id connector props layers (fun _ => made) async false flags g req = Some (Val f, g', req') ->
  injected layers made g req f g' req'.
Proof.
  unfold inject_signals. intros H.
  apply bind_Some in H as (r1 & H1 & H). apply bind_Some in H as (r2 & H2 & H). apply bind_Some in H as (r3 & H3 & H).
  apply bind_Some in H as ([[f4 g4] req4] & H4 & H). destruct f4 as [f4|e]; [|done]. injection H as <- <- <-.
  apply then_inject_val in H4 as (f3 & g3 & req3 & b4 & -> & [= Hreg] & ->).
  apply then_inject_val in H3 as (f2 & g2 & req2 & b3 & -> & [= Hvrr] & ->).
  apply then_inject_val in H2 as (f1 & g1 & req1 & b2 & -> & Hhdr & ->).
  apply then_inject_val in H1 as (f0 & g0 & req0 & b1 & [= <- <- <-] & [= Hcs] & ->).
  apply colorspace_step in Hcs as (cs & E1 & W1 & B1 & S1).
  apply hdr_step in Hhdr as (hdr & E2 & W2 & B2 & S2).
  apply vrr_step in Hvrr as (vrr & E3 & W3 & B3 & S3).
  apply regamma_step in Hreg as (reg & E4 & W4 & S4).
  (* each step leaves the others' members *)
  assert (K1 : last_written_colorspace_value_ g4 = last_written_colorspace_value_ g1) by (rewrite E4, E3, E2; by destruct g1, g2, g3, g4).
  assert (K2 : last_written_hdr_blob_id_ g4 = last_written_hdr_blob_id_ g2 /\ hdr_cache_ g4 = hdr_cache_ g2) by (rewrite E4, E3; by destruct g2, g3, g4).
  assert (K2' : last_written_hdr_blob_id_ g1 = last_written_hdr_blob_id_ g /\ hdr_cache_ g1 = hdr_cache_ g /\ hdr_user_set_ g1 = hdr_user_set_ g)
    by (rewrite E1; by destruct g, g1).
  assert (K3 : last_written_vrr_ g4 = last_written_vrr_ g3) by (rewrite E4; by destruct g3, g4).
  assert (K3' : last_written_vrr_ g2 = last_written_vrr_ g) by (rewrite E2, E1; by destruct g, g1, g2).
  assert (N2 : forall md, wanted_hdr connector props md g1 = wanted_hdr connector props md g).
  { intros md. destruct K2' as (Ka & _ & Kb). unfold wanted_hdr. by rewrite Ka, Kb. }
  assert (N3 : wanted_vrr crtc_id props g2 = wanted_vrr crtc_id props g) by (rewrite E2, E1; by destruct g, g1, g2).
  assert (N4 : wanted_regamma crtc_id props g3 = wanted_regamma crtc_id props g) by (rewrite E3, E2, E1; by destruct g, g1, g2, g3).
  rewrite N2 in S2. rewrite N3 in S3. rewrite N4 in S4. destruct K2 as [K2 K2c]. destruct K2' as (Ka & Kc & _).
  split.
  - exists cs, hdr, vrr, reg. split; [by rewrite W4, W3, W2, W1, <- !app_assoc|]. unfold parts_ok. cbv zeta.
    rewrite K1, K2, K2c, K3. rewrite Ka, Kc in S2. rewrite K3' in S3. split_and!; done.
  - rewrite K1, K2, K3. intros Hch. rewrite (proj1 (has_flag_strip _ _ _)).
    rewrite Ka in B2. rewrite K3' in B3.
    assert (Hb : b1 = true \/ b2 = true \/ b3 = true).
    { destruct b1; [by left|]. destruct b2; [by right; left|]. destruct b3; [by right; right|].
      rewrite B1, B2, B3 in Hch by done. naive_solver. }
    assert (Hkeep : forall (b : bool) x, has_flag x DRM_MODE_ATOMIC_ALLOW_MODESET = true ->
      has_flag (if b then Z.lor x DRM_MODE_ATOMIC_ALLOW_MODESET else x) DRM_MODE_ATOMIC_ALLOW_MODESET = true).
    { intros [] x Hx; [apply has_flag_lor|done]. }
    apply Hkeep. destruct Hb as [->|[->| ->]]; [do 2 apply Hkeep|apply Hkeep|]; apply has_flag_lor.
  - rewrite (proj1 (has_flag_strip _ _ _)). intros Hm. by apply has_flag_strip.
Qed.

(** At most one write, of the property named. *)
Definition one_write (on : Z * string) (ws : list Write) : Prop :=
  ws = [] \/ exists p v, ws = [mkWrite on.1 p v] /\ property_id on.1 on.2 props = Val p.

Lemma one_write_value on k ws d :
  signal_key on k -> one_write on ws -> apply_writes ws d !! k = match ws with [] => d !! k | w :: _ => Some (w_value w) end.
Proof.
  intros [Ho Hp] [->|(p & v & -> & Hp')]; [done|]. simpl. rewrite Hp in Hp'. injection Hp' as <-.
  destruct k as [o p]; simpl in *. subst o. apply lookup_insert_eq.
Qed.

Lemma one_write_other on on' k ws d :
  signal_key on k -> on <> on' -> one_write on' ws -> apply_writes ws d !! k = d !! k.
Proof.
  intros [Ho Hp] Hne [->|(p & v & -> & Hp')]; [done|]. apply apply_writes_other. intros w ->%list_elem_of_singleton Hk. simpl in Hk.
  apply Hne. destruct on as [o n], on' as [o' n'], k as [ko kp]; simpl in *. injection Hk as -> ->. subst o.
  f_equal. by eapply ids_named.
Qed.

Lemma others_before on k req d :
  other_writes req -> signal_key on k -> on ∈ signal_names -> apply_writes (writes req) d !! k = d !! k.
Proof. intros Ho Hk Hon. apply apply_writes_other. intros w Hw He. apply (Ho w on Hw Hon). by rewrite He. Qed.

(** A frame's writes, part by part, on the display. *)
Record frame_shown (cs hdr vrr reg : list Write) (d d' : Display) : Prop := mkFrameShown {
  fs_cs : forall k, signal_key (connector, "Colorspace") k -> d' !! k = match cs with [] => d !! k | w :: _ => Some (w_value w) end;
  fs_hdr : forall k, signal_key (connector, "HDR_OUTPUT_METADATA") k -> d' !! k = match hdr with [] => d !! k | w :: _ => Some (w_value w) end;
  fs_vrr : forall k, signal_key (crtc_id, "VRR_ENABLED") k -> d' !! k = match vrr with [] => d !! k | w :: _ => Some (w_value w) end;
  fs_reg : forall k, signal_key (crtc_id, "AMD_CRTC_REGAMMA_TF") k -> d' !! k = match reg with [] => d !! k | w :: _ => Some (w_value w) end
}.

Lemma frame_shows cs hdr vrr reg req d :
  other_writes req ->
  one_write (connector, "Colorspace") cs -> one_write (connector, "HDR_OUTPUT_METADATA") hdr ->
  one_write (crtc_id, "VRR_ENABLED") vrr -> one_write (crtc_id, "AMD_CRTC_REGAMMA_TF") reg ->
  frame_shown cs hdr vrr reg d (apply_writes (writes req ++ cs ++ hdr ++ vrr ++ reg) d).
Proof.
  intros Ho H1 H2 H3 H4. rewrite !apply_writes_app.
  split; intros k Hk;
    repeat match goal with
    | H : one_write ?on ?ws |- context [apply_writes ?ws ?d' !! k] =>
        first [rewrite (one_write_other _ on k ws d' Hk) by (first [done | congruence])|rewrite (one_write_value _ k ws d' Hk H)]
    end; rewrite (others_before _ _ _ _ Ho Hk) by (unfold signal_names; set_solver); done.
Qed.

Lemma wanted_colorspace_key desired g p v :
  wanted_colorspace connector props desired g = Some (p, v) -> property_id connector "Colorspace" props = Val p.
Proof.
  unfold wanted_colorspace. destruct desired as [cs|]; simpl; [|done]. destruct (negb _); [done|].
  destruct (match colorspace_value cs _ with Some _ => _ | None => _ end); simpl; [|done].
  destruct (property_id connector "Colorspace" props); [by intros [= -> _]|done].
Qed.

Lemma wanted_hdr_key md g p : wanted_hdr connector props md g = Some p -> property_id connector "HDR_OUTPUT_METADATA" props = Val p.
Proof.
  unfold wanted_hdr. destruct (_ && _ && _); [done|].
  destruct (property_id connector "HDR_OUTPUT_METADATA" props); [by intros [= ->]|done].
Qed.

Lemma wanted_vrr_key g p v :
  wanted_vrr crtc_id props g = Some (p, v) -> property_id crtc_id "VRR_ENABLED" props = Val p /\ (v = 0 \/ v = 1).
Proof.
  unfold wanted_vrr. destruct (negb _); [done|]. destruct (property_id crtc_id "VRR_ENABLED" props); [|done].
  intros [= -> <-]. destruct (desired_vrr_ g); auto.
Qed.

Lemma wanted_regamma_key g p v :
  wanted_regamma crtc_id props g = Some (p, v) -> property_id crtc_id "AMD_CRTC_REGAMMA_TF" props = Val p.
Proof.
  unfold wanted_regamma. destruct (negb _); [done|]. destruct (property_id crtc_id "AMD_CRTC_REGAMMA_TF" props) as [q|]; [|done].
  destruct (resolve_regamma_enum q _); simpl; [by intros [= -> _]|done].
Qed.

(** The frame's parts, as the display shows them. *)
Lemma injected_shown layers made g req f g' req' d :
  injected layers made g req f g' req' -> other_writes req ->
  exists cs hdr vrr reg, frame_shown cs hdr vrr reg d (apply_writes (writes req') d) /\
    parts_ok layers made g g' cs hdr vrr reg.
Proof.
  intros [(cs & hdr & vrr & reg & Hw & Hp) _ _] Ho. exists cs, hdr, vrr, reg.
  split; [|done]. rewrite Hw. destruct Hp as (H1 & H2 & H3 & H4). apply frame_shows; [done| | | |].
  - destruct (wanted_colorspace _ _ _ g) as [[p v]|] eqn:E; destruct H1 as [-> _]; [|by left].
    destruct (decide _); [by left|]. right. exists p, v. split; [done|]. by eapply wanted_colorspace_key.
  - destruct (wanted_hdr _ _ _ g) as [p|] eqn:E; [|destruct H2 as [-> _]; by left].
    destruct H2 as (id & c & _ & _ & -> & _). right. exists p, id. split; [done|]. by eapply wanted_hdr_key.
  - destruct (wanted_vrr _ _ g) as [[p v]|] eqn:E; destruct H3 as [-> _]; [|by left].
    right. exists p, v. split; [done|]. by eapply wanted_vrr_key.
  - destruct (wanted_regamma _ _ g) as [[p v]|] eqn:E; subst reg; [|by left].
    right. exists p, v. split; [done|]. by eapply wanted_regamma_key.
Qed.

Lemma frame_keeps_shown layers made async flags req g d f g' req' :
  shown_ok g d -> other_writes req ->
  inject_signals crtc_id connector props layers (fun _ => made) async false flags g req = Some (Val f, g', req') ->
  shown_ok g' (apply_writes (writes req') d).
Proof.
  intros [S1 S2 S3 S4] Ho H%injects. apply (injected_shown _ _ _ _ _ _ _ d) in H as (cs & hdr & vrr & reg & [F1 F2 F3 _] & H1 & H2 & H3 & _); [|done].
  cbv zeta in *. split.
  - intros k v Hk Hv. rewrite (F1 k Hk). destruct (wanted_colorspace _ _ _ g) as [[p v0]|] eqn:E.
    + destruct H1 as [-> Hl]. rewrite Hl in Hv. injection Hv as ->. destruct (decide _) as [He|_]; [by apply S1|done].
    + destruct H1 as [-> Hl]. rewrite Hl in Hv. by apply S1.
  - intros k Hk. rewrite (F2 k Hk). destruct (wanted_hdr _ _ _ g) as [p|].
    + by destruct H2 as (id & c & _ & _ & -> & ->).
    + destruct H2 as (-> & -> & _). by apply S2.
  - intros k Hk Hn. rewrite (F3 k Hk). destruct (wanted_vrr _ _ g) as [[p v]|].
    + by destruct H3 as [-> ->].
    + destruct H3 as [-> Hl]. rewrite Hl in *. by apply S3.
  - destruct (wanted_hdr _ _ _ g) as [p|].
    + destruct H2 as (id & c & Hs & -> & _ & ->). destruct (set_spec crtc_id (if hdr_user_set_ g then desired_hdr_ g
        else hdr_metadata (derive_output_signaling layers (Some (connector_caps_ g)))) made (hdr_cache_ g)) as (r & c' & Hs' & _ & _ & _ & Hi & _).
      rewrite Hs in Hs'. injection Hs' as <- <-. by rewrite (Hi id eq_refl).
    + destruct H2 as (_ & -> & ->). done.
Qed.

Lemma steady_shown g d : steady g d -> shown_ok g d.
Proof.
  induction 1 as [caps d Hd|src g d _ [S1 S2 S3 S4]|b g d _ [S1 S2 S3 S4]|tf g d _ [S1 S2 S3 S4]|layers made async flags req g d f g' req' _ IH Ho Hi].
  - by split.
  - by split; destruct g.
  - by split; destruct g.
  - by split; destruct g.
  - destruct (frame_keeps_shown _ _ _ _ _ _ _ _ _ _ IH Ho Hi) as [S1 S2 S3 S4].
    split; destruct g'; done.
Qed.


End Steady.

(** A store's property ids are named where no object lists an id twice. *)
Lemma store_ids_named (props : PropertyStore) :
  map_Forall (fun _ infos => NoDup (pi_id <$> infos)) props ->
  forall o n n' p, property_id o n props = Val p -> property_id o n' props = Val p -> n = n'.
Proof.
  intros Hp o n n' p H1 H2. unfold property_id, lookup_property in *. destruct (props !! o) as [infos|] eqn:E; [|done].
  pose proof (Hp _ _ E) as Hn. simpl in Hn.
  assert (Hf : forall m, match find_property m infos with Some q => Val (pi_id q) | None => Unexp ENOENT end = Val p ->
    exists q i, infos !! i = Some q /\ pi_name q = m /\ pi_id q = p).
  { intros m. unfold find_property. destruct (list_find _ infos) as [[i q]|] eqn:Ef; simpl; [|done]. intros [= <-].
    apply list_find_Some in Ef as (Hi & Hm & _). eauto. }
  destruct (Hf n H1) as (q & i & Hi & <- & Hq), (Hf n' H2) as (q' & i' & Hi' & <- & Hq').
  assert (i = i') as <-.
  { eapply (NoDup_lookup _ i i' p); [exact Hn|..]; rewrite list_lookup_fmap; [rewrite Hi|rewrite Hi']; simpl; congruence. }
  congruence.
Qed.

(** An HDR connector and a CRTC with both of its properties. *)
Section SampleOutput.
#[local] Existing Instance linux_abi.
#[local] Instance output_libdrm : Libdrm := list_libdrm (fun _ _ => 0).
#[local] Instance output_kms : Kms := {
  drmModeGetPlaneResources := Unexp ENOENT; cap_cursor_width := None; cap_cursor_height := None;
  drmModeGetPlane _ := None; drmModeObjectGetProperties _ _ := None;
  drmModeGetProperty id := if id =? 94 then Some (mkProperty 94 "AMD_CRTC_REGAMMA_TF" 8 [] [("Default", 0); ("PQ inv_EOTF", 3)]) else None;
  drmModeGetPropertyBlob _ := None; drmModeGetResources := None
}.

Definition output_props : PropertyStore :=
  <[40 := [mkInfo 93 "VRR_ENABLED" 0 0; mkInfo 94 "AMD_CRTC_REGAMMA_TF" 0 8]]>
  (<[55 := [mkInfo 91 "Colorspace" 0 8; mkInfo 92 "HDR_OUTPUT_METADATA" 0 16]]> ∅).

Definition output_caps : ConnectorCapabilities :=
  no_connector_caps {{ has_colorspace := true; has_hdr_output_metadata := true; has_max_bpc := true; max_bpc_max := Some 12;
                       colorspace_of := fun c => match c with CsDefault => Some 0 | Bt2020Rgb => Some 9 | _ => None end }}.

Definition hdr_video : DisplayParams :=
  mkDisplay no_rect None no_rect 0 65535 None None None (Some PBt2020) (Some SmpteSt2084Pq) no_amd_color.

(** A request that already carries a plane's framebuffer. *)
Definition output_request : AtomicRequest := snd (add_property 31 7 1000 (new_request 3)).

Definition output_frame (test_only : bool) (layers : list DisplayParams) (made : expected HdrMetadataBlob) (g : Signals) :
    option (expected Z * Signals * AtomicRequest) :=
  inject_signals 40 55 output_props layers (fun _ => made) false test_only DRM_MODE_PAGE_FLIP_ASYNC g output_request.

Definition the_signals (r : option (expected Z * Signals * AtomicRequest)) : Signals :=
  match r with Some (_, g, _) => g | None => new_signals output_caps end.
Definition the_writes (r : option (expected Z * Signals * AtomicRequest)) : list Write :=
  match r with Some (_, _, req) => writes req | None => [] end.
Definition the_request (r : option (expected Z * Signals * AtomicRequest)) : AtomicRequest :=
  match r with Some (_, _, req) => req | None => output_request end.
Definition the_flags (r : option (expected Z * Signals * AtomicRequest)) : expected Z :=
  match r with Some (f, _, _) => f | None => Unexp ENOENT end.

Definition output_start : Signals :=
  set_output_transfer_function OtfPq (set_vrr_enabled true (new_signals output_caps)).
Definition output_display : Display := {[(55, 92) := 0]}.
Definition output_first := output_frame false [hdr_video] (Val (mkBlob 3 71 0)) output_start.
Definition output_second_start : Signals := set_vrr_enabled false (signals_committed (the_signals output_first)).
Definition output_shown : Display := apply_writes (the_writes output_first) output_display.
Definition output_second := output_frame false [hdr_video] (Unexp ENOENT) output_second_start.

(** What an output whose last frame is [r] becomes, tested at the same time. *)
Definition output_tested := output_frame true [hdr_video] (Val (mkBlob 3 71 0)) output_start.
Definition output_after_test := output_frame false [hdr_video] (Val (mkBlob 3 71 0)) (the_signals output_tested).

Lemma output_names_named :
  forall o n n' p, property_id o n output_props = Val p -> property_id o n' output_props = Val p -> n = n'.
Proof. apply store_ids_named. refine (bool_decide_unpack _ _). vm_compute. exact I. Qed.

Lemma output_writes_others : other_writes 40 55 output_props output_request.
Proof.
  intros w on Hw Hon [Ho _]. assert (w = mkWrite 31 7 1000) as ->.
  { apply list_elem_of_singleton. exact Hw. }
  unfold signal_names in Hon. rewrite !elem_of_cons in Hon.
  destruct Hon as [->|[->|[->|[->|Hon]]]]; [done..|by apply not_elem_of_nil in Hon].
Qed.

Lemma output_steady : steady 40 55 output_props output_second_start output_shown.
Proof.
  apply steady_vrr. eapply (steady_frame 40 55 output_props [hdr_video] (Val (mkBlob 3 71 0)) false DRM_MODE_PAGE_FLIP_ASYNC
    output_request output_start output_display 1024 (the_signals output_first)).
  - apply steady_regamma, steady_vrr, steady_start. intros [o p] [Ho Hp]. simpl in Ho. subst o. vm_compute in Hp. by injection Hp as <-.
  - exact output_writes_others.
  - vm_compute. reflexivity.
Qed.


(** A test commit is not shown, yet what it wrote is remembered as written: the
    commit that follows leaves the connector's colour space out, so the display
    keeps the old one although HDR content is on it. *)
Lemma test_swallows_the_colorspace :
  (exists f, the_flags output_tested = Val f) /\
  mkWrite 55 91 9 ∈ the_writes output_first /\
  apply_writes (the_writes output_after_test) output_display !! (55, 91) = None /\
  apply_writes (the_writes output_after_test) output_display !! (55, 92) = Some 71.
Proof.
  split; [by eexists; vm_compute|]. split; [|split; vm_compute; reflexivity].
  refine (bool_decide_unpack _ _). vm_compute. exact I.
Qed.

(** And the modeset that the new HDR metadata needs is asked for by the test
    only. *)
Lemma test_swallows_the_modeset :
  option_map (fun f => has_flag f DRM_MODE_ATOMIC_ALLOW_MODESET) (match the_flags output_tested with Val f => Some f | _ => None end) = Some true /\
  the_flags output_after_test = Val 0 /\
  apply_writes (the_writes output_after_test) output_display !! (55, 92) <> output_display !! (55, 92).
Proof. split; [vm_compute; reflexivity|]. split; vm_compute; [reflexivity|discriminate]. Qed.
End SampleOutput.
