(* ===== verification/SceneLower.v ===== *)
(** Lowering the layers of a frame into the allocator's property bags, and the
    stacking numbers they get there: [lower_layer], [bottom_slot_layer],
    [uniquify_zpos], [compute_primary_zpos_hint] and the loop of
    [build_frame_into] ([src/scene/layer_scene.cpp]).

    A frame's layers are a list in commit order and a layer is named by its
    position: the passes never add or drop an acquisition, and each has a
    property bag of its own. *)
From S2P Require Import Prelude DrmAbi PlaneRegistry PlaneClip BufferSource SceneLayer.
From S2P Require Layer.

(** What the passes read of an acquired layer. *)
Record Acq := mkAcq {
  ac_handle : LayerHandle;
  ac_planes : Layer.Layer;
  ac_display : DisplayParams;
  ac_format : SourceFormat;
  ac_driver_owns : bool;
  ac_content : Layer.ContentType;
  ac_hint_hz : Z;
  ac_priority : Z;
  ac_buffer : AcquiredBuffer;
  (** The source's [map(Read)] gives pixels, its [export_dma_buf] a dma-buf. *)
  ac_maps : bool;
  ac_exports : bool;
  ac_pin : option Z;
  ac_stream_pin : option Z
}.

(** [static_cast<std::int64_t>]. *)
Definition to_i64 (z : Z) : Z := let w := u64 z in if w <? 2 ^ 63 then w else w - 2 ^ 64.
Definition to_16_16 (v : Z) : Z := Z.shiftl v 16.
#[local] Abbreviation bag := Layer.set_property.

Section Lower.
Context `{abi : DrmAbi}.

(** [resolve_crtc_index], without its cache: the table does not change. *)
Definition resolve_crtc_index `{kms : Kms} (crtc_id : Z) : option Z :=
  crtcs ← drmModeGetResources;
  Z.of_nat <$> (fst <$> list_find (fun c => c = crtc_id) crtcs).

Definition compute_primary_zpos_hint `{kms : Kms} (crtc_id : Z) (all : list PlaneCapabilities) : option Z :=
  crtc_bit ← resolve_crtc_index crtc_id;
  '(_, plane) ← list_find (fun p => type_ p = PRIMARY /\ compatible_with_crtc p crtc_bit = true /\ is_Some (zpos_min p)) all;
  zpos_min plane.

Definition span_x (d : DisplayParams) (fmt : SourceFormat) : PlaneSpan :=
  match src_rect_fixed d with
  | Some f => mkSpan (Layer.rx (dst_rect d)) (Layer.rw (dst_rect d)) (fx f) (if negb (fw f =? 0) then fw f else to_16_16 (width fmt))
  | None => mkSpan (Layer.rx (dst_rect d)) (Layer.rw (dst_rect d)) (to_16_16 (u32 (Layer.rx (src_rect d))))
      (to_16_16 (if negb (Layer.rw (src_rect d) =? 0) then Layer.rw (src_rect d) else width fmt))
  end.
Definition span_y (d : DisplayParams) (fmt : SourceFormat) : PlaneSpan :=
  match src_rect_fixed d with
  | Some f => mkSpan (Layer.ry (dst_rect d)) (Layer.rh (dst_rect d)) (fy f) (if negb (fh f =? 0) then fh f else to_16_16 (height fmt))
  | None => mkSpan (Layer.ry (dst_rect d)) (Layer.rh (dst_rect d)) (to_16_16 (u32 (Layer.ry (src_rect d))))
      (to_16_16 (if negb (Layer.rh (src_rect d) =? 0) then Layer.rh (src_rect d) else height fmt))
  end.

(** [None]: the clip has undefined behaviour. *)
Definition clipped (d : DisplayParams) (fmt : SourceFormat) : option (PlaneSpan * PlaneSpan) :=
  let x := span_x d fmt in
  let y := span_y d fmt in
  if clip_applies (rotation d) (drm_fourcc fmt)
  then x ← snd <$> clip_leading x; y ← snd <$> clip_leading y; Some (x, y)
  else Some (x, y).

Definition write_zpos (hint : option Z) (hint_overrides : bool) (d : DisplayParams) (l : Layer.Layer) : Layer.Layer :=
  match hint with
  | Some h =>
      if hint_overrides || negb (bool_decide (is_Some (zpos d))) then bag Layer.Zpos h l
      else match zpos d with Some z => bag Layer.Zpos (u64 z) l | None => l end
  | None => match zpos d with Some z => bag Layer.Zpos (u64 z) l | None => l end
  end.

Definition lower_layer (crtc_id : Z) (default_zpos_hint : option Z) (hint_overrides : bool) (a : Acq) : option Layer.Layer :=
  let d := ac_display a in
  let fmt := ac_format a in
  let l := Layer.set_externally_bound (ac_driver_owns a) (ac_planes a) in
  let l := if negb (ac_driver_owns a) then bag Layer.FbId (ab_fb_id (ac_buffer a)) l else l in
  let l := bag Layer.CrtcId crtc_id l in
  '(x, y) ← clipped d fmt;
  let l := bag Layer.CrtcX (u64 (dst x)) l in
  let l := bag Layer.CrtcY (u64 (dst y)) l in
  let l := bag Layer.CrtcW (dst_len x) l in
  let l := bag Layer.CrtcH (dst_len y) l in
  let l := bag Layer.SrcX (src x) l in
  let l := bag Layer.SrcY (src y) l in
  let l := bag Layer.SrcW (src_len x) l in
  let l := bag Layer.SrcH (src_len y) l in
  let l := bag Layer.PixelFormat (drm_fourcc fmt) l in
  let l := bag Layer.FbModifier (f_modifier fmt) l in
  let l := if negb (rotation d =? 0) then bag Layer.Rotation (rotation d) l else l in
  let l := write_zpos default_zpos_hint hint_overrides d l in
  let l := bag Layer.Alpha (alpha d) l in
  let l := Layer.set_content_type (ac_content a) l in
  let l := if negb (ac_hint_hz a =? 0) then Layer.set_update_hint (ac_hint_hz a) l else l in
  Some (Layer.set_app_priority (ac_priority a) l).

(** ** The stacking numbers *)

(** The first loop of [bottom_slot_layer]; [None]: a layer leaves zpos unset. *)
Fixpoint lowest_loop (i : nat) (zs : list (option Z)) (lowest : option (nat * Z)) (unique : bool)
    : option (option (nat * Z) * bool) :=
  match zs with
  | [] => Some (lowest, unique)
  | None :: _ => None
  | Some z :: zs' =>
      match lowest with
      | None => lowest_loop (S i) zs' (Some (i, z)) true
      | Some (_, lz) =>
          if z <? lz then lowest_loop (S i) zs' (Some (i, z)) true
          else lowest_loop (S i) zs' lowest (if z =? lz then false else unique)
      end
  end.

Fixpoint others_above (i low : nat) (low_z : Z) (pin : Z) (zs : list (option Z)) : bool :=
  match zs with
  | [] => true
  | z :: zs' =>
      let z := default low_z z in
      if negb (bool_decide (i = low)) && ((z <? 0) || (u64 z <=? pin)) then false
      else others_above (S i) low low_z pin zs'
  end.

Definition bottom_slot_layer (zs : list (option Z)) (pin : Z) : option nat :=
  match lowest_loop 0 zs None true with
  | Some (Some (low, low_z), true) => if others_above 0 low low_z pin zs then Some low else None
  | _ => None
  end.

(** The layer steered onto PRIMARY. *)
Definition hint_target (primary_zpos_hint : option Z) (zs : list (option Z)) : option nat :=
  match primary_zpos_hint with
  | None => None
  | Some pin =>
      if existsb (fun z => match z with Some z => u64 z =? pin | None => false end) zs then None
      else
        match list_find (fun z => z = None) zs with
        | Some (i, _) => Some i
        | None => bottom_slot_layer zs pin
        end
  end.

Record ZEntry := mkZEntry { ze_layer : nat; ze_z : Z; ze_rank : Z }.

Definition z_entry (hint : option Z) (target : option nat) (i : nat) (z : option Z) : option ZEntry :=
  match hint with
  | Some pin => if bool_decide (target = Some i) then Some (mkZEntry i (to_i64 pin) 0)
                else (fun z => mkZEntry i z 1) <$> z
  | None => (fun z => mkZEntry i z 1) <$> z
  end.

Fixpoint z_entries (hint : option Z) (target : option nat) (i : nat) (zs : list (option Z)) : list ZEntry :=
  match zs with
  | [] => []
  | z :: zs' => option_list (z_entry hint target i z) ++ z_entries hint target (S i) zs'
  end.

(** [std::tie(z, rank, order) < ...] *)
Definition ze_lt (a b : ZEntry) : bool :=
  if ze_z a <? ze_z b then true
  else if ze_z b <? ze_z a then false
  else if ze_rank a <? ze_rank b then true
  else if ze_rank b <? ze_rank a then false
  else (ze_layer a <? ze_layer b)%nat.

Fixpoint any_tie (es : list ZEntry) : bool :=
  match es with
  | a :: (b :: _) as es' => (ze_z b =? ze_z a) || any_tie es'
  | _ => false
  end.

(** The largest zpos of the CRTC's planes. *)
Definition zpos_cap (planes : list PlaneCapabilities) : option Z :=
  foldl (fun cap p => match type_ p, zpos_max p with
                      | CURSOR, _ | _, None => cap
                      | _, Some m => Some (Z.max (default 0 cap) (to_i64 m))
                      end) None planes.

(** The bumping loop: the layers' numbers; [None] is the early return.  [prev]
    is unset before the first, which the code writes [INT64_MIN]. *)
Fixpoint bump_loop (cap prev : option Z) (es : list ZEntry) : option (list Z) :=
  match es with
  | [] => Some []
  | e :: es' =>
      let v := match prev with None => ze_z e | Some p => Z.max (ze_z e) (p + 1) end in
      if (v <? 0) || match cap with Some c => c <? v | None => false end then None
      else vs ← bump_loop cap (Some v) es'; Some (v :: vs)
  end.

Definition bumped (es : list ZEntry) (vs : list Z) : list (nat * Z) :=
  omap (fun ev => if negb (ev.2 =? ze_z ev.1) then Some (ze_layer ev.1, u64 ev.2) else None) (zip es vs).

(** [planes]: the CRTC's, where its index is known. *)
Definition uniquify_zpos (hint : option Z) (target : option nat) (planes : list PlaneCapabilities)
    (zs : list (option Z)) : list (nat * Z) :=
  let es := stable_sort ze_lt (z_entries hint target 0 zs) in
  if negb (any_tie es) then []
  else match bump_loop (zpos_cap planes) None es with
       | None => []
       | Some vs => bumped es vs
       end.

(** The hint a layer is lowered with, and whether it replaces the caller's. *)
Definition layer_hint (hint : option Z) (target : option nat) (overrides : list (nat * Z)) (i : nat) : option Z * bool :=
  foldl (fun h ov => if bool_decide (ov.1 = i) then (Some ov.2, true) else h)
    (if bool_decide (target = Some i) then hint else None, bool_decide (target = Some i)) overrides.

Definition lower_all (crtc_id : Z) (hint : option Z) (planes : list PlaneCapabilities) (acqs : list Acq) : option (list Acq) :=
  let zs := (fun a => zpos (ac_display a)) <$> acqs in
  let target := hint_target hint zs in
  let overrides := uniquify_zpos hint target planes zs in
  mapM (fun ia => let '(h, o) := layer_hint hint target overrides ia.1 in
                  (fun l => ia.2 {{ ac_planes := l }}) <$> lower_layer crtc_id h o ia.2) (imap pair acqs).
End Lower.

(** ** The stacking numbers, proved *)

Lemma elem_of_option_list {A} (x : A) (o : option A) : x ∈ option_list o <-> o = Some x.
Proof. destruct o as [y|]; simpl; [rewrite list_elem_of_singleton; naive_solver|]. split; [by intros ?%not_elem_of_nil|done]. Qed.

Lemma lowest_loop_spec i zs lowest u k lz :
  lowest_loop i zs lowest u = Some (Some (k, lz), true) ->
  (forall z, z ∈ zs -> is_Some z) /\
  ((lowest = Some (k, lz) /\ u = true /\ forall z, Some z ∈ zs -> lz < z) \/
   exists j, k = (i + j)%nat /\ zs !! j = Some (Some lz) /\
     (forall j' z, j' <> j -> zs !! j' = Some (Some z) -> lz < z) /\
     (forall k0 l0, lowest = Some (k0, l0) -> lz < l0)).
Proof.
  revert i lowest u. induction zs as [|[z|] zs IH]; intros i lowest u; simpl; [| |done].
  { intros [= -> ->]. split; [by intros ? ?%not_elem_of_nil|]. left. split_and!; try done. by intros ? ?%not_elem_of_nil. }
  assert (Hset : forall P : Prop, (forall z', z' ∈ zs -> is_Some z') -> P -> (forall z', z' ∈ Some z :: zs -> is_Some z') /\ P).
  { intros P Hs HP. split; [|done]. intros z' [->|Hz]%elem_of_cons; eauto. }
  (* the head becomes the lowest *)
  assert (Hhead : lowest_loop (S i) zs (Some (i, z)) true = Some (Some (k, lz), true) ->
    (forall k0 l0, lowest = Some (k0, l0) -> z < l0) ->
    (forall z', z' ∈ Some z :: zs -> is_Some z') /\
    exists j, k = (i + j)%nat /\ (Some z :: zs) !! j = Some (Some lz) /\
      (forall j' z', j' <> j -> (Some z :: zs) !! j' = Some (Some z') -> lz < z') /\
      (forall k0 l0, lowest = Some (k0, l0) -> lz < l0)).
  { intros [Hs [([= <- <-] & _ & Hlt)|(j & -> & Hj & Hlt & Hlo)]]%IH Hz; (apply Hset; [done|]).
    - exists 0%nat. split_and!; [lia|done| |done]. intros [|j'] z' Hn Hl; [done|]. apply Hlt. by eapply list_elem_of_lookup_2.
    - exists (S j). split_and!; [lia|done| |].
      + intros [|j'] z' Hn Hl; simpl in Hl; [injection Hl as <-; by eapply Hlo|]. eapply Hlt; [|done]. congruence.
      + intros k0 l0 Hl. specialize (Hlo i z eq_refl). specialize (Hz _ _ Hl). lia. }
  destruct lowest as [[k0 l0]|].
  - destruct (Z.ltb_spec z l0) as [Hlt|Hge].
    + intros [Hs Hj]%Hhead; [|intros ? ? [= <- <-]; done]. split; [done|by right].
    + intros [Hs H]%IH. apply Hset; [done|]. destruct H as [([= <- <-] & Hu & Hlt)|(j & -> & Hj & Hlt & Hlo)].
      * left. split; [done|]. destruct (Z.eqb_spec z l0); [done|]. split; [done|].
        intros z' [[= ->]|Hz]%elem_of_cons; [lia|by apply Hlt].
      * right. exists (S j). split_and!; [lia|done| |].
        -- intros [|j'] z' Hn Hl; simpl in Hl; [injection Hl as <-; specialize (Hlo k0 l0 eq_refl); lia|]. eapply Hlt; [|done]. congruence.
        -- intros ? ? [= <- <-]. by eapply Hlo.
  - intros [Hs Hj]%Hhead; [|done]. split; [done|by right].
Qed.

Lemma others_above_spec i low low_z pin zs :
  others_above i low low_z pin zs = true ->
  forall j z, zs !! j = Some (Some z) -> (i + j)%nat <> low -> 0 <= z /\ pin < u64 z.
Proof.
  revert i. induction zs as [|z0 zs IH]; intros i; simpl; [by intros _ [|?] ?|].
  destruct (_ && _) eqn:E; [done|]. intros Hr [|j] z Hj Hn; simpl in Hj.
  - injection Hj as ->. rewrite bool_decide_eq_false_2 in E by (rewrite Nat.add_0_r in Hn; done). simpl in E.
    apply orb_false_iff in E as [H0%Z.ltb_ge H1%Z.leb_gt]. done.
  - eapply (IH (S i) Hr j); [done|]. lia.
Qed.

(** The layer that can take the slot is strictly below all the others, and they
    are strictly above the slot. *)
Lemma bottom_slot_layer_spec zs pin i :
  bottom_slot_layer zs pin = Some i ->
  exists a, zs !! i = Some (Some a) /\
    forall j z, j <> i -> zs !! j = Some z -> exists b, z = Some b /\ a < b /\ 0 <= b /\ pin < u64 b.
Proof.
  unfold bottom_slot_layer. destruct (lowest_loop 0 zs None true) as [[[[k lz]|] []]|] eqn:El; try done.
  destruct (others_above 0 k lz pin zs) eqn:Eo; [|done]. intros [= ->].
  apply lowest_loop_spec in El as [Hs [(? & _)|(j & Hj & Hl & Hlt & _)]]; [done|]. simpl in Hj. subst j.
  exists lz. split; [done|]. intros j z Hn Hz. destruct (Hs z) as [b ->]; [by eapply list_elem_of_lookup_2|].
  exists b. split; [done|]. split; [by eapply Hlt|]. by eapply (others_above_spec 0 i lz pin zs Eo j b Hz).
Qed.

Section Stack.
Context (hint : option Z) (zs : list (option Z)) (planes : list PlaneCapabilities).
(** Values a display can ask for, and fewer layers than handles. *)
Context (zs_ok : forall z, Some z ∈ zs -> 0 <= z < 2 ^ 31).
Context (hint_ok : forall pin, hint = Some pin -> 0 <= pin < 2 ^ 32).
Context (few : Z.of_nat (length zs) < 2 ^ 32).

Definition target := hint_target hint zs.
Definition entry_at (i : nat) : option ZEntry := z ← zs !! i; z_entry hint target i z.
Definition the_entries : list ZEntry := stable_sort ze_lt (z_entries hint target 0 zs).
Definition overrides : list (nat * Z) := uniquify_zpos hint target planes zs.

(** The zpos a layer's bag gets. *)
Definition written_zpos (i : nat) : option Z :=
  z ← zs !! i;
  match layer_hint hint target overrides i with
  | (Some h, o) => if o || negb (bool_decide (is_Some z)) then Some h else (fun z => u64 z) <$> z
  | (None, _) => (fun z => u64 z) <$> z
  end.

Lemma z_entry_layer i z e : z_entry hint target i z = Some e -> ze_layer e = i.
Proof.
  unfold z_entry. destruct hint as [pin|]; [case_bool_decide; [by intros [= <-]|]|];
    (destruct z; simpl; [by intros [= <-]|done]).
Qed.

Lemma z_entries_spec n (l : list (option Z)) e :
  e ∈ z_entries hint target n l <-> exists j z, l !! j = Some z /\ z_entry hint target (n + j) z = Some e.
Proof.
  revert n. induction l as [|z l IH]; intros n; simpl.
  { split; [by intros ?%not_elem_of_nil|by intros (? & ? & ? & _)]. }
  rewrite elem_of_app, elem_of_option_list, IH. split.
  - intros [He|(j & z' & Hj & He)]; [exists 0%nat, z; by rewrite Nat.add_0_r|].
    exists (S j), z'. by rewrite Nat.add_succ_r.
  - intros ([|j] & z' & Hj & He); [injection Hj as <-; rewrite Nat.add_0_r in He; by left|].
    right. exists j, z'. by rewrite Nat.add_succ_r in He.
Qed.

Lemma the_entries_spec e : e ∈ the_entries <-> entry_at (ze_layer e) = Some e.
Proof.
  unfold the_entries, entry_at. rewrite stable_sort_perm, z_entries_spec. split.
  - intros (j & z & Hj & He). pose proof (z_entry_layer _ _ _ He) as Hl. simpl in *. subst j. by rewrite Hj.
  - intros (z & Hz & He)%bind_Some. by exists (ze_layer e), z.
Qed.

Lemma z_entries_layers n (l : list (option Z)) :
  NoDup (ze_layer <$> z_entries hint target n l) /\ forall e, e ∈ z_entries hint target n l -> (n <= ze_layer e)%nat.
Proof.
  split; [|intros e (j & z & _ & Hl%z_entry_layer)%z_entries_spec; lia].
  revert n. induction l as [|z l IH]; intros n; simpl; [constructor|].
  destruct (z_entry hint target n z) as [e|] eqn:E; simpl; [|apply IH].
  apply NoDup_cons. split; [|apply IH]. intros (e' & He & (j & z' & _ & Hl%z_entry_layer)%z_entries_spec)%list_elem_of_fmap.
  apply z_entry_layer in E. lia.
Qed.

Lemma the_entries_nodup : NoDup (ze_layer <$> the_entries).
Proof. unfold the_entries. rewrite stable_sort_perm. apply z_entries_layers. Qed.

#[local] Instance ze_lt_strict_weak : StrictWeak ze_lt.
Proof.
  split; intros *; unfold ze_lt;
    repeat match goal with
    | |- context [?x <? ?y] => destruct (Z.ltb_spec x y)
    | |- context [(?x <? ?y)%nat] => destruct (Nat.ltb_spec x y)
    end; intros; try done; lia.
Qed.

Lemma ze_lt_total a b : ze_layer a <> ze_layer b -> ze_lt b a = false -> ze_lt a b = true.
Proof.
  unfold ze_lt. repeat match goal with
    | |- context [?x <? ?y] => destruct (Z.ltb_spec x y)
    | |- context [(?x <? ?y)%nat] => destruct (Nat.ltb_spec x y)
    end; intros; try done; lia.
Qed.

Lemma the_entries_sorted : StronglySorted (fun a b => ze_lt a b = true) the_entries.
Proof.
  pose proof (stable_sort_sorted ze_lt (z_entries hint target 0 zs)) as Hs. fold the_entries in Hs.
  pose proof the_entries_nodup as Hn. revert Hs Hn. generalize the_entries as l.
  induction 1 as [|a l Hs IH Hf]; intros Hn; [constructor|]. csimpl in Hn. apply NoDup_cons in Hn as [Ha Hn].
  constructor; [by apply IH|]. rewrite Forall_forall in Hf |- *. intros b Hb. apply ze_lt_total; [|by apply Hf].
  intros He. apply Ha, list_elem_of_fmap. by exists b.
Qed.

(** Numbers for the entries: none below what was asked, strictly increasing
    above [prev], none negative or above the cap. *)
Record fits (cap prev : option Z) (es : list ZEntry) (ws : list Z) : Prop := mkFits {
  fit_each : Forall2 (fun e w => ze_z e <= w /\ 0 <= w /\ forall c, cap = Some c -> w <= c) es ws;
  fit_increasing : StronglySorted Z.lt ws;
  fit_prev : forall p, prev = Some p -> Forall (fun w => p < w) ws
}.

Lemma bump_fits cap prev es vs : bump_loop cap prev es = Some vs -> fits cap prev es vs.
Proof.
  revert prev vs. induction es as [|e es IH]; intros prev vs; cbn [bump_loop]; [intros [= <-]; repeat constructor|].
  set (v := match prev with None => ze_z e | Some p => Z.max (ze_z e) (p + 1) end).
  destruct (_ || _) eqn:Eb; [done|]. intros (vs' & Hvs & [= <-])%bind_Some. apply IH in Hvs as [H1 H2 H3].
  apply orb_false_iff in Eb as [Hv Hc]. specialize (H3 v eq_refl).
  assert (Hze : ze_z e <= v) by (unfold v; destruct prev; lia).
  assert (Hp : forall p, prev = Some p -> p < v) by (intros p ->; unfold v; lia).
  split.
  - constructor; [|done]. split_and!; [done|by apply Z.ltb_ge|]. intros c ->. by apply Z.ltb_ge.
  - by constructor.
  - intros p Hpp. constructor; [by apply Hp|]. eapply Forall_impl; [exact H3|]. intros w Hw. simpl in Hw. specialize (Hp p Hpp). lia.
Qed.

(** The loop finds the least numbers whenever any fit. *)
Lemma bump_finds cap prev es ws :
  (forall e, e ∈ es -> 0 <= ze_z e) -> fits cap prev es ws ->
  exists vs, bump_loop cap prev es = Some vs /\ Forall2 Z.le vs ws.
Proof.
  intros Hpos. revert prev ws. induction es as [|e es IH]; intros prev ws [H1 H2 H3]; cbn [bump_loop].
  { inversion H1. eauto. }
  apply Forall2_cons_inv_l in H1 as (w & ws' & (He & Hw & Hc) & H1' & ->). apply StronglySorted_inv in H2 as [H2 Hf].
  set (v := match prev with None => ze_z e | Some p => Z.max (ze_z e) (p + 1) end).
  assert (Hle : v <= w).
  { unfold v. destruct prev as [p|]; [|done]. specialize (H3 p eq_refl). apply Forall_cons in H3 as [Hp _]. lia. }
  assert (H0 : 0 <= v). { pose proof (Hpos e ltac:(by left)). unfold v. destruct prev; lia. }
  rewrite (proj2 (Z.ltb_ge v 0)) by done. simpl.
  assert (Hcap : match cap with Some c => c <? v | None => false end = false).
  { destruct cap as [c|]; [|done]. apply Z.ltb_ge. specialize (Hc c eq_refl). lia. }
  rewrite Hcap. destruct (IH ltac:(intros; apply Hpos; by right) (Some v) ws') as (vs & -> & Hvs).
  { split; [done..|]. intros ? [= <-]. eapply Forall_impl; [exact Hf|]. intros x Hx. simpl in Hx. lia. }
  exists (v :: vs). split; [done|by constructor].
Qed.

Lemma bump_bound cap prev es vs B :
  bump_loop cap prev es = Some vs -> (forall e, e ∈ es -> ze_z e <= B) -> (forall p, prev = Some p -> p <= B) ->
  forall v, v ∈ vs -> v <= B + Z.of_nat (length es).
Proof.
  revert prev vs B. induction es as [|e es IH]; intros prev vs B; cbn [bump_loop]; [by intros [= <-] _ _ ? ?%not_elem_of_nil|].
  set (v := match prev with None => ze_z e | Some p => Z.max (ze_z e) (p + 1) end).
  destruct (_ || _); [done|]. intros (vs' & Hvs & [= <-])%bind_Some He Hp.
  assert (Hv : v <= B + 1).
  { pose proof (He e ltac:(by left)). unfold v. destruct prev as [p|]; [specialize (Hp p eq_refl)|]; lia. }
  intros x [->|Hx]%elem_of_cons; [simpl; lia|]. cbn [length].
  pose proof (IH (Some v) vs' (B + 1) Hvs) as IH'. specialize (IH' ltac:(intros e' He'; pose proof (He e' ltac:(by right)); lia)).
  specialize (IH' ltac:(intros ? [= <-]; done) x Hx). lia.
Qed.

Lemma layer_hint_missing tgt (ovs : list (nat * Z)) i :
  i ∉ ovs.*1 -> layer_hint hint tgt ovs i = (if bool_decide (tgt = Some i) then hint else None, bool_decide (tgt = Some i)).
Proof.
  unfold layer_hint. generalize (if bool_decide (tgt = Some i) then hint else None, bool_decide (tgt = Some i)) as acc.
  induction ovs as [|[k v] ovs IH]; intros acc Hi; simpl; [done|]. csimpl in Hi. apply not_elem_of_cons in Hi as [Hk Hi].
  rewrite bool_decide_eq_false_2 by congruence. by apply IH.
Qed.

Lemma layer_hint_found tgt (ovs : list (nat * Z)) i v :
  NoDup ovs.*1 -> (i, v) ∈ ovs -> layer_hint hint tgt ovs i = (Some v, true).
Proof.
  unfold layer_hint. generalize (if bool_decide (tgt = Some i) then hint else None, bool_decide (tgt = Some i)) as acc.
  induction ovs as [|[k w] ovs IH]; intros acc Hn; csimpl; [by intros ?%not_elem_of_nil|]. csimpl in Hn.
  apply NoDup_cons in Hn as [Hk Hn]. intros [[= <- <-]|Hin]%elem_of_cons; [|by apply IH].
  rewrite bool_decide_eq_true_2 by done. clear IH. revert Hk. generalize (Some v, true) as acc'. 
  induction ovs as [|[k' w'] ovs IH]; intros acc' Hk; csimpl; [done|]. csimpl in Hk. apply not_elem_of_cons in Hk as [Hk' Hk].
  csimpl in Hn. apply NoDup_cons in Hn as [_ Hn]. rewrite bool_decide_eq_false_2 by congruence. by apply IH.
Qed.

Lemma to_i64_small z : 0 <= z < 2 ^ 63 -> to_i64 z = z.
Proof. intros Hz. unfold to_i64. rewrite wrap_small by (unfold in_u; lia). by rewrite (proj2 (Z.ltb_lt _ _)) by lia. Qed.

Lemma hint_target_spec i :
  target = Some i ->
  exists pin, hint = Some pin /\
    (zs !! i = Some None \/
     exists a, zs !! i = Some (Some a) /\
       forall j z, j <> i -> zs !! j = Some z -> exists b, z = Some b /\ a < b /\ pin < b).
Proof.
  unfold target, hint_target. destruct hint as [pin|]; [|done]. destruct (existsb _ zs); [done|].
  intros Ht. exists pin. split; [done|]. destruct (list_find _ zs) as [[k z]|] eqn:Ef.
  - injection Ht as ->. left. by apply list_find_Some in Ef as (-> & -> & _).
  - right. apply bottom_slot_layer_spec in Ht as (a & Ha & Hb). exists a. split; [done|].
    intros j z Hj Hz. destruct (Hb j z Hj Hz) as (b & -> & Hab & H0 & Hp). exists b. split_and!; [done..|].
    rewrite wrap_small in Hp; [done|]. unfold in_u. pose proof (zs_ok b ltac:(by eapply list_elem_of_lookup_2)). lia.
Qed.

Lemma entry_caller i a :
  zs !! i = Some (Some a) ->
  exists e, entry_at i = Some e /\ ze_layer e = i /\
    (target <> Some i /\ ze_z e = a \/ exists pin, target = Some i /\ hint = Some pin /\ ze_z e = pin).
Proof.
  intros Hi. unfold entry_at, z_entry. rewrite Hi. simpl. destruct hint as [pin|] eqn:Eh.
  - case_bool_decide as Ht; (eexists; split; [done|]; split; [done|]); [|by left].
    right. exists pin. split_and!; [done..|]. simpl. apply to_i64_small. specialize (hint_ok pin eq_refl). lia.
  - eexists. split; [done|]. split; [done|]. left. split; [|done]. unfold target, hint_target. by rewrite Eh.
Qed.

Lemma entry_target i : target = Some i -> exists pin e, hint = Some pin /\ entry_at i = Some e /\ ze_z e = pin.
Proof.
  intros Ht. destruct (hint_target_spec i Ht) as (pin & Hp & Hcase). exists pin.
  assert (is_Some (zs !! i)) as [z Hz] by (destruct Hcase as [->|(a & -> & _)]; done).
  exists (mkZEntry i (to_i64 pin) 0). split; [done|]. split; [|simpl; apply to_i64_small; specialize (hint_ok pin Hp); lia].
  unfold entry_at, z_entry. rewrite Hz, Hp. cbn. by rewrite bool_decide_eq_true_2.
Qed.

Lemma entry_z e i : entry_at i = Some e -> 0 <= ze_z e < 2 ^ 32.
Proof.
  unfold entry_at, z_entry. intros (z & Hz & He)%bind_Some. destruct hint as [pin|] eqn:Eh.
  - case_bool_decide.
    + injection He as <-. simpl. specialize (hint_ok pin eq_refl). rewrite to_i64_small; lia.
    + destruct z as [a|]; simpl in He; [|done]. injection He as <-. simpl.
      pose proof (zs_ok a ltac:(by eapply list_elem_of_lookup_2)). lia.
  - destruct z as [a|]; simpl in He; [|done]. injection He as <-. simpl.
    pose proof (zs_ok a ltac:(by eapply list_elem_of_lookup_2)). lia.
Qed.

(** The callers' order is the entries'. *)
Lemma entries_follow_callers i j a b ei ej :
  zs !! i = Some (Some a) -> zs !! j = Some (Some b) -> a < b ->
  entry_at i = Some ei -> entry_at j = Some ej -> ze_z ei < ze_z ej.
Proof.
  intros Hi Hj Hab Hei Hej. assert (Hne : i <> j) by (intros ->; rewrite Hj in Hi; injection Hi; lia).
  destruct (entry_caller i a Hi) as (e & He & _ & Hzi). rewrite Hei in He. injection He as <-.
  destruct (entry_caller j b Hj) as (e & He & _ & Hzj). rewrite Hej in He. injection He as <-.
  destruct Hzi as [[_ ->]|(pin & Ht & Hh & ->)], Hzj as [[Htj ->]|(pin' & Ht' & Hh' & ->)].
  - done.
  - apply hint_target_spec in Ht' as (p & _ & [Hn|(b' & Hb' & Hall)]); [congruence|].
    destruct (Hall i _ Hne Hi) as (? & [= <-] & Hlt & _). rewrite Hj in Hb'. injection Hb' as <-. lia.
  - apply hint_target_spec in Ht as (p & Hp & [Hn|(a' & Ha' & Hall)]); [congruence|].
    destruct (Hall j _ (not_eq_sym Hne) Hj) as (? & [= <-] & _ & Hpin). rewrite Hh in Hp. by injection Hp as <-.
  - congruence.
Qed.

(** The numbers written, in stacking order. *)
Definition numbers : list Z :=
  if any_tie the_entries then default (ze_z <$> the_entries) (bump_loop (zpos_cap planes) None the_entries)
  else ze_z <$> the_entries.

Lemma bumped_same es : bumped es (ze_z <$> es) = [].
Proof. unfold bumped. induction es as [|e es IH]; csimpl; [done|]. by rewrite Z.eqb_refl. Qed.

Lemma overrides_bumped : overrides = bumped the_entries numbers.
Proof.
  unfold overrides, uniquify_zpos, numbers. fold the_entries. destruct (any_tie the_entries); simpl; [|by rewrite bumped_same].
  destruct (bump_loop _ _ _); simpl; [done|]. by rewrite bumped_same.
Qed.

Lemma bumped_layers es vs : (bumped es vs).*1 `sublist_of` (ze_layer <$> es).
Proof.
  revert vs. induction es as [|e es IH]; intros [|v vs]; csimpl; [done|apply sublist_nil_l..|].
  unfold bumped in *. csimpl. destruct (negb (v =? ze_z e)); csimpl; [by apply sublist_skip|by apply sublist_cons].
Qed.

Lemma overrides_nodup : NoDup overrides.*1.
Proof. rewrite overrides_bumped. eapply sublist_NoDup; [apply the_entries_nodup|apply bumped_layers]. Qed.

Lemma bumped_spec es vs i w :
  (i, w) ∈ bumped es vs <-> exists k e v, es !! k = Some e /\ vs !! k = Some v /\ ze_layer e = i /\ v <> ze_z e /\ w = u64 v.
Proof.
  unfold bumped. rewrite list_elem_of_omap. split.
  - intros ([e v] & (k & Hk)%list_elem_of_lookup & Hs). simpl in Hs. apply lookup_zip_Some in Hk as [He Hv].
    destruct (Z.eqb_spec v (ze_z e)); simpl in Hs; [done|]. injection Hs as <- <-. eauto 10.
  - intros (k & e & v & He & Hv & <- & Hn & ->). exists (e, v). split.
    + apply (list_elem_of_lookup_2 _ k), lookup_zip_Some. done.
    + simpl. by rewrite (proj2 (Z.eqb_neq _ _)).
Qed.

Lemma the_entries_length : Z.of_nat (length the_entries) <= Z.of_nat (length zs).
Proof.
  unfold the_entries. rewrite stable_sort_perm.
  assert (H : forall n l, (length (z_entries hint target n l) <= length l)%nat).
  { intros n l. revert n. induction l as [|z l IH]; intros n; simpl; [done|]. rewrite length_app. specialize (IH (S n)).
    destruct (z_entry _ _ _ _); simpl; lia. }
  specialize (H 0%nat zs). lia.
Qed.

Lemma numbers_bounds v : v ∈ numbers -> 0 <= v < 2 ^ 34.
Proof.
  assert (Hz : forall e, e ∈ the_entries -> 0 <= ze_z e < 2 ^ 32) by (intros e He%the_entries_spec; by eapply entry_z).
  assert (Hb : forall w, w ∈ ze_z <$> the_entries -> 0 <= w < 2 ^ 34).
  { intros w (e & -> & He)%list_elem_of_fmap. specialize (Hz e He). lia. }
  unfold numbers. destruct (any_tie _); [|apply Hb]. destruct (bump_loop _ _ _) as [vs|] eqn:E; simpl; [|apply Hb].
  intros Hv. pose proof (bump_bound _ _ _ _ (2 ^ 32) E ltac:(intros e He; specialize (Hz e He); lia) ltac:(done) v Hv) as Hu.
  apply bump_fits in E as [Hf _ _]. pose proof the_entries_length. apply list_elem_of_lookup in Hv as [k Hk].
  destruct (Forall2_lookup_r _ _ _ _ _ Hf Hk) as (e & _ & _ & H0 & _). lia.
Qed.

Lemma numbers_length : length numbers = length the_entries.
Proof.
  unfold numbers. destruct (any_tie _); [|by rewrite length_fmap]. destruct (bump_loop _ _ _) as [vs|] eqn:E; simpl; [|by rewrite length_fmap].
  apply bump_fits in E as [Hf _ _]. symmetry. by eapply Forall2_length.
Qed.

Lemma written_number k e :
  the_entries !! k = Some e -> exists v, numbers !! k = Some v /\ written_zpos (ze_layer e) = Some v.
Proof.
  intros Hk. assert (is_Some (numbers !! k)) as [v Hv].
  { apply lookup_lt_is_Some. rewrite numbers_length. by eapply lookup_lt_Some. }
  exists v. split; [done|]. pose proof (list_elem_of_lookup_2 _ _ _ Hk) as He. apply the_entries_spec in He.
  unfold entry_at in He. apply bind_Some in He as (z & Hz & He). unfold written_zpos. rewrite Hz. simpl.
  pose proof (numbers_bounds v (list_elem_of_lookup_2 _ _ _ Hv)) as Hvb.
  destruct (Z.eq_dec v (ze_z e)) as [->|Hn].
  - rewrite layer_hint_missing.
    2: { rewrite overrides_bumped. intros ([i w] & Hi & Hin)%list_elem_of_fmap. simpl in Hi. subst i.
         apply bumped_spec in Hin as (k' & e' & v' & Hk' & Hv' & Hl & Hne & _).
         assert (k' = k) as ->.
         { eapply (NoDup_lookup (ze_layer <$> the_entries) k' k (ze_layer e)); [apply the_entries_nodup| |]; rewrite list_lookup_fmap; [rewrite Hk'|rewrite Hk]; simpl; congruence. }
         congruence. }
    apply (f_equal (fmap ze_z)) in He. unfold z_entry in He. destruct hint as [pin|] eqn:Eh.
    + case_bool_decide as Ht.
      * simpl in He. injection He as <-. simpl. f_equal. symmetry. apply to_i64_small. specialize (hint_ok pin eq_refl). lia.
      * destruct z as [a|]; simpl in He; [|done]. injection He as ->. simpl. by rewrite wrap_small by (unfold in_u; lia).
    + rewrite bool_decide_eq_false_2 by (unfold target, hint_target; by rewrite Eh).
      destruct z as [a|]; simpl in He; [|done]. injection He as ->. simpl. by rewrite wrap_small by (unfold in_u; lia).
  - rewrite (layer_hint_found _ _ _ (u64 v) overrides_nodup); [simpl; by rewrite wrap_small by (unfold in_u; lia)|].
    rewrite overrides_bumped. apply bumped_spec. by exists k, e, v.
Qed.

Lemma untied_sorted es :
  StronglySorted (fun a b => ze_lt a b = true) es -> any_tie es = false -> StronglySorted Z.lt (ze_z <$> es).
Proof.
  assert (Hz : forall a b, ze_lt a b = true -> ze_z a <= ze_z b).
  { intros a b. unfold ze_lt. destruct (Z.ltb_spec (ze_z a) (ze_z b)); [lia|]. destruct (Z.ltb_spec (ze_z b) (ze_z a)); [done|lia]. }
  induction 1 as [|a es Hs IH Hf]; [constructor|]. intros Ht. csimpl.
  destruct es as [|b es]; [repeat constructor|]. simpl in Ht. apply orb_false_iff in Ht as [Hab%Z.eqb_neq Ht].
  specialize (IH Ht). constructor; [done|]. csimpl in IH. csimpl. apply Forall_cons in Hf as [Hlt _]. apply Hz in Hlt.
  apply StronglySorted_inv in IH as [_ Hb]. constructor; [lia|]. eapply Forall_impl; [exact Hb|]. intros x Hx. simpl in Hx. lia.
Qed.

(** Either the numbers are distinct and increasing, or none fit and they are
    what was asked. *)
Lemma numbers_spec :
  StronglySorted Z.lt numbers \/
  (numbers = ze_z <$> the_entries /\ overrides = [] /\ forall ws, ~ fits (zpos_cap planes) None the_entries ws).
Proof.
  unfold overrides, uniquify_zpos, numbers. fold the_entries. destruct (any_tie the_entries) eqn:Et; simpl.
  - destruct (bump_loop _ _ _) as [vs|] eqn:Eb; simpl.
    + left. by apply bump_fits in Eb as [_ ? _].
    + right. split_and!; [done..|]. intros ws Hf. apply bump_finds in Hf as (vs & Hvs & _); [congruence|].
      intros e He%the_entries_spec. apply entry_z in He. lia.
  - left. apply untied_sorted; [apply the_entries_sorted|done].
Qed.

Lemma entry_position i e : entry_at i = Some e -> ze_layer e = i /\ exists k, the_entries !! k = Some e.
Proof.
  intros He. assert (Hl : ze_layer e = i) by (unfold entry_at in He; by apply bind_Some in He as (z & _ & ?%z_entry_layer)).
  split; [done|]. apply list_elem_of_lookup, the_entries_spec. by rewrite Hl.
Qed.

Lemma written_order i j ei ej :
  entry_at i = Some ei -> entry_at j = Some ej -> ze_z ei < ze_z ej ->
  exists vi vj, written_zpos i = Some vi /\ written_zpos j = Some vj /\ vi < vj.
Proof.
  intros [Hli (ki & Hki)]%entry_position [Hlj (kj & Hkj)]%entry_position Hlt.
  destruct (written_number ki ei Hki) as (vi & Hvi & Hwi), (written_number kj ej Hkj) as (vj & Hvj & Hwj).
  rewrite Hli in Hwi. rewrite Hlj in Hwj. exists vi, vj. split_and!; [done..|].
  destruct numbers_spec as [Hs|(Hn & _)].
  - assert (Hk : (ki < kj)%nat).
    { destruct (lt_eq_lt_dec ki kj) as [[?|<-]|Hgt]; [done|rewrite Hki in Hkj; injection Hkj as ->; lia|].
      pose proof (sorted_lookup _ _ _ _ _ _ the_entries_sorted Hkj Hki Hgt) as Hc. unfold ze_lt in Hc.
      rewrite (proj2 (Z.ltb_ge _ _)), (proj2 (Z.ltb_lt _ _)) in Hc by lia. done. }
    exact (sorted_lookup _ _ _ _ _ _ Hs Hvi Hvj Hk).
  - rewrite Hn, list_lookup_fmap, Hki in Hvi. rewrite Hn, list_lookup_fmap, Hkj in Hvj. simpl in *. congruence.
Qed.

Lemma written_least i e : entry_at i = Some e -> exists v, written_zpos i = Some v /\ ze_z e <= v.
Proof.
  intros [Hl (k & Hk)]%entry_position. destruct (written_number k e Hk) as (v & Hv & Hw). rewrite Hl in Hw. exists v. split; [done|].
  unfold numbers in Hv.
  destruct (any_tie the_entries); [destruct (bump_loop _ _ _) as [vs|] eqn:Eb; simpl in Hv|];
    [|rewrite list_lookup_fmap, Hk in Hv; simpl in Hv; injection Hv; lia..].
  apply bump_fits in Eb as [Hf _ _]. destruct (Forall2_lookup_lr _ _ _ _ _ _ Hf Hk Hv). done.
Qed.

Lemma no_entry_no_override i : entry_at i = None -> i ∉ overrides.*1.
Proof.
  intros Hn. rewrite overrides_bumped. intros ([i' w] & Hi & Hin)%list_elem_of_fmap. simpl in Hi. subst i'.
  apply bumped_spec in Hin as (k & e & v' & Hk & _ & Hl & _). apply list_elem_of_lookup_2, the_entries_spec in Hk. congruence.
Qed.

(** Without an entry nothing is written. *)
Lemma written_entry i v : written_zpos i = Some v -> is_Some (entry_at i).
Proof.
  destruct (entry_at i) as [e|] eqn:E; [done|]. intros Hw. pose proof (no_entry_no_override i E) as Hm.
  unfold written_zpos in Hw. apply bind_Some in Hw as (z & Hz & Hw). rewrite (layer_hint_missing _ _ _ Hm) in Hw.
  unfold entry_at, z_entry in E. rewrite Hz in E. simpl in E. destruct hint as [pin|].
  - case_bool_decide; [done|]. by destruct z.
  - destruct z; [done|]. simpl in Hw. by destruct (bool_decide _).
Qed.
End Stack.

(** ** What lowering writes *)

(** The value of each property that a lowering sets. *)
Definition lowered_value (crtc_id : Z) (h : option Z) (o : bool) (a : Acq) (xy : PlaneSpan * PlaneSpan) (t : Layer.PropTag) : option Z :=
  let d := ac_display a in
  match t with
  | Layer.FbId => if ac_driver_owns a then None else Some (ab_fb_id (ac_buffer a))
  | Layer.FbModifier => Some (f_modifier (ac_format a))
  | Layer.CrtcId => Some crtc_id
  | Layer.CrtcX => Some (u64 (dst xy.1))
  | Layer.CrtcY => Some (u64 (dst xy.2))
  | Layer.CrtcW => Some (dst_len xy.1)
  | Layer.CrtcH => Some (dst_len xy.2)
  | Layer.SrcX => Some (src xy.1)
  | Layer.SrcY => Some (src xy.2)
  | Layer.SrcW => Some (src_len xy.1)
  | Layer.SrcH => Some (src_len xy.2)
  | Layer.Rotation => if rotation d =? 0 then None else Some (rotation d)
  | Layer.Alpha => Some (alpha d)
  | Layer.Zpos =>
      match h with
      | Some h => if o || negb (bool_decide (is_Some (zpos d))) then Some h else (fun z => u64 z) <$> zpos d
      | None => (fun z => u64 z) <$> zpos d
      end
  | Layer.PixelFormat => Some (drm_fourcc (ac_format a))
  | Layer.InFenceFd => None
  end.

Create HintDb bag.
#[local] Hint Resolve Layer.set_property_wf : bag.
#[local] Ltac bag_step := rewrite Layer.property_set_property by eauto 20 with bag.

Lemma write_zpos_bag h o d l t :
  Layer.layer_wf l ->
  Layer.layer_wf (write_zpos h o d l) /\
  Layer.property t (write_zpos h o d l) =
    match (match h with
           | Some h => if o || negb (bool_decide (is_Some (zpos d))) then Some h else (fun z => u64 z) <$> zpos d
           | None => (fun z => u64 z) <$> zpos d
           end) with
    | Some v => if decide (t = Layer.Zpos) then Some v else Layer.property t l
    | None => Layer.property t l
    end.
Proof.
  intros Hw. unfold write_zpos.
  destruct h as [h|]; [destruct (o || _)|]; destruct (zpos d) as [z|]; simpl; (split; [eauto with bag|first [by bag_step|done]]).
Qed.

Lemma lower_layer_value `{abi : DrmAbi} crtc_id h o a l xy :
  Layer.layer_wf (ac_planes a) -> clipped (ac_display a) (ac_format a) = Some xy ->
  lower_layer crtc_id h o a = Some l ->
  Layer.layer_wf l /\
  forall t, Layer.property t l = match lowered_value crtc_id h o a xy t with Some v => Some v | None => Layer.property t (ac_planes a) end.
Proof.
  intros Hw Hxy. unfold lower_layer. rewrite Hxy. destruct xy as [x y]. cbv zeta. simpl. intros [= <-].
  set (l0 := if negb (ac_driver_owns a) then _ else _).
  assert (H0 : Layer.layer_wf l0 /\ forall t, Layer.property t l0 =
    if decide (t = Layer.FbId) then (if ac_driver_owns a then Layer.property t (ac_planes a) else Some (ab_fb_id (ac_buffer a)))
    else Layer.property t (ac_planes a)).
  { unfold l0. assert (Hw' : Layer.layer_wf (Layer.set_externally_bound (ac_driver_owns a) (ac_planes a))) by done.
    destruct (ac_driver_owns a); simpl; [split; [done|]; intros t; by case_decide|].
    split; [by apply Layer.set_property_wf|]. intros t. by rewrite Layer.property_set_property. }
  clearbody l0. destruct H0 as [Hw0 H0].
  set (l1 := bag Layer.FbModifier _ _).
  assert (H1 : Layer.layer_wf l1 /\ forall t, Layer.property t l1 =
    match lowered_value crtc_id h o a (x, y) t with
    | Some v => if decide (t = Layer.Rotation \/ t = Layer.Alpha \/ t = Layer.Zpos) then Layer.property t (ac_planes a) else Some v
    | None => Layer.property t (ac_planes a)
    end).
  { split; [unfold l1; eauto 20 with bag|]. intros t. unfold l1. repeat bag_step. rewrite H0.
    destruct t; simpl; try done; try by destruct (ac_driver_owns a).
    - by destruct (rotation _ =? 0).
    - by destruct (match h with Some h => _ | None => _ end). }
  clearbody l1. destruct H1 as [Hw1 H1].
  set (l2 := if negb (rotation _ =? 0) then _ else _).
  assert (H2 : Layer.layer_wf l2 /\ forall t, Layer.property t l2 =
    if decide (t = Layer.Rotation) then (if rotation (ac_display a) =? 0 then Layer.property t (ac_planes a) else Some (rotation (ac_display a)))
    else Layer.property t l1).
  { unfold l2. destruct (rotation _ =? 0) eqn:Er; simpl.
    - split; [done|]. intros t. case_decide as Ht; [|done]. subst t. rewrite H1. simpl. by rewrite Er.
    - split; [by apply Layer.set_property_wf|]. intros t. by rewrite Layer.property_set_property. }
  clearbody l2. destruct H2 as [Hw2 H2].
  set (l3 := write_zpos h o (ac_display a) l2).
  assert (H3 : Layer.layer_wf l3) by apply (write_zpos_bag h o (ac_display a) l2 Layer.Zpos Hw2).
  pose proof (fun t => proj2 (write_zpos_bag h o (ac_display a) l2 t Hw2)) as H3'. fold l3 in H3'. clearbody l3.
  assert (H4 : forall t, Layer.property t (bag Layer.Alpha (alpha (ac_display a)) l3) =
    match lowered_value crtc_id h o a (x, y) t with Some v => Some v | None => Layer.property t (ac_planes a) end).
  { intros t. rewrite Layer.property_set_property by done. case_decide as Ht; [by subst t|]. rewrite H3'.
    destruct t; rewrite H2; simpl; try rewrite H1; simpl; try done;
      destruct (match h with Some h => _ | None => _ end); try done; try (by rewrite H1; simpl); by destruct (rotation _ =? 0). }
  destruct (negb (ac_hint_hz a =? 0)); (split; [by apply Layer.set_property_wf|exact H4]).
Qed.

(** An acquired layer as the program's types have it. *)
Record acq_ok (a : Acq) : Prop := mkAcqOk {
  ao_wf : Layer.layer_wf (ac_planes a);
  ao_zpos : forall z, zpos (ac_display a) = Some z -> 0 <= z < 2 ^ 31;
  ao_dst : - 2 ^ 31 <= Layer.rx (dst_rect (ac_display a)) /\ - 2 ^ 31 <= Layer.ry (dst_rect (ac_display a))
}.

Lemma clip_leading_total s : dst s <> INT64_MIN -> is_Some (clip_leading s).
Proof.
  intros Hd. unfold clip_leading. destruct (_ || _ || _ || _); [done|]. rewrite (proj2 (Z.eqb_neq _ _)) by done.
  by destruct (_ <=? _).
Qed.

Section LowerAll.
Context `{abi : DrmAbi}.
Context (crtc_id : Z) (hint : option Z) (planes : list PlaneCapabilities) (acqs : list Acq).
Context (acqs_ok : Forall acq_ok acqs).

Definition zpos_of : list (option Z) := (fun a => zpos (ac_display a)) <$> acqs.
(** The zpos in the bag of the layer at a position. *)
Definition bag_zpos (acqs : list Acq) (i : nat) : option Z := a ← acqs !! i; Layer.property Layer.Zpos (ac_planes a).
(** Whose zpos a frame decides: the caller gave one, or PRIMARY's slot did. *)
Definition numbered (i : nat) : Prop := hint_target hint zpos_of = Some i \/ exists a, zpos_of !! i = Some (Some a).

Lemma clipped_total a : acq_ok a -> is_Some (clipped (ac_display a) (ac_format a)).
Proof.
  intros [_ _ [Hx Hy]]. unfold clipped, INT64_MIN in *. destruct (clip_applies _ _); [|done].
  assert (Hdx : dst (span_x (ac_display a) (ac_format a)) <> INT64_MIN) by (unfold span_x, INT64_MIN; destruct (src_rect_fixed _); simpl; lia).
  assert (Hdy : dst (span_y (ac_display a) (ac_format a)) <> INT64_MIN) by (unfold span_y, INT64_MIN; destruct (src_rect_fixed _); simpl; lia).
  destruct (clip_leading_total _ Hdx) as [? ->], (clip_leading_total _ Hdy) as [? ->]. done.
Qed.

Lemma lower_layer_total h o a : acq_ok a -> is_Some (lower_layer crtc_id h o a).
Proof. intros Ha. unfold lower_layer. destruct (clipped_total a Ha) as [[x y] ->]. done. Qed.

Lemma lower_all_spec :
  exists acqs', lower_all crtc_id hint planes acqs = Some acqs' /\ length acqs' = length acqs /\
    forall i a, acqs !! i = Some a -> exists l xy,
      acqs' !! i = Some (a {{ ac_planes := l }}) /\ clipped (ac_display a) (ac_format a) = Some xy /\ Layer.layer_wf l /\
      forall t, Layer.property t l =
        match (let '(h, o) := layer_hint hint (hint_target hint zpos_of) (overrides hint zpos_of planes) i in
               lowered_value crtc_id h o a xy t) with
        | Some v => Some v
        | None => Layer.property t (ac_planes a)
        end.
Proof.
  unfold lower_all. cbv zeta. fold zpos_of. fold (target hint zpos_of). fold (overrides hint zpos_of planes).
  set (f := fun ia : nat * Acq => _).
  assert (Hf : forall i a, acqs !! i = Some a -> is_Some (f (i, a))).
  { intros i a Hi. unfold f. simpl. destruct (layer_hint _ _ _ i) as [h o].
    destruct (lower_layer_total h o a) as [l ->]; [|done]. rewrite Forall_forall in acqs_ok. eapply acqs_ok, list_elem_of_lookup_2, Hi. }
  destruct (mapM f (imap pair acqs)) as [acqs'|] eqn:E.
  2: { exfalso. apply mapM_None in E. rewrite Exists_exists in E. destruct E as ([i a] & Hin & Hn).
       apply list_elem_of_lookup in Hin as [k Hk]. rewrite list_lookup_imap in Hk. destruct (acqs !! k) as [a'|] eqn:Ek; simpl in Hk; [|done].
       injection Hk as <- <-. destruct (Hf k a' Ek) as [? Hs]. congruence. }
  exists acqs'. split; [done|]. apply mapM_Some in E. split; [apply Forall2_length in E; by rewrite length_imap in E|].
  intros i a Hi. assert (Hk : imap pair acqs !! i = Some (i, a)) by (rewrite list_lookup_imap, Hi; done).
  destruct (Forall2_lookup_l _ _ _ _ _ E Hk) as (a' & Ha' & Hfa). unfold f in Hfa. simpl in Hfa. fold (target hint zpos_of).
  destruct (layer_hint hint (target hint zpos_of) (overrides hint zpos_of planes) i) as [h o].
  destruct (lower_layer crtc_id h o a) as [l|] eqn:El; simpl in Hfa; [|done]. injection Hfa as <-.
  assert (Ha : acq_ok a) by (rewrite Forall_forall in acqs_ok; eapply acqs_ok, list_elem_of_lookup_2, Hi).
  destruct (clipped_total a Ha) as [xy Hxy]. exists l, xy. split; [done|]. split; [done|].
  eapply lower_layer_value; [by destruct Ha|done|done].
Qed.
End LowerAll.


(** ** Concrete frames *)

Section SampleLower.
#[local] Existing Instance linux_abi.

Definition lower_sample (l : Layer.Layer) (z : option Z) : Acq :=
  mkAcq (mkHandle 1 0) l (default_display {{ zpos := z; dst_rect := Layer.mkRect (-10) 0 100 50 }}) (mkFormat 875713112 0 100 50)
    false Layer.Generic 0 0 (mkBuffer 70 70 None []) true false None None.
Definition lower_planes : list PlaneCapabilities :=
  [default_caps {{ type_ := PRIMARY; zpos_min := Some 2; zpos_max := Some 2 }}; default_caps {{ zpos_min := Some 0; zpos_max := Some 255 }}].

(** A background without a zpos and two windows on one level: the background
    takes PRIMARY's slot and the windows get a level each. *)
Definition desktop : list Acq := [lower_sample Layer.new_layer None; lower_sample Layer.new_layer (Some 5); lower_sample Layer.new_layer (Some 5)].

Lemma desktop_ok : Forall acq_ok desktop.
Proof.
  assert (Hk : forall z, (forall z', z = Some z' -> 0 <= z' < 2 ^ 31) -> acq_ok (lower_sample Layer.new_layer z))
    by (intros z Hz; split; [done|exact Hz|simpl; lia]).
  unfold desktop. repeat (apply List.Forall_cons; [apply Hk; intros z' He; simplify_eq; lia|]). apply List.Forall_nil.
Qed.


Definition bags_of (r : option (list Acq)) : list (option Z) :=
  match r with Some acqs => (fun a => Layer.property Layer.Zpos (ac_planes a)) <$> acqs | None => [] end.

(** The layer steered onto PRIMARY's slot is bumped off it when layers below
    tie: three windows asked for zpos 1 push the background from 2 to 4. *)
Lemma steered_layer_leaves_the_slot :
  hint_target (Some 2) [None; Some 1; Some 1; Some 1] = Some 0%nat /\
  bags_of (lower_all 40 (Some 2) lower_planes (lower_sample Layer.new_layer <$> [None; Some 1; Some 1; Some 1])) =
    [Some 4; Some 1; Some 2; Some 3].
Proof. split; vm_compute; reflexivity. Qed.

(** The bag a layer carries to the next frame. *)
Definition bag_after (r : option (list Acq)) : Layer.Layer :=
  match r with Some (a :: _) => ac_planes a | _ => Layer.new_layer end.

(** A zpos once lowered stays in the bag: after [set_zpos(nullopt)] the plane
    keeps 5, and a layer that was steered onto PRIMARY's slot keeps asking for
    it beside the layer steered there now. *)
Lemma stale_zpos_is_kept :
  bags_of (lower_all 40 None lower_planes
    [lower_sample (bag_after (lower_all 40 None lower_planes [lower_sample Layer.new_layer (Some 5)])) None]) = [Some 5] /\
  bags_of (lower_all 40 (Some 2) lower_planes
    [lower_sample Layer.new_layer None;
     lower_sample (bag_after (lower_all 40 (Some 2) lower_planes [lower_sample Layer.new_layer None])) None]) = [Some 2; Some 2].
Proof. split; vm_compute; reflexivity. Qed.
End SampleLower.
