(* ===== verification/SceneCanvas.v ===== *)
(** The plane of the composition canvas: which planes can host it, when one is
    reserved, how it is armed and tested, and when a native layer is moved into
    the composition instead ([src/scene/layer_scene.cpp],
    [src/scene/composite_canvas.cpp]).

    The canvas itself ([CompositionTarget]) is what the passes read of it. *)
From S2P Require Import Prelude DrmAbi Multirect PlaneRegistry PropertyStore Atomic BufferSource SceneLayer SceneLower.
From S2P Require Layer Scoring.

Record Canvas := mkCanvas { cv_drm_fourcc : Z; cv_width : Z; cv_height : Z; cv_fb_id : Z; cv_armable : bool }.

(** A request grown from another. *)
Definition extends `{abi : DrmAbi} `{lib : Libdrm} (r r' : AtomicRequest) (added : list Write) : Prop :=
  writes r' = writes r ++ added /\ (req_ r' = None <-> req_ r = None) /\ drm_fd_ r' = drm_fd_ r.

Section Requests.
Context `{abi : DrmAbi} `{lib : Libdrm}.
Implicit Types (r req : AtomicRequest).

Lemma extends_refl r : extends r r [].
Proof. split; [by rewrite app_nil_r|done]. Qed.

Lemma extends_trans r1 r2 r3 a b : extends r1 r2 a -> extends r2 r3 b -> extends r1 r3 (a ++ b).
Proof. intros (H1 & H2 & H3) (H4 & H5 & H6). split; [by rewrite H4, H1, app_assoc|split; [tauto|congruence]]. Qed.

Lemma add_property_extends obj prop val r res r' :
  add_property obj prop val r = (res, r') -> extends r r' (if has_value res then [mkWrite obj prop val] else []).
Proof.
  intros Ha. destruct (add_property_writes _ _ _ _ _ _ Ha) as (Hfd & _ & Hw). split; [|split; [split|done]].
  - rewrite Hw. destruct (has_value res); [done|by rewrite app_nil_r].
  - unfold add_property in Ha. destruct (req_ r); [|done].
    destruct (drmModeAtomicAddProperty _ _) as [ret q']. by destruct (ret <? 0); injection Ha as <- <-.
  - unfold add_property in Ha. intros Hr. rewrite Hr in Ha. by injection Ha as <- <-.
Qed.

Lemma rollback_extends r r' added : extends r r' added -> extends r (rollback (cursor r) r') [].
Proof.
  intros (Hw & Hn & Hfd). unfold rollback, cursor. destruct (req_ r) as [q|] eqn:Hq.
  - destruct (req_ r') as [q'|] eqn:Hq'; [|by pose proof (proj1 Hn eq_refl)].
    unfold writes in *. rewrite Hq' in Hw. rewrite Hq in *. rewrite cursor_spec.
    rewrite (proj2 (Z.ltb_ge _ _)) by lia. split; [|rewrite Hq; by split; [split|]]. unfold writes. rewrite Hq. simpl.
    rewrite contents_set_cursor by (rewrite Hw, length_app; lia).
    by rewrite Nat2Z.id, Hw, take_app_length, app_nil_r.
  - assert (Hr' : req_ r' = None) by (by apply Hn). rewrite Hr'.
    split; [unfold writes; by rewrite Hr', Hq|]. by rewrite Hr', Hq.
Qed.

Lemma extends_valid r r' added : extends r r' added -> Atomic.valid r' = Atomic.valid r.
Proof. intros (_ & Hn & Hfd). unfold Atomic.valid. rewrite Hfd. destruct (req_ r), (req_ r'); naive_solver. Qed.
End Requests.

Section Canvas.
Context `{abi : DrmAbi} `{lib : Libdrm}.
Implicit Types (req : AtomicRequest) (rep : CommitReport) (p : PlaneCapabilities).

(** ** Who can host it *)

Definition canvas_output_bpp (fourcc : Z) : Z :=
  match switch_format fourcc with
  | Some (ARGB8888 | XRGB8888 | XBGR8888 | ABGR8888) => 4
  | Some (RGB565 | BGR565) => 2
  | _ => 0
  end.

Definition k_canvas_formats : list Z :=
  DRM_FORMAT <$> [ARGB8888; XRGB8888; XBGR8888; ABGR8888; RGB565; BGR565].

Definition canvas_format_for_plane p : option Z :=
  snd <$> list_find (fun fourcc => canvas_output_bpp fourcc <> 0 /\ scans_out_linear p fourcc = true) k_canvas_formats.

Definition plane_hosts_canvas (canvas : option Canvas) p : bool :=
  match canvas with
  | Some c => scans_out_linear p (cv_drm_fourcc c)
  | None => bool_decide (is_Some (canvas_format_for_plane p))
  end.

Definition is_cursor p : bool := bool_decide (type_ p = CURSOR).

(** [planes]: the CRTC's. *)
Definition planes_stack_by_id (planes : list PlaneCapabilities) : bool :=
  forallb (fun p => negb (negb (is_cursor p) && bool_decide (is_Some (zpos_min p)))) planes.

(** ** Reserving a plane up front *)

(** [live]: the zpos of the live layers; [layer_count]: how many there are. *)
Definition pick_canvas_reservation_if_needed (planes : option (list PlaneCapabilities)) (canvas : option Canvas)
    (primary_zpos_hint : option Z) (live : list (option Z)) (layer_count : nat) : option Z :=
  match planes with
  | None => None
  | Some planes =>
      if planes_stack_by_id planes then None
      else
        let eligible := filter (fun p => negb (is_cursor p) && plane_hosts_canvas canvas p = true) planes in
        let primary_fallback := snd <$> list_find (fun p => type_ p = PRIMARY) eligible in
        if bool_decide (eligible = []) then None
        else
          let anchored :=
            match primary_zpos_hint, primary_fallback with
            | Some pin, Some primary =>
                let primary_eligible_layer :=
                  existsb (fun z => match z with None => true | Some z => u64 z =? pin end) live ||
                  bool_decide (is_Some (bottom_slot_layer live pin)) in
                if negb primary_eligible_layer && (0 <? layer_count)%nat then Some (id primary) else None
            | _, _ => None
            end in
          match anchored with
          | Some i => Some i
          | None =>
              if (layer_count <=? length eligible)%nat then None
              else
                match snd <$> list_find (fun p => type_ p = OVERLAY) eligible with
                | Some p => Some (id p)
                | None => id <$> primary_fallback
                end
          end
  end.

(** ** The candidates of a frame *)

Definition assigned_planes (acqs : list Acq) : list Z := omap (fun a => Layer.assigned_plane_ (ac_planes a)) acqs.

(** May the canvas go on the plane? *)
Definition canvas_eligible (canvas : option Canvas) (in_use : list Z) p : bool :=
  negb (is_cursor p) && negb (bool_decide (id p ∈ in_use)) && plane_hosts_canvas canvas p &&
  multirect_pairing_ok (multirect_parent p) (fun i => bool_decide (i ∈ in_use)).

Definition canvas_plane_candidates (planes : list PlaneCapabilities) (canvas : option Canvas)
    (last_canvas_plane_id allocator_canvas_plane : option Z) (acqs : list Acq) : list PlaneCapabilities :=
  let in_use := assigned_planes acqs in
  let by_id := planes_stack_by_id planes in
  let preferred_id := if by_id then match allocator_canvas_plane with Some i => Some i | None => last_canvas_plane_id end
                      else last_canvas_plane_id in
  let preferred :=
    match preferred_id with
    | Some i => match snd <$> list_find (fun p => id p = i) planes with
                | Some p => if canvas_eligible canvas in_use p then [p] else []
                | None => []
                end
    | None => []
    end in
  let rest := filter (fun p => canvas_eligible canvas in_use p = true /\ id p ∉ id <$> preferred) planes in
  let ordered := filter (fun p => type_ p = OVERLAY) rest ++ filter (fun p => type_ p <> OVERLAY) rest in
  preferred ++ (if by_id then stable_sort (fun a b => id b <? id a) ordered else ordered).

Definition preferred_plane (planes : list PlaneCapabilities) (last_canvas allocator_canvas : option Z) : option Z :=
  if planes_stack_by_id planes then match allocator_canvas with Some i => Some i | None => last_canvas end else last_canvas.

Lemma NoDup_fmap_filter {A B} (f : A -> B) (P : A -> Prop) `{forall x, Decision (P x)} (l : list A) :
  NoDup (f <$> l) -> NoDup (f <$> filter P l).
Proof.
  induction l as [|x l IH]; [done|]. csimpl. intros [Hx Hl]%NoDup_cons. rewrite filter_cons. destruct (decide (P x)); [|auto].
  csimpl. apply NoDup_cons. split; [|auto]. intros (y & He & [_ Hy]%list_elem_of_filter)%list_elem_of_fmap.
  apply Hx, list_elem_of_fmap. eauto.
Qed.

Lemma find_by_id planes p : NoDup (id <$> planes) -> p ∈ planes -> exists k, list_find (fun q => id q = id p) planes = Some (k, p).
Proof.
  intros Hn (k & Hk)%list_elem_of_lookup. exists k. apply list_find_Some. split_and!; [done|done|].
  intros j q Hj Hlt He. assert (j = k); [|lia].
  eapply (NoDup_lookup (id <$> planes) j k (id p)); [done|by rewrite list_lookup_fmap, Hj; simpl; rewrite He|by rewrite list_lookup_fmap, Hk].
Qed.

Lemma candidates_spec planes canvas last_canvas allocator_canvas acqs :
  NoDup (id <$> planes) ->
  let out := canvas_plane_candidates planes canvas last_canvas allocator_canvas acqs in
  NoDup (id <$> out) /\
  (forall p, p ∈ out <-> p ∈ planes /\ canvas_eligible canvas (assigned_planes acqs) p = true) /\
  (forall i p, preferred_plane planes last_canvas allocator_canvas = Some i -> p ∈ planes -> id p = i ->
     canvas_eligible canvas (assigned_planes acqs) p = true -> head out = Some p).
Proof.
  intros Hn. unfold canvas_plane_candidates. cbv zeta. fold (preferred_plane planes last_canvas allocator_canvas).
  set (elig := canvas_eligible canvas (assigned_planes acqs)).
  set (preferred := match preferred_plane planes last_canvas allocator_canvas with Some i => _ | None => [] end).
  set (rest := filter _ planes).
  set (tail := if planes_stack_by_id planes then _ else _).
  assert (Hpre : preferred = [] \/ exists p, preferred = [p] /\ p ∈ planes /\ elig p = true /\
            preferred_plane planes last_canvas allocator_canvas = Some (id p)).
  { unfold preferred. destruct (preferred_plane _ _ _) as [i|]; [|by left].
    destruct (list_find _ planes) as [[k q]|] eqn:Ef; simpl; [|by left]. apply list_find_Some in Ef as (Hk & Hi & _).
    destruct (elig q) eqn:Ee; [|by left]. right. exists q. split_and!; [done| |done|by subst i].
    by eapply list_elem_of_lookup_2. }
  assert (Htail : tail ≡ₚ rest).
  { assert (Hp : filter (fun p => type_ p = OVERLAY) rest ++ filter (fun p => type_ p <> OVERLAY) rest ≡ₚ rest).
    { clear. induction rest as [|p l IH]; [done|]. rewrite !filter_cons. destruct (decide (type_ p = OVERLAY)) as [Ht|Ht].
      - rewrite decide_False by (intros Hf; by apply Hf). simpl. by constructor.
      - rewrite decide_True by done. rewrite <- Permutation_middle. by constructor. }
    unfold tail. destruct (planes_stack_by_id planes); [by rewrite stable_sort_perm|done]. }
  split_and!.
  - rewrite fmap_app, Htail. apply NoDup_app. split_and!.
    + destruct Hpre as [->|(p & -> & _)]; [constructor|apply NoDup_singleton].
    + intros i (p & -> & Hp)%list_elem_of_fmap (q & He & Hq)%list_elem_of_fmap. unfold rest in Hq.
      apply list_elem_of_filter in Hq as [[_ Hq] _]. apply Hq. rewrite <- He. apply list_elem_of_fmap. by exists p.
    + by apply NoDup_fmap_filter.
  - intros p. rewrite elem_of_app, Htail. unfold rest. rewrite list_elem_of_filter. split.
    + intros [Hp|([He _] & Hp)]; [|done]. destruct Hpre as [Hnil|(q & Hq & Hin & He & _)]; [by rewrite Hnil in Hp; apply not_elem_of_nil in Hp|].
      rewrite Hq in Hp. by apply list_elem_of_singleton in Hp as ->.
    + intros [Hp He]. destruct (decide (id p ∈ id <$> preferred)) as [Hin|Hin]; [left|by right].
      apply list_elem_of_fmap in Hin as (q & Hi & Hq). destruct Hpre as [Hnil|(q' & Hq' & Hin & _)]; [by rewrite Hnil in Hq; apply not_elem_of_nil in Hq|].
      rewrite Hq' in Hq |- *. apply list_elem_of_singleton in Hq as ->. apply list_elem_of_singleton.
      destruct (find_by_id planes p Hn Hp) as [k Hk], (find_by_id planes q' Hn Hin) as [k' Hk']. rewrite Hi in Hk. rewrite Hk in Hk'. congruence.
  - intros i p Hpi Hp Hi He. assert (Heq : preferred = [p]).
    { unfold preferred. rewrite Hpi. subst i. destruct (find_by_id planes p Hn Hp) as [k Hk]. rewrite Hk. simpl. by rewrite He. }
    by rewrite Heq.
Qed.

(** The candidates past the preferred one: overlays before primaries, or the
    topmost first where the plane id is the stacking order. *)
Lemma candidates_ordered planes canvas last_canvas allocator_canvas acqs i j a b :
  let out := canvas_plane_candidates planes canvas last_canvas allocator_canvas acqs in
  out !! i = Some a -> out !! j = Some b -> (i < j)%nat -> preferred_plane planes last_canvas allocator_canvas <> Some (id a) ->
  if planes_stack_by_id planes then id b <= id a else type_ b = OVERLAY -> type_ a = OVERLAY.
Proof.
  unfold canvas_plane_candidates. cbv zeta. fold (preferred_plane planes last_canvas allocator_canvas).
  set (preferred := match preferred_plane planes last_canvas allocator_canvas with Some i => _ | None => [] end).
  set (rest := filter _ planes). intros Ha Hb Hij Hne.
  assert (Hpa : a ∉ preferred).
  { unfold preferred. destruct (preferred_plane _ _ _) as [i'|]; [|apply not_elem_of_nil].
    destruct (list_find _ planes) as [[k q]|] eqn:Ef; simpl; [|apply not_elem_of_nil]. apply list_find_Some in Ef as (_ & Hi & _).
    destruct (canvas_eligible _ _ q); [|apply not_elem_of_nil]. intros ->%list_elem_of_singleton. congruence. }
  set (tail := if planes_stack_by_id planes then _ else _) in *.
  assert (Hia : (length preferred <= i)%nat).
  { destruct (decide (length preferred <= i)%nat) as [|Hlt]; [done|]. rewrite lookup_app_l in Ha by lia.
    destruct Hpa. by eapply list_elem_of_lookup_2. }
  rewrite lookup_app_r in Ha by done. rewrite lookup_app_r in Hb by lia.
  set (i' := (i - length preferred)%nat) in *. set (j' := (j - length preferred)%nat) in *. assert (Hij' : (i' < j')%nat) by lia.
  unfold tail in *. destruct (planes_stack_by_id planes).
  - pose proof (stable_sort_sorted (fun x y => id y <? id x) (filter (fun p => type_ p = OVERLAY) rest ++ filter (fun p => type_ p <> OVERLAY) rest)) as Hs.
    pose proof (sorted_lookup _ _ _ _ _ _ Hs Ha Hb Hij') as Hna. unfold not_after in Hna. by apply Z.ltb_ge in Hna.
  - intros Ht. destruct (decide (type_ a = OVERLAY)) as [|Hto]; [done|]. exfalso.
    assert (Hla : (length (filter (fun p => type_ p = OVERLAY) rest) <= i')%nat).
    { destruct (decide (length (filter (fun p => type_ p = OVERLAY) rest) <= i')%nat) as [|Hlt]; [done|].
      rewrite lookup_app_l in Ha by lia. apply list_elem_of_lookup_2, list_elem_of_filter in Ha as [? _]. done. }
    rewrite lookup_app_r in Hb by lia. apply list_elem_of_lookup_2, list_elem_of_filter in Hb as [Hb _]. done.
Qed.
End Canvas.

(** ** Writing a plane's properties *)

(** By name where the plane advertises it and may be written, or by id. *)
Inductive PlaneWrite := Named (name : string) (value : Z) | ById (prop value : Z).

Section Arm.
Context `{abi : DrmAbi} `{lib : Libdrm}.
Context (props : PropertyStore) (crtc_id : Z).
Implicit Types (req : AtomicRequest) (rep : CommitReport) (p : PlaneCapabilities).

Definition value_or_false (r : expected bool) : bool := match r with Val b => b | Unexp _ => false end.

(** The property a write goes to, if any. *)
Definition write_target (plane_id : Z) (w : PlaneWrite) : option Write :=
  match w with
  | Named name v =>
      match property_id plane_id name props with
      | Unexp _ => None
      | Val i => if value_or_false (is_immutable plane_id name props) then None else Some (mkWrite plane_id i v)
      end
  | ById prop v => Some (mkWrite plane_id prop v)
  end.
Definition is_fb (w : PlaneWrite) : bool := match w with Named name _ => bool_decide (name = "FB_ID") | ById _ _ => false end.

Fixpoint run_writes (plane_id : Z) (ws : list PlaneWrite) req rep : expected unit * AtomicRequest * CommitReport :=
  match ws with
  | [] => (Val tt, req, rep)
  | w :: ws' =>
      match write_target plane_id w with
      | None => run_writes plane_id ws' req rep
      | Some wr =>
          let '(r, req) := add_property (w_object wr) (w_property wr) (w_value wr) req in
          match r with
          | Unexp e => (Unexp e, req, rep)
          | Val _ =>
              let rep := rep {{ properties_written ::= S }} in
              run_writes plane_id ws' req (if is_fb w then rep {{ fbs_attached ::= S }} else rep)
          end
      end
  end.

Definition zpos_fixed p : bool :=
  match zpos_min p, zpos_max p with Some lo, Some hi => lo =? hi | _, _ => false end.

Definition clamp_canvas_zpos p (zpos : Z) : Z :=
  let z := match zpos_max p with Some m => Z.min zpos (to_i32 m) | None => zpos end in
  match zpos_min p with Some m => Z.max z (to_i32 m) | None => z end.

Definition canvas_writes (c : Canvas) p (zpos : Z) : list PlaneWrite :=
  [Named "FB_ID" (cv_fb_id c); Named "CRTC_ID" crtc_id; Named "CRTC_X" 0; Named "CRTC_Y" 0;
   Named "CRTC_W" (cv_width c); Named "CRTC_H" (cv_height c); Named "SRC_X" 0; Named "SRC_Y" 0;
   Named "SRC_W" (to_16_16 (cv_width c)); Named "SRC_H" (to_16_16 (cv_height c))] ++
  match blend_mode_premultiplied p with Some v => [Named "pixel blend mode" v] | None => [] end ++
  (if has_per_plane_alpha p then [Named "alpha" (alpha_max p)] else []) ++
  ((fun prop => ById prop 0) <$> reset_on_arm_props p) ++
  (if zpos_fixed p then [] else [Named "zpos" (u64 (clamp_canvas_zpos p zpos))]).

Definition arm_composition_canvas (c : Canvas) p (zpos : Z) req rep : expected unit * AtomicRequest * CommitReport :=
  run_writes (id p) (canvas_writes c p zpos) req rep.

(** [disable_plane]: its writes' failures are ignored. *)
Definition disable_plane (plane_id : Z) req : AtomicRequest :=
  foldl (fun req name => match property_id plane_id name props with
                         | Unexp _ => req
                         | Val i => (add_property plane_id i 0 req).2
                         end) req ["FB_ID"; "CRTC_ID"].

(** ** Testing the canvas's plane *)

Record Verdicts := mkVerdicts {
  canvas_proven_planes_ : list Z;
  canvas_rejected_planes_ : list Z;
  canvas_verdict_natives_ : list Z;
  canvas_testing_ : bool
}.
Definition no_verdicts : Verdicts := mkVerdicts [] [] [] true.

Definition restore_counts (before rep : CommitReport) : CommitReport :=
  rep {{ properties_written := properties_written before; fbs_attached := fbs_attached before }}.

Definition Armed : Type := option PlaneCapabilities * AtomicRequest * CommitReport * Verdicts * kernel.

(** The loop of [arm_canvas_tested]; no plane where it falls through. *)
Fixpoint arm_loop (c : Canvas) (zpos flags : Z) (candidates : list PlaneCapabilities) req rep (v : Verdicts) (k : kernel) : Armed :=
  match candidates with
  | [] => (None, req, rep, v, k)
  | p :: ps =>
      if bool_decide (id p ∈ canvas_rejected_planes_ v) then arm_loop c zpos flags ps req rep v k
      else
        let cur := cursor req in
        let '(r, req1, rep1) := arm_composition_canvas c p zpos req rep in
        match r with
        | Unexp _ => arm_loop c zpos flags ps (rollback cur req1) (restore_counts rep rep1) v k
        | Val _ =>
            if bool_decide (id p ∈ canvas_proven_planes_ v) then (Some p, req1, rep1, v, k)
            else
              let '(verdict, k) := test_request req1 flags k in
              match verdict with
              | Val _ => (Some p, req1, rep1, v {{ canvas_proven_planes_ ::= fun l => l ++ [id p] }}, k)
              | Unexp EACCES => (Some p, req1, rep1, v, k)
              | Unexp _ => arm_loop c zpos flags ps (rollback cur req1) (restore_counts rep rep1)
                             (v {{ canvas_rejected_planes_ ::= fun l => l ++ [id p] }}) k
              end
        end
  end.

Definition arm_first (c : Canvas) (zpos : Z) (candidates : list PlaneCapabilities) req rep (v : Verdicts) (k : kernel) : Armed :=
  match candidates with
  | [] => (None, req, rep, v, k)   (* the caller passes some *)
  | p :: _ =>
      let '(r, req, rep) := arm_composition_canvas c p zpos req rep in
      ((if has_value r then Some p else None), req, rep, v, k)
  end.

Definition arm_canvas_tested (c : Canvas) (zpos flags : Z) (candidates : list PlaneCapabilities) req rep v k : Armed :=
  if negb (canvas_testing_ v) || negb (Atomic.valid req) then arm_first c zpos candidates req rep v k
  else
    match arm_loop c zpos flags candidates req rep v k with
    | (Some p, req, rep, v, k) => (Some p, req, rep, v, k)
    | (None, req, rep, v, k) =>
        arm_first c zpos candidates req rep (v {{ canvas_rejected_planes_ := []; canvas_testing_ := false }}) k
    end.

(** ** Is there a plane for it beside the native ones? *)

Definition Feasible : Type := bool * AtomicRequest * CommitReport * Verdicts * kernel.

Fixpoint feasible_loop (c : Canvas) (zpos flags : Z) (candidates : list PlaneCapabilities) req rep (v : Verdicts) (k : kernel) : Feasible :=
  match candidates with
  | [] => (false, req, rep, v, k)
  | p :: ps =>
      if bool_decide (id p ∈ canvas_proven_planes_ v) then (true, req, rep, v, k)
      else if bool_decide (id p ∈ canvas_rejected_planes_ v) then feasible_loop c zpos flags ps req rep v k
      else
        let cur := cursor req in
        let '(r, req1, _) := arm_composition_canvas c p zpos req rep in
        let '(verdict, k) := match r with Val _ => test_request req1 flags k | Unexp _ => (Unexp EINVAL, k) end in
        let req := rollback cur req1 in
        match verdict with
        | Val _ => (true, req, rep, v {{ canvas_proven_planes_ ::= fun l => l ++ [id p] }}, k)
        | Unexp EACCES => (true, req, rep, v, k)
        | Unexp _ => feasible_loop c zpos flags ps req rep (v {{ canvas_rejected_planes_ ::= fun l => l ++ [id p] }}) k
        end
  end.

Definition native_planes (acqs : list Acq) : list Z :=
  stable_sort Z.ltb (omap (fun a => if Layer.needs_composition_ (ac_planes a) then None else Layer.assigned_plane_ (ac_planes a)) acqs).
Definition composites (acqs : list Acq) : bool := existsb (fun a => Layer.needs_composition_ (ac_planes a)) acqs.

(** A change of the native planes voids the verdicts. *)
Definition note_natives (natives : list Z) (v : Verdicts) : Verdicts :=
  if bool_decide (natives = canvas_verdict_natives_ v) then v else mkVerdicts [] [] natives true.

Definition choose_canvas_zpos (slot : option Z) (stack : list (Z * Z)) (primary_zpos_hint : option Z) : Z :=
  let k_max := 2 ^ 31 - 1 in
  match slot with
  | Some s => Z.min s k_max
  | None =>
      let top := foldl (fun top iz => Some (Z.max (default 0 top) iz.2)) None stack in
      let top := match primary_zpos_hint with Some h => Some (Z.max (default 0 top) h) | None => top end in
      match top with None => 0 | Some t => Z.min (u64 (t + 1)) k_max end
  end.

(** What the pass reads of the scene and of the allocator's last search. *)
Record CanvasView := mkCanvasView {
  cw_planes : option (list PlaneCapabilities);   (* where the CRTC's index is known *)
  cw_last_canvas_plane : option Z;
  cw_allocator_canvas_plane : option Z;
  cw_canvas_slot : option Z;
  cw_stack : list (Z * Z);
  cw_hint : option Z
}.

(** [ensure_composition_canvas]; [make]: the target made for a format. *)
Definition ensure_composition_canvas (make : Z -> option Canvas) p (canvas : option Canvas) : option Canvas :=
  match canvas with
  | Some c => Some c
  | None => make (default (DRM_FORMAT ARGB8888) (canvas_format_for_plane p))
  end.

Definition canvas_plane_feasible (make : Z -> option Canvas) (view : CanvasView) (acqs : list Acq) (flags : Z)
    req rep (v : Verdicts) (canvas : option Canvas) (k : kernel) : Feasible * option Canvas :=
  let v := note_natives (native_planes acqs) v in
  let yes := (true, req, rep, v, k) in
  if negb (composites acqs) || negb (canvas_testing_ v) || negb (Atomic.valid req) then (yes, canvas)
  else
    match cw_planes view with
    | None => (yes, canvas)
    | Some planes =>
        let candidates := canvas_plane_candidates planes canvas (cw_last_canvas_plane view) (cw_allocator_canvas_plane view) acqs in
        match candidates with
        | [] => (yes, canvas)
        | front :: _ =>
            match ensure_composition_canvas make front canvas with
            | None => (yes, None)
            | Some c =>
                if negb (cv_armable c) || (cv_fb_id c =? 0) then (yes, Some c)
                else (feasible_loop c (choose_canvas_zpos (cw_canvas_slot view) (cw_stack view) (cw_hint view)) flags
                        candidates req rep v k, Some c)
            end
        end
    end.

(** ** What the passes leave *)

(** The writes of [ws] that reach the plane. *)
Definition plane_writes (plane_id : Z) (ws : list PlaneWrite) : list Write := omap (write_target plane_id) ws.

Lemma run_writes_spec plane_id ws req rep r req' rep' :
  run_writes plane_id ws req rep = (r, req', rep') ->
  exists added, extends req req' added /\ added `prefix_of` plane_writes plane_id ws /\
    (r = Val tt -> added = plane_writes plane_id ws) /\
    properties_written rep' = (properties_written rep + length added)%nat /\ restore_counts rep rep' = rep.
Proof.
  revert req rep. induction ws as [|w ws IH]; intros req rep; cbn [run_writes].
  { intros [= <- <- <-]. exists []. split_and!; [apply extends_refl|apply prefix_nil|done|by rewrite Nat.add_0_r|by destruct rep]. }
  unfold plane_writes. csimpl. fold (plane_writes plane_id ws). destruct (write_target plane_id w) as [wr|]; [|apply IH].
  destruct (add_property _ _ _ req) as [[[]|e] req1] eqn:Ea.
  - apply add_property_extends in Ea. simpl in Ea. intros (added & He & Hp & Hr & Hn & Hc)%IH.
    exists (wr :: added). split_and!.
    + assert (Hwr : mkWrite (w_object wr) (w_property wr) (w_value wr) = wr) by by destruct wr.
      rewrite Hwr in Ea. exact (extends_trans _ _ _ _ _ Ea He).
    + by apply prefix_cons.
    + intros Hv. by rewrite (Hr Hv).
    + rewrite Hn. by destruct (is_fb w), rep; simpl; rewrite Nat.add_succ_r.
    + unfold restore_counts in *. destruct (is_fb w), rep, rep'; simpl in *; injection Hc as ->; by subst.
  - intros [= <- <- <-]. apply add_property_extends in Ea. simpl in Ea. exists [].
    split_and!; [done|apply prefix_nil|done|by rewrite Nat.add_0_r|by destruct rep].
Qed.

Section Tested.
Context (c : Canvas) (zpos flags : Z).

(** The canvas on a plane. *)
Definition canvas_on p : list Write := plane_writes (id p) (canvas_writes c p zpos).

Lemma arm_canvas_spec p req rep r req' rep' :
  arm_composition_canvas c p zpos req rep = (r, req', rep') ->
  exists added, extends req req' added /\ (r = Val tt -> added = canvas_on p) /\
    properties_written rep' = (properties_written rep + length added)%nat /\ restore_counts rep rep' = rep.
Proof. intros (added & He & _ & Hr & Hn & Hc)%run_writes_spec. eauto 10. Qed.

(** A request that carries the same as another. *)
Lemma rolled_back req req' added rep rep' :
  extends req req' added -> restore_counts rep rep' = rep ->
  extends req (rollback (cursor req) req') [] /\ restore_counts rep rep' = rep.
Proof. intros He Hc. split; [by eapply rollback_extends|done]. Qed.

Lemma extends_more r1 r2 r3 a : extends r1 r2 [] -> extends r2 r3 a -> extends r1 r3 a.
Proof. intros H1 H2. exact (extends_trans _ _ _ _ _ H1 H2). Qed.

(** Why a plane may be armed: the kernel accepted it earlier, or accepts the
    request it is armed in, or cannot tell for want of DRM master. *)
Definition vouched p req' (v v' : Verdicts) (k' : kernel) : Prop :=
  id p ∈ canvas_proven_planes_ v \/
  (exists kt, test_request req' flags kt = (Val tt, k') /\ id p ∈ canvas_proven_planes_ v') \/
  (exists kt, test_request req' flags kt = (Unexp EACCES, k')).

Lemma arm_loop_spec candidates req rep v k res req' rep' v' k' :
  arm_loop c zpos flags candidates req rep v k = (res, req', rep', v', k') ->
  canvas_testing_ v' = canvas_testing_ v /\ canvas_verdict_natives_ v' = canvas_verdict_natives_ v /\
  match res with
  | Some p => p ∈ candidates /\ id p ∉ canvas_rejected_planes_ v /\ extends req req' (canvas_on p) /\
      restore_counts rep rep' = rep /\ vouched p req' v v' k'
  | None => extends req req' [] /\ rep' = rep
  end.
Proof.
  revert req v k. induction candidates as [|p ps IH]; intros req v k; cbn [arm_loop].
  { intros [= <- <- <- <- <-]. split_and!; try done. apply extends_refl. }
  assert (Hskip : forall v0, canvas_testing_ v0 = canvas_testing_ v -> canvas_verdict_natives_ v0 = canvas_verdict_natives_ v ->
    canvas_proven_planes_ v0 = canvas_proven_planes_ v -> (forall i, i ∈ canvas_rejected_planes_ v -> i ∈ canvas_rejected_planes_ v0) ->
    forall req0 k0, extends req req0 [] -> arm_loop c zpos flags ps req0 rep v0 k0 = (res, req', rep', v', k') ->
    canvas_testing_ v' = canvas_testing_ v /\ canvas_verdict_natives_ v' = canvas_verdict_natives_ v /\
    match res with
    | Some q => q ∈ p :: ps /\ id q ∉ canvas_rejected_planes_ v /\ extends req req' (canvas_on q) /\
        restore_counts rep rep' = rep /\ vouched q req' v v' k'
    | None => extends req req' [] /\ rep' = rep
    end).
  { intros v0 Ht Hnat Hp Hr req0 k0 He (H1 & H2 & H3)%IH. rewrite H1, H2. split_and!; [done..|].
    destruct res as [q|].
    - destruct H3 as (Hq & Hnr & He' & Hc & Hv). split_and!; [by right|auto|by eapply extends_more|done|].
      unfold vouched in *. by rewrite Hp in Hv.
    - destruct H3 as [He' ->]. split; [by eapply extends_more|done]. }
  case_bool_decide as Hrej; [by apply Hskip, extends_refl|].
  destruct (arm_composition_canvas c p zpos req rep) as [[r req1] rep1] eqn:Ea.
  apply arm_canvas_spec in Ea as (added & He & Hr & _ & Hc).
  destruct r as [[]|e]; [|rewrite Hc; apply Hskip; try done; by eapply rollback_extends].
  specialize (Hr eq_refl) as ->.
  case_bool_decide as Hprov.
  { intros [= <- <- <- <- <-]. split_and!; try done; [by left|by left]. }
  destruct (test_request req1 flags k) as [verdict k1] eqn:Et.
  assert (Hgo : arm_loop c zpos flags ps (rollback (cursor req) req1) (restore_counts rep rep1)
                  (v {{ canvas_rejected_planes_ ::= fun l => l ++ [id p] }}) k1 = (res, req', rep', v', k') ->
    canvas_testing_ v' = canvas_testing_ v /\ canvas_verdict_natives_ v' = canvas_verdict_natives_ v /\
    match res with
    | Some q => q ∈ p :: ps /\ id q ∉ canvas_rejected_planes_ v /\ extends req req' (canvas_on q) /\
        restore_counts rep rep' = rep /\ vouched q req' v v' k'
    | None => extends req req' [] /\ rep' = rep
    end).
  { rewrite Hc. apply Hskip; try by destruct v. - intros i Hi. destruct v; simpl. apply elem_of_app. by left. - by eapply rollback_extends. }
  destruct verdict as [[]|[]]; try exact Hgo.
  - intros [= <- <- <- <- <-]. split_and!; try by destruct v. { by left. }
    right; left. exists k. split; [done|]. destruct v; simpl. apply elem_of_app. right. by left.
  - intros [= <- <- <- <- <-]. split_and!; try done; [by left|]. right; right. by exists k.
Qed.

(** No plane is both accepted and refused. *)
Definition verdicts_ok (v : Verdicts) : Prop := forall i, i ∈ canvas_proven_planes_ v -> i ∉ canvas_rejected_planes_ v.

Lemma prove_ok i v : verdicts_ok v -> i ∉ canvas_rejected_planes_ v -> verdicts_ok (v {{ canvas_proven_planes_ ::= fun l => l ++ [i] }}).
Proof. intros Hv Hi j. destruct v; unfold verdicts_ok in *; simpl in *. rewrite elem_of_app, list_elem_of_singleton. intros [Hj| ->]; auto. Qed.
Lemma reject_ok i v : verdicts_ok v -> i ∉ canvas_proven_planes_ v -> verdicts_ok (v {{ canvas_rejected_planes_ ::= fun l => l ++ [i] }}).
Proof.
  intros Hv Hi j. destruct v; unfold verdicts_ok in *; simpl in *. rewrite elem_of_app, list_elem_of_singleton.
  intros Hj [Hr| ->]; [by eapply Hv|done].
Qed.

(** The first candidate not refused is one the kernel accepted. *)
Definition leads (candidates : list PlaneCapabilities) (v : Verdicts) : Prop :=
  exists pre p post, candidates = pre ++ p :: post /\ id p ∈ canvas_proven_planes_ v /\
    forall q, q ∈ pre -> id q ∈ canvas_rejected_planes_ v.

Lemma leads_skip p ps v : id p ∈ canvas_rejected_planes_ v -> leads ps v -> leads (p :: ps) v.
Proof.
  intros Hp (pre & q & post & -> & Hq & Hall). exists (p :: pre), q, post. split_and!; [done..|].
  intros x [->|Hx]%elem_of_cons; auto.
Qed.

Lemma leads_here p ps v : id p ∈ canvas_proven_planes_ v -> leads (p :: ps) v.
Proof. intros Hp. exists [], p, ps. split; [done|]. split; [done|]. by intros ? ?%not_elem_of_nil. Qed.

Lemma feasible_loop_spec candidates req rep v k ok req' rep' v' k' :
  verdicts_ok v -> feasible_loop c zpos flags candidates req rep v k = (ok, req', rep', v', k') ->
  extends req req' [] /\ rep' = rep /\ verdicts_ok v' /\
  canvas_testing_ v' = canvas_testing_ v /\ canvas_verdict_natives_ v' = canvas_verdict_natives_ v /\
  (forall i, i ∈ canvas_rejected_planes_ v -> i ∈ canvas_rejected_planes_ v') /\
  (ok = true -> leads candidates v' \/ exists reqt kt, test_request reqt flags kt = (Unexp EACCES, k')) /\
  (ok = false -> forall p, p ∈ candidates -> id p ∈ canvas_rejected_planes_ v').
Proof.
  revert req v k. induction candidates as [|p ps IH]; intros req v k Hv; cbn [feasible_loop].
  { intros [= <- <- <- <- <-]. split_and!; try done; [apply extends_refl|]. by intros _ ? ?%not_elem_of_nil. }
  assert (Hskip : forall v0 req0 k0, verdicts_ok v0 -> canvas_testing_ v0 = canvas_testing_ v -> canvas_verdict_natives_ v0 = canvas_verdict_natives_ v ->
    (forall i, i ∈ canvas_rejected_planes_ v -> i ∈ canvas_rejected_planes_ v0) -> id p ∈ canvas_rejected_planes_ v0 ->
    extends req req0 [] -> feasible_loop c zpos flags ps req0 rep v0 k0 = (ok, req', rep', v', k') ->
    extends req req' [] /\ rep' = rep /\ verdicts_ok v' /\
    canvas_testing_ v' = canvas_testing_ v /\ canvas_verdict_natives_ v' = canvas_verdict_natives_ v /\
    (forall i, i ∈ canvas_rejected_planes_ v -> i ∈ canvas_rejected_planes_ v') /\
    (ok = true -> leads (p :: ps) v' \/ exists reqt kt, test_request reqt flags kt = (Unexp EACCES, k')) /\
    (ok = false -> forall q, q ∈ p :: ps -> id q ∈ canvas_rejected_planes_ v')).
  { intros v0 req0 k0 Hv0 Ht Hn Hr Hp He (H1 & H2 & H3 & H4 & H5 & H6 & H7 & H8)%IH; [|done]. split_and!.
    - by eapply extends_more. - done. - done. - congruence. - congruence. - auto.
    - intros Hok. destruct (H7 Hok) as [Hl|Hl]; [left|by right]. apply leads_skip; auto.
    - intros Hok q [->|Hq]%elem_of_cons; auto. }
  case_bool_decide as Hprov.
  { intros [= <- <- <- <- <-]. split_and!; try done; [apply extends_refl|]. intros _. left. by apply leads_here. }
  case_bool_decide as Hrej; [apply Hskip; try done; apply extends_refl|].
  destruct (arm_composition_canvas c p zpos req rep) as [[r req1] rep1] eqn:Ea.
  apply arm_canvas_spec in Ea as (added & He & _). apply rollback_extends in He.
  destruct (match r with Val _ => test_request req1 flags k | Unexp _ => (Unexp EINVAL, k) end) as [verdict k1] eqn:Et.
  assert (Hgo : feasible_loop c zpos flags ps (rollback (cursor req) req1) rep
                  (v {{ canvas_rejected_planes_ ::= fun l => l ++ [id p] }}) k1 = (ok, req', rep', v', k') ->
    extends req req' [] /\ rep' = rep /\ verdicts_ok v' /\
    canvas_testing_ v' = canvas_testing_ v /\ canvas_verdict_natives_ v' = canvas_verdict_natives_ v /\
    (forall i, i ∈ canvas_rejected_planes_ v -> i ∈ canvas_rejected_planes_ v') /\
    (ok = true -> leads (p :: ps) v' \/ exists reqt kt, test_request reqt flags kt = (Unexp EACCES, k')) /\
    (ok = false -> forall q, q ∈ p :: ps -> id q ∈ canvas_rejected_planes_ v')).
  { apply Hskip; [by apply reject_ok|by destruct v|by destruct v| | |done].
    - intros i Hi. destruct v; simpl in *. apply elem_of_app. by left.
    - destruct v; simpl in *. apply elem_of_app. right. by left. }
  destruct verdict as [[]|[]]; try exact Hgo.
  - intros [= <- <- <- <- <-]. split_and!; try done; try (by destruct v); [by apply prove_ok|].
    intros _. left. apply leads_here. destruct v; simpl. apply elem_of_app. right. by left.
  - intros [= <- <- <- <- <-]. split_and!; try done. intros _. right. destruct r as [[]|e]; [by exists req1, k|done].
Qed.
End Tested.
End Arm.

(** ** Moving native layers into the composition *)

(** The layer to move: its position. *)
Definition demotable (a : Acq) : bool :=
  let l := ac_planes a in
  negb (Layer.needs_composition_ l || negb (bool_decide (is_Some (Layer.assigned_plane_ l))) || Layer.pinned_ l ||
        Layer.externally_bound_ l || bool_decide (is_Some (ac_stream_pin a))).

Definition demotes_before (a b : nat * Acq) : bool :=
  let pa := Scoring.keep_priority (ac_planes a.2) in
  let pb := Scoring.keep_priority (ac_planes b.2) in
  if negb (pa =? pb) then pa <? pb
  else default 0 (zpos (ac_display b.2)) <? default 0 (zpos (ac_display a.2)).

Definition canvas_can_draw (force_cpu : bool) (a : Acq) : bool := (negb force_cpu && ac_exports a) || ac_maps a.

Definition pick_demotion (force_cpu : bool) (acqs : list Acq) : option nat :=
  let order := stable_sort demotes_before (filter (fun ia => demotable ia.2 = true) (imap pair acqs)) in
  fst <$> (snd <$> list_find (fun ia => canvas_can_draw force_cpu ia.2 = true) order).

(** What places a frame's layers - the allocator and the passes that arm their
    planes - as far as the loop around it goes. *)
Class Placement `{abi : DrmAbi} `{lib : Libdrm} (A : Type) := {
  place : list Acq -> AtomicRequest -> CommitReport -> A -> kernel ->
    expected unit * list Acq * AtomicRequest * CommitReport * A * kernel;
  invalidate_allocation : A -> A;
  canvas_view : A -> CanvasView;
  (** Layers come out in their order with their marks kept; one marked for the
      composition gets no plane; and the request only grows. *)
  place_marks : forall acqs req rep a k acqs' req' rep' a' k',
    place acqs req rep a k = (Val tt, acqs', req', rep', a', k') ->
    Forall2 (fun x y => Layer.transient_composited_ (ac_planes y) = Layer.transient_composited_ (ac_planes x)) acqs acqs' /\
    Forall (fun y => Layer.transient_composited_ (ac_planes y) = true ->
              Layer.needs_composition_ (ac_planes y) = true \/ Layer.assigned_plane_ (ac_planes y) = None) acqs';
  place_grows : forall acqs req rep a k r acqs' req' rep' a' k',
    place acqs req rep a k = (r, acqs', req', rep', a', k') -> exists added, extends req req' added
}.

Section Demote.
Context `{abi : DrmAbi} `{lib : Libdrm} {A : Type} `{pl : !Placement A}.
Context (props : PropertyStore) (crtc_id : Z) (make : Z -> option Canvas) (force_cpu : bool) (flags : Z).
(** The request's cursor and the report before the first round. *)
Context (frame_cursor : Z) (report_before : CommitReport).

Record Placed := mkPlaced {
  pd_result : expected unit;
  pd_acqs : list Acq;
  pd_req : AtomicRequest;
  pd_report : CommitReport;
  pd_verdicts : Verdicts;
  pd_canvas : option Canvas;
  pd_alloc : A;
  pd_kernel : kernel;
  pd_demoted : list nat;
  pd_feasible : bool
}.

(** The loop of [build_frame_into]; [None]: out of fuel. *)
Fixpoint demote_loop (fuel : nat) (acqs : list Acq) (req : AtomicRequest) (v : Verdicts) (canvas : option Canvas)
    (a : A) (k : kernel) (demoted : list nat) : option Placed :=
  match fuel with
  | O => None
  | S fuel =>
      let '(r, acqs1, req1, rep1, a1, k1) := place acqs req report_before a k in
      match r with
      | Unexp e => Some (mkPlaced (Unexp e) acqs1 req1 rep1 v canvas a1 k1 demoted false)
      | Val _ =>
          let '((ok, req2, rep2, v2, k2), canvas2) :=
            canvas_plane_feasible props crtc_id make (canvas_view a1) acqs1 flags req1 rep1 v canvas k1 in
          if ok then Some (mkPlaced (Val tt) acqs1 req2 rep2 v2 canvas2 a1 k2 demoted true)
          else
            match pick_demotion force_cpu acqs1 with
            | None => Some (mkPlaced (Val tt) acqs1 req2 rep2 v2 canvas2 a1 k2 demoted false)
            | Some i =>
                let acqs2 := alter (fun x => x {{ ac_planes ::= Layer.set_transient_composited true }}) i acqs1 in
                demote_loop fuel acqs2 (rollback frame_cursor req2) v2 canvas2 (invalidate_allocation a1) k2 (demoted ++ [i])
            end
      end
  end.

(** ** The loop ends *)

Definition unmarked (acqs : list Acq) : list nat :=
  fst <$> filter (fun ia => Layer.transient_composited_ (ac_planes ia.2) = false) (imap pair acqs).

#[export] Instance demotes_before_strict_weak : StrictWeak demotes_before.
Proof.
  split; intros *; unfold demotes_before;
    repeat match goal with
    | |- context [?x =? ?y] => destruct (Z.eqb_spec x y); simpl
    | |- context [?x <? ?y] => destruct (Z.ltb_spec x y)
    end; intros; try done; lia.
Qed.

(** The victim is native, the canvas can draw it, and none that it can draw
    has a lower priority, or the same and lies above. *)
Lemma pick_demotion_spec acqs i :
  pick_demotion force_cpu acqs = Some i ->
  exists a, acqs !! i = Some a /\ demotable a = true /\ canvas_can_draw force_cpu a = true /\
    forall j b, acqs !! j = Some b -> demotable b = true -> canvas_can_draw force_cpu b = true -> demotes_before (j, b) (i, a) = false.
Proof.
  unfold pick_demotion. cbv zeta. set (cands := filter _ _).
  destruct (list_find _ _) as [[n [i' a]]|] eqn:Ef; simpl; [|done]. intros [= ->].
  apply list_find_Some in Ef as (Hn & Hd & Hfirst). simpl in Hd.
  assert (Hin : forall j b, (j, b) ∈ cands <-> acqs !! j = Some b /\ demotable b = true).
  { intros j b. unfold cands. rewrite list_elem_of_filter. simpl. split.
    - intros [Hd' (m & Hm)%list_elem_of_lookup]. rewrite list_lookup_imap in Hm. destruct (acqs !! m) eqn:E; simpl in Hm; [|done]. by injection Hm as -> ->.
    - intros [Hj Hd']. split; [done|]. apply (list_elem_of_lookup_2 _ j). by rewrite list_lookup_imap, Hj. }
  pose proof (list_elem_of_lookup_2 _ _ _ Hn) as Ha. rewrite stable_sort_perm in Ha.
  apply Hin in Ha as [Ha Hda]. exists a. split_and!; [done..|]. intros j b Hj Hdb Hcb.
  assert (Hb : (j, b) ∈ stable_sort demotes_before cands) by (rewrite stable_sort_perm; by apply Hin).
  apply list_elem_of_lookup in Hb as [m Hm].
  destruct (lt_eq_lt_dec m n) as [[Hlt| ->]|Hgt].
  - by destruct (Hfirst m _ Hm Hlt).
  - rewrite Hn in Hm. injection Hm as -> ->. destruct (demotes_before (j, b) (j, b)) eqn:E; [|done]. by rewrite (sw_asym _ _ E) in E.
  - exact (sorted_lookup _ _ _ _ _ _ (stable_sort_sorted demotes_before cands) Hn Hm Hgt).
Qed.

Lemma elem_of_unmarked acqs i :
  i ∈ unmarked acqs <-> exists a, acqs !! i = Some a /\ Layer.transient_composited_ (ac_planes a) = false.
Proof.
  unfold unmarked. rewrite list_elem_of_fmap. split.
  - intros ([j a] & -> & [Ht (m & Hm)%list_elem_of_lookup]%list_elem_of_filter). rewrite list_lookup_imap in Hm.
    destruct (acqs !! m) eqn:E; simpl in Hm; [|done]. injection Hm as -> ->. simpl. eauto.
  - intros (a & Ha & Ht). exists (i, a). split; [done|]. apply list_elem_of_filter. split; [done|].
    apply (list_elem_of_lookup_2 _ i). by rewrite list_lookup_imap, Ha.
Qed.

Lemma unmarked_nodup acqs : NoDup (unmarked acqs).
Proof.
  unfold unmarked. apply NoDup_fmap_filter.
  assert (H : (imap pair acqs).*1 = seq 0 (length acqs)).
  { apply list_eq. intros i. rewrite list_lookup_fmap, list_lookup_imap. destruct (acqs !! i) eqn:E; simpl.
    - rewrite lookup_seq_lt; [done|]. by eapply lookup_lt_Some.
    - symmetry. apply lookup_seq_ge. by apply lookup_ge_None. }
  rewrite H. apply NoDup_seq.
Qed.

Lemma note_natives_ok natives v : verdicts_ok v -> verdicts_ok (note_natives natives v).
Proof. intros Hv. unfold note_natives. case_bool_decide; [done|]. intros i. by intros ?%not_elem_of_nil. Qed.

Lemma feasible_spec view acqs req rep v canvas k ok req' rep' v' k' canvas' :
  verdicts_ok v ->
  canvas_plane_feasible props crtc_id make view acqs flags req rep v canvas k = ((ok, req', rep', v', k'), canvas') ->
  extends req req' [] /\ rep' = rep /\ verdicts_ok v' /\
  (forall c, canvas = Some c -> canvas' = Some c) /\
  (forall c planes, canvas = Some c -> ok = true -> composites acqs = true -> canvas_testing_ v' = true -> Atomic.valid req = true ->
     cw_planes view = Some planes -> cv_armable c = true -> cv_fb_id c <> 0 ->
     let candidates := canvas_plane_candidates planes canvas (cw_last_canvas_plane view) (cw_allocator_canvas_plane view) acqs in
     candidates <> [] ->
     leads candidates v' \/ exists reqt kt, test_request reqt flags kt = (Unexp EACCES, k')).
Proof.
  intros Hv. pose proof (note_natives_ok (native_planes acqs) v Hv) as Hn. unfold canvas_plane_feasible. cbv zeta.
  set (v1 := note_natives (native_planes acqs) v) in *.
  destruct (composites acqs) eqn:Ec; simpl.
  2: { intros [= <- <- <- <- <- <-]. split_and!; try done. apply extends_refl. }
  destruct (canvas_testing_ v1) eqn:Et; simpl.
  2: { intros [= <- <- <- <- <- <-]. split_and!; try done; [apply extends_refl|]. intros. congruence. }
  destruct (Atomic.valid req) eqn:Evr; simpl.
  2: { intros [= <- <- <- <- <- <-]. split_and!; try done. apply extends_refl. }
  destruct (cw_planes view) as [planes|] eqn:Ep.
  2: { intros [= <- <- <- <- <- <-]. split_and!; try done. apply extends_refl. }
  destruct (canvas_plane_candidates _ _ _ _ _) as [|front rest] eqn:Ecand.
  { intros [= <- <- <- <- <- <-]. split_and!; try done; [apply extends_refl|]. intros c planes' _ _ _ _ _ [= <-] _ _. by rewrite Ecand. }
  destruct (ensure_composition_canvas make front canvas) as [c|] eqn:Een.
  2: { intros [= <- <- <- <- <- <-]. split_and!; try done; [apply extends_refl|by intros c ->|by intros c ? ->]. }
  destruct (negb (cv_armable c) || (cv_fb_id c =? 0)) eqn:Ea.
  { intros [= <- <- <- <- <- <-]. split_and!; try done; [apply extends_refl|by intros c' ->|].
    intros c' planes' -> _ _ _ _ _ Har Hfb. simpl in Een. injection Een as <-. rewrite Har in Ea. simpl in Ea. by apply Z.eqb_eq in Ea. }
  destruct (feasible_loop _ _ _ _ _ _ _ _ _ _) as [[[[ok0 req0] rep0] v0] k0] eqn:Ef.
  intros [= <- <- <- <- <- <-]. apply feasible_loop_spec in Ef as (H1 & H2 & H3 & _ & _ & _ & H7 & _); [|done].
  split_and!; [done..|by intros c' ->|]. intros c' planes' _ Hok _ _ _ [= <-] _ _ _. rewrite Ecand. by apply H7.
Qed.

Lemma feasible_false_composites view acqs req rep v canvas k req' rep' v' k' canvas' :
  canvas_plane_feasible props crtc_id make view acqs flags req rep v canvas k = ((false, req', rep', v', k'), canvas') ->
  composites acqs = true.
Proof. unfold canvas_plane_feasible. cbv zeta. by destruct (composites acqs). Qed.

(** The marks of a round's layers. *)
Definition marks (acqs : list Acq) : list bool := (fun a => Layer.transient_composited_ (ac_planes a)) <$> acqs.

Lemma unmarked_marks acqs i : i ∈ unmarked acqs <-> marks acqs !! i = Some false.
Proof.
  rewrite elem_of_unmarked. unfold marks. rewrite list_lookup_fmap. destruct (acqs !! i) as [a|]; simpl; [|naive_solver].
  split; [intros (? & [= <-] & ->); done|intros [= Ht]; eauto].
Qed.

Lemma mark_transient (l : Layer.Layer) : Layer.transient_composited_ (Layer.set_transient_composited true l) = true.
Proof. unfold Layer.set_transient_composited. case_bool_decide as Ht; simpl; [done|by destruct l]. Qed.

Definition mark (i : nat) (acqs : list Acq) : list Acq :=
  alter (fun x => x {{ ac_planes ::= Layer.set_transient_composited true }}) i acqs.

Lemma marks_mark i acqs j : marks (mark i acqs) !! j = if decide (i = j) then (fun _ => true) <$> marks acqs !! j else marks acqs !! j.
Proof.
  unfold marks, mark. rewrite !list_lookup_fmap. case_decide as Hij; [subst j|].
  - rewrite list_lookup_alter_eq. destruct (acqs !! i); simpl; [|done]. by rewrite mark_transient.
  - by rewrite list_lookup_alter_ne.
Qed.

Lemma mark_shrinks i acqs : i ∈ unmarked acqs -> (length (unmarked (mark i acqs)) < length (unmarked acqs))%nat.
Proof.
  intros Hi. apply submseteq_length with (l1 := i :: unmarked (mark i acqs)). apply NoDup_submseteq.
  - apply NoDup_cons. split; [|apply unmarked_nodup]. rewrite unmarked_marks, marks_mark, decide_True by done.
    apply unmarked_marks in Hi. by rewrite Hi.
  - intros j [->|Hj]%elem_of_cons; [done|]. rewrite unmarked_marks, marks_mark in Hj. case_decide; [|by apply unmarked_marks].
    by destruct (marks acqs !! j).
Qed.

Lemma demotable_unmarked acqs i a :
  Forall (fun y => Layer.transient_composited_ (ac_planes y) = true ->
            Layer.needs_composition_ (ac_planes y) = true \/ Layer.assigned_plane_ (ac_planes y) = None) acqs ->
  acqs !! i = Some a -> demotable a = true -> i ∈ unmarked acqs.
Proof.
  intros Hf Ha Hd. apply elem_of_unmarked. exists a. split; [done|]. rewrite Forall_forall in Hf.
  specialize (Hf a (list_elem_of_lookup_2 _ _ _ Ha)). destruct (Layer.transient_composited_ (ac_planes a)); [|done].
  unfold demotable in Hd. destruct (Hf eq_refl) as [Hn|Hn]; rewrite Hn in Hd; simpl in Hd; [done|].
  by destruct (Layer.needs_composition_ (ac_planes a)).
Qed.

(** The last round of the loop, and why it is the last. *)
Record settled (req0 : AtomicRequest) (canvas0 : option Canvas) (res : Placed) : Prop := mkSettled {
  st_verdicts : verdicts_ok (pd_verdicts res);
  st_grown : exists added, extends req0 (pd_req res) added;
  st_once : NoDup (pd_demoted res);
  st_round : pd_result res = Val tt -> exists acqsl reql al kl req1 rep1 k1 vl canvasl,
    extends req0 reql [] /\ verdicts_ok vl /\ (forall c, canvas0 = Some c -> canvasl = Some c) /\
    place acqsl reql report_before al kl = (Val tt, pd_acqs res, req1, rep1, pd_alloc res, k1) /\
    canvas_plane_feasible props crtc_id make (canvas_view (pd_alloc res)) (pd_acqs res) flags req1 rep1 vl canvasl k1 =
      ((pd_feasible res, pd_req res, pd_report res, pd_verdicts res, pd_kernel res), pd_canvas res) /\
    (pd_feasible res = false -> pick_demotion force_cpu (pd_acqs res) = None) /\
    forall i, i ∈ pd_demoted res -> exists x, pd_acqs res !! i = Some x /\
      (Layer.needs_composition_ (ac_planes x) = true \/ Layer.assigned_plane_ (ac_planes x) = None)
}.

Lemma place_marks_same acqs req rep a k acqs' req' rep' a' k' :
  place acqs req rep a k = (Val tt, acqs', req', rep', a', k') -> marks acqs' = marks acqs.
Proof.
  intros [Hf _]%place_marks. unfold marks. induction Hf as [|x y l l' Hxy _ IH]; [done|]. csimpl. by rewrite Hxy, IH.
Qed.

Lemma demote_loop_settles fuel req0 canvas0 acqs req v canvas a k demoted :
  frame_cursor = cursor req0 -> (forall c, canvas0 = Some c -> canvas = Some c) -> extends req0 req [] -> verdicts_ok v ->
  (length (unmarked acqs) < fuel)%nat -> NoDup demoted -> (forall i, i ∈ demoted -> marks acqs !! i = Some true) ->
  exists res, demote_loop fuel acqs req v canvas a k demoted = Some res /\ settled req0 canvas0 res.
Proof.
  intros Hcur. revert acqs req v canvas a k demoted.
  induction fuel as [|fuel IH]; intros acqs req v canvas a k demoted Hc0 He Hv Hlt Hnd Hm; [lia|]. cbn [demote_loop].
  destruct (place acqs req report_before a k) as [[[[[r acqs1] req1] rep1] a1] k1] eqn:Ep.
  destruct (place_grows _ _ _ _ _ _ _ _ _ _ _ Ep) as [added Hadd].
  destruct r as [[]|e].
  2: { eexists. split; [done|]. split; simpl; try done. exists added. by eapply extends_more. }
  destruct (canvas_plane_feasible _ _ _ _ _ _ _ _ _ _ _) as [[[[[ok req2] rep2] v2] k2] canvas2] eqn:Ef.
  pose proof (feasible_spec _ _ _ _ _ _ _ _ _ _ _ _ _ Hv Ef) as (Hext & -> & Hv2 & Hc2 & _).
  assert (Hreq2 : extends req0 req2 added).
  { eapply extends_more; [exact He|]. pose proof (extends_trans _ _ _ _ _ Hadd Hext) as H. by rewrite app_nil_r in H. }
  pose proof (place_marks_same _ _ _ _ _ _ _ _ _ _ Ep) as Hmk. destruct (place_marks _ _ _ _ _ _ _ _ _ _ Ep) as [_ Hskip].
  assert (Hcarried : forall i, i ∈ demoted -> exists x, acqs1 !! i = Some x /\
    (Layer.needs_composition_ (ac_planes x) = true \/ Layer.assigned_plane_ (ac_planes x) = None)).
  { intros i Hi. specialize (Hm i Hi). rewrite <- Hmk in Hm. unfold marks in Hm. rewrite list_lookup_fmap in Hm.
    destruct (acqs1 !! i) as [x|] eqn:Ex; simpl in Hm; [|done]. injection Hm as Ht. exists x. split; [done|].
    rewrite Forall_forall in Hskip. by apply (Hskip x (list_elem_of_lookup_2 _ _ _ Ex)). }
  assert (Hend : forall feas, feas = ok -> (feas = false -> pick_demotion force_cpu acqs1 = None) ->
    settled req0 canvas0 (mkPlaced (Val tt) acqs1 req2 rep1 v2 canvas2 a1 k2 demoted feas)).
  { intros feas -> Hp. split; simpl; [done|by exists added|done|]. intros _.
    exists acqs, req, a, k, req1, rep1, k1, v, canvas. split_and!; done. }
  destruct ok.
  { eexists. split; [done|]. by apply Hend. }
  destruct (pick_demotion force_cpu acqs1) as [i|] eqn:Epd.
  2: { eexists. split; [done|]. by apply Hend. }
  destruct (pick_demotion_spec _ _ Epd) as (x & Hx & Hd & _ & _).
  pose proof (demotable_unmarked _ _ _ Hskip Hx Hd) as Hun.
  assert (Hlen : (length (unmarked acqs1) <= length (unmarked acqs))%nat).
  { apply submseteq_length, NoDup_submseteq; [apply unmarked_nodup|]. intros j Hj. apply unmarked_marks in Hj. apply unmarked_marks. by rewrite <- Hmk. }
  destruct (IH (mark i acqs1) (rollback frame_cursor req2) v2 canvas2 (invalidate_allocation a1) k2 (demoted ++ [i])) as (res & Hres & Hst).
  - intros c Hc. by apply Hc2, Hc0.
  - rewrite Hcur. by eapply rollback_extends.
  - done.
  - pose proof (mark_shrinks i acqs1 Hun). lia.
  - apply NoDup_app. split_and!; [done| |apply NoDup_singleton]. intros j Hj ->%list_elem_of_singleton.
    specialize (Hm i Hj). apply unmarked_marks in Hun. congruence.
  - intros j Hj. rewrite marks_mark. case_decide as Hij.
    + subst j. apply unmarked_marks in Hun. by rewrite Hun.
    + rewrite Hmk. apply elem_of_app in Hj as [Hj| ->%list_elem_of_singleton]; [by apply Hm|done].
  - exists res. split; [exact Hres|done].
Qed.
End Demote.

(** A canvas goes on the plane that leads, without another TEST. *)
Lemma arm_leads `{abi : DrmAbi} `{lib : Libdrm} props crtc_id c zpos flags candidates req rep v k :
  (forall r wr, 0 <= (drmModeAtomicAddProperty r wr).1) -> is_Some (req_ req) ->
  verdicts_ok v -> leads candidates v ->
  exists p req1 rep1, arm_loop props crtc_id c zpos flags candidates req rep v k = (Some p, req1, rep1, v, k) /\
    p ∈ candidates /\ id p ∈ canvas_proven_planes_ v /\ extends req req1 (canvas_on props crtc_id c zpos p).
Proof.
  intros Hadds Hlive Hv (pre & p & post & -> & Hp & Hpre).
  assert (Hrun : forall plane ws req rep, is_Some (req_ req) -> exists req' rep', run_writes props plane ws req rep = (Val tt, req', rep')).
  { intros plane ws. induction ws as [|w ws IH]; intros r0 rep0 Hl; cbn [run_writes]; [eauto|].
    destruct (write_target props plane w) as [wr|]; [|by apply IH].
    unfold add_property. destruct (req_ r0) as [q|] eqn:Eq; [|by destruct Hl]. specialize (Hadds q (mkWrite (w_object wr) (w_property wr) (w_value wr))).
    destruct (drmModeAtomicAddProperty q _) as [ret q']. simpl in Hadds. rewrite (proj2 (Z.ltb_ge _ _)) by done. apply IH. simpl. eauto. }
  induction pre as [|q pre IH]; cbn [app arm_loop].
  - rewrite bool_decide_eq_false_2 by (by apply Hv).
    destruct (Hrun (id p) (canvas_writes crtc_id c p zpos) req rep Hlive) as (req1 & rep1 & Hr). unfold arm_composition_canvas. rewrite Hr.
    rewrite bool_decide_eq_true_2 by done. exists p, req1, rep1. split_and!; [done|by left|done|].
    apply run_writes_spec in Hr as (added & He & _ & Ha & _). by rewrite (Ha eq_refl) in He.
  - rewrite bool_decide_eq_true_2 by (apply Hpre; by left).
    destruct IH as (p' & req1 & rep1 & Hr & Hin & Hpr & He); [intros; apply Hpre; by right|].
    exists p', req1, rep1. split_and!; [exact Hr|by right|done|done].
Qed.


(** ** A controller that lights two planes *)

Section TwoPlanes.
#[local] Existing Instance linux_abi.

(** Three planes are advertised, on plane property 17 for their framebuffer. *)
Definition lit (ws : list Write) : nat := length (filter (fun w => w_property w = 17) ws).
#[local] Instance two_libdrm : Libdrm := list_libdrm (fun ws _ => if (2 <? lit ws)%nat then 22 else 0).

Definition three_planes : list PlaneCapabilities :=
  (fun i => default_caps {{ id := i; formats := [DRM_FORMAT XRGB8888] }}) <$> [31; 32; 33].
Definition fb_props : PropertyStore := list_to_map ((fun i => (i, [mkInfo 17 "FB_ID" 0 0; mkInfo 18 "CRTC_ID" 0 0])) <$> [31; 32; 33]).

(** Planes in order to the layers that may have one. *)
Fixpoint place_in_turn (planes : list Z) (acqs : list Acq) (req : AtomicRequest) : list Acq * AtomicRequest :=
  match acqs with
  | [] => ([], req)
  | a :: rest =>
      match Layer.transient_composited_ (ac_planes a), planes with
      | false, p :: planes =>
          let '(out, req) := place_in_turn planes rest (add_property p 17 (ab_fb_id (ac_buffer a)) req).2 in
          (a {{ ac_planes ::= fun l => Layer.set_assigned_plane (Some p) (Layer.set_needs_composition false l) }} :: out, req)
      | _, _ =>
          let '(out, req) := place_in_turn planes rest req in
          (a {{ ac_planes ::= fun l => Layer.set_assigned_plane None (Layer.set_needs_composition true l) }} :: out, req)
      end
  end.

Lemma place_in_turn_spec planes acqs req :
  let r := place_in_turn planes acqs req in
  Forall2 (fun x y => Layer.transient_composited_ (ac_planes y) = Layer.transient_composited_ (ac_planes x)) acqs r.1 /\
  Forall (fun y => Layer.transient_composited_ (ac_planes y) = true ->
            Layer.needs_composition_ (ac_planes y) = true \/ Layer.assigned_plane_ (ac_planes y) = None) r.1 /\
  exists added, extends req r.2 added.
Proof.
  revert planes req. induction acqs as [|a rest IH]; intros planes req; cbn [place_in_turn].
  { split_and!; [constructor|constructor|exists []; apply extends_refl]. }
  assert (Hno : let r := (let '(out, req) := place_in_turn planes rest req in
      (a {{ ac_planes ::= fun l => Layer.set_assigned_plane None (Layer.set_needs_composition true l) }} :: out, req)) in
    Forall2 (fun x y => Layer.transient_composited_ (ac_planes y) = Layer.transient_composited_ (ac_planes x)) (a :: rest) r.1 /\
    Forall (fun y => Layer.transient_composited_ (ac_planes y) = true ->
              Layer.needs_composition_ (ac_planes y) = true \/ Layer.assigned_plane_ (ac_planes y) = None) r.1 /\
    exists added, extends req r.2 added).
  { specialize (IH planes req). destruct (place_in_turn planes rest req) as [out req'] eqn:E. destruct IH as (H1 & H2 & H3).
    split_and!; [constructor; [by destruct a|done]|constructor; [|done]|done]. intros _. left. by destruct a. }
  destruct (Layer.transient_composited_ (ac_planes a)) eqn:Et; [exact Hno|]. destruct planes as [|p planes]; [exact Hno|]. clear Hno.
  destruct (add_property p 17 _ req) as [res req1] eqn:Ea. apply add_property_extends in Ea. simpl.
  specialize (IH planes req1). destruct (place_in_turn planes rest req1) as [out req'] eqn:E. destruct IH as (H1 & H2 & added & H3).
  split_and!; simpl; [constructor; [by destruct a|done]|constructor; [|done]|eexists; by eapply extends_trans].
  intros Ht. exfalso. destruct a as [? l]. cbn in Et, Ht. by destruct l; simpl in *; rewrite Et in Ht.
Qed.

#[local] Instance in_turn : Placement unit.
Proof.
  refine {| place := fun acqs req rep a k => let '(acqs', req') := place_in_turn [31; 32; 33] acqs req in (Val tt, acqs', req', rep, a, k);
            invalidate_allocation := fun a => a;
            canvas_view := fun _ => mkCanvasView (Some three_planes) None None None [] None |}.
  - intros acqs req rep a k acqs' req' rep' a' k'. pose proof (place_in_turn_spec [31; 32; 33] acqs req) as Hs.
    destruct (place_in_turn _ _ _) as [out r]. intros [= <- _ _ _ _]. split; apply Hs.
  - intros acqs req rep a k r acqs' req' rep' a' k'. pose proof (place_in_turn_spec [31; 32; 33] acqs req) as Hs.
    destruct (place_in_turn _ _ _) as [out r']. intros [= _ _ <- _ _ _]. apply Hs.
Defined.

Definition drawn (z : option Z) (composited : bool) : Acq :=
  let a := lower_sample Layer.new_layer z in if composited then a {{ ac_planes ::= Layer.set_transient_composited true }} else a.
(** A layer the composition draws, and two on planes: three would be lit. *)
Definition crowded : list Acq := [drawn (Some 1) true; drawn (Some 2) false; drawn (Some 3) false].
Definition the_canvas : Canvas := mkCanvas (DRM_FORMAT XRGB8888) 100 100 7 true.
Definition settled_frame : option Placed :=
  demote_loop fb_props 40 (fun _ => None) false 0 (cursor (new_request 3)) empty_report (S (length crowded))
    crowded (new_request 3) no_verdicts (Some the_canvas) tt (0 : kernel) [].

End TwoPlanes.
