(* ===== verification/ScenePlanes.v ===== *)
(** What a build writes on the planes the layers got, beside their placement:
    blend mode and colour coding, acquire fences, damage clips and the AMD
    colour pipeline (the [arm_layer_*] functions of
    [src/scene/layer_scene.cpp]), with the property blobs they make. *)
From S2P Require Import Prelude DrmAbi PlaneRegistry PropertyStore Atomic RingPresenter BufferSource SceneLayer SceneLower SceneCanvas.
From S2P Require Layer SceneSignals.

(** ** Property blobs *)

Inductive BlobData := Clips (rects : list (Z * Z * Z * Z)) | Lut (entries : list ColorLutEntry) | Words (words : list Z).

Class PropertyBlobs := {
  blobs : Type;
  (** The blobs alive, with what they hold. *)
  alive : blobs -> gmap Z BlobData;
  drmModeCreatePropertyBlob : BlobData -> blobs -> expected Z * blobs;
  drmModeDestroyPropertyBlob : Z -> blobs -> blobs;
  create_makes : forall data b i b', drmModeCreatePropertyBlob data b = (Val i, b') ->
    i <> 0 /\ alive b !! i = None /\ alive b' = <[i := data]> (alive b);
  create_fails : forall data b e b', drmModeCreatePropertyBlob data b = (Unexp e, b') -> alive b' = alive b;
  destroy_drops : forall i b, alive (drmModeDestroyPropertyBlob i b) = delete i (alive b)
}.

(** ** What was last written *)

Record PlaneStickyProps := mkSticky { pixel_blend_mode : option Z; st_color_encoding : option Z; st_color_range : option Z }.
Definition no_sticky : PlaneStickyProps := mkSticky None None None.

Inductive Setting := BlendMode | Encoding | Range.
#[global] Instance Setting_eq_dec : EqDecision Setting.
Proof. solve_decision. Defined.

Definition setting_name (f : Setting) : string :=
  match f with BlendMode => "pixel blend mode" | Encoding => "COLOR_ENCODING" | Range => "COLOR_RANGE" end.
Definition remembered (f : Setting) (s : PlaneStickyProps) : option Z :=
  match f with BlendMode => pixel_blend_mode s | Encoding => st_color_encoding s | Range => st_color_range s end.
Definition remember (f : Setting) (v : Z) (s : PlaneStickyProps) : PlaneStickyProps :=
  match f with
  | BlendMode => s {{ pixel_blend_mode := Some v }}
  | Encoding => s {{ st_color_encoding := Some v }}
  | Range => s {{ st_color_range := Some v }}
  end.
Definition sticky_of (m : gmap Z PlaneStickyProps) (plane : Z) : PlaneStickyProps := default no_sticky (m !! plane).

Section Passes.
Context `{abi : DrmAbi} `{kms : Kms} `{lib : Libdrm} `{pb : PropertyBlobs}.
(** The CRTC's planes, where its index is known, and the property cache. *)
Context (planes : option (list PlaneCapabilities)) (props : PropertyStore).

Record Passes := mkPasses {
  ps_req : AtomicRequest;
  ps_report : CommitReport;
  sticky_props_ : gmap Z PlaneStickyProps;
  ps_blobs : blobs;
  ephemeral_blobs_ : list Z;
  (** The fences waited for on the CPU. *)
  ps_waits : list SyncFence
}.
Implicit Types (ps : Passes) (a : Acq).

Definition Step : Type := Passes -> expected unit * Passes.
Definition ok : Step := fun ps => (Val tt, ps).

(** Steps in order, up to the first that fails. *)
Fixpoint run_steps (steps : list Step) : Step := fun ps =>
  match steps with
  | [] => (Val tt, ps)
  | f :: rest => match f ps with (Unexp e, ps) => (Unexp e, ps) | (Val _, ps) => run_steps rest ps end
  end.

Definition count_write (extra : CommitReport -> CommitReport) (r : CommitReport) : CommitReport := extra (r {{ properties_written ::= S }}).

(** One write, counted where it was added. *)
Definition write (plane prop val : Z) (extra : CommitReport -> CommitReport) : Step := fun ps =>
  match add_property plane prop val (ps_req ps) with
  | (Unexp e, req) => (Unexp e, ps {{ ps_req := req }})
  | (Val _, req) => (Val tt, ps {{ ps_req := req; ps_report ::= count_write extra }})
  end.

Definition plane_caps_for (plane_id : Z) (l : list PlaneCapabilities) : option PlaneCapabilities :=
  snd <$> list_find (fun p => id p = plane_id) l.

(** The plane of a layer, or the one its stream is bound to. *)
Definition native_plane a : option Z :=
  match Layer.assigned_plane_ (ac_planes a) with Some p => Some p | None => ac_stream_pin a end.

(** ** Blend mode and colour coding *)

(** [sticky_props_[plane]] makes the entry. *)
Definition touch (plane : Z) ps : Passes := ps {{ sticky_props_ ::= fun m => <[plane := sticky_of m plane]> m }}.

(** A setting written unless it is the one remembered; a refused addition is
    passed over. *)
Definition write_sticky (test_only : bool) (plane : Z) (f : Setting) (value : Z) ps : Passes :=
  match property_id plane (setting_name f) props with
  | Unexp _ => ps
  | Val prop =>
      if value_or_false (is_immutable plane (setting_name f) props) then ps
      else
        let ps := touch plane ps in
        if bool_decide (remembered f (sticky_of (sticky_props_ ps) plane) = Some value) then ps
        else
          match write plane prop value (fun r => r) ps with
          | (Unexp _, ps) => ps
          | (Val _, ps) =>
              if test_only then ps
              else ps {{ sticky_props_ ::= fun m => <[plane := remember f value (sticky_of m plane)]> m }}
          end
  end.

Definition arm_blend_one (test_only : bool) (l : list PlaneCapabilities) ps a : Passes :=
  match native_plane a with
  | None => ps
  | Some p =>
      match plane_caps_for p l with
      | None => ps
      | Some caps => match blend_mode_premultiplied caps with
                     | None => ps
                     | Some v => write_sticky test_only p BlendMode v ps
                     end
      end
  end.
Definition arm_layer_plane_blend_defaults (test_only : bool) (acqs : list Acq) ps : Passes :=
  match planes with None => ps | Some l => foldl (arm_blend_one test_only l) ps acqs end.

(** The first that is set. *)
Definition or_else (o o' : option Z) : option Z := match o with Some v => Some v | None => o' end.

Definition encoding_value (caps : PlaneCapabilities) (d : DisplayParams) : option Z :=
  let raw := match default BT_709 (color_encoding d) with
             | BT_601 => color_encoding_bt601 caps
             | BT_709 => color_encoding_bt709 caps
             | BT_2020 => color_encoding_bt2020 caps
             end in
  or_else raw (or_else (color_encoding_bt709 caps) (color_encoding_bt601 caps)).
Definition range_value (caps : PlaneCapabilities) (d : DisplayParams) : option Z :=
  let raw := match default Limited (color_range d) with
             | Limited => color_range_limited caps
             | Full => color_range_full caps
             end in
  or_else raw (or_else (color_range_limited caps) (color_range_full caps)).

(** [write_enum], its reference into [sticky_props_] made first. *)
Definition write_enum (test_only : bool) (plane : Z) (f : Setting) (value : option Z) ps : Passes :=
  match value with None => touch plane ps | Some v => write_sticky test_only plane f v (touch plane ps) end.

Definition arm_color_one (test_only : bool) (l : list PlaneCapabilities) ps a : Passes :=
  match native_plane a with
  | None => ps
  | Some p =>
      match plane_caps_for p l with
      | None => ps
      | Some caps =>
          let ps := if has_color_encoding caps then write_enum test_only p Encoding (encoding_value caps (ac_display a)) ps else ps in
          if has_color_range caps then write_enum test_only p Range (range_value caps (ac_display a)) ps else ps
      end
  end.
Definition arm_layer_plane_color_props (test_only : bool) (acqs : list Acq) ps : Passes :=
  match planes with None => ps | Some l => foldl (arm_color_one test_only l) ps acqs end.

(** ** Acquire fences *)

Definition arm_fence (test_only : bool) a : Step := fun ps =>
  match ab_fence (ac_buffer a), Layer.assigned_plane_ (ac_planes a) with
  | Some f, Some plane =>
      match property_id plane "IN_FENCE_FD" props, value_or_false (is_immutable plane "IN_FENCE_FD" props) with
      | Val prop, false => write plane prop (u64 (fence_fd f)) (fun r => r {{ in_fences_armed ::= S }}) ps
      | _, _ =>
          if test_only then (Val tt, ps)
          else (Val tt, ps {{ ps_report ::= fun r => r {{ in_fence_cpu_waits ::= S }}; ps_waits ::= fun l => l ++ [f] }})
      end
  | _, _ => (Val tt, ps)
  end.
Definition arm_layer_acquire_fences (test_only : bool) (acqs : list Acq) : Step := run_steps (arm_fence test_only <$> acqs).

(** ** Damage clips *)

Definition k_max_damage_rects : nat := 16.

(** The clip of one rectangle in a buffer, [x1, y1, x2, y2]. *)
Definition clip_damage (fmt : SourceFormat) (d : DamageRect) : option (Z * Z * Z * Z) :=
  let x1 := Z.max 0 (d_x d) in
  let y1 := Z.max 0 (d_y d) in
  let x2 := to_i32 (Z.min (width fmt) (d_x d + d_w d)) in
  let y2 := to_i32 (Z.min (height fmt) (d_y d + d_h d)) in
  if (x1 <? x2) && (y1 <? y2) then Some (x1, y1, x2, y2) else None.

Definition arm_damage a : Step := fun ps =>
  let damage := ab_damage (ac_buffer a) in
  if bool_decide (damage = []) || (k_max_damage_rects <? length damage)%nat then (Val tt, ps)
  else
    match Layer.assigned_plane_ (ac_planes a) with
    | None => (Val tt, ps)
    | Some plane =>
        match property_id plane "FB_DAMAGE_CLIPS" props with
        | Unexp _ => (Val tt, ps)
        | Val prop =>
            let rects := omap (clip_damage (ac_format a)) damage in
            if bool_decide (rects = []) then (Val tt, ps)
            else
              match drmModeCreatePropertyBlob (Clips rects) (ps_blobs ps) with
              | (Unexp _, b) => (Val tt, ps {{ ps_blobs := b }})
              | (Val blob, b) =>
                  let ps := ps {{ ps_blobs := b }} in
                  if blob =? 0 then (Val tt, ps)
                  else write plane prop blob (fun r => r {{ damage_clips_armed ::= S }})
                         (ps {{ ephemeral_blobs_ ::= fun l => l ++ [blob] }})
              end
        end
    end.
Definition arm_layer_damage_clips (acqs : list Acq) : Step := run_steps (arm_damage <$> acqs).

(** ** The AMD colour pipeline *)

(** A [double] by its bits: sign, significand and exponent of a finite one. *)
Definition double_sign (bits : Z) : bool := Z.testbit bits 63.
Definition double_parts (bits : Z) : option (Z * Z) :=
  let e := Z.land (Z.shiftr bits 52) 0x7ff in
  let m := Z.land bits (2 ^ 52 - 1) in
  if e =? 0x7ff then None else if e =? 0 then Some (m, -1074) else Some (m + 2 ^ 52, e - 1075).

(** [llround(|v| * 2^32)], half away from zero; out of range its result is
    not specified. *)
Definition llround_2_32 (unspecified : Z) (bits : Z) : Z :=
  match double_parts bits with
  | None => unspecified
  | Some (m, e) =>
      let e := e + 32 in
      let n := if 0 <=? e then m * 2 ^ e else (m + 2 ^ (- e - 1)) / 2 ^ (- e) in
      if n <? 2 ^ 63 then n else unspecified
  end.

(** [v <= 0.0] and [v < 0.0]; false of a NaN. *)
Definition double_nan (bits : Z) : bool :=
  (Z.land (Z.shiftr bits 52) 0x7ff =? 0x7ff) && negb (Z.land bits (2 ^ 52 - 1) =? 0).
Definition double_zero (bits : Z) : bool := Z.land bits (2 ^ 63 - 1) =? 0.
Definition double_lt0 (bits : Z) : bool := double_sign bits && negb (double_zero bits) && negb (double_nan bits).
Definition double_le0 (bits : Z) : bool := (double_sign bits || double_zero bits) && negb (double_nan bits).

Context (unspecified : Z).

Definition hdr_mult_fixed (bits : Z) : Z := if double_le0 bits then 0 else u64 (llround_2_32 unspecified bits).

(** Sign and magnitude, in S31.32. *)
Definition pack (bits : Z) : Z :=
  let mag := u64 (llround_2_32 unspecified bits) in
  if double_lt0 bits then Z.lor mag (2 ^ 63) else mag.

Definition plane_tf_name (inverse : bool) (tf : PlaneTransferFunction) : string :=
  match tf with
  | TfSrgb => if inverse then "sRGB inv_EOTF" else "sRGB EOTF"
  | TfBt709 => if inverse then "BT.709 OETF" else "BT.709 inv_OETF"
  | TfPq => if inverse then "PQ inv_EOTF" else "PQ EOTF"
  | TfIdentity => "Identity"
  | TfGamma22 => if inverse then "Gamma 2.2 inv_EOTF" else "Gamma 2.2 EOTF"
  | TfGamma24 => if inverse then "Gamma 2.4 inv_EOTF" else "Gamma 2.4 EOTF"
  | TfGamma26 => if inverse then "Gamma 2.6 inv_EOTF" else "Gamma 2.6 EOTF"
  | TfDefault => "Default"
  end.
Definition resolve_plane_tf_enum (prop : Z) (tf : PlaneTransferFunction) (inverse : bool) : option Z :=
  p ← drmModeGetProperty prop;
  snd <$> (snd <$> list_find (fun en => en.1 = plane_tf_name inverse tf) (prop_enums p)).

Definition write_plane_tf (plane : Z) (name : string) (tf : PlaneTransferFunction) (inverse : bool) : Step := fun ps =>
  match property_id plane name props with
  | Unexp _ => (Val tt, ps)
  | Val prop =>
      match resolve_plane_tf_enum prop tf inverse with
      | None => (Val tt, ps)
      | Some v => write plane prop v (fun r => r) ps
      end
  end.

(** Create a blob and write it on the plane; its own failure is an error. *)
Definition write_blob (plane prop : Z) (data : BlobData) : Step := fun ps =>
  match drmModeCreatePropertyBlob data (ps_blobs ps) with
  | (Unexp e, b) => (Unexp e, ps {{ ps_blobs := b }})
  | (Val blob, b) => write plane prop blob (fun r => r) (ps {{ ps_blobs := b; ephemeral_blobs_ ::= fun l => l ++ [blob] }})
  end.

Definition write_plane_lut (plane : Z) (name : string) (lut : list ColorLutEntry) : Step := fun ps =>
  match property_id plane name props with
  | Unexp _ => (Val tt, ps)
  | Val prop => write_blob plane prop (Lut lut) ps
  end.

Definition ctm_words (m : list Z) : list Z :=
  let at_ i := pack (nth i m 0) in
  [at_ 0%nat; at_ 1%nat; at_ 2%nat; 0; at_ 3%nat; at_ 4%nat; at_ 5%nat; 0; at_ 6%nat; at_ 7%nat; at_ 8%nat; 0].
Definition write_plane_ctm (plane : Z) (m : list Z) : Step := fun ps =>
  match property_id plane "AMD_PLANE_CTM" props with
  | Unexp _ => (Val tt, ps)
  | Val prop => write_blob plane prop (Words (ctm_words m)) ps
  end.

Definition write_hdr_mult (plane bits : Z) : Step := fun ps =>
  match property_id plane "AMD_PLANE_HDR_MULT" props with
  | Unexp _ => (Val tt, ps)
  | Val prop => write plane prop (hdr_mult_fixed bits) (fun r => r) ps
  end.

Definition some_step {A} (f : A -> Step) (o : option A) : Step := match o with Some x => f x | None => ok end.
Definition lut_step (plane : Z) (name : string) (lut : list ColorLutEntry) : Step :=
  match lut with [] => ok | _ => write_plane_lut plane name lut end.

(** With nothing set every step is [ok]: the code's early [any] test. *)
Definition arm_amd a : Step :=
  let c := amd_color (ac_display a) in
  match Layer.assigned_plane_ (ac_planes a) with
  | None => ok
  | Some plane => run_steps
      [some_step (fun tf => write_plane_tf plane "AMD_PLANE_DEGAMMA_TF" tf false) (degamma_tf c);
       some_step (write_hdr_mult plane) (hdr_mult c);
       some_step (fun tf => write_plane_tf plane "AMD_PLANE_SHAPER_TF" tf true) (shaper_tf c);
       lut_step plane "AMD_PLANE_SHAPER_LUT" (shaper_lut c);
       lut_step plane "AMD_PLANE_LUT3D" (lut3d c);
       some_step (fun tf => write_plane_tf plane "AMD_PLANE_BLEND_TF" tf false) (blend_tf c);
       lut_step plane "AMD_PLANE_BLEND_LUT" (blend_lut c);
       some_step (write_plane_ctm plane) (ctm c)]
  end.
Definition arm_layer_amd_plane_color (acqs : list Acq) : Step := run_steps (arm_amd <$> acqs).

(** ** The passes of a round, and the end of a commit *)

Definition arm_round (test_only : bool) (acqs : list Acq) : Step := fun ps =>
  let ps := arm_layer_plane_blend_defaults test_only acqs ps in
  let ps := arm_layer_plane_color_props test_only acqs ps in
  run_steps [arm_layer_acquire_fences test_only acqs; arm_layer_damage_clips acqs; arm_layer_amd_plane_color acqs] ps.

Definition destroy_ephemeral_blobs (device_open : bool) ps : Passes :=
  let b := if device_open
           then foldl (fun b i => if negb (i =? 0) then drmModeDestroyPropertyBlob i b else b) (ps_blobs ps) (ephemeral_blobs_ ps)
           else ps_blobs ps in
  ps {{ ps_blobs := b; ephemeral_blobs_ := [] }}.
End Passes.

(** ** What the passes leave alone *)

Section PassFacts.
Context `{abi : DrmAbi} `{kms : Kms} `{lib : Libdrm} `{pb : PropertyBlobs}.
Context (props : PropertyStore) (unspecified : Z).
Implicit Types (ps : Passes) (a : Acq) (s : Step).

Definition pass_names : list string :=
  ["IN_FENCE_FD"; "FB_DAMAGE_CLIPS"; "AMD_PLANE_DEGAMMA_TF"; "AMD_PLANE_HDR_MULT"; "AMD_PLANE_SHAPER_TF"; "AMD_PLANE_SHAPER_LUT";
   "AMD_PLANE_LUT3D"; "AMD_PLANE_BLEND_TF"; "AMD_PLANE_BLEND_LUT"; "AMD_PLANE_CTM"].
Definition pass_write (w : Write) : Prop := exists n, n ∈ pass_names /\ property_id (w_object w) n props = Val (w_property w).

(** The blobs alive are those of [base] and the ephemeral ones. *)
Record accounted (base : gmap Z BlobData) ps : Prop := mkAccounted {
  ac_rest : forall i, i ∉ ephemeral_blobs_ ps -> alive (ps_blobs ps) !! i = base !! i;
  ac_mine : forall i, i ∈ ephemeral_blobs_ ps -> i <> 0 /\ base !! i = None
}.

Record pass_ok ps ps' : Prop := mkPassOk {
  po_writes : exists added, extends (ps_req ps) (ps_req ps') added /\ Forall pass_write added;
  po_sticky : sticky_props_ ps' = sticky_props_ ps;
  po_blobs : forall base, accounted base ps -> accounted base ps'
}.
Definition good s : Prop := forall ps r ps', s ps = (r, ps') -> pass_ok ps ps'.

Lemma pass_ok_refl ps : pass_ok ps ps.
Proof. split; [exists []; split; [apply extends_refl|constructor]|done|done]. Qed.
Lemma pass_ok_trans ps1 ps2 ps3 : pass_ok ps1 ps2 -> pass_ok ps2 ps3 -> pass_ok ps1 ps3.
Proof.
  intros [(w1 & H1 & H2) H3 H4] [(w2 & H5 & H6) H7 H8]. split; [|congruence|auto].
  exists (w1 ++ w2). split; [by eapply extends_trans|by apply Forall_app].
Qed.

Lemma good_ok : good ok.
Proof. intros ps r ps' [= <- <-]. apply pass_ok_refl. Qed.

Lemma good_run_steps steps : Forall good steps -> good (run_steps steps).
Proof.
  induction 1 as [|s steps Hs _ IH]; intros ps r ps'; cbn [run_steps]; [intros [= <- <-]; apply pass_ok_refl|].
  destruct (s ps) as [[[]|e] ps1] eqn:Es; apply Hs in Es; [|by intros [= <- <-]].
  intros Hr%IH. by eapply pass_ok_trans.
Qed.

Lemma write_spec plane prop val extra ps r ps' :
  write plane prop val extra ps = (r, ps') ->
  extends (ps_req ps) (ps_req ps') (if has_value r then [mkWrite plane prop val] else []) /\
  ps' = ps {{ ps_req := ps_req ps'; ps_report := if has_value r then count_write extra (ps_report ps) else ps_report ps }}.
Proof.
  unfold write. destruct (add_property plane prop val (ps_req ps)) as [[[]|e] req] eqn:Ea; intros [= <- <-];
    apply add_property_extends in Ea; by destruct ps.
Qed.

Lemma good_write plane name prop val extra :
  name ∈ pass_names -> property_id plane name props = Val prop -> good (write plane prop val extra).
Proof.
  intros Hn Hp ps r ps' (He & Hps)%write_spec. destruct ps, ps'; simpl in *. injection Hps as _ -> -> -> ->. split; simpl.
  - eexists. split; [exact He|]. destruct (has_value r); [|constructor]. constructor; [|constructor]. by exists name.
  - done.
  - intros base [H1 H2]. by split.
Qed.

Lemma good_fence test_only a : good (arm_fence props test_only a).
Proof.
  intros ps r ps'. unfold arm_fence.
  destruct (ab_fence _) as [f|]; [|intros H; by eapply good_ok].
  destruct (Layer.assigned_plane_ _) as [p|]; [|intros H; by eapply good_ok].
  destruct (property_id p _ props) as [prop|e] eqn:Ep; [destruct (value_or_false _)|].
  2: { intros H. eapply (good_write p "IN_FENCE_FD"); [|done|exact H]. by left. }
  all: destruct test_only; intros [= <- <-]; [apply pass_ok_refl|]; destruct ps; split; simpl; [|done|];
    [exists []; split; [apply extends_refl|constructor]|intros base [H1 H2]; by split].
Qed.

(** A blob made and kept in the list of those to destroy. *)
Lemma accounted_create base data ps i b :
  accounted base ps -> drmModeCreatePropertyBlob data (ps_blobs ps) = (Val i, b) ->
  accounted base (ps {{ ps_blobs := b; ephemeral_blobs_ ::= fun l => l ++ [i] }}).
Proof.
  intros [H1 H2] Hc. apply create_makes in Hc as (H0 & Hnew & Hb). destruct ps as [req rep st bl eph wt]; simpl in *.
  split; simpl; intros j; rewrite elem_of_app, list_elem_of_singleton.
  - intros Hj. rewrite Hb, lookup_insert_ne by (intros ->; tauto). apply H1. tauto.
  - intros [Hj| ->]; [by apply H2|]. split; [done|]. destruct (decide (i ∈ eph)) as [Hi|Hi]; [by apply H2|]. rewrite <- H1; done.
Qed.

Lemma pass_ok_create data ps i b :
  drmModeCreatePropertyBlob data (ps_blobs ps) = (Val i, b) -> pass_ok ps (ps {{ ps_blobs := b; ephemeral_blobs_ ::= fun l => l ++ [i] }}).
Proof.
  intros Hc. split; [exists []; split; [destruct ps; apply extends_refl|constructor]|by destruct ps|].
  intros base Hb. by eapply accounted_create.
Qed.
Lemma pass_ok_no_blob data ps e b :
  drmModeCreatePropertyBlob data (ps_blobs ps) = (Unexp e, b) -> pass_ok ps (ps {{ ps_blobs := b }}).
Proof.
  intros Hc%create_fails. destruct ps; split; simpl; [exists []; split; [apply extends_refl|constructor]|done|].
  intros base [H1 H2]. split; simpl in *; [by rewrite Hc|done].
Qed.

Lemma good_damage a : good (arm_damage props a).
Proof.
  intros ps r ps'. unfold arm_damage. destruct (_ || _); [intros H; by eapply good_ok|].
  destruct (Layer.assigned_plane_ _) as [p|]; [|intros H; by eapply good_ok].
  destruct (property_id p _ props) as [prop|e] eqn:Ep; [|intros H; by eapply good_ok].
  case_bool_decide; [intros Hr; by eapply good_ok|].
  destruct (drmModeCreatePropertyBlob _ _) as [[i|e] b] eqn:Ec.
  - destruct (Z.eqb_spec i 0) as [->|Hi]; [by apply create_makes in Ec as [? _]|].
    intros Hw. eapply pass_ok_trans; [by eapply pass_ok_create|]. eapply (good_write p "FB_DAMAGE_CLIPS"); [right; by left|done|].
    by destruct ps.
  - intros [= <- <-]. by eapply pass_ok_no_blob.
Qed.

Lemma good_tf plane name tf inverse : name ∈ pass_names -> good (write_plane_tf props plane name tf inverse).
Proof.
  intros Hn ps r ps'. unfold write_plane_tf. destruct (property_id plane name props) as [prop|e] eqn:Ep; [|intros H; by eapply good_ok].
  destruct (resolve_plane_tf_enum _ _ _); [|intros H; by eapply good_ok]. by eapply good_write.
Qed.

Lemma good_blob plane name prop data : name ∈ pass_names -> property_id plane name props = Val prop -> good (write_blob plane prop data).
Proof.
  intros Hn Hp ps r ps'. unfold write_blob. destruct (drmModeCreatePropertyBlob _ _) as [[i|e] b] eqn:Ec.
  - intros Hw. eapply pass_ok_trans; [by eapply pass_ok_create|by eapply good_write].
  - intros [= <- <-]. by eapply pass_ok_no_blob.
Qed.

Lemma good_lut plane name lut : name ∈ pass_names -> good (lut_step props plane name lut).
Proof.
  intros Hn. destruct lut as [|x lut]; [apply good_ok|]. intros ps r ps'. cbn [lut_step]. unfold write_plane_lut.
  destruct (property_id plane name props) as [prop|e] eqn:Ep; [by eapply good_blob|intros H; by eapply good_ok].
Qed.

Lemma good_some {A} (f : A -> Step) o : (forall x, good (f x)) -> good (some_step f o).
Proof. intros Hf. destruct o; [apply Hf|apply good_ok]. Qed.

Lemma good_amd a : good (arm_amd props unspecified a).
Proof.
  unfold arm_amd. destruct (Layer.assigned_plane_ _) as [p|]; [|apply good_ok]. apply good_run_steps.
  repeat first [apply Forall_nil_2|apply Forall_cons_2];
    first [apply good_lut; unfold pass_names; set_solver|apply good_some; intros x; first [apply good_tf; unfold pass_names; set_solver|idtac]].
  - intros ps r ps'. unfold write_hdr_mult. destruct (property_id p _ props) as [prop|e] eqn:Ep; [|intros H; by eapply good_ok].
    eapply good_write; [|done]. unfold pass_names. set_solver.
  - intros ps r ps'. unfold write_plane_ctm. destruct (property_id p _ props) as [prop|e] eqn:Ep; [|intros H; by eapply good_ok].
    eapply good_blob; [|done]. unfold pass_names. set_solver.
Qed.

(** The passes after the settings. *)
Definition late_passes (test_only : bool) (acqs : list Acq) : Step :=
  run_steps [arm_layer_acquire_fences props test_only acqs; arm_layer_damage_clips props acqs; arm_layer_amd_plane_color props unspecified acqs].

Lemma good_late test_only acqs : good (late_passes test_only acqs).
Proof.
  apply good_run_steps. repeat first [apply Forall_nil_2|apply Forall_cons_2]; apply good_run_steps, Forall_fmap, Forall_forall; intros a _;
    [apply good_fence|apply good_damage|apply good_amd].
Qed.
End PassFacts.

(** ** Settings reach the planes *)

Section Settings.
Context `{abi : DrmAbi} `{kms : Kms} `{lib : Libdrm} `{pb : PropertyBlobs}.
Context (l : list PlaneCapabilities) (props : PropertyStore) (unspecified : Z).
Context (ids_named : forall o n n' p, property_id o n props = Val p -> property_id o n' props = Val p -> n = n').
Implicit Types (ps : Passes) (a : Acq) (m : gmap Z PlaneStickyProps) (d : SceneSignals.Display).

Definition setting_at (plane : Z) (f : Setting) (prop : Z) : Prop := property_id plane (setting_name f) props = Val prop.

(** What is remembered is what the plane has. *)
Definition remembers m d : Prop :=
  forall plane f v prop, remembered f (sticky_of m plane) = Some v -> setting_at plane f prop -> d !! (plane, prop) = Some v.

(** Writes to no setting, or of the value remembered. *)
Definition harmless m (ws : list Write) : Prop :=
  forall w plane f v, w ∈ ws -> w_object w = plane -> setting_at plane f (w_property w) ->
    remembered f (sticky_of m plane) = Some v -> w_value w = v.

Lemma setting_name_inj f f' : setting_name f = setting_name f' -> f = f'.
Proof. by destruct f, f'. Qed.
Lemma setting_not_pass f : setting_name f ∉ pass_names.
Proof. unfold pass_names. destruct f; set_solver. Qed.

Lemma remembers_harmless m d ws : remembers m d -> harmless m ws -> remembers m (SceneSignals.apply_writes ws d).
Proof.
  revert d. induction ws as [|w ws IH]; intros d Hm Hw; [done|]. simpl. apply IH.
  - intros plane f v prop Hr Hs. destruct (decide ((w_object w, w_property w) = (plane, prop))) as [He|He].
    + rewrite He. etransitivity; [apply lookup_insert_eq|]. injection He as Ho Hp. f_equal. eapply (Hw w); [by left|exact Ho|by rewrite Hp|done].
    + etransitivity; [by apply lookup_insert_ne|]. by eapply Hm.
  - intros w' plane f v Hin. apply Hw. by right.
Qed.

Lemma pass_writes_harmless m ws : Forall (pass_write props) ws -> harmless m ws.
Proof.
  intros Hf w plane f v Hin Ho Hs _. exfalso. rewrite Forall_forall in Hf. destruct (Hf w Hin) as (n & Hn & Hp).
  rewrite Ho in Hp. unfold setting_at in Hs. pose proof (ids_named _ _ _ _ Hp Hs) as ->. by eapply setting_not_pass.
Qed.

Lemma sticky_of_insert m p s p' : sticky_of (<[p := s]> m) p' = if decide (p = p') then s else sticky_of m p'.
Proof. unfold sticky_of. case_decide; [subst; by rewrite lookup_insert_eq|by rewrite lookup_insert_ne]. Qed.
Lemma remembered_remember f v s f' : remembered f' (remember f v s) = if decide (f = f') then Some v else remembered f' s.
Proof. by destruct f, f', s. Qed.
Lemma sticky_of_touch p ps p' : sticky_of (sticky_props_ (touch p ps)) p' = sticky_of (sticky_props_ ps) p'.
Proof. destruct ps; unfold touch; simpl. rewrite sticky_of_insert. by case_decide; subst. Qed.

(** The request of a pass with the settings kept true on a display. *)
Definition true_on d ps : Prop := remembers (sticky_props_ ps) (SceneSignals.apply_writes (writes (ps_req ps)) d).

Record setting_ok (test_only : bool) (touched : Z -> Setting -> Prop) ps ps' : Prop := mkSettingOk {
  so_writes : exists added, extends (ps_req ps) (ps_req ps') added;
  so_true : test_only = false -> forall d, true_on d ps -> true_on d ps';
  so_kept : forall p f, touched p f -> test_only = true \/ remembered f (sticky_of (sticky_props_ ps') p) = remembered f (sticky_of (sticky_props_ ps) p);
  so_test : test_only = true -> forall p f, remembered f (sticky_of (sticky_props_ ps') p) = remembered f (sticky_of (sticky_props_ ps) p);
  so_blobs : ps_blobs ps' = ps_blobs ps /\ ephemeral_blobs_ ps' = ephemeral_blobs_ ps /\ ps_waits ps' = ps_waits ps
}.

Lemma setting_ok_refl t P ps : setting_ok t P ps ps.
Proof. split; try done; [exists []; apply extends_refl|by right]. Qed.
Lemma setting_ok_trans t P ps1 ps2 ps3 : setting_ok t P ps1 ps2 -> setting_ok t P ps2 ps3 -> setting_ok t P ps1 ps3.
Proof.
  intros [[w1 H1] H2 H3 H4 (H5 & H6 & H7)] [[w2 H8] H9 H10 H11 (H12 & H13 & H14)]. split.
  - eexists. by eapply extends_trans.
  - auto.
  - intros p f Hp. destruct (H3 p f Hp) as [|Ha]; [by left|]. destruct (H10 p f Hp) as [|Hb]; [by left|right; congruence].
  - intros Ht p f. by rewrite H11, H4.
  - split_and!; congruence.
Qed.
Lemma setting_ok_weaken t (P Q : Z -> Setting -> Prop) ps ps' : (forall p f, Q p f -> P p f) -> setting_ok t P ps ps' -> setting_ok t Q ps ps'.
Proof. intros HPQ [H1 H2 H3 H4 H5]. split; auto. Qed.

Lemma setting_ok_if t P (b : bool) ps ps' : setting_ok t P ps ps' -> setting_ok t P ps (if b then ps' else ps).
Proof. destruct b; [done|]. intros _. apply setting_ok_refl. Qed.

Lemma touch_ok t P p ps : setting_ok t P ps (touch p ps).
Proof.
  split; try (by destruct ps); [exists []; destruct ps; apply extends_refl| | |].
  - intros _ d Ht plane f v prop. rewrite sticky_of_touch. assert (He : ps_req (touch p ps) = ps_req ps) by by destruct ps. rewrite He. apply Ht.
  - intros p' f _. right. by rewrite sticky_of_touch.
  - intros _ p' f. by rewrite sticky_of_touch.
Qed.

Definition other (p : Z) (f : Setting) (p' : Z) (f' : Setting) : Prop := (p', f') <> (p, f).

Lemma write_sticky_ok t p f v ps : setting_ok t (other p f) ps (write_sticky props t p f v ps).
Proof.
  unfold write_sticky. destruct (property_id p (setting_name f) props) as [prop|e] eqn:Ep; [|apply setting_ok_refl].
  destruct (value_or_false _); [apply setting_ok_refl|]. eapply setting_ok_trans; [by apply (touch_ok t _ p)|].
  generalize (touch p ps) as ps0. clear ps. intros ps. case_bool_decide as Hcur; [apply setting_ok_refl|].
  destruct (write p prop v _ ps) as [r ps1] eqn:Ew. apply write_spec in Ew as [He Hps].
  assert (Hsame : sticky_props_ ps1 = sticky_props_ ps) by (by rewrite Hps; destruct ps).
  assert (Hb : ps_blobs ps1 = ps_blobs ps /\ ephemeral_blobs_ ps1 = ephemeral_blobs_ ps /\ ps_waits ps1 = ps_waits ps)
    by (by rewrite Hps; destruct ps).
  assert (Hw : writes (ps_req ps1) = writes (ps_req ps) ++ (if has_value r then [mkWrite p prop v] else [])) by apply He.
  destruct r as [[]|e]; simpl in Hw.
  2: { split; try done; [by eexists| | |].
       - intros _ d Ht. unfold true_on in *. by rewrite Hsame, Hw, app_nil_r.
       - intros ? ? _. right. by rewrite Hsame.
       - intros _ ? ?. by rewrite Hsame. }
  destruct t; [split; try done; [by eexists|by left|intros _ ? ?; by rewrite Hsame]|].
  set (ps2 := ps1 {{ sticky_props_ ::= _ }}).
  assert (Hreq2 : ps_req ps2 = ps_req ps1) by by destruct ps1.
  assert (Hst2 : sticky_props_ ps2 = <[p := remember f v (sticky_of (sticky_props_ ps1) p)]> (sticky_props_ ps1)) by by destruct ps1.
  assert (Hrem : forall p' f', remembered f' (sticky_of (sticky_props_ ps2) p') =
                   if decide ((p', f') = (p, f)) then Some v else remembered f' (sticky_of (sticky_props_ ps) p')).
  { intros p' f'. rewrite Hst2, Hsame, sticky_of_insert. destruct (decide (p = p')) as [<-|Hne].
    - rewrite remembered_remember. repeat case_decide; congruence.
    - rewrite decide_False by congruence. done. }
  split; [rewrite Hreq2; by eexists| | |done|by destruct ps1].
  - intros _ d Ht p' f' v' prop' Hr Hs. rewrite Hrem in Hr. rewrite Hreq2, Hw, SceneSignals.apply_writes_app. simpl.
    case_decide as Hk.
    + injection Hk as -> ->. injection Hr as <-. unfold setting_at in Hs. rewrite Ep in Hs. injection Hs as <-. apply lookup_insert_eq.
    + etransitivity; [apply lookup_insert_ne|by eapply Ht]. intros [= -> ->]. apply Hk. f_equal. apply setting_name_inj. by eapply ids_named.
  - intros p' f' Ho. right. rewrite Hrem. by rewrite decide_False by done.
Qed.

(** A writable setting of a plane is remembered once written. *)
Lemma write_sticky_sets p f v prop ps :
  (forall r wr, 0 <= (drmModeAtomicAddProperty r wr).1) -> is_Some (req_ (ps_req ps)) ->
  setting_at p f prop -> value_or_false (is_immutable p (setting_name f) props) = false ->
  remembered f (sticky_of (sticky_props_ (write_sticky props false p f v ps)) p) = Some v.
Proof.
  intros Hadds [q Hq] Hp Him. unfold write_sticky. unfold setting_at in Hp. rewrite Hp, Him.
  set (ps0 := touch p ps). assert (Hq0 : req_ (ps_req ps0) = Some q) by by destruct ps. case_bool_decide as Hcur; [done|].
  unfold write, add_property. rewrite Hq0. specialize (Hadds q (mkWrite p prop v)).
  destruct (drmModeAtomicAddProperty q _) as [ret q']. simpl in Hadds. rewrite (proj2 (Z.ltb_ge _ _)) by done.
  destruct ps0; simpl. by rewrite sticky_of_insert, decide_True, remembered_remember, decide_True by done.
Qed.

Definition wanted (caps : PlaneCapabilities) (disp : DisplayParams) (f : Setting) : option Z :=
  match f with
  | BlendMode => blend_mode_premultiplied caps
  | Encoding => if has_color_encoding caps then encoding_value caps disp else None
  | Range => if has_color_range caps then range_value caps disp else None
  end.

(** The settings a pass is about, on the plane of one layer. *)
Definition untouched (F : Setting -> Prop) a (p : Z) (f : Setting) : Prop := native_plane a <> Some p \/ ~ F f.
Definition blending (f : Setting) : Prop := f = BlendMode.
Definition colouring (f : Setting) : Prop := f <> BlendMode.

Lemma write_sticky_untouched (F : Setting -> Prop) t a p f v ps :
  native_plane a = Some p -> F f -> setting_ok t (untouched F a) ps (write_sticky props t p f v ps).
Proof. intros Hp Hf. eapply setting_ok_weaken; [|apply write_sticky_ok]. intros p' f' [Hn|Hn] [= -> ->]; [by apply Hn|done]. Qed.

Lemma write_enum_untouched (F : Setting -> Prop) t a p f v ps :
  native_plane a = Some p -> F f -> setting_ok t (untouched F a) ps (write_enum props t p f v ps).
Proof.
  intros Hp Hf. unfold write_enum. destruct v as [v|]; [|apply touch_ok].
  eapply setting_ok_trans; [apply touch_ok|by apply write_sticky_untouched].
Qed.

Lemma blend_one_ok t a ps : setting_ok t (untouched blending a) ps (arm_blend_one props t l ps a).
Proof.
  unfold arm_blend_one. destruct (native_plane a) as [p|] eqn:Ep; [|apply setting_ok_refl].
  destruct (plane_caps_for p l) as [caps|]; [|apply setting_ok_refl].
  destruct (blend_mode_premultiplied caps); [|apply setting_ok_refl]. by apply write_sticky_untouched.
Qed.

Lemma color_one_ok t a ps : setting_ok t (untouched colouring a) ps (arm_color_one props t l ps a).
Proof.
  unfold arm_color_one. destruct (native_plane a) as [p|] eqn:Ep; [|apply setting_ok_refl].
  destruct (plane_caps_for p l) as [caps|]; [|apply setting_ok_refl].
  cbv zeta. eapply setting_ok_trans; apply setting_ok_if; by apply write_enum_untouched.
Qed.

Lemma fold_ok (step : Passes -> Acq -> Passes) (F : Setting -> Prop) t acqs ps :
  (forall a ps, setting_ok t (untouched F a) ps (step ps a)) ->
  setting_ok t (fun p f => ~ F f \/ p ∉ omap native_plane acqs) ps (foldl step ps acqs).
Proof.
  intros Hs. revert ps. induction acqs as [|a acqs IH]; intros ps; [apply setting_ok_refl|]. simpl.
  eapply setting_ok_trans; [|eapply setting_ok_weaken; [|apply IH]].
  - eapply setting_ok_weaken; [|apply Hs]. intros p f [Hf|Hp]; [by right|left]. intros He. apply Hp. rewrite He. by left.
  - intros p f [Hf|Hp]; [by left|right]. intros Hin. apply Hp. destruct (native_plane a); [by right|done].
Qed.

Lemma live_extends r r' added : extends r r' added -> is_Some (req_ r) -> is_Some (req_ r').
Proof. intros (_ & Hn & _) Hl. destruct (req_ r'); [done|]. rewrite (proj1 Hn eq_refl) in Hl. by destruct Hl. Qed.

(** Every layer with a plane of its own leaves its settings there. *)
Lemma fold_sets (step : Passes -> Acq -> Passes) (F : Setting -> Prop) acqs ps :
  (forall a ps, setting_ok false (untouched F a) ps (step ps a)) ->
  (forall a ps p caps f v prop, is_Some (req_ (ps_req ps)) -> F f -> native_plane a = Some p -> plane_caps_for p l = Some caps ->
     wanted caps (ac_display a) f = Some v -> setting_at p f prop -> value_or_false (is_immutable p (setting_name f) props) = false ->
     remembered f (sticky_of (sticky_props_ (step ps a)) p) = Some v) ->
  NoDup (omap native_plane acqs) -> is_Some (req_ (ps_req ps)) ->
  forall a p caps f v prop, a ∈ acqs -> F f -> native_plane a = Some p -> plane_caps_for p l = Some caps ->
    wanted caps (ac_display a) f = Some v -> setting_at p f prop -> value_or_false (is_immutable p (setting_name f) props) = false ->
    remembered f (sticky_of (sticky_props_ (foldl step ps acqs)) p) = Some v.
Proof.
  intros Hs Hset. revert ps. induction acqs as [|x acqs IH]; intros ps Hn Hl a p caps f v prop Ha HF Hp Hc Hw Hat Him; [by apply not_elem_of_nil in Ha|].
  csimpl in Hn. destruct (Hs x ps) as [[w Hext] _ _ _ _].
  assert (Hl' : is_Some (req_ (ps_req (step ps x)))) by (by eapply live_extends).
  apply elem_of_cons in Ha as [->|Ha].
  - simpl. destruct (fold_ok step F false acqs (step ps x)) as [_ _ Hk _ _]; [exact Hs|].
    destruct (Hk p f) as [|Hr]; [|done|].
    + right. rewrite Hp in Hn. by apply NoDup_cons in Hn as [? _].
    + rewrite Hr. by eapply Hset.
  - simpl. eapply IH; try done. destruct (native_plane x); [by apply NoDup_cons in Hn as [_ ?]|done].
Qed.

Context (adds_accepted : forall r wr, 0 <= (drmModeAtomicAddProperty r wr).1).

Lemma blend_one_sets a ps p caps f v prop :
  is_Some (req_ (ps_req ps)) -> blending f -> native_plane a = Some p -> plane_caps_for p l = Some caps ->
  wanted caps (ac_display a) f = Some v -> setting_at p f prop -> value_or_false (is_immutable p (setting_name f) props) = false ->
  remembered f (sticky_of (sticky_props_ (arm_blend_one props false l ps a)) p) = Some v.
Proof.
  intros Hl -> Hp Hc Hw Hat Him. unfold arm_blend_one. rewrite Hp, Hc. simpl in Hw. rewrite Hw. by eapply write_sticky_sets.
Qed.

Lemma touch_live p ps : is_Some (req_ (ps_req ps)) -> is_Some (req_ (ps_req (touch p ps))).
Proof. by destruct ps. Qed.

Lemma color_one_sets a ps p caps f v prop :
  is_Some (req_ (ps_req ps)) -> colouring f -> native_plane a = Some p -> plane_caps_for p l = Some caps ->
  wanted caps (ac_display a) f = Some v -> setting_at p f prop -> value_or_false (is_immutable p (setting_name f) props) = false ->
  remembered f (sticky_of (sticky_props_ (arm_color_one props false l ps a)) p) = Some v.
Proof.
  intros Hl HF Hp Hc Hw Hat Him. unfold arm_color_one. rewrite Hp, Hc.
  set (ps1 := if has_color_encoding caps then _ else ps).
  assert (H1 : setting_ok false (other p Encoding) ps ps1).
  { unfold ps1. destruct (has_color_encoding caps); [|apply setting_ok_refl]. unfold write_enum.
    destruct (encoding_value _ _); [|apply touch_ok]. eapply setting_ok_trans; [apply touch_ok|apply write_sticky_ok]. }
  destruct f; [done| |].
  - cbn in Hw. assert (He : remembered Encoding (sticky_of (sticky_props_ ps1) p) = Some v).
    { unfold ps1. destruct (has_color_encoding caps); [|done]. unfold write_enum. rewrite Hw.
      eapply write_sticky_sets; [done|by apply touch_live|exact Hat|exact Him]. }
    destruct (has_color_range caps); [|exact He].
    assert (H2 : setting_ok false (other p Range) ps1 (write_enum props false p Range (range_value caps (ac_display a)) ps1)).
    { unfold write_enum. destruct (range_value _ _); [|apply touch_ok]. eapply setting_ok_trans; [apply touch_ok|apply write_sticky_ok]. }
    destruct (so_kept _ _ _ _ H2 p Encoding) as [|Hr]; [by intros [=]|done|by rewrite Hr].
  - cbn in Hw. destruct (has_color_range caps); [|done]. unfold write_enum. rewrite Hw.
    destruct (so_writes _ _ _ _ H1) as [w Hext].
    eapply write_sticky_sets; [done|by apply touch_live; eapply live_extends|exact Hat|exact Him].
Qed.

(** The two passes of settings. *)
Definition arm_settings (test_only : bool) (acqs : list Acq) ps : Passes :=
  arm_layer_plane_color_props (Some l) props test_only acqs (arm_layer_plane_blend_defaults (Some l) props test_only acqs ps).

Lemma settings_ok t acqs ps : setting_ok t (fun p f => p ∉ omap native_plane acqs) ps (arm_settings t acqs ps).
Proof.
  eapply setting_ok_trans.
  - eapply setting_ok_weaken; [|apply (fold_ok (arm_blend_one props t l) blending); intros; apply blend_one_ok]. by right.
  - eapply setting_ok_weaken; [|apply (fold_ok (arm_color_one props t l) colouring); intros; apply color_one_ok]. by right.
Qed.

Lemma settings_set acqs ps :
  NoDup (omap native_plane acqs) -> is_Some (req_ (ps_req ps)) ->
  forall a p caps f v prop, a ∈ acqs -> native_plane a = Some p -> plane_caps_for p l = Some caps ->
    wanted caps (ac_display a) f = Some v -> setting_at p f prop -> value_or_false (is_immutable p (setting_name f) props) = false ->
    remembered f (sticky_of (sticky_props_ (arm_settings false acqs ps)) p) = Some v.
Proof.
  intros Hn Hl a p caps f v prop Ha Hp Hc Hw Hat Him.
  pose proof (fold_ok (arm_blend_one props false l) blending false acqs ps (fun a ps => blend_one_ok false a ps)) as H1.
  destruct (so_writes _ _ _ _ H1) as [w Hext].
  pose proof (fold_ok (arm_color_one props false l) colouring false acqs (foldl (arm_blend_one props false l) ps acqs) (fun a ps => color_one_ok false a ps)) as H2.
  unfold arm_settings, arm_layer_plane_color_props, arm_layer_plane_blend_defaults. destruct (decide (f = BlendMode)) as [->|Hf].
  - destruct (so_kept _ _ _ _ H2 p BlendMode) as [|Hr]; [left; by intros Hx|done|]. rewrite Hr.
    by eapply (fold_sets _ blending); [intros; apply blend_one_ok|intros; by eapply blend_one_sets|..].
  - eapply (fold_sets _ colouring); [intros; apply color_one_ok|intros; by eapply color_one_sets|done| |done..]. by eapply live_extends.
Qed.
End Settings.

(** ** Scenes whose every frame was committed and accepted *)

Section Runs.
Context `{abi : DrmAbi} `{kms : Kms} `{lib : Libdrm} `{pb : PropertyBlobs}.
Context (l : list PlaneCapabilities) (props : PropertyStore) (unspecified : Z).
Implicit Types (ps : Passes) (a : Acq) (m : gmap Z PlaneStickyProps) (d : SceneSignals.Display).

(** The memory of the scene and what the planes have.  The frame's other
    writes - those before the passes and those after, a canvas among them -
    change no setting behind its back. *)
Inductive settled_run : gmap Z PlaneStickyProps -> SceneSignals.Display -> Prop :=
  | run_start d : settled_run ∅ d   (* or after a resume or a rebind *)
  | run_test d acqs ps r ps' :
      settled_run (sticky_props_ ps) d -> arm_round (Some l) props unspecified true acqs ps = (r, ps') ->
      settled_run (sticky_props_ ps') d
  | run_frame d acqs ps ps' later :
      settled_run (sticky_props_ ps) d -> harmless props (sticky_props_ ps) (writes (ps_req ps)) ->
      arm_round (Some l) props unspecified false acqs ps = (Val tt, ps') -> harmless props (sticky_props_ ps') later ->
      settled_run (sticky_props_ ps') (SceneSignals.apply_writes (writes (ps_req ps') ++ later) d).

Context (ids_named : forall o n n' p, property_id o n props = Val p -> property_id o n' props = Val p -> n = n').

Lemma round_parts t acqs ps r ps' :
  arm_round (Some l) props unspecified t acqs ps = (r, ps') -> pass_ok props (arm_settings l props t acqs ps) ps'.
Proof. intros H. exact (good_late props unspecified t acqs _ _ _ H). Qed.

Lemma round_true acqs ps r ps' d :
  arm_round (Some l) props unspecified false acqs ps = (r, ps') -> true_on props d ps -> true_on props d ps'.
Proof.
  intros [(ws & (Hw & _) & Hp) Hs _]%round_parts Ht.
  pose proof (so_true _ _ _ _ _ (settings_ok l props ids_named false acqs ps) eq_refl d Ht) as H1.
  unfold true_on in *. rewrite Hs, Hw, SceneSignals.apply_writes_app. apply remembers_harmless; [done|]. by apply pass_writes_harmless.
Qed.

Lemma settled_remembers m d : settled_run m d -> remembers props m d.
Proof.
  induction 1 as [d|d acqs ps r ps' _ IH Hr|d acqs ps ps' later _ IH Hh Hr Hl].
  - intros p f v prop Hf. by destruct f.
  - apply round_parts in Hr as [_ Hs _]. rewrite Hs. intros p f v prop.
    rewrite (so_test _ _ _ _ _ (settings_ok l props ids_named true acqs ps) eq_refl). apply IH.
  - rewrite SceneSignals.apply_writes_app. apply remembers_harmless; [|done].
    apply (round_true _ _ _ _ _ Hr). by apply remembers_harmless.
Qed.
End Runs.


(** ** Fences, damage and blobs *)

Section Resources.
Context `{abi : DrmAbi} `{kms : Kms} `{lib : Libdrm} `{pb : PropertyBlobs}.
Context (props : PropertyStore).
Implicit Types (ps : Passes) (a : Acq).

Definition fenced a : option (Z * SyncFence) :=
  match ab_fence (ac_buffer a), Layer.assigned_plane_ (ac_planes a) with Some f, Some p => Some (p, f) | _, _ => None end.

(** The kernel waits for the fence with the commit, or the CPU has. *)
Definition honoured ps (p : Z) (f : SyncFence) : Prop :=
  (exists prop, property_id p "IN_FENCE_FD" props = Val prop /\ mkWrite p prop (u64 (fence_fd f)) ∈ writes (ps_req ps)) \/ f ∈ ps_waits ps.

Definition fences_seen ps : nat := in_fences_armed (ps_report ps) + in_fence_cpu_waits (ps_report ps).

Lemma arm_fence_spec a ps ps' :
  arm_fence props false a ps = (Val tt, ps') ->
  (forall p f, honoured ps p f -> honoured ps' p f) /\ (forall p f, fenced a = Some (p, f) -> honoured ps' p f) /\
  fences_seen ps' = (fences_seen ps + (if bool_decide (is_Some (fenced a)) then 1 else 0))%nat.
Proof.
  unfold arm_fence, fenced. destruct (ab_fence _) as [f|]; [destruct (Layer.assigned_plane_ _) as [p|]|].
  2, 3: intros [= <-]; split_and!; [done|done|simpl; lia].
  rewrite bool_decide_eq_true_2 by eauto.
  assert (Hcpu : (Val tt, ps {{ ps_report ::= fun r => r {{ in_fence_cpu_waits ::= S }}; ps_waits ::= fun l => l ++ [f] }}) = (Val tt, ps') ->
    (forall p0 f0, honoured ps p0 f0 -> honoured ps' p0 f0) /\ (forall p0 f0, Some (p, f) = Some (p0, f0) -> honoured ps' p0 f0) /\
    fences_seen ps' = (fences_seen ps + 1)%nat).
  { intros [= <-]. destruct ps as [req rep st bl eph wt]. unfold honoured, fences_seen; simpl. split_and!.
    - intros p0 f0 [Hk|Hk]; [by left|right; apply elem_of_app; by left].
    - intros p0 f0 [= <- <-]. right. apply elem_of_app. right. by left.
    - destruct rep; simpl; lia. }
  destruct (property_id p _ props) as [prop|e] eqn:Ep; [|exact Hcpu]. destruct (value_or_false _); [exact Hcpu|]. clear Hcpu.
  intros [(Hw & _) Hps]%write_spec. simpl in Hw, Hps.
  assert (Hwt : ps_waits ps' = ps_waits ps) by (rewrite Hps; by destruct ps). unfold honoured, fences_seen. rewrite Hwt, Hw. split_and!.
  - intros p0 f0 [(q & H1 & H2)|Hk]; [left; exists q; split; [done|apply elem_of_app; by left]|by right].
  - intros p0 f0 [= <- <-]. left. exists prop. split; [done|]. apply elem_of_app. right. by left.
  - rewrite Hps. destruct ps as [req [] st bl eph wt]; simpl; lia.
Qed.

(** The pixels of a rectangle and of a clip. *)
Definition in_damage (d : DamageRect) (x y : Z) : Prop := d_x d <= x < d_x d + d_w d /\ d_y d <= y < d_y d + d_h d.
Definition in_clip (c : Z * Z * Z * Z) (x y : Z) : Prop := let '(x1, y1, x2, y2) := c in x1 <= x < x2 /\ y1 <= y < y2.

(** The values the C++ types hold, in a buffer a plane can scan out. *)
Definition damage_typed a : Prop :=
  0 <= width (ac_format a) < 2 ^ 31 /\ 0 <= height (ac_format a) < 2 ^ 31 /\
  Forall (fun d => - 2 ^ 31 <= d_x d < 2 ^ 31 /\ - 2 ^ 31 <= d_y d < 2 ^ 31 /\ 0 <= d_w d < 2 ^ 32 /\ 0 <= d_h d < 2 ^ 32) (ab_damage (ac_buffer a)).

Lemma to_i32_id z : - 2 ^ 31 <= z < 2 ^ 31 -> to_i32 z = z.
Proof.
  intros Hz. unfold to_i32, wrap. destruct (Z.ltb_spec (z mod 2 ^ 32) (2 ^ 31)) as [Hm|Hm].
  - destruct (Z.le_gt_cases 0 z); [by rewrite Z.mod_small by lia|].
    exfalso. pose proof (Z.mod_unique z (2 ^ 32) (-1) (z + 2 ^ 32) ltac:(lia) ltac:(lia)). lia.
  - destruct (Z.le_gt_cases 0 z); [rewrite Z.mod_small in Hm |- * by lia; lia|].
    pose proof (Z.mod_unique z (2 ^ 32) (-1) (z + 2 ^ 32) ltac:(lia) ltac:(lia)). lia.
Qed.

Lemma clip_damage_spec a d x y :
  damage_typed a -> d ∈ ab_damage (ac_buffer a) ->
  (in_damage d x y /\ 0 <= x < width (ac_format a) /\ 0 <= y < height (ac_format a)) <->
  exists c, clip_damage (ac_format a) d = Some c /\ in_clip c x y.
Proof.
  intros (Hw & Hh & Hf) Hd. rewrite Forall_forall in Hf. destruct (Hf d Hd) as (H1 & H2 & H3 & H4).
  unfold clip_damage. rewrite !to_i32_id by lia. unfold in_damage.
  destruct (Z.ltb_spec (Z.max 0 (d_x d)) (Z.min (width (ac_format a)) (d_x d + d_w d)));
    destruct (Z.ltb_spec (Z.max 0 (d_y d)) (Z.min (height (ac_format a)) (d_y d + d_h d))); simpl.
  - split; [intros Hin; eexists; split; [done|]; simpl; lia|intros (c & [= <-] & Hc); simpl in Hc; lia].
  - split; [lia|by intros (c & ? & _)].
  - split; [lia|by intros (c & ? & _)].
  - split; [lia|by intros (c & ? & _)].
Qed.

Lemma clip_damage_inside a d x1 y1 x2 y2 :
  damage_typed a -> d ∈ ab_damage (ac_buffer a) -> clip_damage (ac_format a) d = Some (x1, y1, x2, y2) ->
  0 <= x1 < x2 /\ x2 <= width (ac_format a) /\ 0 <= y1 < y2 /\ y2 <= height (ac_format a).
Proof.
  intros (Hw & Hh & Hf) Hd. rewrite Forall_forall in Hf. destruct (Hf d Hd) as (H1 & H2 & H3 & H4).
  unfold clip_damage. rewrite !to_i32_id by lia.
  destruct (Z.ltb_spec (Z.max 0 (d_x d)) (Z.min (width (ac_format a)) (d_x d + d_w d)));
    destruct (Z.ltb_spec (Z.max 0 (d_y d)) (Z.min (height (ac_format a)) (d_y d + d_h d))); simpl; [|done..].
  intros [= <- <- <- <-]. lia.
Qed.

(** A write of the damage pass: a blob of clips for one layer's plane. *)
Definition clips_of a (rects : list (Z * Z * Z * Z)) : Prop :=
  rects <> [] /\ (length rects <= k_max_damage_rects)%nat /\
  (forall x1 y1 x2 y2, (x1, y1, x2, y2) ∈ rects ->
     0 <= x1 < x2 /\ x2 <= width (ac_format a) /\ 0 <= y1 < y2 /\ y2 <= height (ac_format a)) /\
  (forall x y, (exists c, c ∈ rects /\ in_clip c x y) <->
     (exists d, d ∈ ab_damage (ac_buffer a) /\ in_damage d x y) /\ 0 <= x < width (ac_format a) /\ 0 <= y < height (ac_format a)).
Definition damage_write ps a (w : Write) : Prop :=
  Layer.assigned_plane_ (ac_planes a) = Some (w_object w) /\ property_id (w_object w) "FB_DAMAGE_CLIPS" props = Val (w_property w) /\
  exists rects, alive (ps_blobs ps) !! w_value w = Some (Clips rects) /\ clips_of a rects.

Lemma clips_of_omap a :
  damage_typed a -> (length (ab_damage (ac_buffer a)) <= k_max_damage_rects)%nat -> omap (clip_damage (ac_format a)) (ab_damage (ac_buffer a)) <> [] ->
  clips_of a (omap (clip_damage (ac_format a)) (ab_damage (ac_buffer a))).
Proof.
  intros Ht Hlen Hne. split_and!; [done| | |].
  - etransitivity; [|exact Hlen]. generalize (ab_damage (ac_buffer a)). intros ds. induction ds as [|d ds IH]; [done|].
    csimpl. destruct (clip_damage _ d); simpl; lia.
  - intros x1 y1 x2 y2 (d & Hd & Hc)%list_elem_of_omap. by eapply clip_damage_inside.
  - intros x y. split.
    + intros (c & (d & Hd & Hc)%list_elem_of_omap & Hin). destruct (clip_damage_spec a d x y Ht Hd) as [_ H].
      destruct H as (H1 & H2 & H3); [by exists c|]. split_and!; [by exists d|lia..].
    + intros ((d & Hd & Hin) & Hx & Hy). destruct (clip_damage_spec a d x y Ht Hd) as [H _].
      destruct H as (c & Hc & Hin'); [done|]. exists c. split; [apply list_elem_of_omap; by exists d|done].
Qed.

Lemma arm_damage_spec a ps r ps' :
  damage_typed a -> arm_damage props a ps = (r, ps') ->
  alive (ps_blobs ps) ⊆ alive (ps_blobs ps') /\ exists added, extends (ps_req ps) (ps_req ps') added /\ Forall (damage_write ps' a) added.
Proof.
  intros Ht. unfold arm_damage.
  assert (Hid : (Val tt, ps) = (r, ps') -> alive (ps_blobs ps) ⊆ alive (ps_blobs ps') /\
    exists added, extends (ps_req ps) (ps_req ps') added /\ Forall (damage_write ps' a) added).
  { intros [= _ <-]. split; [done|]. exists []. split; [apply extends_refl|constructor]. }
  destruct (_ || _) eqn:Elen; [exact Hid|]. apply orb_false_iff in Elen as [_ Hlen%Nat.ltb_ge].
  destruct (Layer.assigned_plane_ _) as [p|] eqn:Ea; [|exact Hid].
  destruct (property_id p _ props) as [prop|e] eqn:Ep; [|exact Hid].
  case_bool_decide as Hne; [exact Hid|]. clear Hid.
  destruct (drmModeCreatePropertyBlob _ _) as [[i|e] b] eqn:Ec.
  2: { apply create_fails in Ec. intros [= <- <-]. destruct ps; simpl in *. rewrite Ec. split; [done|].
       exists []. split; [apply extends_refl|constructor]. }
  apply create_makes in Ec as (Hi & Hnew & Hb). apply Z.eqb_neq in Hi as ->.
  intros [He Hps]%write_spec. assert (Hbl : ps_blobs ps' = b) by (rewrite Hps; by destruct ps).
  assert (Hr0 : ps_req (ps {{ ps_blobs := b }} {{ ephemeral_blobs_ ::= fun l => l ++ [i] }}) = ps_req ps) by by destruct ps.
  rewrite Hr0 in He. split.
  - rewrite Hbl, Hb. by apply insert_subseteq.
  - eexists. split; [exact He|]. destruct (has_value r); [|constructor]. constructor; [|constructor]. split_and!; [done|done|].
    eexists. rewrite Hbl, Hb. split; [apply lookup_insert_eq|]. by apply clips_of_omap.
Qed.

Lemma damage_write_mono ps ps' a w : alive (ps_blobs ps) ⊆ alive (ps_blobs ps') -> damage_write ps a w -> damage_write ps' a w.
Proof. intros Hs (H1 & H2 & rects & H3 & H4). split_and!; [done|done|]. exists rects. split; [by eapply lookup_weaken|done]. Qed.
End Resources.


(** C19. The damage clips cover the damage.  Every property the damage pass
    writes names a live blob with at most 16 clips for one layer's plane; each
    clip is a non-empty part of the buffer, so the kernel cannot refuse it,
    and the clips hold exactly the damaged pixels of the buffer. *)
Theorem damage_clips_cover `{abi : DrmAbi} `{lib : Libdrm} `{pb : PropertyBlobs} (props : PropertyStore) acqs (ps : Passes) r ps' :
  Forall damage_typed acqs -> arm_layer_damage_clips props acqs ps = (r, ps') ->
  exists added, extends (ps_req ps) (ps_req ps') added /\ forall w, w ∈ added -> exists a, a ∈ acqs /\ damage_write props ps' a w.
Proof.
  unfold arm_layer_damage_clips.
  enough (H : forall ps, Forall damage_typed acqs -> run_steps (arm_damage props <$> acqs) ps = (r, ps') -> alive (ps_blobs ps) ⊆ alive (ps_blobs ps') /\
    exists added, extends (ps_req ps) (ps_req ps') added /\ forall w, w ∈ added -> exists a, a ∈ acqs /\ damage_write props ps' a w)
    by (intros Hf Hr; by apply (H ps)).
  clear ps. induction acqs as [|a l IH]; intros ps Hf; cbn [run_steps fmap list_fmap].
  { intros [= _ <-]. split; [done|]. exists []. split; [apply extends_refl|by intros ? ?%not_elem_of_nil]. }
  apply Forall_cons in Hf as [Ha Hl]. destruct (arm_damage props a ps) as [r1 ps1] eqn:Ea.
  apply (arm_damage_spec props) in Ea as (Hs & w1 & He1 & Hw1); [|done]. rewrite Forall_forall in Hw1.
  destruct r1 as [[]|e].
  - intros Hr. destruct (IH ps1 Hl Hr) as (Hs2 & w2 & He2 & Hw2). split; [by etransitivity|].
    exists (w1 ++ w2). split; [by eapply extends_trans|]. intros w [Hw|Hw]%elem_of_app.
    + exists a. split; [by left|]. eapply damage_write_mono; [exact Hs2|auto].
    + destruct (Hw2 w Hw) as (b & Hb & Hd). exists b. split; [by right|done].
  - intros [= _ <-]. split; [done|]. exists w1. split; [done|]. intros w Hw. exists a. split; [by left|auto].
Qed.

(** What a commit does to its passes: rounds, whatever their outcome, and the
    request rolled back or extended between them. *)
Inductive passes_run `{abi : DrmAbi} `{kms : Kms} `{lib : Libdrm} `{pb : PropertyBlobs} (props : PropertyStore) (unspecified : Z) : Passes -> Passes -> Prop :=
  | passes_done ps : passes_run props unspecified ps ps
  | passes_round l test_only acqs ps r ps1 ps2 :
      arm_round (Some l) props unspecified test_only acqs ps = (r, ps1) -> passes_run props unspecified ps1 ps2 -> passes_run props unspecified ps ps2
  | passes_request req ps ps2 : passes_run props unspecified (ps {{ ps_req := req }}) ps2 -> passes_run props unspecified ps ps2.

Lemma destroyed `{pb : PropertyBlobs} l b i :
  alive (foldl (fun b i => if negb (i =? 0) then drmModeDestroyPropertyBlob i b else b) b l) !! i =
    if decide (i ∈ l /\ i <> 0) then None else alive b !! i.
Proof.
  revert b. induction l as [|x l IH]; intros b; cbn [foldl].
  { rewrite decide_False; [done|]. intros [H _]. by apply not_elem_of_nil in H. }
  rewrite IH. destruct (decide (i ∈ l /\ i <> 0)) as [Hd|Hd].
  { rewrite decide_True; [done|]. split; [right|]; apply Hd. }
  destruct (Z.eqb_spec x 0) as [->|Hx]; cbn [negb].
  - rewrite decide_False; [done|]. intros [[->|Hi]%elem_of_cons H0]; tauto.
  - rewrite destroy_drops. destruct (decide (x = i)) as [->|Hne].
    + rewrite lookup_delete_eq, decide_True; [done|]. split; [by left|done].
    + rewrite lookup_delete_ne by done. rewrite decide_False; [done|]. intros [[->|Hi]%elem_of_cons H0]; tauto.
Qed.


(** ** Concrete passes *)

Section SamplePlanes.
#[local] Existing Instance linux_abi.
#[local] Instance planes_libdrm : Libdrm := list_libdrm (fun _ _ => 0).
#[local] Instance planes_kms : Kms := {
  drmModeGetPlaneResources := Unexp ENOENT; cap_cursor_width := None; cap_cursor_height := None;
  drmModeGetPlane _ := None; drmModeObjectGetProperties _ _ := None;
  drmModeGetProperty i := if i =? 105 then Some (mkProperty 105 "AMD_PLANE_DEGAMMA_TF" 8 [] [("Default", 0); ("PQ EOTF", 3)]) else None;
  drmModeGetPropertyBlob _ := None; drmModeGetResources := None
}.

(** Blobs numbered upwards. *)
#[local] Instance numbered_blobs : PropertyBlobs.
Proof.
  refine {| blobs := Z * gmap Z BlobData; alive := snd;
    drmModeCreatePropertyBlob := fun data b =>
      if bool_decide (b.1 = 0 \/ is_Some (b.2 !! b.1)) then (Unexp (Errno 12), b) else (Val b.1, (b.1 + 1, <[b.1 := data]> b.2));
    drmModeDestroyPropertyBlob := fun i b => (b.1, delete i b.2) |}.
  - intros data b i b'. case_bool_decide as H; [done|]. intros [= <- <-]. split_and!; [tauto| |done].
    destruct (b.2 !! b.1) eqn:E; [|done]. destruct H. right. eauto.
  - intros data b e b'. by case_bool_decide; intros [= _ <-].
  - done.
Defined.

Definition sample_planes : list PlaneCapabilities :=
  [default_caps {{ id := 31; blend_mode_premultiplied := Some 0; has_color_encoding := true; color_encoding_bt709 := Some 1;
                   has_color_range := true; color_range_full := Some 1 }}].
Definition sample_props : PropertyStore :=
  {[31 := [mkInfo 101 "pixel blend mode" 0 0; mkInfo 102 "COLOR_ENCODING" 0 0; mkInfo 103 "IN_FENCE_FD" 0 0; mkInfo 104 "FB_DAMAGE_CLIPS" 0 0;
           mkInfo 105 "AMD_PLANE_DEGAMMA_TF" 0 0; mkInfo 106 "COLOR_RANGE" 0 0; mkInfo 107 "AMD_PLANE_SHAPER_LUT" 0 0]]}.

(** A layer on the plane, its fence and damage and an AMD curve and table. *)
Definition on_plane (damage : list DamageRect) : Acq :=
  (lower_sample Layer.new_layer None) {{ ac_planes ::= Layer.set_assigned_plane (Some 31);
    ac_format := mkFormat 875713112 0 640 480; ac_buffer := mkBuffer 70 70 (Some (mkFence 9)) damage;
    ac_display ::= fun d => d {{ amd_color := no_amd_color {{ degamma_tf := Some TfPq; shaper_lut := [mkLut 0 0 0; mkLut 65535 65535 65535] }} }} }}.
Definition touching_edge : list DamageRect := [mkDamage (-10) 470 20 20; mkDamage 700 0 10 10].
Definition sample_acqs : list Acq := [on_plane touching_edge].
Definition fresh_passes (m : gmap Z PlaneStickyProps) (b : blobs) (eph : list Z) : Passes := mkPasses (new_request 3) empty_report m b eph [].
Definition no_blobs : blobs := (500, ∅).
Definition sample_round (test_only : bool) (ps : Passes) : expected unit * Passes := arm_round (Some sample_planes) sample_props 0 test_only sample_acqs ps.
Definition sample_first : Passes := (sample_round false (fresh_passes ∅ no_blobs [])).2.
Definition sample_second : Passes := fresh_passes (sticky_props_ sample_first) no_blobs [].

(** One frame writes everything; the next only what is per frame. *)
Lemma sample_writes :
  writes (ps_req sample_first) = [mkWrite 31 101 0; mkWrite 31 102 1; mkWrite 31 106 1; mkWrite 31 103 9; mkWrite 31 104 500; mkWrite 31 105 3; mkWrite 31 107 501] /\
  writes (ps_req (sample_round false sample_second).2) = [mkWrite 31 103 9; mkWrite 31 104 500; mkWrite 31 105 3; mkWrite 31 107 501] /\
  alive (ps_blobs sample_first) !! 500 = Some (Clips [(0, 470, 10, 480)]).
Proof. split_and!; vm_compute; reflexivity. Qed.

Lemma sample_ids_named : forall o n n' p, property_id o n sample_props = Val p -> property_id o n' sample_props = Val p -> n = n'.
Proof. apply SceneSignals.store_ids_named. refine (bool_decide_unpack _ _). vm_compute. exact I. Qed.


Lemma sample_typed : Forall damage_typed sample_acqs.
Proof.
  apply List.Forall_cons; [|apply List.Forall_nil]. split; [cbn; lia|]. split; [cbn; lia|].
  repeat (apply List.Forall_cons; [cbn; lia|]). apply List.Forall_nil.
Qed.


Lemma damage_clips_cover_witness :
  let r := arm_layer_damage_clips sample_props sample_acqs (fresh_passes ∅ no_blobs []) in
  writes (ps_req r.2) = [mkWrite 31 104 500] /\ exists a, a ∈ sample_acqs /\ damage_write sample_props r.2 a (mkWrite 31 104 500).
Proof.
  cbv zeta. assert (Hw : writes (ps_req (arm_layer_damage_clips sample_props sample_acqs (fresh_passes ∅ no_blobs [])).2) = [mkWrite 31 104 500])
    by (vm_compute; reflexivity).
  split; [exact Hw|].
  destruct (damage_clips_cover sample_props sample_acqs (fresh_passes ∅ no_blobs []) _ _ sample_typed (surjective_pairing _))
    as (added & (He & _) & Hall).
  rewrite Hw in He. simpl in He. subst added. apply Hall. by left.
Defined.

(** Two rounds, the first rolled back, and a test. *)
Definition rounds_of_two : Passes := (sample_round true ((sample_round false (sample_first {{ ps_req := new_request 3 }})).2)).2.

(** The demotion loop rolls the request back between rounds and a refused
    commit drops it; the memory stays: the next round leaves the settings out
    and the plane keeps those of whoever had it before. *)
Lemma demotion_loses_settings :
  let second := (sample_round false (sample_first {{ ps_req ::= rollback (cursor (new_request 3)) }})).2 in
  let before : SceneSignals.Display := {[(31, 101) := 2]} in
  remembered BlendMode (sticky_of (sticky_props_ second) 31) = Some 0 /\
  SceneSignals.apply_writes (writes (ps_req second)) before !! (31, 101) = Some 2 /\
  writes (ps_req (sample_round false (fresh_passes (sticky_props_ second) no_blobs [])).2) =
    [mkWrite 31 103 9; mkWrite 31 104 500; mkWrite 31 105 3; mkWrite 31 107 501].
Proof. cbv zeta. split_and!; vm_compute; reflexivity. Qed.

(** Frames of a set are built without the scene's own commit, which alone
    destroys the ephemeral blobs: each leaves its blobs alive. *)
Lemma set_frames_leak_blobs :
  let frame ps := (sample_round false (ps {{ ps_req := new_request 3 }})).2 in
  let three := frame (frame (frame (fresh_passes ∅ no_blobs []))) in
  ephemeral_blobs_ three = [500; 501; 502; 503; 504; 505] /\ length (map_to_list (alive (ps_blobs three))) = 6%nat.
Proof. cbv zeta. split; vm_compute; reflexivity. Qed.
End SamplePlanes.
