(* ===== verification/SceneSet.v ===== *)
(** A set of scenes committed together: [src/scene/scene_set.*].

    A set owns one scene per CRTC, in slots that keep their index.  It routes
    layers to several scenes, and commits a frame of all of them: it splits the
    scenes into groups, has every scene of a group write its frame into one
    atomic request, sends the requests, and hands each scene the verdict of the
    request that carried it.  The scenes are an interface, [ChildScene]; a null
    or missing scene that is used makes the operation [None].  The calls on the
    scenes and on the kernel are logged in order. *)
From S2P Require Import Prelude StateMonad DrmAbi Layer Atomic BufferSource SceneLayer SourceMirror.

(** ** Partitioning *)

Inductive NarrowPolicy := Combined | AutoOnModeset | PerCrtc.
#[global] Instance NarrowPolicy_eq_dec : EqDecision NarrowPolicy.
Proof. solve_decision. Defined.

Record SceneSlotState := mkSlotState { is_hole : bool; wants_modeset : bool }.

(** The indices of the slots that satisfy [p], in order. *)
Definition indices (p : SceneSlotState -> bool) (slots : list SceneSlotState) : list nat :=
  filter (fun i => option_map p (slots !! i) = Some true) (seq 0 (length slots)).

Definition partition_for_policy (slots : list SceneSlotState) (policy : NarrowPolicy) : list (list nat) :=
  let engaged s := negb (is_hole s) in
  match policy with
  | PerCrtc => map (fun i => [i]) (indices engaged slots)
  | AutoOnModeset =>
      let modeset_group := indices (fun s => engaged s && wants_modeset s) slots in
      let steady_group := indices (fun s => engaged s && negb (wants_modeset s)) slots in
      match modeset_group, steady_group with
      | _ :: _, _ :: _ => [modeset_group; steady_group]
      | _, _ => match modeset_group ++ steady_group with [] => [] | combined => [combined] end
      end
  | Combined => match indices engaged slots with [] => [] | combined => [combined] end
  end.

(** ** What the scenes share *)

(** A source the application shares with the set, and what a layer is given
    in its place: a forwarder, or one consumer of a mirror. *)
Inductive SetSource := Shared (src : positive) | MirrorConsumer (mirror id : nat).

(** The kernel, the mirrors the set made, and the rest. *)
Record Outside `{Libdrm} (Sh : Type) := mkOutside {
  o_kernel : kernel;
  o_mirrors : list (SourceMirror positive);
  o_rest : Sh
}.
Arguments mkOutside {_ Sh}.
Arguments o_kernel {_ Sh}.
Arguments o_mirrors {_ Sh}.
Arguments o_rest {_ Sh}.

(** [LayerScene], as far as the set calls it; [claimed_elsewhere] is the list
    [set_planes_claimed_elsewhere] stores. *)
Class ChildScene `{Libdrm} (Scn Sh : Type) := {
  Frame : Type;
  would_request_modeset : Scn -> bool;
  crtc_id : Scn -> Z;
  claimed_elsewhere : Scn -> list Z;
  set_planes_claimed_elsewhere : list Z -> Scn -> Scn;
  build_frame_into : AtomicRequest -> Z -> bool -> Scn -> Outside Sh ->
    expected (option Frame) * AtomicRequest * Scn * Outside Sh;
  finalize_frame : Frame -> expected unit -> Scn -> Outside Sh -> expected CommitReport * Scn * Outside Sh;
  effective_flags_of : Frame -> Z;
  armed_planes_of : Frame -> list Z;
  add_layer : LayerDesc SetSource -> Scn -> Outside Sh -> expected LayerHandle * Scn * Outside Sh;
  remove_layer : LayerHandle -> Scn -> Outside Sh -> Scn * Outside Sh;
  destroy_scene : Scn -> Outside Sh -> Outside Sh
}.

(** What the set relies on: a scene keeps the planes it is told to leave out
    and does not arm them, and adding a layer leaves every mirror where it is. *)
Class ChildSceneLaws `{lib : Libdrm} (Scn Sh : Type) `{!ChildScene Scn Sh} : Prop := {
  claimed_stored : forall l s, claimed_elsewhere (set_planes_claimed_elsewhere l s) = l;
  build_leaves_out : forall req flags test s w frame req' s' w',
    build_frame_into req flags test s w = (Val (Some frame), req', s', w') ->
    forall p, p ∈ armed_planes_of frame -> p ∉ claimed_elsewhere s;
  add_layer_mirrors : forall d s w r s' w',
    add_layer d s w = (r, s', w') -> length (o_mirrors w') = length (o_mirrors w)
}.

(** ** State *)

Record PlaneClaim := mkClaim { cl_plane : Z; cl_owner : nat }.
#[global] Instance PlaneClaim_eq_dec : EqDecision PlaneClaim.
Proof. solve_decision. Defined.

Record PerScenePin := mkPin { scene_index : nat; layer_handle : LayerHandle }.

Record SetLayerSlot := mkSetSlot { pins : list PerScenePin; set_generation : Z; set_alive : bool }.

Record SceneSet (Scn : Type) := mkSceneSet {
  dev_fd : Z;
  scenes_ : list (option Scn);
  set_slots_ : list SetLayerSlot;
  free_set_slot_ids_ : list nat;
  plane_owner_ : list PlaneClaim;
  seeded_ : list bool
}.
Arguments mkSceneSet {Scn}.
Arguments dev_fd {Scn}.
Arguments scenes_ {Scn}.
Arguments set_slots_ {Scn}.
Arguments free_set_slot_ids_ {Scn}.
Arguments plane_owner_ {Scn}.
Arguments seeded_ {Scn}.

Definition create {Scn} (fd : Z) (scenes : list Scn) : SceneSet Scn :=
  mkSceneSet fd (map Some scenes) [] [] [] [].

Record Target := mkTarget { t_scene_index : nat; t_display : DisplayParams; t_force_composited : bool }.
Record SceneSetLayerSpec := mkSpec { spec_source : option positive; targets : list Target }.

(** A plane as the kernel reports it. *)
Record KmsPlane := mkKmsPlane { kp_plane_id : Z; kp_crtc_id : Z; kp_fb_id : Z }.

Abbreviation Reports := (list CommitReport).

Section SceneSet.
Context `{abi : DrmAbi} `{lib : Libdrm} {Scn Sh : Type} `{HC : !ChildScene Scn Sh}.

Inductive SetCall :=
  | SBuild (i : nat) (r : expected (option Frame))
  | SSubmit (test : bool) (flags user_data : Z) (r : expected unit)
  | SFinalize (i : nat) (frame : Frame) (kr : expected unit)
  | SAdd (i : nat) (h : LayerHandle)
  | SRemove (i : nat) (h : LayerHandle)
  | SDestroy (i : nat).

Record SetState := mkSetState { st_set : SceneSet Scn; st_out : Outside Sh; st_calls : list SetCall }.

Abbreviation SetM := (ST SetState).

Definition the_set : SetM (SceneSet Scn) := gets st_set.
Definition edit_set (f : SceneSet Scn -> SceneSet Scn) : SetM unit := modify (fun st => st {{ st_set ::= f }}).
Definition edit_out (f : Outside Sh -> Outside Sh) : SetM unit := modify (fun st => st {{ st_out ::= f }}).
Definition log (c : SetCall) : SetM unit := modify (fun st => st {{ st_calls ::= fun cs => cs ++ [c] }}).

(** [scenes_[i]->f(...)]: [None] when the index is out of range or the slot a hole. *)
Definition call_scene {A} (f : Scn -> Outside Sh -> A * Scn * Outside Sh) (i : nat) : SetM A :=
  fun st =>
    match scenes_ (st_set st) !! i with
    | Some (Some s) =>
        let '(a, s', w') := f s (st_out st) in
        Some (a, st {{ st_set ::= fun x => x {{ scenes_ ::= <[i := Some s']> }}; st_out := w' }})
    | _ => None
    end.

(** ** Scenes that come and go *)

Definition first_hole (s : SceneSet Scn) : option nat :=
  fst <$> list_find (fun o : option Scn => o = None) (scenes_ s).

Definition resize_seeded (s : SceneSet Scn) : SceneSet Scn :=
  s {{ seeded_ ::= fun l => take (length (scenes_ s)) l ++ replicate (length (scenes_ s) - length l) false }}.

Definition add_scene (scene : option Scn) : SetM (expected nat) :=
  match scene with
  | None => mret (Unexp EINVAL)
  | Some scene =>
      s ← the_set;
      match first_hole s with
      | Some i =>
          _ ← edit_set (fun s => resize_seeded (s {{ scenes_ ::= <[i := Some scene]> }}) {{ seeded_ ::= <[i := false]> }});
          mret (Val i)
      | None =>
          _ ← edit_set (fun s => resize_seeded (s {{ scenes_ ::= fun l => l ++ [Some scene] }}));
          mret (Val (length (scenes_ s)))
      end
  end.

Definition drop_pins (index : nat) (slot : SetLayerSlot) : SetLayerSlot :=
  if set_alive slot then slot {{ pins ::= filter (fun p => scene_index p <> index) }} else slot.

Definition remove_scene (index : nat) : SetM unit :=
  s ← the_set;
  match scenes_ s !! index with
  | Some (Some scene) =>
      _ ← edit_set (fun s => s {{ set_slots_ ::= map (drop_pins index);
                                  plane_owner_ ::= filter (fun c => cl_owner c <> index);
                                  seeded_ ::= <[index := false]>;
                                  scenes_ ::= <[index := None]> }});
      _ ← log (SDestroy index);
      edit_out (destroy_scene scene)
  | _ => mret tt
  end.

(** ** Layers on several scenes *)

Definition valid_target (s : SceneSet Scn) (t : Target) : bool :=
  match scenes_ s !! t_scene_index t with Some (Some _) => true | _ => false end.

Definition valid_targets (s : SceneSet Scn) (ts : list Target) : bool :=
  forallb (valid_target s) ts && bool_decide (NoDup (map t_scene_index ts)).

Definition new_mirror (src : positive) : SetM nat :=
  fun st => Some (length (o_mirrors (st_out st)),
                  st {{ st_out ::= fun w => w {{ o_mirrors ::= fun l => l ++ [SourceMirror.create src] }} }}).

(** A consumer of the mirror, when there is one. *)
Definition source_for (mirror : option nat) (src : positive) : SetM SetSource :=
  match mirror with
  | None => mret (Shared src)
  | Some m => fun st =>
      x ← o_mirrors (st_out st) !! m;
      let '(id, x') := make_consumer x in
      Some (MirrorConsumer m id, st {{ st_out ::= fun w => w {{ o_mirrors ::= <[m := x']> }} }})
  end.

Definition describe (src : SetSource) (t : Target) : LayerDesc SetSource :=
  mkLayerDesc (Some src) (t_display t) Generic 0 0 (t_force_composited t) None 0.

Definition remove_pin (p : PerScenePin) : SetM unit :=
  _ ← call_scene (fun s w => let '(s', w') := remove_layer (layer_handle p) s w in (tt, s', w')) (scene_index p);
  log (SRemove (scene_index p) (layer_handle p)).

(** The layers of a spec: the first failure takes the earlier ones back. *)
Fixpoint add_targets (mirror : option nat) (src : positive) (added : list PerScenePin) (ts : list Target)
  : SetM (expected (list PerScenePin)) :=
  match ts with
  | [] => mret (Val added)
  | t :: ts' =>
      x ← source_for mirror src;
      h ← call_scene (add_layer (describe x t)) (t_scene_index t);
      match h with
      | Unexp e => _ ← for_each remove_pin added; mret (Unexp e)
      | Val h =>
          _ ← log (SAdd (t_scene_index t) h);
          add_targets mirror src (added ++ [mkPin (t_scene_index t) h]) ts'
      end
  end.

Definition take_set_slot (s : SceneSet Scn) : nat * SceneSet Scn :=
  match last (free_set_slot_ids_ s) with
  | Some i => (i, s {{ free_set_slot_ids_ ::= fun l => removelast l }})
  | None => (length (set_slots_ s), s {{ set_slots_ ::= fun l => l ++ [mkSetSlot [] 0 false] }})
  end.

(** A [SetLayerHandle] is a slot number, from 1, and its generation. *)
Definition add_set_layer (spec : SceneSetLayerSpec) : SetM (expected LayerHandle) :=
  s ← the_set;
  match spec_source spec with
  | None => mret (Unexp EINVAL)
  | Some src =>
      if bool_decide (targets spec = []) || negb (valid_targets s (targets spec)) then mret (Unexp EINVAL)
      else
        mirror ← (if (1 <? length (targets spec))%nat then m ← new_mirror src; mret (Some m) else mret None);
        r ← add_targets mirror src [] (targets spec);
        match r with
        | Unexp e => mret (Unexp e)
        | Val added =>
            s ← the_set;
            let '(slot_idx, s) := take_set_slot s in
            match set_slots_ s !! slot_idx with
            | None => fault
            | Some slot =>
                let gen := u32 (set_generation slot + 1) in
                _ ← edit_set (fun _ => s {{ set_slots_ ::= <[slot_idx := mkSetSlot added gen true]> }});
                mret (Val (mkHandle (N.of_nat slot_idx + 1) gen))
            end
        end
  end.

(** The slot a handle names. *)
Definition set_slot_for (h : LayerHandle) (s : SceneSet Scn) : option (nat * SetLayerSlot) :=
  if (h_id h =? 0)%N || (N.of_nat (length (set_slots_ s)) <? h_id h)%N then None
  else
    let i := N.to_nat (h_id h - 1) in
    slot ← set_slots_ s !! i;
    if set_alive slot && (set_generation slot =? h_generation h) then Some (i, slot) else None.

Definition remove_set_layer (h : LayerHandle) : SetM unit :=
  s ← the_set;
  match set_slot_for h s with
  | None => mret tt
  | Some (i, slot) =>
      _ ← for_each (fun p =>
            s ← the_set;
            match scenes_ s !! scene_index p with Some (Some _) => remove_pin p | _ => mret tt end) (pins slot);
      edit_set (fun s => s {{ set_slots_ ::= <[i := mkSetSlot [] (set_generation slot) false]>;
                              free_set_slot_ids_ ::= fun l => l ++ [i] }})
  end.

(** ** Plane claims *)

Definition seed_scene (planes : list (option KmsPlane)) (crtc : Z) (i : nat) (owners : list PlaneClaim)
  : list PlaneClaim :=
  foldl (fun owners p =>
    match p with
    | Some p =>
        if (kp_crtc_id p =? crtc) && negb (kp_fb_id p =? 0) &&
           negb (existsb (fun c => cl_plane c =? kp_plane_id p) owners)
        then owners ++ [mkClaim (kp_plane_id p) i] else owners
    | None => owners
    end) owners planes.

(** [kms]: the plane resources, and each plane asked for; a failed query is
    retried next frame. *)
Definition seed_plane_owners (kms : option (list (option KmsPlane))) (s : SceneSet Scn) : SceneSet Scn :=
  let s := resize_seeded s in
  match kms with
  | None => s
  | Some planes =>
      foldl (fun s i =>
        match scenes_ s !! i, seeded_ s !! i with
        | Some (Some scene), Some false =>
            s {{ seeded_ ::= <[i := true]>; plane_owner_ ::= seed_scene planes (crtc_id scene) i }}
        | _, _ => s
        end) s (seq 0 (length (scenes_ s)))
  end.

Definition exclude_others (claims : list PlaneClaim) (idx : nat) : SetM unit :=
  call_scene (fun s w =>
    (tt, set_planes_claimed_elsewhere
           (stable_sort Z.ltb (map cl_plane (filter (fun c => cl_owner c <> idx) claims))) s, w)) idx.

Definition set_owner (idx : nat) (claims : list PlaneClaim) (plane : Z) : list PlaneClaim :=
  match list_find (fun c => cl_plane c = plane) claims with
  | Some (i, c) => <[i := mkClaim plane idx]> claims
  | None => claims ++ [mkClaim plane idx]
  end.

Definition claim (idx : nat) (armed : list Z) (claims : list PlaneClaim) : list PlaneClaim :=
  foldl (set_owner idx) (filter (fun c => cl_owner c <> idx) claims) armed.

(** The claims kept after the commits: a failed scene keeps what it held,
    unless a committed scene took it. *)
Definition keep_claims (failed : list nat) (owner claims : list PlaneClaim) : list PlaneClaim :=
  foldl (fun claims c =>
    if bool_decide (cl_owner c ∈ failed) && negb (existsb (fun k => cl_plane k =? cl_plane c) claims)
    then claims ++ [c] else claims)
    (filter (fun c => cl_owner c ∉ failed) claims) owner.

(** ** Committing *)

Record EngagedBuild := mkEngaged { eb_index : nat; eb_state : Frame }.
Record GroupPending := mkGroup { gp_req : AtomicRequest; engaged : list EngagedBuild; combined_flags : Z }.

Fixpoint finalize_with (kr : expected unit) (ebs : list EngagedBuild) (reports : Reports) : SetM Reports :=
  match ebs with
  | [] => mret reports
  | eb :: ebs' =>
      _ ← log (SFinalize (eb_index eb) (eb_state eb) kr);
      r ← call_scene (finalize_frame (eb_state eb) kr) (eb_index eb);
      finalize_with kr ebs' (match r with Val rep => <[eb_index eb := rep]> reports | Unexp _ => reports end)
  end.

Fixpoint finalize_groups (kr : expected unit) (gps : list GroupPending) (reports : Reports) : SetM Reports :=
  match gps with
  | [] => mret reports
  | gp :: gps' => reports ← finalize_with kr (engaged gp) reports; finalize_groups kr gps' reports
  end.

(** Phase 1 for the scenes of one group. *)
Fixpoint build_group (caller_flags : Z) (test_only : bool) (idxs : list nat) (gp : GroupPending)
  (claims : list PlaneClaim) : SetM (expected unit * GroupPending * list PlaneClaim) :=
  match idxs with
  | [] => mret (Val tt, gp, claims)
  | idx :: idxs' =>
      _ ← exclude_others claims idx;
      '(build, req) ← call_scene (fun s w =>
          let '(r, req, s', w') := build_frame_into (gp_req gp) caller_flags test_only s w in ((r, req), s', w')) idx;
      _ ← log (SBuild idx build);
      let gp := gp {{ gp_req := req }} in
      match build with
      | Unexp e => mret (Unexp e, gp, claims)
      | Val None => build_group caller_flags test_only idxs' gp claims
      | Val (Some frame) =>
          build_group caller_flags test_only idxs'
            (gp {{ combined_flags ::= Z.lor (effective_flags_of frame);
                   engaged ::= fun l => l ++ [mkEngaged idx frame] }})
            (claim idx (armed_planes_of frame) claims)
      end
  end.

(** Phase 1: the groups built, or the error every frame built was given. *)
Fixpoint build_groups (caller_flags : Z) (test_only : bool) (groups : list (list nat))
  (pending : list GroupPending) (claims : list PlaneClaim) (reports : Reports)
  : SetM (expected (list GroupPending) * list PlaneClaim) :=
  match groups with
  | [] => mret (Val pending, claims)
  | group :: groups' =>
      s ← the_set;
      let req := new_request (dev_fd s) in
      if negb (Atomic.valid req) then
        _ ← finalize_groups (Unexp (Errno 12)) pending reports; mret (Unexp (Errno 12), claims)
      else
        '(r, gp, claims) ← build_group caller_flags test_only group (mkGroup req [] caller_flags) claims;
        match r with
        | Unexp e =>
            reports ← finalize_with (Unexp e) (engaged gp) reports;
            _ ← finalize_groups (Unexp e) pending reports;
            mret (Unexp e, claims)
        | Val _ =>
            build_groups caller_flags test_only groups'
              (match engaged gp with [] => pending | _ => pending ++ [gp] end) claims reports
        end
  end.

Definition submit (test_only : bool) (req : AtomicRequest) (flags : Z) : SetM (expected unit) :=
  fun st =>
    let '(kr, k) := (if test_only then test_request else commit_request) req flags (o_kernel (st_out st)) in
    Some (kr, st {{ st_out ::= fun w => w {{ o_kernel := k }} }}).

(** Phase 2: the event goes with the last request only. *)
Fixpoint submit_groups (test_only : bool) (user_data : Z) (pending : list GroupPending) (reports : Reports)
  (failed : list nat) (first_error : option errc) : SetM (Reports * list nat * option errc) :=
  match pending with
  | [] => mret (reports, failed, first_error)
  | gp :: pending' =>
      let is_last := match pending' with [] => true | _ => false end in
      let submit_flags := if is_last then combined_flags gp else Z.ldiff (combined_flags gp) DRM_MODE_PAGE_FLIP_EVENT in
      let submit_user_data := if is_last then user_data else 0 in
      kr ← submit test_only (gp_req gp) submit_flags;
      _ ← log (SSubmit test_only submit_flags submit_user_data kr);
      let failed := if has_value kr then failed else failed ++ map eb_index (engaged gp) in
      reports ← finalize_with kr (engaged gp) reports;
      let first_error := match kr, first_error with Unexp e, None => Some e | _, _ => first_error end in
      submit_groups test_only user_data pending' reports failed first_error
  end.

Definition snapshot_slots (s : SceneSet Scn) : list SceneSlotState :=
  map (fun o => match o with
                | Some scene => mkSlotState false (would_request_modeset scene)
                | None => mkSlotState true false
                end) (scenes_ s).

Definition do_commit_all (caller_flags : Z) (test_only : bool) (user_data : Z) (policy : NarrowPolicy)
  (kms : option (list (option KmsPlane))) : SetM (expected Reports) :=
  s ← the_set;
  let reports := replicate (length (scenes_ s)) empty_report in
  match partition_for_policy (snapshot_slots s) policy with
  | [] => mret (Val reports)
  | groups =>
      _ ← edit_set (seed_plane_owners kms);
      s ← the_set;
      '(built, claims) ← build_groups caller_flags test_only groups [] (plane_owner_ s) reports;
      match built with
      | Unexp e => mret (Unexp e)
      | Val [] => mret (Val reports)
      | Val pending =>
          '(reports, failed, first_error) ← submit_groups test_only user_data pending reports [] None;
          _ ← (if test_only then mret tt
               else edit_set (fun s => s {{ plane_owner_ := keep_claims failed (plane_owner_ s) claims }}));
          mret (match first_error with Some e => Unexp e | None => Val reports end)
      end
  end.

Definition commit (flags user_data : Z) (policy : NarrowPolicy) : option (list (option KmsPlane)) -> SetM (expected Reports) :=
  do_commit_all flags false user_data policy.
Definition test (policy : NarrowPolicy) : option (list (option KmsPlane)) -> SetM (expected Reports) :=
  do_commit_all 0 true 0 policy.

End SceneSet.
