(* ===== verification/SceneSetCommit.v ===== *)
(** The theorems on a set's commits: the partition, the life of the frames
    built, the flags of the requests, and who owns which plane. *)
From S2P Require Import Prelude StateMonad DrmAbi Layer Atomic BufferSource SceneLayer SourceMirror SceneSet.

(** ** The partition *)

Lemma elem_of_indices p slots i : i ∈ indices p slots <-> exists s, slots !! i = Some s /\ p s = true.
Proof.
  unfold indices. rewrite list_elem_of_filter, elem_of_seq. split.
  - intros [Hp _]. destruct (slots !! i) as [s|]; [|done]. injection Hp as Hp. eauto.
  - intros (s & Hs & Hp). rewrite Hs. simpl. rewrite Hp. split; [done|]. apply lookup_lt_Some in Hs. lia.
Qed.

Lemma indices_sorted p slots : StronglySorted lt (indices p slots).
Proof.
  unfold indices. generalize (length slots). intros n. generalize 0%nat at 1. induction n as [|n IH]; intros k.
  { constructor. }
  simpl. rewrite filter_cons. case_decide; [|apply IH]. constructor; [apply IH|].
  apply Forall_forall. intros i [_ Hi%elem_of_seq]%list_elem_of_filter. lia.
Qed.

Lemma indices_nodup p slots : NoDup (indices p slots).
Proof. apply NoDup_filter, NoDup_seq. Qed.

Lemma concat_singletons {A} (l : list A) : concat (map (fun i => [i]) l) = l.
Proof. induction l as [|i l IH]; simpl; [done|by rewrite IH]. Qed.

(** The two halves of [AutoOnModeset]. *)
Definition modeset_half (b : bool) (slots : list SceneSlotState) : list nat :=
  indices (fun s => negb (is_hole s) && (if b then wants_modeset s else negb (wants_modeset s))) slots.

Lemma elem_of_half b slots i :
  i ∈ modeset_half b slots <-> exists s, slots !! i = Some s /\ is_hole s = false /\ wants_modeset s = b.
Proof.
  unfold modeset_half. rewrite elem_of_indices. setoid_rewrite andb_true_iff. setoid_rewrite negb_true_iff.
  destruct b; [done|]. by setoid_rewrite negb_true_iff.
Qed.

Lemma half_wants b slots i : i ∈ modeset_half b slots -> option_map wants_modeset (slots !! i) = Some b.
Proof. intros (s & -> & _ & <-)%elem_of_half. done. Qed.

Lemma halves_nodup slots : NoDup (modeset_half true slots ++ modeset_half false slots).
Proof.
  apply NoDup_app. split_and!; [apply indices_nodup| |apply indices_nodup].
  intros i Hi%half_wants Hi'%half_wants. congruence.
Qed.

Lemma elem_of_halves slots i :
  i ∈ modeset_half true slots ++ modeset_half false slots <-> exists s, slots !! i = Some s /\ is_hole s = false.
Proof.
  rewrite elem_of_app, !elem_of_half. split; [naive_solver|]. intros (s & Hs & Hh).
  destruct (wants_modeset s) eqn:Ew; [left|right]; eauto.
Qed.

Lemma concat_partition slots policy :
  concat (partition_for_policy slots policy) =
  match policy with
  | AutoOnModeset => modeset_half true slots ++ modeset_half false slots
  | _ => indices (fun s => negb (is_hole s)) slots
  end.
Proof.
  destruct policy; simpl; [|fold (modeset_half true slots) (modeset_half false slots)|apply concat_singletons].
  - destruct (indices _ slots); simpl; [done|by rewrite app_nil_r].
  - destruct (modeset_half true slots), (modeset_half false slots); simpl; by rewrite ?app_nil_r.
Qed.

Lemma partition_members slots policy :
  NoDup (concat (partition_for_policy slots policy)) /\
  forall i, i ∈ concat (partition_for_policy slots policy) <-> exists s, slots !! i = Some s /\ is_hole s = false.
Proof.
  rewrite concat_partition.
  assert (Hall : forall i, i ∈ indices (fun s => negb (is_hole s)) slots <->
    exists s, slots !! i = Some s /\ is_hole s = false).
  { intros i. rewrite elem_of_indices. by setoid_rewrite negb_true_iff. }
  destruct policy; [split; [apply indices_nodup|done]| |split; [apply indices_nodup|done]].
  split; [apply halves_nodup|intros i; apply elem_of_halves].
Qed.

Lemma partition_ordered slots policy :
  Forall (fun g => g <> [] /\ StronglySorted lt g) (partition_for_policy slots policy).
Proof.
  destruct policy; simpl.
  - pose proof (indices_sorted (fun s => negb (is_hole s)) slots) as Hs.
    destruct (indices _ slots); [by apply Forall_nil|by apply Forall_singleton].
  - fold (modeset_half true slots) (modeset_half false slots).
    pose proof (indices_sorted _ slots : StronglySorted lt (modeset_half true slots)) as Hm.
    pose proof (indices_sorted _ slots : StronglySorted lt (modeset_half false slots)) as Ht.
    destruct (modeset_half true slots) as [|i m], (modeset_half false slots) as [|j t]; simpl; rewrite ?app_nil_r.
    + by apply Forall_nil. + by apply Forall_singleton. + by apply Forall_singleton.
    + apply Forall_cons. split; [done|by apply Forall_singleton].
  - apply Forall_forall. intros g (i & <- & _)%list_elem_of_In%in_map_iff. split; [done|repeat constructor].
Qed.

(** A partition loses no scene and repeats none: every slot that is not a
    hole is in exactly one group, in the order of the slots, and no group is
    empty.  [Combined] makes one group, [PerCrtc] one per scene, and
    [AutoOnModeset] one unless the scenes differ, in which case those that need
    a modeset come first and apart. *)
Theorem partition_spec slots policy :
  let groups := partition_for_policy slots policy in
  NoDup (concat groups) /\
  (forall i, i ∈ concat groups <-> exists s, slots !! i = Some s /\ is_hole s = false) /\
  Forall (fun g => g <> [] /\ StronglySorted lt g) groups /\
  match policy with
  | Combined => (length groups <= 1)%nat
  | PerCrtc => Forall (fun g => length g = 1%nat) groups
  | AutoOnModeset =>
      let wants i := option_map wants_modeset (slots !! i) in
      groups = [] \/
      (exists g b, groups = [g] /\ forall i, i ∈ g -> wants i = Some b) \/
      exists first second, groups = [first; second] /\
        (forall i, i ∈ first -> wants i = Some true) /\ (forall i, i ∈ second -> wants i = Some false)
  end.
Proof.
  intros groups. destruct (partition_members slots policy) as [Hnd Hin].
  split; [done|]. split; [done|]. split; [apply partition_ordered|]. clear Hnd Hin. unfold groups; clear groups.
  destruct policy; simpl.
  - destruct (indices _ slots); simpl; lia.
  - fold (modeset_half true slots) (modeset_half false slots).
    pose proof (half_wants true slots) as Hm. pose proof (half_wants false slots) as Ht.
    destruct (modeset_half true slots) as [|i m], (modeset_half false slots) as [|j t]; simpl; rewrite ?app_nil_r.
    + by left. + right; left. by eexists _, false. + right; left. by eexists _, true.
    + right; right. by eexists _, _.
  - apply Forall_forall. by intros g (i & <- & _)%list_elem_of_In%in_map_iff.
Qed.

Section Commit.
Context `{abi : DrmAbi} `{lib : Libdrm} {Scn Sh : Type} `{HC : !ChildScene Scn Sh}.
Notation St := (SetState (Scn := Scn) (Sh := Sh)).
Implicit Types (st : St) (cs bs : list SetCall) (ebs : list EngagedBuild) (gps : list GroupPending).

(** ** Runs of a set's parts *)

(** A slot that holds a scene. *)
Definition holds_scene (i : nat) st : Prop := exists s, scenes_ (st_set st) !! i = Some (Some s).

(** What calls on the scenes leave of the set: all but the scenes' own states. *)
Record steady st st' : Prop := mkSteady {
  sd_scenes : forall i, holds_scene i st' <-> holds_scene i st;
  sd_length : length (scenes_ (st_set st')) = length (scenes_ (st_set st));
  sd_fd : dev_fd (st_set st') = dev_fd (st_set st);
  sd_slots : set_slots_ (st_set st') = set_slots_ (st_set st);
  sd_free : free_set_slot_ids_ (st_set st') = free_set_slot_ids_ (st_set st);
  sd_owner : plane_owner_ (st_set st') = plane_owner_ (st_set st);
  sd_seeded : seeded_ (st_set st') = seeded_ (st_set st)
}.

#[global] Instance steady_preorder : PreOrder steady.
Proof.
  split; [by intros st; split|]. intros st1 st2 st3 [] []. split; try congruence.
  intros i. rewrite sd_scenes1. apply sd_scenes0.
Qed.

Lemma wp_call_scene {A} (f : Scn -> Outside Sh -> A * Scn * Outside Sh) i st (Q : A -> St -> Prop) :
  holds_scene i st ->
  (forall a s s' w' st', scenes_ (st_set st) !! i = Some (Some s) -> f s (st_out st) = (a, s', w') ->
     scenes_ (st_set st') = <[i := Some s']> (scenes_ (st_set st)) -> steady st st' ->
     st_out st' = w' -> st_calls st' = st_calls st -> Q a st') ->
  wp (call_scene f i) st Q.
Proof.
  intros [s Hs] HQ. unfold wp, call_scene. rewrite Hs. destruct (f s (st_out st)) as [[a s'] w'] eqn:Ef.
  eexists _, _. split; [done|]. destruct st as [[fd scs sl fr ow se] w c]; simpl in *.
  eapply HQ; [done|exact Ef|done| |done|done]. split; simpl; try done; [|by rewrite length_insert].
  intros j. unfold holds_scene. simpl. destruct (decide (i = j)) as [->|Hne].
  - rewrite list_lookup_insert_eq by (by eapply lookup_lt_Some). rewrite Hs. naive_solver.
  - by rewrite list_lookup_insert_ne.
Qed.

Lemma wp_set_log c st (Q : unit -> St -> Prop) :
  (forall st', st_out st' = st_out st -> steady st st' -> st_calls st' = st_calls st ++ [c] -> Q tt st') ->
  wp (log c) st Q.
Proof. intros HQ. apply wp_modify, HQ; destruct st; [done| |done]. by split. Qed.

Lemma wp_the_set st (Q : SceneSet Scn -> St -> Prop) : Q (st_set st) st -> wp the_set st Q.
Proof. apply wp_gets. Qed.

(** The log of a frame's life. *)
Definition fin (kr : expected unit) (eb : EngagedBuild) : SetCall := SFinalize (eb_index eb) (eb_state eb) kr.

Definition built_of cs : list EngagedBuild :=
  omap (fun c => match c with SBuild i (Val (Some f)) => Some (mkEngaged i f) | _ => None end) cs.

(** [bs] asks the scenes [idxs] in turn for their frames. *)
Definition builds (idxs : list nat) bs : Prop :=
  Forall2 (fun i c => exists r, c = SBuild i r) idxs bs.

Definition no_failure bs : Prop := forall i e, SBuild i (Unexp e) ∉ bs.

Lemma built_app bs bs' : built_of (bs ++ bs') = built_of bs ++ built_of bs'.
Proof. apply omap_app. Qed.

Lemma built_fins kr ebs : built_of (map (fin kr) ebs) = [].
Proof. by induction ebs. Qed.

Lemma wp_finalize_with kr ebs reports st (Q : Reports -> St -> Prop) :
  (forall eb, eb ∈ ebs -> holds_scene (eb_index eb) st) ->
  (forall rs st', steady st st' -> length rs = length reports ->
     st_calls st' = st_calls st ++ map (fin kr) ebs -> Q rs st') ->
  wp (finalize_with kr ebs reports) st Q.
Proof.
  revert reports st. induction ebs as [|eb ebs IH]; intros reports st Hl HQ; simpl.
  { apply wp_ret, HQ; [done|done|]. by rewrite app_nil_r. }
  apply wp_bind, wp_set_log. intros st1 _ H1 Hc1. apply wp_bind, wp_call_scene.
  { apply H1, Hl. by left. }
  intros r s s' w' st2 _ _ _ H2 _ Hc2. apply IH.
  - intros eb' Heb. apply H2, H1, Hl. by right.
  - intros rs st3 H3 Hn Hc3. apply HQ.
    + by transitivity st1; [|transitivity st2].
    + rewrite Hn. destruct r; by rewrite ?length_insert.
    + rewrite Hc3, Hc2, Hc1, <- app_assoc. done.
Qed.

Lemma wp_finalize_groups kr gps reports st (Q : Reports -> St -> Prop) :
  (forall eb, eb ∈ concat (map engaged gps) -> holds_scene (eb_index eb) st) ->
  (forall rs st', steady st st' -> length rs = length reports ->
     st_calls st' = st_calls st ++ map (fin kr) (concat (map engaged gps)) -> Q rs st') ->
  wp (finalize_groups kr gps reports) st Q.
Proof.
  revert reports st. induction gps as [|gp gps IH]; intros reports st Hl HQ; simpl in *.
  { apply wp_ret, HQ; [done|done|]. by rewrite app_nil_r. }
  apply wp_bind, wp_finalize_with.
  { intros eb Heb. apply Hl, elem_of_app. by left. }
  intros rs st1 H1 Hn1 Hc1. apply IH.
  - intros eb Heb. apply H1, Hl, elem_of_app. by right.
  - intros rs' st2 H2 Hn2 Hc2. apply HQ; [by transitivity st1|congruence|].
    by rewrite Hc2, Hc1, map_app, app_assoc.
Qed.

(** ** Building *)

(** The plane claims after some builds. *)
Definition claim_builds (claims : list PlaneClaim) ebs : list PlaneClaim :=
  foldl (fun claims eb => claim (eb_index eb) (armed_planes_of (eb_state eb)) claims) claims ebs.

(** No build arms a plane that another scene has claimed by then. *)
Fixpoint apart (claims : list PlaneClaim) ebs : Prop :=
  match ebs with
  | [] => True
  | eb :: ebs' =>
      (forall c, c ∈ claims -> cl_owner c <> eb_index eb -> cl_plane c ∉ armed_planes_of (eb_state eb)) /\
      apart (claim (eb_index eb) (armed_planes_of (eb_state eb)) claims) ebs'
  end.

(** The flags of a request: the caller's, and each frame's. *)
Definition group_flags (caller_flags : Z) ebs : Z :=
  foldl (fun flags eb => Z.lor (effective_flags_of (eb_state eb)) flags) caller_flags ebs.

Lemma claim_builds_app claims l l' : claim_builds claims (l ++ l') = claim_builds (claim_builds claims l) l'.
Proof. apply foldl_app. Qed.

Lemma apart_app claims l l' : apart claims l -> apart (claim_builds claims l) l' -> apart claims (l ++ l').
Proof. revert claims. induction l as [|eb l IH]; intros claims; simpl; [done|]. intros [? ?] ?. split; auto. Qed.

(** The scenes keep their laws. *)
Definition by_law (P : Prop) : Prop := ChildSceneLaws Scn Sh -> P.

Lemma wp_exclude_others claims idx st (Q : unit -> St -> Prop) :
  holds_scene idx st ->
  (forall s st', steady st st' -> st_calls st' = st_calls st -> scenes_ (st_set st') !! idx = Some (Some s) ->
     by_law (forall c, c ∈ claims -> cl_owner c <> idx -> cl_plane c ∈ claimed_elsewhere s) -> Q tt st') ->
  wp (exclude_others claims idx) st Q.
Proof.
  intros Hl HQ. apply wp_call_scene; [done|]. intros [] s s' w' st' Hs [= <- <-] Hs' Hst _ Hc.
  eapply HQ; [done|done| |].
  - rewrite Hs'. apply list_lookup_insert_eq. by eapply lookup_lt_Some.
  - intros HL c Hc' Ho. rewrite claimed_stored, stable_sort_perm. apply list_elem_of_In, in_map, list_elem_of_In.
    by apply list_elem_of_filter.
Qed.

(** What building the scenes [idxs] of one group does. *)
Definition group_built (idxs : list nat) gp claims (r : expected unit) gp' claims' bs : Prop :=
  engaged gp' = engaged gp ++ built_of bs /\
  combined_flags gp' = group_flags (combined_flags gp) (built_of bs) /\
  claims' = claim_builds claims (built_of bs) /\ by_law (apart claims (built_of bs)) /\
  match r with
  | Val _ => builds idxs bs /\ no_failure bs
  | Unexp e => (exists idxs', idxs' `prefix_of` idxs /\ builds idxs' bs) /\ exists i, SBuild i (Unexp e) ∈ bs
  end.

Lemma wp_build_group flags test idxs gp claims st (Q : expected unit * GroupPending * list PlaneClaim -> St -> Prop) :
  (forall i, i ∈ idxs -> holds_scene i st) ->
  (forall r gp' claims' st' bs, steady st st' -> st_calls st' = st_calls st ++ bs ->
     group_built idxs gp claims r gp' claims' bs -> Q (r, gp', claims') st') ->
  wp (build_group flags test idxs gp claims) st Q.
Proof.
  revert gp claims st Q. induction idxs as [|idx idxs IH]; intros gp claims st Q Hl HQ; simpl.
  { apply wp_ret, (HQ _ _ _ _ []); [done|by rewrite app_nil_r|].
    split_and!; [by rewrite app_nil_r|done|done|done|constructor|by intros i e ?%not_elem_of_nil]. }
  apply wp_bind, wp_exclude_others; [apply Hl; by left|]. intros s0 st1 H1 Hc1 Hs0 Hclaimed.
  apply wp_bind, wp_call_scene; [by apply H1, Hl; left|].
  intros [build req] s s' w' st2 Hs Hb _ H2 _ Hc2. rewrite Hs0 in Hs. injection Hs as <-.
  destruct (build_frame_into _ _ _ _ _) as [[[r rq] s1] w1] eqn:Eb. injection Hb as -> -> -> ->.
  apply wp_bind, wp_set_log. intros st3 _ H3 Hc3.
  assert (H03 : steady st st3) by (by transitivity st1; [|transitivity st2]).
  assert (Hl3 : forall i, i ∈ idxs -> holds_scene i st3) by (intros i Hi; apply H03, Hl; by right).
  assert (Hc03 : st_calls st3 = st_calls st ++ [SBuild idx build]) by congruence.
  destruct build as [[frame|]|e].
  - apply IH; [done|]. intros r gp' claims' st4 bs H4 Hc4 (Hen & Hfl & Hcl & Hap & Hr).
    apply (HQ _ _ _ _ (SBuild idx (Val (Some frame)) :: bs)).
    { by transitivity st3. } { by rewrite Hc4, Hc03, <- app_assoc. }
    split_and!.
    + rewrite Hen. destruct gp; simpl. by rewrite <- app_assoc.
    + rewrite Hfl. by destruct gp.
    + done.
    + intros HL. split; [|by apply Hap]. intros c Hc Ho Hp. eapply build_leaves_out; [exact Eb|exact Hp|]. by apply Hclaimed.
    + destruct r as [[]|e].
      * destruct Hr as [Hbs Hnf]. split; [constructor; eauto|]. by intros i e [?|?%Hnf]%elem_of_cons.
      * destruct Hr as [(idxs' & Hpre & Hbs) (i & Hi)]. split; [|exists i; by right].
        exists (idx :: idxs'). split; [by apply prefix_cons|constructor; eauto].
  - apply IH; [done|]. intros r gp' claims' st4 bs H4 Hc4 (Hen & Hfl & Hcl & Hap & Hr).
    apply (HQ _ _ _ _ (SBuild idx (Val None) :: bs)).
    { by transitivity st3. } { by rewrite Hc4, Hc03, <- app_assoc. }
    split_and!; [rewrite Hen; by destruct gp|rewrite Hfl; by destruct gp|done|done|].
    destruct r as [[]|e].
    + destruct Hr as [Hbs Hnf]. split; [constructor; eauto|]. by intros i e [?|?%Hnf]%elem_of_cons.
    + destruct Hr as [(idxs' & Hpre & Hbs) (i & Hi)]. split; [|exists i; by right].
      exists (idx :: idxs'). split; [by apply prefix_cons|constructor; eauto].
  - apply wp_ret, (HQ _ _ _ _ [SBuild idx (Unexp e)]); [done|done|].
    split_and!; [destruct gp; simpl; by rewrite app_nil_r|by destruct gp|done|done| |exists idx; by left].
    exists [idx]. split; [by apply prefix_cons, prefix_nil|repeat constructor; eauto].
Qed.

Lemma built_index idxs bs eb : builds idxs bs -> eb ∈ built_of bs -> eb_index eb ∈ idxs.
Proof.
  intros Hb (c & Hc & He)%list_elem_of_omap. apply list_elem_of_lookup in Hc as [k Hk].
  destruct (Forall2_lookup_r _ _ _ _ _ Hb Hk) as (i & Hi & r & ->). destruct r as [[f|]|]; [|done..].
  injection He as <-. by eapply list_elem_of_lookup_2.
Qed.

Lemma builds_app idxs idxs' bs bs' : builds idxs bs -> builds idxs' bs' -> builds (idxs ++ idxs') (bs ++ bs').
Proof. apply Forall2_app. Qed.

Lemma no_failure_app bs bs' : no_failure bs -> no_failure bs' -> no_failure (bs ++ bs').
Proof. intros H1 H2 i e [?%H1|?%H2]%elem_of_app; done. Qed.

(** A group as it is sent. *)
Definition well_built (flags : Z) gp : Prop :=
  engaged gp <> [] /\ combined_flags gp = group_flags flags (engaged gp).

(** What building [groups] after [pending] logs and returns. *)
Definition groups_built (flags : Z) (groups : list (list nat)) (pending : list GroupPending) claims
  (r : expected (list GroupPending)) claims' cs : Prop :=
  match r with
  | Val pending' => exists new,
      pending' = pending ++ new /\ builds (concat groups) cs /\ no_failure cs /\
      concat (map engaged new) = built_of cs /\ Forall (well_built flags) new /\
      claims' = claim_builds claims (built_of cs) /\ by_law (apart claims (built_of cs))
  | Unexp e => exists bs ebs,
      cs = bs ++ map (fin (Unexp e)) ebs /\ ebs ≡ₚ concat (map engaged pending) ++ built_of bs /\
      (exists idxs, idxs `prefix_of` concat groups /\ builds idxs bs) /\
      (e = Errno 12 \/ exists i, SBuild i (Unexp e) ∈ bs) /\ by_law (apart claims (built_of bs))
  end.

(** One group built, the rest is as if it had been pending. *)
Lemma groups_built_cons flags group groups pending claims gp bs r claims' cs :
  engaged gp = built_of bs -> combined_flags gp = group_flags flags (built_of bs) ->
  by_law (apart claims (built_of bs)) -> builds group bs -> no_failure bs ->
  groups_built flags groups (match engaged gp with [] => pending | _ => pending ++ [gp] end)
    (claim_builds claims (built_of bs)) r claims' cs ->
  groups_built flags (group :: groups) pending claims r claims' (bs ++ cs).
Proof.
  intros Hen Hfl Hap Hb Hnf. set (new1 := match engaged gp with [] => [] | _ => [gp] end).
  assert (Hp : (match engaged gp with [] => pending | _ => pending ++ [gp] end) = pending ++ new1).
  { unfold new1. destruct (engaged gp); [by rewrite app_nil_r|done]. }
  assert (Hc1 : concat (map engaged new1) = built_of bs).
  { unfold new1. rewrite <- Hen. destruct (engaged gp) eqn:E; simpl; [done|by rewrite app_nil_r, E]. }
  assert (Hw : Forall (well_built flags) new1).
  { unfold new1. destruct (engaged gp) eqn:E; [constructor|]. apply Forall_singleton. unfold well_built.
    split; [by rewrite E|congruence]. }
  rewrite Hp. clearbody new1. destruct r as [pending'|e]; simpl.
  - intros (new & -> & Hbs & Hnf' & Hcon & Hwb & -> & Hap'). exists (new1 ++ new).
    rewrite built_app, map_app, concat_app, Hc1, Hcon, claim_builds_app. split_and!; try done.
    + by rewrite app_assoc. + by apply builds_app. + by apply no_failure_app.
    + by apply Forall_app. + intros HL. apply apart_app; auto.
  - intros (bs' & ebs & -> & Hperm & (idxs & Hpre & Hbs) & He & Hap'). exists (bs ++ bs'), ebs.
    rewrite built_app. split_and!.
    + by rewrite app_assoc.
    + rewrite Hperm, map_app, concat_app, Hc1. by rewrite app_assoc.
    + exists (group ++ idxs). split; [by apply prefix_app|by apply builds_app].
    + destruct He as [?|[i Hi]]; [by left|right]. exists i. apply elem_of_app. by right.
    + intros HL. apply apart_app; auto.
Qed.

Lemma wp_build_groups flags test groups pending claims reports st
    (Q : expected (list GroupPending) * list PlaneClaim -> St -> Prop) :
  (forall i, i ∈ concat groups -> holds_scene i st) ->
  (forall eb, eb ∈ concat (map engaged pending) -> holds_scene (eb_index eb) st) ->
  (forall r claims' st' cs, steady st st' -> st_calls st' = st_calls st ++ cs ->
     groups_built flags groups pending claims r claims' cs -> Q (r, claims') st') ->
  wp (build_groups flags test groups pending claims reports) st Q.
Proof.
  revert pending claims st Q. induction groups as [|group groups IH]; intros pending claims st Q Hl Hp HQ; simpl.
  { apply wp_ret, (HQ _ _ _ []); [done|by rewrite app_nil_r|]. exists []. rewrite app_nil_r.
    simpl. split_and!; [done|constructor|by intros i e ?%not_elem_of_nil|done|by apply Forall_nil|done|done]. }
  apply wp_bind, wp_the_set. simpl in Hl. destruct (Atomic.valid _); simpl.
  2: { apply wp_bind, wp_finalize_groups; [done|]. intros rs st1 H1 _ Hc1.
       apply wp_ret, (HQ _ _ _ _ H1 Hc1). exists [], (concat (map engaged pending)).
       split_and!; try done; [by rewrite app_nil_r| |by left]. exists []. split; [apply prefix_nil|constructor]. }
  apply wp_bind, wp_build_group.
  { intros i Hi. apply Hl, elem_of_app. by left. }
  intros r gp claims1 st1 bs H1 Hc1 (Hen & Hfl & -> & Hap & Hr). simpl in Hen, Hfl.
  destruct r as [[]|e].
  - destruct Hr as [Hbs Hnf]. apply IH.
    + intros i Hi. apply H1, Hl, elem_of_app. by right.
    + intros eb Heb. apply H1.
      assert (Hin : eb ∈ concat (map engaged pending) \/ eb ∈ engaged gp).
      { destruct (engaged gp) eqn:E; [by left|]. rewrite map_app, concat_app in Heb. simpl in Heb.
        rewrite app_nil_r, E in Heb. by apply elem_of_app in Heb. }
      destruct Hin as [Hin|Hin]; [by apply Hp|]. rewrite Hen in Hin. apply Hl, elem_of_app. left. by eapply built_index.
    + intros r claims' st2 cs H2 Hc2 Hg. apply (HQ _ _ _ (bs ++ cs)).
      * by transitivity st1. * by rewrite Hc2, Hc1, app_assoc. * by apply (groups_built_cons _ _ _ _ _ gp).
  - destruct Hr as [(idxs & Hpre & Hbs) Hf].
    apply wp_bind, wp_finalize_with.
    { intros eb Heb. rewrite Hen in Heb. apply H1, Hl, elem_of_app. left. eapply built_index in Heb; [|done].
      destruct Hpre as [l ->]. apply elem_of_app. by left. }
    intros rs st2 H2 _ Hc2. apply wp_bind, wp_finalize_groups; [intros eb Heb; by apply H2, H1, Hp|].
    intros rs' st3 H3 _ Hc3. apply wp_ret, (HQ _ _ _ (bs ++ map (fin (Unexp e)) (engaged gp ++ concat (map engaged pending)))).
    + by transitivity st1; [|transitivity st2].
    + by rewrite Hc3, Hc2, Hc1, map_app, !app_assoc.
    + exists bs, (engaged gp ++ concat (map engaged pending)). split_and!; [done| |by exists idxs; split; [apply prefix_app_r|]|by right|done].
      rewrite Hen. apply Permutation_app_comm.
Qed.

(** ** Sending *)

(** The requests and verdicts of a second phase: each request, its verdict, and
    each of its frames told it. *)
Fixpoint sends (test : bool) (user_data : Z) gps (krs : list (expected unit)) : list SetCall :=
  match gps, krs with
  | gp :: gps', kr :: krs' =>
      SSubmit test
        (match gps' with [] => combined_flags gp | _ => Z.ldiff (combined_flags gp) DRM_MODE_PAGE_FLIP_EVENT end)
        (match gps' with [] => user_data | _ => 0 end) kr
      :: map (fin kr) (engaged gp) ++ sends test user_data gps' krs'
  | _, _ => []
  end.

(** The scenes whose request was refused. *)
Definition refused gps (krs : list (expected unit)) : list nat :=
  concat (zip_with (fun gp kr => if has_value kr then [] else map eb_index (engaged gp)) gps krs).

Definition first_refusal (krs : list (expected unit)) : option errc :=
  head (omap (fun kr => match kr with Unexp e => Some e | Val _ => None end) krs).

Lemma wp_submit test req flags st (Q : expected unit -> St -> Prop) :
  (forall kr st', steady st st' -> st_calls st' = st_calls st -> Q kr st') -> wp (submit test req flags) st Q.
Proof.
  intros HQ. unfold wp, submit. destruct ((if test then _ else _) _ _ _) as [kr k].
  eexists _, _. split; [done|]. by apply HQ; destruct st.
Qed.

Lemma wp_submit_groups test user_data gps reports failed err st
    (Q : Reports * list nat * option errc -> St -> Prop) :
  (forall eb, eb ∈ concat (map engaged gps) -> holds_scene (eb_index eb) st) ->
  (forall rs st' krs, steady st st' -> length krs = length gps -> length rs = length reports ->
     st_calls st' = st_calls st ++ sends test user_data gps krs ->
     Q (rs, failed ++ refused gps krs, match err with Some e => Some e | None => first_refusal krs end) st') ->
  wp (submit_groups test user_data gps reports failed err) st Q.
Proof.
  revert reports failed err st Q. induction gps as [|gp gps IH]; intros reports failed err st Q Hl HQ; cbn [submit_groups].
  { apply wp_ret. specialize (HQ reports st []). simpl in HQ. rewrite !app_nil_r in HQ. destruct err; by apply HQ. }
  apply wp_bind, wp_submit. intros kr st1 H1 Hc1. apply wp_bind, wp_set_log. intros st2 _ H2 Hc2.
  simpl in Hl. apply wp_bind, wp_finalize_with.
  { intros eb Heb. apply H2, H1, Hl, elem_of_app. by left. }
  intros rs st3 H3 Hn3 Hc3. apply IH.
  { intros eb Heb. apply H3, H2, H1, Hl, elem_of_app. by right. }
  intros rs' st4 krs H4 Hk Hn4 Hc4. specialize (HQ rs' st4 (kr :: krs)). simpl in HQ.
  replace (failed ++ refused (gp :: gps) (kr :: krs))
    with ((if has_value kr then failed else failed ++ map eb_index (engaged gp)) ++ refused gps krs) in HQ.
  - replace (match err with Some e => Some e | None => first_refusal (kr :: krs) end)
      with (match match kr with Val _ => err | Unexp e => match err with Some _ => err | None => Some e end end with
            | Some e => Some e | None => first_refusal krs end) in HQ by (by destruct kr, err).
    apply HQ.
    + by transitivity st1; [|transitivity st2; [|transitivity st3]].
    + by rewrite Hk.
    + congruence.
    + rewrite Hc4, Hc3, Hc2, Hc1. rewrite <- !app_assoc. simpl. destruct gps; done.
  - unfold refused. simpl. destruct (has_value kr); [done|]. by rewrite <- app_assoc.
Qed.

(** ** A whole commit *)

Lemma seed_keeps kms (s : SceneSet Scn) :
  let s' := seed_plane_owners kms s in
  scenes_ s' = scenes_ s /\ dev_fd s' = dev_fd s /\ set_slots_ s' = set_slots_ s /\
  free_set_slot_ids_ s' = free_set_slot_ids_ s.
Proof.
  unfold seed_plane_owners. destruct kms as [planes|]; [|by destruct s].
  assert (Hr : scenes_ (resize_seeded s) = scenes_ s /\ dev_fd (resize_seeded s) = dev_fd s /\
    set_slots_ (resize_seeded s) = set_slots_ s /\ free_set_slot_ids_ (resize_seeded s) = free_set_slot_ids_ s) by by destruct s.
  revert Hr. generalize (resize_seeded s). intros s0. generalize (seq 0 (length (scenes_ s0))). intros l. revert s0.
  induction l as [|i l IH]; intros s0 Hr; simpl in *; [done|]. apply IH.
  destruct (scenes_ s0 !! i) as [[x|]|]; [|done..]. destruct (seeded_ s0 !! i) as [[]|]; [done| |done]. by destruct s0.
Qed.

Lemma seed_no_scene kms (s : SceneSet Scn) :
  (forall i x, scenes_ s !! i <> Some (Some x)) -> plane_owner_ (seed_plane_owners kms s) = plane_owner_ s.
Proof.
  intros Hn. unfold seed_plane_owners. destruct kms as [planes|]; [|by destruct s].
  assert (Hr : scenes_ (resize_seeded s) = scenes_ s /\ plane_owner_ (resize_seeded s) = plane_owner_ s) by by destruct s.
  revert Hr. generalize (resize_seeded s). intros s0. generalize (seq 0 (length (scenes_ s0))). intros l. revert s0.
  induction l as [|i l IH]; intros s0 [Hs Ho]; simpl; [done|].
  destruct (scenes_ s0 !! i) as [[x|]|] eqn:Ei; [|by apply IH..]. rewrite Hs in Ei. by apply Hn in Ei.
Qed.

Lemma keep_none owner claims : owner = claims -> keep_claims [] owner claims = claims.
Proof.
  intros ->. unfold keep_claims. rewrite filter_every by (intros; apply not_elem_of_nil).
  generalize claims at 1 3. induction claims as [|c l IH]; intros acc; simpl; [done|].
  apply IH.
Qed.

(** How a commit ends: the build phase failed and nothing was sent, or every
    scene was asked and every group sent. *)
Definition failed_phase (r : expected Reports) bs rest : Prop :=
  exists e ebs, r = Unexp e /\ rest = map (fin (Unexp e)) ebs /\ ebs ≡ₚ built_of bs /\
    (e = Errno 12 \/ exists i, SBuild i (Unexp e) ∈ bs).

Definition sent_phase (flags : Z) (test : bool) (user_data : Z) st (r : expected Reports) bs rest gps krs : Prop :=
  rest = sends test user_data gps krs /\ length krs = length gps /\
  concat (map engaged gps) = built_of bs /\ Forall (well_built flags) gps /\ no_failure bs /\
  (forall i, holds_scene i st -> exists b, SBuild i b ∈ bs) /\
  match first_refusal krs with
  | Some e => r = Unexp e
  | None => exists reports, r = Val reports /\ length reports = length (scenes_ (st_set st))
  end.

Record committed flags test user_data kms st r st' bs rest : Prop := mkCommitted {
  cm_scenes : forall i, holds_scene i st' <-> holds_scene i st;
  cm_slots : set_slots_ (st_set st') = set_slots_ (st_set st) /\
             free_set_slot_ids_ (st_set st') = free_set_slot_ids_ (st_set st);
  cm_calls : st_calls st' = st_calls st ++ bs ++ rest;
  cm_builds : exists idxs, builds idxs bs /\ NoDup idxs /\ forall i, i ∈ idxs -> holds_scene i st;
  cm_apart : by_law (apart (plane_owner_ (seed_plane_owners kms (st_set st))) (built_of bs));
  cm_end : let owner := plane_owner_ (seed_plane_owners kms (st_set st)) in
    (failed_phase r bs rest /\ plane_owner_ (st_set st') = owner) \/
    (exists gps krs, sent_phase flags test user_data st r bs rest gps krs /\
       plane_owner_ (st_set st') =
         if test then owner else keep_claims (refused gps krs) owner (claim_builds owner (built_of bs)))
}.

Lemma partition_live policy st i :
  i ∈ concat (partition_for_policy (snapshot_slots (st_set st)) policy) <-> holds_scene i st.
Proof.
  destruct (partition_members (snapshot_slots (st_set st)) policy) as (_ & Hi). rewrite Hi.
  unfold snapshot_slots, holds_scene. setoid_rewrite list_lookup_fmap. destruct (scenes_ (st_set st) !! i) as [[x|]|]; simpl.
  - split; [eauto|]. intros _. by eexists.
  - split; [by intros (s & [= <-] & ?)|by intros (? & ?)].
  - split; [by intros (? & ? & _)|by intros (? & ?)].
Qed.

Lemma prefix_nodup {A} (l l' : list A) : l `prefix_of` l' -> NoDup l' -> NoDup l.
Proof. intros [k ->] [? _]%NoDup_app. done. Qed.

Lemma wp_do_commit_all flags test user_data policy kms st :
  wp (do_commit_all flags test user_data policy kms) st
     (fun r st' => exists bs rest, committed flags test user_data kms st r st' bs rest).
Proof.
  unfold do_commit_all. apply wp_bind, wp_the_set.
  pose proof (partition_live policy st) as Hlive.
  destruct (partition_members (snapshot_slots (st_set st)) policy) as (Hnd & _).
  destruct (partition_for_policy _ _) as [|g groups] eqn:Ep.
  { assert (Hno : forall i, ~ holds_scene i st) by (intros i ?%Hlive; by apply not_elem_of_nil in H).
    apply wp_ret. exists [], []. split; [done|done|by rewrite !app_nil_r| |done|].
    - exists []. split_and!; [constructor|apply NoDup_nil_2|by intros i ?%not_elem_of_nil].
    - right. exists [], []. split.
      + split_and!; try done; [by intros i e ?%not_elem_of_nil|by intros i ?%Hno|].
        eexists. split; [done|]. apply length_replicate.
      + simpl. rewrite seed_no_scene by (intros i x Hx; apply (Hno i); by exists x).
        destruct test; [done|]. by rewrite keep_none. }
  rewrite <- Ep in *. clear Ep g groups.
  set (groups := partition_for_policy _ _) in *. clearbody groups.
  apply wp_bind, wp_modify. set (st1 := st {{ st_set ::= seed_plane_owners kms }}).
  assert (H1 : st_set st1 = seed_plane_owners kms (st_set st) /\ st_calls st1 = st_calls st) by by destruct st.
  clearbody st1. destruct H1 as [Hs1 Hc1]. destruct (seed_keeps kms (st_set st)) as (Hsc & Hfd & Hsl & Hfr).
  rewrite <- Hs1 in Hsc, Hfd, Hsl, Hfr.
  assert (Hh1 : forall i, holds_scene i st1 <-> holds_scene i st) by (intros i; unfold holds_scene; by rewrite Hsc).
  apply wp_bind, wp_the_set. rewrite Hs1. set (owner := plane_owner_ (seed_plane_owners kms (st_set st))).
  apply wp_bind, wp_build_groups; [by intros i Hi; apply Hh1, Hlive|by intros eb ?%not_elem_of_nil|].
  intros built claims' st2 cs H2 Hc2 Hb.
  assert (Hown2 : plane_owner_ (st_set st2) = owner) by (rewrite (sd_owner _ _ H2), Hs1; done).
  assert (Hkeep : forall st3, steady st2 st3 -> (forall i, holds_scene i st3 <-> holds_scene i st) /\
    set_slots_ (st_set st3) = set_slots_ (st_set st) /\ free_set_slot_ids_ (st_set st3) = free_set_slot_ids_ (st_set st)).
  { intros st3 H3. assert (H13 : steady st1 st3) by by transitivity st2.
    destruct H13 as [Hi _ _ Hsl' Hfr' _ _]. split_and!; [intros i; by rewrite Hi|congruence|congruence]. }
  destruct built as [pending|e].
  2: { destruct Hb as (bs & ebs & -> & Hp & (idxs & Hpre & Hbs) & He & Hap). simpl in Hp.
       apply wp_ret. exists bs, (map (fin (Unexp e)) ebs). destruct (Hkeep st2) as (Hk1 & Hk2 & Hk3); [done|].
       split; [done|done|by rewrite Hc2, Hc1| |done|].
       - exists idxs. split_and!; [done|by eapply prefix_nodup|]. intros i Hi. apply Hlive. destruct Hpre as [l ->].
         apply elem_of_app. by left.
       - left. split; [|done]. by exists e, ebs. }
  destruct Hb as (new & -> & Hbs & Hnf & Hcon & Hwb & -> & Hap). simpl.
  assert (Hall : forall i, holds_scene i st -> exists b, SBuild i b ∈ cs).
  { intros i Hi%Hlive. apply list_elem_of_lookup in Hi as [k Hk].
    destruct (Forall2_lookup_l _ _ _ _ _ Hbs Hk) as (c & Hc & b & ->). exists b. by eapply list_elem_of_lookup_2. }
  assert (Hbi : exists idxs, builds idxs cs /\ NoDup idxs /\ forall i, i ∈ idxs -> holds_scene i st).
  { exists (concat groups). split_and!; [done|done|]. intros i. apply Hlive. }
  assert (Hin : forall eb, eb ∈ concat (map engaged new) -> holds_scene (eb_index eb) st2).
  { intros eb Heb. apply H2, Hh1, Hlive. rewrite Hcon in Heb. by eapply built_index. }
  destruct new as [|gp new].
  { apply wp_ret. exists cs, []. destruct (Hkeep st2) as (Hk1 & Hk2 & Hk3); [done|].
    split; [done|done|by rewrite app_nil_r, Hc2, Hc1|done|done|]. right. exists [], []. split.
    - split_and!; try done. eexists. split; [done|]. apply length_replicate.
    - rewrite <- Hcon. simpl. destruct test; [done|]. fold owner. by rewrite keep_none. }
  set (pending := gp :: new) in *. clearbody pending.
  apply wp_bind, wp_submit_groups; [done|]. intros rs st3 krs H3 Hk Hn3 Hc3.
  destruct (Hkeep st3 H3) as (Hk1 & Hk2 & Hk3).
  assert (Hsent : forall r, match first_refusal krs with Some e => r = Unexp e | None => r = Val rs end ->
    sent_phase flags test user_data st r cs (sends test user_data pending krs) pending krs).
  { intros r Hr. split_and!; try done. destruct (first_refusal krs); [done|]. exists rs. split; [done|].
    by rewrite Hn3, length_replicate. }
  assert (Hown3 : plane_owner_ (st_set st3) = owner) by (by rewrite (sd_owner _ _ H3)).
  assert (Hres : match (match first_refusal krs with Some e => Unexp e | None => Val rs end) with r =>
    match first_refusal krs with Some e => r = Unexp e | None => r = Val rs end end) by by destruct (first_refusal krs).
  apply wp_bind. destruct test.
  - apply wp_ret, wp_ret. exists cs, (sends true user_data pending krs).
    split; [done|done|by rewrite Hc3, Hc2, Hc1, <- app_assoc|done|done|]. right. exists pending, krs. split; [|done].
    by apply Hsent.
  - apply wp_modify, wp_ret. exists cs, (sends false user_data pending krs).
    set (st4 := st3 {{ st_set ::= _ }}).
    assert (H4 : scenes_ (st_set st4) = scenes_ (st_set st3) /\ set_slots_ (st_set st4) = set_slots_ (st_set st3) /\
      free_set_slot_ids_ (st_set st4) = free_set_slot_ids_ (st_set st3) /\ st_calls st4 = st_calls st3 /\
      plane_owner_ (st_set st4) = keep_claims (refused pending krs) (plane_owner_ (st_set st3)) (claim_builds owner (built_of cs)))
      by (unfold st4; by destruct st3 as [[] ? ?]).
    clearbody st4. destruct H4 as (Hs4 & Hsl4 & Hf4 & Hc4 & Ho4).
    split.
    + intros i. rewrite <- Hk1. unfold holds_scene. by rewrite Hs4.
    + split; congruence.
    + by rewrite Hc4, Hc3, Hc2, Hc1, <- app_assoc.
    + done.
    + done.
    + right. exists pending, krs. split; [by apply Hsent|]. by rewrite Ho4, Hown3.
Qed.

(** ** Every frame built is finalised *)

Definition finalised_of cs : list EngagedBuild :=
  omap (fun c => match c with SFinalize i f _ => Some (mkEngaged i f) | _ => None end) cs.

(** The flags and the user data of the requests sent. *)
Definition submits_of cs : list (Z * Z) :=
  omap (fun c => match c with SSubmit _ flags user_data _ => Some (flags, user_data) | _ => None end) cs.

Lemma finalised_fins kr ebs : finalised_of (map (fin kr) ebs) = ebs.
Proof. induction ebs as [|[i f] ebs IH]; simpl; [done|by rewrite IH]. Qed.

Lemma submits_fins kr ebs : submits_of (map (fin kr) ebs) = [].
Proof. by induction ebs. Qed.

Lemma built_sends test user_data gps krs : built_of (sends test user_data gps krs) = [].
Proof.
  revert krs. induction gps as [|gp gps IH]; intros [|kr krs]; try done. cbn [sends]. simpl.
  by rewrite built_app, built_fins, IH.
Qed.

Lemma finalised_sends test user_data gps krs :
  length krs = length gps -> finalised_of (sends test user_data gps krs) = concat (map engaged gps).
Proof.
  revert krs. induction gps as [|gp gps IH]; intros [|kr krs] Hl; try done. injection Hl as Hl. simpl.
  unfold finalised_of in *. rewrite omap_app. fold (finalised_of (map (fin kr) (engaged gp))).
  by rewrite finalised_fins, IH.
Qed.

Lemma submits_sends test user_data gps krs :
  Forall (fun '(flags, u) => Z.land flags DRM_MODE_PAGE_FLIP_EVENT = 0 /\ u = 0)
    (removelast (submits_of (sends test user_data gps krs))).
Proof.
  revert krs. induction gps as [|gp gps IH]; intros [|kr krs]; simpl; try (by apply Forall_nil).
  unfold submits_of in *. rewrite omap_app. fold (submits_of (map (fin kr) (engaged gp))).
  rewrite submits_fins. simpl. destruct gps as [|gp' gps]; [by apply Forall_nil|].
  specialize (IH krs). destruct (omap _ (sends _ _ _ _)); [by apply Forall_nil|].
  apply Forall_cons. split; [split; [|done]|done].
  apply Z.bits_inj'. intros n Hn. rewrite Z.land_spec, Z.ldiff_spec, Z.bits_0. by destruct (Z.testbit _ n), (Z.testbit _ n).
Qed.


(** ** Who owns a plane *)

(** The planes [owner] gives to [i]. *)
Definition owns (claims : list PlaneClaim) (p : Z) (i : nat) : Prop := mkClaim p i ∈ claims.

Definition one_owner (claims : list PlaneClaim) : Prop := NoDup (map cl_plane claims).

Lemma one_owner_inj claims c c' : one_owner claims -> c ∈ claims -> c' ∈ claims -> cl_plane c = cl_plane c' -> c = c'.
Proof.
  unfold one_owner. induction claims as [|d claims IH]; intros Hn Hc Hc' He; [by apply not_elem_of_nil in Hc|].
  simpl in Hn. apply NoDup_cons in Hn as [Hd Hn].
  assert (Hin : forall x, x ∈ claims -> cl_plane x ∈ map cl_plane claims) by (intros x ?; by apply (list_elem_of_fmap_2 cl_plane)).
  apply elem_of_cons in Hc as [->|Hc], Hc' as [->|Hc']; [done| | |by apply IH].
  - rewrite He in Hd. by apply Hin in Hc'.
  - rewrite <- He in Hd. by apply Hin in Hc.
Qed.

Lemma one_owner_filter (P : PlaneClaim -> Prop) `{forall c, Decision (P c)} claims :
  one_owner claims -> one_owner (filter P claims).
Proof.
  unfold one_owner. induction claims as [|c claims IH]; [done|]. simpl. intros [Hc Hn]%NoDup_cons.
  rewrite filter_cons. case_decide; [|auto]. simpl. apply NoDup_cons. split; [|auto].
  intros (d & He & [_ Hd]%list_elem_of_In%list_elem_of_filter)%list_elem_of_In%in_map_iff. apply Hc. rewrite <- He.
  by apply (list_elem_of_fmap_2 cl_plane).
Qed.

Lemma set_owner_owns idx claims plane p i :
  one_owner claims ->
  owns (set_owner idx claims plane) p i <-> (if decide (p = plane) then i = idx else owns claims p i).
Proof.
  intros Hn. unfold set_owner, owns. destruct (list_find _ claims) as [[k c]|] eqn:Ef.
  - apply list_find_Some in Ef as (Hk & Hp & _).
    destruct (lookup_split _ _ _ Hk) as (l1 & l2 & Hl & _ & Hins & _). rewrite Hins. rewrite Hl in Hn |- *.
    assert (Hno : forall x, x ∈ l1 ++ l2 -> cl_plane x <> plane).
    { intros x Hx <-. unfold one_owner in Hn. rewrite <- Permutation_middle in Hn. simpl in Hn.
      apply NoDup_cons in Hn as [Hnc _]. apply Hnc. rewrite Hp. by apply (list_elem_of_fmap_2 cl_plane). }
    rewrite !elem_of_app, !elem_of_cons. setoid_rewrite elem_of_app in Hno. destruct (decide (p = plane)) as [->|Hne].
    + split; [|by intros ->; auto]. intros [Hx|[Hx|Hx]]; [exfalso; by eapply Hno; eauto|by injection Hx|exfalso; by eapply Hno; eauto].
    + rewrite elem_of_app, elem_of_cons. assert (mkClaim p i <> mkClaim plane idx) by congruence. assert (mkClaim p i <> c) by (intros <-; done). tauto.
  - apply list_find_None in Ef. rewrite Forall_forall in Ef. rewrite elem_of_app, list_elem_of_singleton.
    destruct (decide (p = plane)) as [->|Hne].
    + split; [|by intros ->; right]. intros [Hx|Hx]; [by apply Ef in Hx|by injection Hx].
    + split; [intros [?|[=]]; done|by left].
Qed.

Lemma set_owner_one idx claims plane : one_owner claims -> one_owner (set_owner idx claims plane).
Proof.
  intros Hn. unfold set_owner. destruct (list_find _ claims) as [[k c]|] eqn:Ef.
  - apply list_find_Some in Ef as (Hk & Hp & _).
    destruct (lookup_split _ _ _ Hk) as (l1 & l2 & Hl & _ & Hins & _). rewrite Hins. rewrite Hl in Hn.
    unfold one_owner in *. rewrite map_app in *. simpl in *. by rewrite <- Hp.
  - apply list_find_None in Ef. rewrite Forall_forall in Ef. unfold one_owner. rewrite map_app.
    apply NoDup_app. split_and!; [done| |apply NoDup_singleton].
    intros x (c & <- & Hc)%list_elem_of_In%in_map_iff Hx. apply list_elem_of_singleton in Hx.
    apply (Ef c); [by apply list_elem_of_In|done].
Qed.

Lemma claim_owns idx armed claims p i :
  one_owner claims -> (forall c, c ∈ claims -> cl_owner c <> idx -> cl_plane c ∉ armed) ->
  one_owner (claim idx armed claims) /\
  (owns (claim idx armed claims) p i <-> (if decide (i = idx) then p ∈ armed else owns claims p i)).
Proof.
  intros Hn Hap. unfold claim.
  set (base := filter (fun c => cl_owner c <> idx) claims).
  assert (Hb : one_owner base) by by apply one_owner_filter.
  assert (Hbase : forall q j, owns base q j <-> j <> idx /\ owns claims q j).
  { intros q j. unfold owns, base. by rewrite list_elem_of_filter. }
  clearbody base.
  enough (Hg : forall l base0, one_owner base0 ->
    one_owner (foldl (set_owner idx) base0 l) /\
    (owns (foldl (set_owner idx) base0 l) p i <-> (if decide (p ∈ l) then i = idx else owns base0 p i))).
  { destruct (Hg armed base Hb) as [H1 H2]. split; [done|]. rewrite H2. specialize (Hbase p i).
    destruct (decide (p ∈ armed)) as [Hp|Hp], (decide (i = idx)) as [->|Hi]; [done| |tauto|tauto].
    split; [done|]. intros Ho. exfalso. by apply (Hap _ Ho Hi). }
  clear. induction l as [|q l IH]; intros base0 Hb0; simpl; [by split|].
  destruct (IH (set_owner idx base0 q)) as [H1 H2]; [by apply set_owner_one|]. split; [done|]. rewrite H2.
  pose proof (set_owner_owns idx base0 q p i Hb0) as Ho. assert (Hc : p ∈ q :: l <-> p = q \/ p ∈ l) by apply elem_of_cons.
  repeat case_decide; tauto.
Qed.

Lemma claim_builds_owns ebs claims :
  one_owner claims -> apart claims ebs -> NoDup (map eb_index ebs) ->
  one_owner (claim_builds claims ebs) /\ forall p i,
  owns (claim_builds claims ebs) p i <->
    (exists eb, eb ∈ ebs /\ eb_index eb = i /\ p ∈ armed_planes_of (eb_state eb)) \/
    (i ∉ map eb_index ebs /\ owns claims p i).
Proof.
  revert claims. induction ebs as [|eb ebs IH]; intros claims Hn Hap Hnd; simpl in *.
  { split; [done|]. intros p i. split; [intros Ho; right; split; [apply not_elem_of_nil|done]|].
    intros [(x & Hx%not_elem_of_nil & _)|[_ ?]]; done. }
  destruct Hap as [Ha Hap]. apply NoDup_cons in Hnd as [Hni Hnd].
  destruct (IH (claim (eb_index eb) (armed_planes_of (eb_state eb)) claims)) as [H1 H2];
    [by apply (claim_owns _ _ _ 0 0%nat)|done|done|].
  split; [done|]. intros p i. rewrite H2. rewrite (proj2 (claim_owns _ _ _ p i Hn Ha)), not_elem_of_cons.
  assert (Hx : forall x, x ∈ ebs -> eb_index x ∈ map eb_index ebs) by (intros x ?; by apply (list_elem_of_fmap_2 eb_index)).
  setoid_rewrite elem_of_cons. destruct (decide (i = eb_index eb)) as [->|Hne].
  - split; [intros [(x & ? & ? & ?)|[_ ?]]; left; eauto|]. intros [(x & [->|Hin] & He & Hp)|[[Hbad _] _]]; [by right| |done].
    left. eauto.
  - split.
    + intros [(x & ? & ? & ?)|[? ?]]; [left; eauto|by right].
    + intros [(x & [->|Hin] & He & Hp)|[[_ ?] ?]]; [by destruct Hne|left; eauto|by right].
Qed.

Lemma keep_claims_owns failed owner claims :
  one_owner owner -> one_owner claims ->
  one_owner (keep_claims failed owner claims) /\ forall p i,
  owns (keep_claims failed owner claims) p i <->
    (i ∉ failed /\ owns claims p i) \/
    (i ∈ failed /\ owns owner p i /\ forall j, j ∉ failed -> ~ owns claims p j).
Proof.
  intros Ho Hc. unfold keep_claims. set (base := filter _ claims).
  assert (Hb : one_owner base) by by apply one_owner_filter.
  assert (Hbase : forall q j, owns base q j <-> j ∉ failed /\ owns claims q j).
  { intros q j. unfold owns, base. by rewrite list_elem_of_filter. }
  clearbody base. clear Hc.
  assert (Hex : forall (acc : list PlaneClaim) q, existsb (fun k => cl_plane k =? q) acc = true <-> exists j, owns acc q j).
  { intros acc q. rewrite existsb_exists. setoid_rewrite <- list_elem_of_In. split.
    - intros ([pl j] & Hin & He%Z.eqb_eq). exists j. simpl in He. by rewrite <- He.
    - intros [j Hj]. exists (mkClaim q j). split; [done|apply Z.eqb_refl]. }
  enough (Hg : forall l acc, one_owner acc -> one_owner l ->
    let res := foldl (fun claims c => if bool_decide (cl_owner c ∈ failed) && negb (existsb (fun k => cl_plane k =? cl_plane c) claims)
                                      then claims ++ [c] else claims) acc l in
    one_owner res /\ forall p i, owns res p i <-> owns acc p i \/ (i ∈ failed /\ owns l p i /\ forall j, ~ owns acc p j)).
  { destruct (Hg owner base Hb Ho) as [H1 H2]. split; [done|]. intros p i. rewrite H2. setoid_rewrite Hbase. naive_solver. }
  clear -Hex. induction l as [|[q k] l IH]; intros acc Ha Hl; simpl.
  { split; [done|]. intros p i. split; [by left|]. intros [?|(_ & ?%not_elem_of_nil & _)]; done. }
  simpl in Hl. apply NoDup_cons in Hl as [Hq Hl].
  assert (Hql : forall j, ~ owns l q j) by (intros j Hj; apply Hq; by apply (list_elem_of_fmap_2 cl_plane l (mkClaim q j))).
  assert (Hcons : forall p i, owns (mkClaim q k :: l) p i <-> (p = q /\ i = k) \/ owns l p i).
  { intros p i. unfold owns. rewrite elem_of_cons. naive_solver. }
  destruct (bool_decide (k ∈ failed)) eqn:Ek; bool_simpl; simpl.
  2: { destruct (IH acc Ha Hl) as [H1 H2]. split; [done|]. intros p i. rewrite H2, Hcons. naive_solver. }
  destruct (existsb _ acc) eqn:Ee; simpl.
  - apply Hex in Ee as [j Hj]. destruct (IH acc Ha Hl) as [H1 H2]. split; [done|]. intros p i. rewrite H2, Hcons. naive_solver.
  - assert (Hno : forall j, ~ owns acc q j).
    { intros j Hj. apply not_true_iff_false in Ee. apply Ee, Hex. eauto. }
    destruct (IH (acc ++ [mkClaim q k])) as [H1 H2]; [|done|].
    { unfold one_owner. rewrite map_app. apply NoDup_app. split_and!; [done| |apply NoDup_singleton].
      intros x ([pl j] & <- & Hc)%list_elem_of_In%in_map_iff Hx. apply list_elem_of_singleton in Hx. simpl in Hx. subst pl.
      apply (Hno j). by apply list_elem_of_In. }
    assert (Happ : forall p i, owns (acc ++ [mkClaim q k]) p i <-> owns acc p i \/ (p = q /\ i = k)).
    { intros p i. unfold owns. rewrite elem_of_app, list_elem_of_singleton. naive_solver. }
    split; [done|]. intros p i. rewrite H2, Hcons. setoid_rewrite Happ. split.
    + intros [[?|[-> ->]]|(Hf & Hi & Hn)]; [by left|right; naive_solver|right]. split_and!; [done|by right|naive_solver].
    + intros [?|(Hf & [[-> ->]|Hi] & Hn)]; [by left; left|by left; right|].
      destruct (decide (p = q)) as [->|Hne]; [by apply Hql in Hi|]. right. split_and!; [done|done|]. naive_solver.
Qed.

End Commit.
