(* ===== verification/SceneSetProps.v ===== *)
(** Runs of a set of scenes: who owns each plane, and where the layers routed
    through the set are; what its flags do. *)
From S2P Require Import Prelude StateMonad DrmAbi Layer Atomic BufferSource SceneLayer SourceMirror SceneSet SceneSetCommit.

Section SetRuns.
Context `{abi : DrmAbi} `{lib : Libdrm} {Scn Sh : Type} `{HC : !ChildScene Scn Sh}.
Notation St := (SetState (Scn := Scn) (Sh := Sh)).
Notation SetM := (ST St).
Implicit Types (st : St) (cs : list SetCall) (o : list PerScenePin).

(** ** Runs *)

Inductive SetOp :=
  | OAddScene (scene : option Scn)
  | ORemoveScene (index : nat)
  | OAddLayer (spec : SceneSetLayerSpec)
  | ORemoveLayer (h : LayerHandle)
  | OCommit (flags : Z) (test_only : bool) (user_data : Z) (policy : NarrowPolicy) (kms : option (list (option KmsPlane))).

Definition run_set_op (op : SetOp) : SetM unit :=
  match op with
  | OAddScene scene => _ ← add_scene scene; mret tt
  | ORemoveScene index => remove_scene index
  | OAddLayer spec => _ ← add_set_layer spec; mret tt
  | ORemoveLayer h => remove_set_layer h
  | OCommit flags test_only user_data policy kms => _ ← do_commit_all flags test_only user_data policy kms; mret tt
  end.

(** What the application does with a scene of the set, or elsewhere. *)
Definition own_work (i : nat) (s : Scn) (w : Outside Sh) st : St :=
  mkSetState ((st_set st) {{ scenes_ ::= alter (fun x => match x with Some _ => Some s | None => None end) i }})
    w (st_calls st).

Inductive set_reach : St -> Prop :=
  | sr_create fd scenes w : set_reach (mkSetState (SceneSet.create fd scenes) w [])
  | sr_op st op st' : set_reach st -> run_set_op op st = Some (tt, st') -> set_reach st'
  | sr_scene st i s w : set_reach st -> set_reach (own_work i s w st).

(** ** The pins of the set *)

(** The layers added through the set and still on their scenes; [None] when
    one is removed that is not there. *)
Fixpoint routed o cs : option (list PerScenePin) :=
  match cs with
  | [] => Some o
  | SAdd i h :: cs' => routed (o ++ [mkPin i h]) cs'
  | SRemove i h :: cs' =>
      match list_find (fun p => scene_index p = i /\ layer_handle p = h) o with
      | Some (k, _) => routed (delete k o) cs'
      | None => None
      end
  | SDestroy i :: cs' => routed (filter (fun p => scene_index p <> i) o) cs'
  | _ :: cs' => routed o cs'
  end.

Lemma routed_app o cs cs' : routed o (cs ++ cs') = o' ← routed o cs; routed o' cs'.
Proof.
  revert o. induction cs as [|c cs IH]; intros o; simpl; [done|]. destruct c; try apply IH.
  by destruct (list_find _ o) as [[k p]|].
Qed.

Definition live_pins (s : SceneSet Scn) : list PerScenePin :=
  concat (map (fun slot => if set_alive slot then pins slot else []) (set_slots_ s)).

(** The books of a set. *)
Record set_inv st : Prop := mkSetInv {
  si_routed : exists o, routed [] (st_calls st) = Some o /\ o ≡ₚ live_pins (st_set st);
  si_dead : forall i slot, set_slots_ (st_set st) !! i = Some slot -> set_alive slot = false -> pins slot = [];
  si_free : forall i, i ∈ free_set_slot_ids_ (st_set st) ->
    exists slot, set_slots_ (st_set st) !! i = Some slot /\ set_alive slot = false;
  si_free_once : NoDup (free_set_slot_ids_ (st_set st));
  si_pins : forall p, p ∈ live_pins (st_set st) -> holds_scene (scene_index p) st;
  si_owner : one_owner (plane_owner_ (st_set st));
  si_owns : forall p i, owns (plane_owner_ (st_set st)) p i -> holds_scene i st
}.

(** The set itself is as it was, and so are the layers. *)
Lemma inv_frame st st' cs :
  set_inv st -> (forall i, holds_scene i st' <-> holds_scene i st) ->
  set_slots_ (st_set st') = set_slots_ (st_set st) ->
  free_set_slot_ids_ (st_set st') = free_set_slot_ids_ (st_set st) ->
  st_calls st' = st_calls st ++ cs -> (forall o, routed o cs = Some o) ->
  one_owner (plane_owner_ (st_set st')) ->
  (forall p i, owns (plane_owner_ (st_set st')) p i -> holds_scene i st) -> set_inv st'.
Proof.
  intros [(o & Hr & Ho) Hd Hf Hfo Hp _ _] Hh Hs Hfr Hc Hcs Hone Hown.
  split; rewrite ?Hs, ?Hfr; try done.
  - exists o. unfold live_pins in *. rewrite Hs, Hc, routed_app, Hr. simpl. by rewrite Hcs.
  - intros p Hin. apply Hh, Hp. unfold live_pins in *. by rewrite <- Hs.
  - intros p i Hi. apply Hh. by eapply Hown.
Qed.

(** *** Scenes that come and go *)

Lemma holds_insert s0 i (x : Scn) j st st' :
  scenes_ (st_set st) = s0 -> (i < length s0)%nat -> scenes_ (st_set st') = <[i := Some x]> s0 ->
  holds_scene j st' <-> j = i \/ holds_scene j st.
Proof.
  intros Hs Hi Hs'. unfold holds_scene. rewrite Hs', Hs. destruct (decide (i = j)) as [->|Hn].
  - rewrite list_lookup_insert_eq by done. naive_solver.
  - rewrite list_lookup_insert_ne by done. naive_solver.
Qed.

Lemma inv_grow st st' :
  set_inv st -> (forall i, holds_scene i st -> holds_scene i st') ->
  set_slots_ (st_set st') = set_slots_ (st_set st) ->
  free_set_slot_ids_ (st_set st') = free_set_slot_ids_ (st_set st) ->
  plane_owner_ (st_set st') = plane_owner_ (st_set st) -> st_calls st' = st_calls st -> set_inv st'.
Proof.
  intros [(o & Hr & Ho) Hd Hf Hfo Hp Hone Hown] Hh Hs Hfr Hpo Hc.
  unfold live_pins in *. split; unfold live_pins; rewrite ?Hs, ?Hfr, ?Hpo, ?Hc; eauto.
Qed.

Lemma add_scene_inv scene st st' r : set_inv st -> add_scene scene st = Some (r, st') -> set_inv st'.
Proof.
  intros Hi. destruct scene as [x|]; [|by intros [= <- <-]]. unfold add_scene.
  intros (s & st1 & [= <- <-] & Hrun)%bind_run. unfold first_hole in Hrun.
  destruct (list_find _ (scenes_ (st_set st))) as [[i y]|] eqn:Ef; simpl in Hrun.
  - apply list_find_Some in Ef as (Hk & -> & _). apply lookup_lt_Some in Hk as Hlt.
    apply bind_run in Hrun as ([] & st1 & Hm & Hrun). injection Hrun as <- <-. injection Hm as <-.
    apply (inv_grow st); [done| |by destruct st as [[] ? ?]..].
    intros j Hj. apply (holds_insert _ i x j st _ eq_refl Hlt); [by destruct st as [[] ? ?]|by right].
  - apply bind_run in Hrun as ([] & st1 & Hm & Hrun). injection Hrun as <- <-. injection Hm as <-.
    apply (inv_grow st); [done| |by destruct st as [[] ? ?]..].
    intros j [y Hj]. exists y. destruct st as [[] ? ?]; simpl in *. rewrite lookup_app_l; [done|]. by eapply lookup_lt_Some.
Qed.

Lemma live_drop index (slots : list SetLayerSlot) :
  concat (map (fun slot => if set_alive slot then pins slot else []) (map (drop_pins index) slots)) =
  filter (fun p => scene_index p <> index) (concat (map (fun slot => if set_alive slot then pins slot else []) slots)).
Proof.
  induction slots as [|[ps g al] slots IH]; simpl; [done|]. rewrite filter_app, IH. f_equal.
  by destruct al.
Qed.

Lemma remove_scene_inv index st st' : set_inv st -> remove_scene index st = Some (tt, st') -> set_inv st'.
Proof.
  intros Hi. unfold remove_scene. intros (s & st1 & [= <- <-] & Hrun)%bind_run.
  destruct (scenes_ (st_set st) !! index) as [[x|]|] eqn:Ex; [|by injection Hrun as <-..].
  injection Hrun as <-. destruct Hi as [(o & Hr & Ho) Hd Hf Hfo Hp Hone Hown].
  destruct st as [[fd scs slots free owner seeded] w cs]; unfold live_pins, holds_scene in *; simpl in *.
  assert (Hlt : (index < length scs)%nat) by (by eapply lookup_lt_Some).
  assert (Hh : forall j, j <> index -> (exists s, scs !! j = Some (Some s)) -> exists s, <[index := None]> scs !! j = Some (Some s)).
  { intros j Hj Hs. by rewrite list_lookup_insert_ne. }
  split; unfold live_pins, holds_scene; simpl.
  - exists (filter (fun p => scene_index p <> index) o). rewrite routed_app, Hr, live_drop. split; [done|by rewrite Ho].
  - intros i slot Hs Ha. rewrite list_lookup_fmap in Hs. destruct (slots !! i) as [sl|] eqn:Es; [|done].
    injection Hs as <-. unfold drop_pins in *. destruct (set_alive sl) eqn:Ea; [by destruct sl; simpl in *; congruence|].
    by apply (Hd i).
  - intros i Hin. destruct (Hf i Hin) as (slot & Hs & Ha). exists (drop_pins index slot).
    rewrite list_lookup_fmap, Hs. split; [done|]. unfold drop_pins. by rewrite Ha.
  - done.
  - intros p Hin. rewrite live_drop in Hin. apply list_elem_of_filter in Hin as [Hne Hin]. auto.
  - by apply one_owner_filter.
  - intros p i Hin. apply list_elem_of_filter in Hin as [Hne Hin]. eauto.
Qed.

(** *** Layers *)

Definition add_call (p : PerScenePin) : SetCall := SAdd (scene_index p) (layer_handle p).
Definition remove_call (p : PerScenePin) : SetCall := SRemove (scene_index p) (layer_handle p).

Lemma routed_adds o ps : routed o (map add_call ps) = Some (o ++ ps).
Proof.
  revert o. induction ps as [|[i h] ps IH]; intros o; simpl; [by rewrite app_nil_r|]. rewrite IH.
  by rewrite <- app_assoc.
Qed.

Lemma routed_removes o0 ps o :
  o ≡ₚ o0 ++ ps -> exists o', routed o (map remove_call ps) = Some o' /\ o' ≡ₚ o0.
Proof.
  revert o. induction ps as [|[i h] ps IH]; intros o Ho; simpl.
  { exists o. by rewrite app_nil_r in Ho. }
  destruct (list_find _ o) as [[k p]|] eqn:Ef.
  - apply list_find_Some in Ef as (Hk & [Hi Hh] & _). apply IH.
    assert (Hp : p = mkPin i h) by (destruct p; simpl in *; congruence). subst p.
    apply delete_Permutation in Hk. rewrite Hk, <- Permutation_middle in Ho. by apply (inj (cons _)) in Ho.
  - apply list_find_None in Ef. rewrite Forall_forall in Ef. exfalso. apply (Ef (mkPin i h)); [|done].
    rewrite Ho. apply elem_of_app. right. by left.
Qed.

Lemma wp_remove_pins ps st (Q : unit -> St -> Prop) :
  (forall p, p ∈ ps -> holds_scene (scene_index p) st) ->
  (forall st', steady st st' -> st_calls st' = st_calls st ++ map remove_call ps -> Q tt st') ->
  wp (for_each remove_pin ps) st Q.
Proof.
  revert st. induction ps as [|p ps IH]; intros st Hl HQ; simpl.
  { apply wp_ret, HQ; [done|by rewrite app_nil_r]. }
  apply wp_bind, wp_bind, wp_call_scene; [apply Hl; by left|]. intros [] s s' w' st1 _ _ _ H1 _ Hc1.
  apply wp_set_log. intros st2 _ H2 Hc2. assert (H02 : steady st st2) by by transitivity st1.
  apply IH; [intros q Hq; apply H02, Hl; by right|]. intros st3 H3 Hc3. apply HQ; [by transitivity st2|].
  by rewrite Hc3, Hc2, Hc1, <- app_assoc.
Qed.

Context {HL : ChildSceneLaws Scn Sh}.

(** The mirror the targets share is there. *)
Definition mirror_there (mirror : option nat) st : Prop :=
  match mirror with Some m => (m < length (o_mirrors (st_out st)))%nat | None => True end.

Lemma wp_source_for mirror src st (Q : SetSource -> St -> Prop) :
  mirror_there mirror st ->
  (forall x st', steady st st' -> st_calls st' = st_calls st -> mirror_there mirror st' -> Q x st') ->
  wp (source_for mirror src) st Q.
Proof.
  intros Hm HQ. destruct mirror as [m|]; simpl in *; [|by apply wp_ret, HQ].
  destruct (lookup_lt_is_Some_2 _ _ Hm) as [x Hx]. unfold wp. rewrite Hx. simpl. destruct (make_consumer x) as [id x'].
  eexists _, _. split; [done|]. apply HQ; [by destruct st|by destruct st|].
  destruct st as [? [] ?]; simpl in *. by rewrite length_insert.
Qed.

Lemma wp_add_targets mirror src added ts st (Q : expected (list PerScenePin) -> St -> Prop) :
  mirror_there mirror st ->
  (forall t, t ∈ ts -> holds_scene (t_scene_index t) st) ->
  (forall p, p ∈ added -> holds_scene (scene_index p) st) ->
  (forall r st' ps, steady st st' ->
     match r with
     | Val added' => added' = added ++ ps /\ map scene_index ps = map t_scene_index ts /\
                     st_calls st' = st_calls st ++ map add_call ps
     | Unexp e => st_calls st' = st_calls st ++ map add_call ps ++ map remove_call (added ++ ps)
     end -> Q r st') ->
  wp (add_targets mirror src added ts) st Q.
Proof.
  revert added st Q. induction ts as [|t ts IH]; intros added st Q Hm Ht Ha HQ; simpl.
  { apply wp_ret, (HQ _ _ []); [done|]. by rewrite !app_nil_r. }
  apply wp_bind, wp_source_for; [done|]. intros x st1 H1 Hc1 Hm1.
  apply wp_bind, wp_call_scene; [by apply H1, Ht; left|]. intros r s s' w' st2 _ Hadd _ H2 Hw2 Hc2.
  assert (Hm2 : mirror_there mirror st2).
  { destruct mirror; [|done]. simpl in *. by rewrite Hw2, (add_layer_mirrors _ _ _ _ _ _ Hadd). }
  assert (H02 : steady st st2) by by transitivity st1.
  destruct r as [h|e].
  - apply wp_bind, wp_set_log. intros st3 Hs3 H3 Hc3. assert (H03 : steady st st3) by by transitivity st2.
    apply IH.
    + destruct mirror; [|done]. simpl in *. by rewrite Hs3.
    + intros t' Ht'. apply H03, Ht. by right.
    + intros p [Hp| ->%list_elem_of_singleton]%elem_of_app; apply H03; [by apply Ha|]. apply Ht. by left.
    + intros r st4 ps H4 Hr. apply (HQ _ _ (mkPin (t_scene_index t) h :: ps)); [by transitivity st3|].
      assert (Hc03 : st_calls st3 = st_calls st ++ [SAdd (t_scene_index t) h]) by congruence.
      rewrite Hc03 in Hr. destruct r as [added'|e]; simpl.
      * destruct Hr as (-> & Hi & ->). rewrite <- !app_assoc, Hi. done.
      * rewrite Hr, <- !app_assoc. done.
  - apply wp_bind, wp_remove_pins; [intros p Hp; by apply H02, Ha|]. intros st3 H3 Hc3.
    apply wp_ret, (HQ _ _ []); [by transitivity st2|]. rewrite app_nil_r. simpl. congruence.
Qed.

(** A slot to fill: a dead one, or a new one. *)
Lemma take_set_slot_spec (s : SceneSet Scn) i s' :
  (forall i, i ∈ free_set_slot_ids_ s -> exists slot, set_slots_ s !! i = Some slot /\ set_alive slot = false) ->
  (forall i slot, set_slots_ s !! i = Some slot -> set_alive slot = false -> pins slot = []) ->
  NoDup (free_set_slot_ids_ s) -> take_set_slot s = (i, s') ->
  exists slot, set_slots_ s' !! i = Some slot /\ set_alive slot = false /\ live_pins s' = live_pins s /\
    i ∉ free_set_slot_ids_ s' /\ NoDup (free_set_slot_ids_ s') /\
    scenes_ s' = scenes_ s /\ plane_owner_ s' = plane_owner_ s /\
    (forall j, j ∈ free_set_slot_ids_ s' -> exists slot, set_slots_ s' !! j = Some slot /\ set_alive slot = false) /\
    (forall j slot, set_slots_ s' !! j = Some slot -> set_alive slot = false -> pins slot = []).
Proof.
  intros Hf Hd Hn. unfold take_set_slot. destruct (last (free_set_slot_ids_ s)) as [k|] eqn:El.
  - intros [= <- <-]. apply last_Some in El as [l Hl]. destruct (Hf k) as (slot & Hk & Ha).
    { rewrite Hl. apply elem_of_app. right. by left. }
    destruct s as [fd scs slots free owner seeded]; unfold live_pins in *; simpl in *. subst free.
    rewrite removelast_last. exists slot. apply NoDup_app in Hn as (Hn & Hkl & _).
    split_and!; try done; [intros Hin; by apply (Hkl k Hin); left|].
    intros j Hj. apply Hf, elem_of_app. by left.
  - intros [= <- <-]. apply last_None in El.
    destruct s as [fd scs slots free owner seeded]; unfold live_pins in *; simpl in *. subst free.
    exists (mkSetSlot [] 0 false). rewrite lookup_app_r, Nat.sub_diag by lia. split_and!; try done.
    + rewrite map_app, concat_app. simpl. by rewrite app_nil_r.
    + apply not_elem_of_nil.
    + by intros j ?%not_elem_of_nil.
    + intros j slot Hj Ha. destruct (decide (j < length slots)%nat).
      * rewrite lookup_app_l in Hj by done. eauto.
      * rewrite lookup_app_r in Hj by lia. apply list_lookup_singleton_Some in Hj as [_ <-]. done.
Qed.

Lemma live_fill (slots : list SetLayerSlot) i slot new :
  slots !! i = Some slot -> pins slot = [] \/ set_alive slot = false -> set_alive new = true ->
  concat (map (fun slot => if set_alive slot then pins slot else []) (<[i := new]> slots)) ≡ₚ
  concat (map (fun slot => if set_alive slot then pins slot else []) slots) ++ pins new.
Proof.
  intros Hi Hs Hn. destruct (lookup_split _ _ _ Hi) as (l1 & l2 & Hl & _ & Hins & _). rewrite Hins, Hl.
  rewrite !map_app, !concat_app. simpl. rewrite Hn.
  assert ((if set_alive slot then pins slot else []) = []) as -> by (destruct Hs as [-> | ->]; [by destruct (set_alive slot)|done]).
  simpl. rewrite <- app_assoc. apply Permutation_app_head, Permutation_app_comm.
Qed.

(** What adding a layer does: all its targets get it, or none. *)
Definition layer_added (spec : SceneSetLayerSpec) (h : LayerHandle) st st' : Prop :=
  exists i slot, set_slot_for h (st_set st') = Some (i, slot) /\
    map scene_index (pins slot) = map t_scene_index (targets spec) /\
    (forall p, p ∈ pins slot -> SAdd (scene_index p) (layer_handle p) ∈ st_calls st') /\
    live_pins (st_set st') ≡ₚ live_pins (st_set st) ++ pins slot.

Lemma valid_targets_spec (s : SceneSet Scn) ts t : valid_targets s ts = true -> t ∈ ts -> exists x, scenes_ s !! t_scene_index t = Some (Some x).
Proof.
  unfold valid_targets. intros [Hv _]%andb_true_iff Ht. rewrite forallb_forall in Hv.
  apply list_elem_of_In, Hv in Ht. unfold valid_target in Ht.
  destruct (scenes_ s !! t_scene_index t) as [[x|]|]; [eauto|done..].
Qed.

Lemma set_slot_for_new (s : SceneSet Scn) i slot h :
  set_slots_ s !! i = Some slot -> set_alive slot = true -> h = mkHandle (N.of_nat i + 1) (set_generation slot) ->
  set_slot_for h s = Some (i, slot).
Proof.
  intros Hi Ha ->. unfold set_slot_for. simpl. pose proof (lookup_lt_Some _ _ _ Hi) as Hlt.
  destruct (N.eqb_spec (N.of_nat i + 1) 0); [lia|]. destruct (N.ltb_spec (N.of_nat (length (set_slots_ s))) (N.of_nat i + 1)); [lia|].
  simpl. replace (N.to_nat (N.of_nat i + 1 - 1)) with i by lia. rewrite Hi. simpl. by rewrite Ha, Z.eqb_refl.
Qed.

Lemma wp_add_set_layer spec st :
  set_inv st ->
  wp (add_set_layer spec) st (fun r st' => set_inv st' /\
    match r with
    | Val h => layer_added spec h st st'
    | Unexp e => set_slots_ (st_set st') = set_slots_ (st_set st) /\
        exists ps, st_calls st' = st_calls st ++ map add_call ps ++ map remove_call ps
    end).
Proof.
  intros Hi. unfold add_set_layer. apply wp_bind, wp_the_set.
  assert (Hsame : set_inv st /\ set_slots_ (st_set st) = set_slots_ (st_set st) /\
    exists ps, st_calls st = st_calls st ++ map add_call ps ++ map remove_call ps).
  { split_and!; [done|done|]. exists []. by rewrite app_nil_r. }
  destruct (spec_source spec) as [src|]; [|by apply wp_ret].
  destruct (_ || _) eqn:Ev; [by apply wp_ret|]. clear Hsame.
  apply orb_false_iff in Ev as [_ Hv]. apply negb_false_iff in Hv.
  apply wp_bind. eapply wp_mono with (P := fun m st1 => steady st st1 /\ st_calls st1 = st_calls st /\ mirror_there m st1).
  { destruct (_ <? _)%nat; [|by apply wp_ret]. apply wp_bind. eexists _, _. split; [done|]. apply wp_ret.
    split_and!; [by destruct st|by destruct st|]. destruct st as [? [] ?]; simpl. rewrite length_app. simpl. lia. }
  intros m st1 (H1 & Hc1 & Hm1). apply wp_bind, wp_add_targets; [done| |by intros p ?%not_elem_of_nil|].
  { intros t Ht. apply H1. by apply (valid_targets_spec _ (targets spec)). }
  intros r st2 ps H2 Hr. assert (H02 : steady st st2) by by transitivity st1.
  destruct H02 as [Hsc _ _ Hsl Hfr Hpo _]. pose proof Hi as [(o & Hro & Ho) Hd Hf Hfo Hp Hone Hown].
  destruct r as [added|e].
  2: { apply wp_ret. simpl in Hr. rewrite Hc1 in Hr. split; [|split; [done|by exists ps]].
       destruct (routed_removes (live_pins (st_set st)) ps (o ++ ps)) as (o' & Hro' & Ho'); [by rewrite Ho|].
       split; unfold live_pins in *; rewrite ?Hsl, ?Hfr, ?Hpo; try done.
       - exists o'. rewrite Hr, routed_app, Hro. simpl. by rewrite routed_app, routed_adds.
       - intros p Hin. by apply Hsc, Hp.
       - intros p i Hin. apply Hsc. by eapply Hown. }
  destruct Hr as (-> & Hidx & Hr). simpl in Hr. rewrite Hc1 in Hr.
  apply wp_bind, wp_the_set. destruct (take_set_slot (st_set st2)) as [i s'] eqn:Et.
  destruct (take_set_slot_spec (st_set st2) i s') as (slot & Hs & Ha & Hlp & Hif & Hnf & Hscs & Hpos & Hf' & Hd');
    [by rewrite Hfr, Hsl|by rewrite Hsl|by rewrite Hfr|done|].
  rewrite Hs. apply wp_bind, wp_modify, wp_ret.
  set (new := mkSetSlot ([] ++ ps) (u32 (set_generation slot + 1)) true).
  set (st3 := st2 {{ st_set ::= _ }}).
  assert (H3 : set_slots_ (st_set st3) = <[i := new]> (set_slots_ s') /\ free_set_slot_ids_ (st_set st3) = free_set_slot_ids_ s' /\
    scenes_ (st_set st3) = scenes_ s' /\ plane_owner_ (st_set st3) = plane_owner_ s' /\ st_calls st3 = st_calls st2)
    by (unfold st3; destruct s'; by destruct st2).
  clearbody st3. destruct H3 as (Hsl3 & Hfr3 & Hsc3 & Hpo3 & Hc3).
  assert (Hlive3 : live_pins (st_set st3) ≡ₚ live_pins (st_set st) ++ ps).
  { unfold live_pins at 1. rewrite Hsl3, (live_fill _ i slot new Hs) by auto. fold (live_pins s'). rewrite Hlp.
    unfold live_pins. by rewrite Hsl. }
  assert (Hh3 : forall j, holds_scene j st3 <-> holds_scene j st).
  { intros j. rewrite <- Hsc. unfold holds_scene. by rewrite Hsc3, Hscs. }
  split.
  - split; rewrite ?Hfr3, ?Hpo3, ?Hpos, ?Hpo; try done.
    + exists (o ++ ps). rewrite Hc3, Hr, routed_app, Hro. simpl. rewrite routed_adds. split; [done|]. by rewrite Hlive3, Ho.
    + intros j sl Hj Hal. rewrite Hsl3 in Hj. destruct (decide (i = j)) as [->|Hn].
      * rewrite list_lookup_insert_eq in Hj by (by eapply lookup_lt_Some). injection Hj as <-. done.
      * rewrite list_lookup_insert_ne in Hj by done. eauto.
    + intros j Hj. rewrite Hsl3. rewrite list_lookup_insert_ne; [by apply Hf'|]. by intros ->.
    + intros p Hin. apply Hh3. rewrite Hlive3 in Hin. apply elem_of_app in Hin as [Hin|Hin]; [by apply Hp|].
      apply (list_elem_of_fmap_2 scene_index) in Hin. change (scene_index <$> ps) with (map scene_index ps) in Hin.
      rewrite Hidx in Hin. apply list_elem_of_fmap in Hin as (t & -> & Ht). by apply (valid_targets_spec _ (targets spec)).
    + intros p j Hin. apply Hh3. by eapply Hown.
  - exists i, new. assert (Hn3 : set_slots_ (st_set st3) !! i = Some new).
    { rewrite Hsl3. apply list_lookup_insert_eq. by eapply lookup_lt_Some. }
    split_and!; [by apply set_slot_for_new|done| |done].
    intros p Hin. rewrite Hc3, Hr. apply elem_of_app. right. by apply (list_elem_of_fmap_2 add_call).
Qed.

Lemma set_slot_for_some h (s : SceneSet Scn) i slot :
  set_slot_for h s = Some (i, slot) ->
  set_slots_ s !! i = Some slot /\ set_alive slot = true /\ set_generation slot = h_generation h /\ h_id h = (N.of_nat i + 1)%N.
Proof.
  unfold set_slot_for. destruct (N.eqb_spec (h_id h) 0); [done|]. destruct (_ <? _)%N; [done|]. simpl.
  destruct (set_slots_ s !! N.to_nat (h_id h - 1)) as [sl|] eqn:E; [|done]. simpl.
  destruct (set_alive sl && _) eqn:Ea; [|done]. intros [= <- <-]. apply andb_true_iff in Ea as [Ha Hg].
  split_and!; [done|done|by apply Z.eqb_eq|lia].
Qed.

Lemma wp_remove_live ps st (Q : unit -> St -> Prop) :
  (forall p, p ∈ ps -> holds_scene (scene_index p) st) ->
  (forall st', steady st st' -> st_calls st' = st_calls st ++ map remove_call ps -> Q tt st') ->
  wp (for_each (fun p => s ← the_set;
        match scenes_ s !! scene_index p with Some (Some _) => remove_pin p | _ => mret tt end) ps) st Q.
Proof.
  intros Hl HQ. eapply wp_mono with (P := fun _ st' => steady st st' /\ st_calls st' = st_calls st ++ map remove_call ps);
    [|intros [] st' []; by apply HQ].
  eapply wp_for_each with (I := fun rest st' => exists done, ps = done ++ rest /\ steady st st' /\
    st_calls st' = st_calls st ++ map remove_call done).
  - exists []. by rewrite app_nil_r.
  - intros p rest st1 (dn & Hps & H1 & Hc1). apply wp_bind, wp_the_set.
    assert (Hlive : holds_scene (scene_index p) st1).
    { apply H1, Hl. rewrite Hps. apply elem_of_app. right. by left. }
    pose proof Hlive as [x ->].
    apply wp_bind, wp_call_scene; [done|]. intros [] s s' w' st2 _ _ _ H2 _ Hc2.
    apply wp_set_log. intros st3 _ H3 Hc3. exists (dn ++ [p]). rewrite <- app_assoc. split_and!; [done| |].
    + by transitivity st1; [|transitivity st2].
    + by rewrite Hc3, Hc2, Hc1, map_app, <- app_assoc.
  - intros st1 (dn & Hps & H1 & Hc1). rewrite app_nil_r in Hps. by subst dn.
Qed.

(** What removing a layer does: each scene that still has it loses it. *)
Lemma wp_remove_set_layer h st :
  set_inv st ->
  wp (remove_set_layer h) st (fun _ st' => set_inv st' /\
    match set_slot_for h (st_set st) with
    | None => st' = st
    | Some (i, slot) => set_slot_for h (st_set st') = None /\
        st_calls st' = st_calls st ++ map remove_call (pins slot) /\
        live_pins (st_set st) ≡ₚ live_pins (st_set st') ++ pins slot
    end).
Proof.
  intros Hi. unfold remove_set_layer. apply wp_bind, wp_the_set.
  destruct (set_slot_for h (st_set st)) as [[i slot]|] eqn:Eh; [|by apply wp_ret].
  pose proof Eh as Hslot. apply set_slot_for_some in Hslot as (Hs & Ha & Hg & Hid).
  pose proof Hi as [(o & Hro & Ho) Hd Hf Hfo Hp Hone Hown].
  destruct (lookup_split _ _ _ Hs) as (l1 & l2 & Hl & _ & Hins & _).
  assert (Hpins : forall p, p ∈ pins slot -> p ∈ live_pins (st_set st)).
  { intros p Hin. unfold live_pins. rewrite Hl, map_app, concat_app. simpl. rewrite Ha, !elem_of_app. auto. }
  apply wp_bind, wp_remove_live; [intros p Hin; by apply Hp, Hpins|]. intros st1 H1 Hc1.
  destruct H1 as [Hsc _ _ Hsl Hfr Hpo _]. apply wp_modify.
  set (st2 := st1 {{ st_set ::= _ }}).
  assert (H2 : set_slots_ (st_set st2) = <[i := mkSetSlot [] (set_generation slot) false]> (set_slots_ (st_set st)) /\
    free_set_slot_ids_ (st_set st2) = free_set_slot_ids_ (st_set st) ++ [i] /\
    scenes_ (st_set st2) = scenes_ (st_set st1) /\ plane_owner_ (st_set st2) = plane_owner_ (st_set st) /\
    st_calls st2 = st_calls st1) by (unfold st2; rewrite <- Hsl, <- Hfr, <- Hpo; by destruct st1 as [[] ? ?]).
  clearbody st2. destruct H2 as (Hsl2 & Hfr2 & Hsc2 & Hpo2 & Hc2). rewrite Hins in Hsl2.
  assert (Hlive : live_pins (st_set st) ≡ₚ live_pins (st_set st2) ++ pins slot).
  { unfold live_pins. rewrite Hsl2, Hl, !map_app, !concat_app. simpl. rewrite Ha, <- app_assoc.
    apply Permutation_app_head, Permutation_app_comm. }
  assert (Hh : forall j, holds_scene j st2 <-> holds_scene j st).
  { intros j. rewrite <- Hsc. unfold holds_scene. by rewrite Hsc2. }
  split.
  - destruct (routed_removes (live_pins (st_set st2)) (pins slot) o) as (o' & Hro' & Ho'); [by rewrite Ho|].
    split; rewrite ?Hfr2, ?Hpo2; try done.
    + exists o'. by rewrite Hc2, Hc1, routed_app, Hro.
    + intros j sl Hj Hal. rewrite Hsl2, <- Hins in Hj. destruct (decide (i = j)) as [->|Hn].
      * rewrite list_lookup_insert_eq in Hj by (by eapply lookup_lt_Some). by injection Hj as <-.
      * rewrite list_lookup_insert_ne in Hj by done. eauto.
    + intros j Hj. rewrite Hsl2, <- Hins. apply elem_of_app in Hj as [Hj| ->%list_elem_of_singleton].
      * destruct (Hf j Hj) as (sl & Hsj & Haj). exists sl. rewrite list_lookup_insert_ne; [done|]. intros ->. congruence.
      * eexists. by rewrite list_lookup_insert_eq by (by eapply lookup_lt_Some).
    + apply NoDup_app. split_and!; [done| |apply NoDup_singleton].
      intros j Hj ->%list_elem_of_singleton. destruct (Hf i Hj) as (sl & Hsj & Haj). congruence.
    + intros p Hin. apply Hh, Hp. rewrite Hlive. apply elem_of_app. by left.
    + intros p j Hin. apply Hh. by eapply Hown.
  - split_and!; [|by rewrite Hc2|done]. destruct (set_slot_for h (st_set st2)) as [[j sl]|] eqn:E2; [|done].
    apply set_slot_for_some in E2 as (Hsj & Haj & _ & Hidj). rewrite Hsl2, <- Hins in Hsj.
    assert (j = i) as -> by lia. rewrite list_lookup_insert_eq in Hsj by (by eapply lookup_lt_Some). by injection Hsj as <-.
Qed.

(** *** Commits *)

Lemma owns_snoc claims q k p i : owns (claims ++ [mkClaim q k]) p i <-> owns claims p i \/ (p = q /\ i = k).
Proof. unfold owns. rewrite elem_of_app, list_elem_of_singleton. naive_solver. Qed.

Lemma seed_scene_ok planes crtc i owners :
  one_owner owners ->
  one_owner (seed_scene planes crtc i owners) /\
  forall p j, owns (seed_scene planes crtc i owners) p j -> owns owners p j \/ j = i.
Proof.
  unfold seed_scene. revert owners. induction planes as [|[pl|] planes IH]; intros owners Ho; simpl; [by auto| |by apply IH].
  destruct (_ && _) eqn:Ec; [|by apply IH]. apply andb_true_iff in Ec as [_ Hno].
  destruct (IH (owners ++ [mkClaim (kp_plane_id pl) i])) as [H1 H2].
  - unfold one_owner. rewrite map_app. apply NoDup_app. split_and!; [done| |apply NoDup_singleton].
    intros x (c & <- & Hc)%list_elem_of_In%in_map_iff Hx. apply list_elem_of_singleton in Hx.
    apply negb_true_iff, not_true_iff_false in Hno. apply Hno, existsb_exists. exists c. by rewrite Z.eqb_eq.
  - split; [done|]. intros p j Hj. apply H2 in Hj as [[?|[_ ->]]%owns_snoc|?]; auto.
Qed.

Lemma seed_ok kms (s : SceneSet Scn) :
  one_owner (plane_owner_ s) ->
  one_owner (plane_owner_ (seed_plane_owners kms s)) /\
  forall p j, owns (plane_owner_ (seed_plane_owners kms s)) p j ->
    owns (plane_owner_ s) p j \/ exists x, scenes_ s !! j = Some (Some x).
Proof.
  intros Ho. unfold seed_plane_owners. destruct kms as [planes|]; [|by destruct s; auto].
  assert (Hr : scenes_ (resize_seeded s) = scenes_ s /\ one_owner (plane_owner_ (resize_seeded s)) /\
    forall p j, owns (plane_owner_ (resize_seeded s)) p j ->
      owns (plane_owner_ s) p j \/ exists x, scenes_ s !! j = Some (Some x)) by (destruct s; split_and!; auto).
  revert Hr. generalize (resize_seeded s). intros s0. generalize (seq 0 (length (scenes_ s0))). intros l. revert s0.
  induction l as [|i l IH]; intros s0 (Hs & H1 & H2); simpl; [done|]. apply IH.
  destruct (scenes_ s0 !! i) as [[x|]|] eqn:Ei; [|done..]. destruct (seeded_ s0 !! i) as [[]|]; [done| |done].
  destruct (seed_scene_ok planes (crtc_id x) i _ H1) as [H3 H4]. rewrite Hs in Ei.
  destruct s0; simpl in *. split_and!; [done|done|]. intros p j [Hj| ->]%H4; [auto|]. right. eauto.
Qed.

(** A frame takes no plane from a scene that builds later, or not at all. *)
Lemma apart_keeps claims ebs eb p j :
  apart claims ebs -> one_owner claims -> eb ∈ ebs -> owns claims p j -> j ∉ map eb_index ebs ->
  p ∉ armed_planes_of (eb_state eb).
Proof.
  revert claims. induction ebs as [|x ebs IH]; intros claims Hap Ho Hin Hj Hn; simpl in *; [by apply not_elem_of_nil in Hin|].
  destruct Hap as [Ha Hap]. apply not_elem_of_cons in Hn as [Hne Hn].
  apply elem_of_cons in Hin as [->|Hin]; [by apply (Ha (mkClaim p j))|].
  destruct (claim_owns (eb_index x) (armed_planes_of (eb_state x)) claims p j Ho Ha) as [Ho' Hw].
  rewrite decide_False in Hw by done. apply (IH _ Hap Ho' Hin); [by apply Hw|done].
Qed.

Lemma apart_disjoint claims ebs eb eb' p :
  apart claims ebs -> one_owner claims -> NoDup (map eb_index ebs) -> eb ∈ ebs -> eb' ∈ ebs ->
  eb_index eb <> eb_index eb' -> p ∈ armed_planes_of (eb_state eb) -> p ∉ armed_planes_of (eb_state eb').
Proof.
  revert claims. induction ebs as [|x ebs IH]; intros claims Hap Ho Hnd H1 H2 Hne Hp; simpl in *; [by apply not_elem_of_nil in H1|].
  destruct Hap as [Ha Hap]. apply NoDup_cons in Hnd as [Hx Hnd].
  destruct (claim_owns (eb_index x) (armed_planes_of (eb_state x)) claims p (eb_index x) Ho Ha) as [Ho' Hw].
  rewrite decide_True in Hw by done.
  apply elem_of_cons in H1 as [->|H1], H2 as [->|H2]; [done| | |by eapply IH].
  - by apply (apart_keeps _ _ eb' p (eb_index x) Hap Ho' H2); [apply Hw|].
  - intros Hp'. by apply (apart_keeps _ _ eb p (eb_index x) Hap Ho' H1); [apply Hw|..].
Qed.

Lemma apart_given_up claims ebs eb p j :
  apart claims ebs -> one_owner claims -> NoDup (map eb_index ebs) -> eb ∈ ebs -> owns claims p j ->
  j <> eb_index eb -> p ∈ armed_planes_of (eb_state eb) ->
  exists eb', eb' ∈ ebs /\ eb_index eb' = j.
Proof.
  intros Hap Ho Hnd Hin Hj Hne Hp. destruct (decide (j ∈ map eb_index ebs)) as [Hm|Hm].
  - apply list_elem_of_fmap in Hm as (x & -> & Hx). eauto.
  - exfalso. by eapply (apart_keeps _ _ eb p j).
Qed.

(** Which frames a request's verdict reached. *)
Lemma elem_of_sends test user_data gps krs i f kr :
  length krs = length gps ->
  SFinalize i f kr ∈ sends test user_data gps krs <->
  exists k gp, gps !! k = Some gp /\ krs !! k = Some kr /\ mkEngaged i f ∈ engaged gp.
Proof.
  revert krs. induction gps as [|gp gps IH]; intros [|kr0 krs] Hl; try done.
  { simpl. split; [by intros ?%not_elem_of_nil|by intros (k & gp & ? & _)]. }
  injection Hl as Hl. cbn [sends]. rewrite elem_of_cons, elem_of_app, IH by done. split.
  - intros [?|[Hin|(k & gp' & ? & ? & ?)]]; [done| |by exists (S k), gp'].
    apply list_elem_of_fmap in Hin as ([i' f'] & [= -> -> ->] & Hin). by exists 0%nat, gp.
  - intros ([|k] & gp' & Hg & Hk & Hin); simpl in *; [|right; right; eauto].
    injection Hg as <-. injection Hk as <-. right; left. apply (list_elem_of_fmap_2 (fin kr0) _ _ Hin).
Qed.

Lemma elem_of_refused gps krs i :
  i ∈ refused gps krs <->
  exists k gp e f, gps !! k = Some gp /\ krs !! k = Some (Unexp e) /\ mkEngaged i f ∈ engaged gp.
Proof.
  revert krs. induction gps as [|gp gps IH]; intros [|kr krs]; unfold refused in *; simpl.
  1-3: split; [by intros ?%not_elem_of_nil|by intros ([|k] & gp' & e & f & ? & ? & _)].
  rewrite elem_of_app, IH. split.
  - intros [Hin|(k & gp' & e & f & ? & ? & ?)]; [|by exists (S k), gp', e, f].
    destruct kr as [|e]; simpl in Hin; [by apply not_elem_of_nil in Hin|].
    apply list_elem_of_fmap in Hin as ([i' f] & -> & Hin). by exists 0%nat, gp, e, f.
  - intros ([|k] & gp' & e & f & Hg & Hk & Hin); simpl in *; [left|right; by exists k, gp', e, f].
    injection Hg as <-. injection Hk as ->. simpl. by apply (list_elem_of_fmap_2 eb_index _ (mkEngaged i f)).
Qed.

Lemma built_nodup idxs bs : builds idxs bs -> NoDup idxs -> NoDup (map eb_index (built_of bs)).
Proof.
  induction 1 as [|i c idxs bs (r & ->) Hb IH]; intros Hn; [by apply NoDup_nil_2|].
  apply NoDup_cons in Hn as [Hi Hn]. destruct r as [[f|]|e]; simpl; [|by apply IH..].
  apply NoDup_cons. split; [|by apply IH]. intros (eb & -> & Heb)%list_elem_of_fmap. apply Hi. by eapply built_index.
Qed.

Lemma same_group gps k k' gp gp' x y :
  NoDup (map eb_index (concat (map engaged gps))) -> gps !! k = Some gp -> gps !! k' = Some gp' ->
  x ∈ engaged gp -> y ∈ engaged gp' -> eb_index x = eb_index y -> k = k'.
Proof.
  assert (Hin : forall (l : list GroupPending) k gp x, l !! k = Some gp -> x ∈ engaged gp -> eb_index x ∈ map eb_index (concat (map engaged l))).
  { intros l j g z Hj Hz. apply (list_elem_of_fmap_2 eb_index). apply list_elem_of_In, in_concat.
    exists (engaged g). split; [by apply in_map, list_elem_of_In; eapply list_elem_of_lookup_2|by apply list_elem_of_In]. }
  revert k k'. induction gps as [|g gps IH]; intros k k' Hn Hk Hk' Hx Hy He; [done|]. simpl in Hn.
  rewrite map_app in Hn. apply NoDup_app in Hn as (_ & Hd & Hn).
  destruct k as [|k], k' as [|k']; simpl in *; [done| | |f_equal; by eapply IH].
  - injection Hk as <-. exfalso. apply (Hd (eb_index x)); [by apply (list_elem_of_fmap_2 eb_index)|].
    rewrite He. by eapply Hin.
  - injection Hk' as <-. exfalso. apply (Hd (eb_index y)); [by apply (list_elem_of_fmap_2 eb_index)|].
    rewrite <- He. by eapply Hin.
Qed.

(** A scene that built was refused, or told its frame went through. *)
Lemma accepted_iff test user_data gps krs i f :
  NoDup (map eb_index (concat (map engaged gps))) -> length krs = length gps ->
  mkEngaged i f ∈ concat (map engaged gps) ->
  i ∉ refused gps krs <-> SFinalize i f (Val tt) ∈ sends test user_data gps krs.
Proof.
  intros Hn Hl Hin. rewrite elem_of_sends, elem_of_refused by done. split.
  - intros Hnr. apply list_elem_of_In, in_concat in Hin as (l & (gp & <- & Hgp)%in_map_iff & Hin).
    apply list_elem_of_In in Hgp, Hin. apply list_elem_of_lookup in Hgp as [k Hk].
    destruct (lookup_lt_is_Some_2 krs k) as [kr Hkr]; [rewrite Hl; by eapply lookup_lt_Some|].
    exists k, gp. split; [done|]. split; [|done]. destruct kr as [[]|e]; [done|]. exfalso. apply Hnr. by exists k, gp, e, f.
  - intros (k & gp & Hk & Hkr & Hf) (k' & gp' & e & f' & Hk' & Hkr' & Hf').
    assert (k = k') as <- by (eapply (same_group gps k k' gp gp' _ _ Hn Hk Hk' Hf Hf'); done). congruence.
Qed.

Lemma accepted_built gps krs test user_data i f kr :
  length krs = length gps -> SFinalize i f kr ∈ sends test user_data gps krs ->
  mkEngaged i f ∈ concat (map engaged gps).
Proof.
  intros Hl (k & gp & Hk & _ & Hin)%elem_of_sends; [|done].
  apply list_elem_of_In, in_concat. exists (engaged gp).
  split; [by apply in_map, list_elem_of_In; eapply list_elem_of_lookup_2|by apply list_elem_of_In].
Qed.

Lemma refused_built gps krs i : i ∈ refused gps krs -> i ∈ map eb_index (concat (map engaged gps)).
Proof.
  intros (k & gp & e & f & Hk & _ & Hin)%elem_of_refused. apply (list_elem_of_fmap_2 eb_index _ (mkEngaged i f)).
  apply list_elem_of_In, in_concat. exists (engaged gp).
  split; [by apply in_map, list_elem_of_In; eapply list_elem_of_lookup_2|by apply list_elem_of_In].
Qed.

(** The owners a commit leaves, given those it started from. *)
Definition owners_after owner cs (claims : list PlaneClaim) : Prop :=
  one_owner claims /\
  forall p i, owns claims p i <->
    (exists f, SFinalize i f (Val tt) ∈ cs /\ p ∈ armed_planes_of f) \/
    (owns owner p i /\ (forall f, SFinalize i f (Val tt) ∉ cs) /\
     forall j f, SFinalize j f (Val tt) ∈ cs -> p ∉ armed_planes_of f).

Lemma owners_sent owner gps krs user_data bs :
  one_owner owner -> apart owner (built_of bs) -> NoDup (map eb_index (built_of bs)) ->
  concat (map engaged gps) = built_of bs -> length krs = length gps ->
  owners_after owner (sends false user_data gps krs)
    (keep_claims (refused gps krs) owner (claim_builds owner (built_of bs))).
Proof.
  intros Ho Hap Hnd Hcon Hl. destruct (claim_builds_owns (built_of bs) owner Ho Hap Hnd) as [Hc1 Hc].
  destruct (keep_claims_owns (refused gps krs) owner _ Ho Hc1) as [Hk1 Hk]. split; [done|].
  set (ok i := exists f, SFinalize i f (Val tt) ∈ sends false user_data gps krs).
  assert (Hacc : forall i f, mkEngaged i f ∈ built_of bs ->
    i ∉ refused gps krs <-> SFinalize i f (Val tt) ∈ sends false user_data gps krs).
  { intros i f Hin. apply accepted_iff; rewrite ?Hcon; done. }
  assert (Hbuilt : forall i f, SFinalize i f (Val tt) ∈ sends false user_data gps krs -> mkEngaged i f ∈ built_of bs).
  { intros i f Hin. rewrite <- Hcon. by eapply accepted_built. }
  assert (Href : forall i, i ∈ refused gps krs -> i ∈ map eb_index (built_of bs)).
  { intros i Hin. rewrite <- Hcon. by eapply refused_built. }
  assert (Hidx : forall i f, mkEngaged i f ∈ built_of bs -> i ∈ map eb_index (built_of bs)).
  { intros i f Hin. by apply (list_elem_of_fmap_2 eb_index _ (mkEngaged i f)). }
  intros p i. rewrite Hk, Hc. split.
  - intros [[Hnr [([i' f] & Hin & <- & Hp)|[Hni Hown]]]|(Hr & Hown & Hno)].
    + left. exists f. split; [by apply Hacc|done].
    + right. split_and!; [done|intros f Hf; by apply Hni, (Hidx i f), Hbuilt|].
      intros j f Hf Hp. pose proof (Hbuilt j f Hf) as Hb.
      assert (Hne : i <> j) by (intros ->; by apply Hni, (Hidx j f)).
      destruct (apart_given_up owner (built_of bs) (mkEngaged j f) p i Hap Ho Hnd Hb Hown Hne Hp) as ([i' f'] & Hin & <-).
      by apply Hni, (Hidx _ f').
    + right. split_and!; [done| |].
      * intros f Hf. by apply (proj2 (Hacc i f (Hbuilt i f Hf)) Hf).
      * intros j f Hf Hp. apply (Hno j); [by apply (Hacc j f (Hbuilt j f Hf))|]. apply Hc. left.
        exists (mkEngaged j f). split_and!; [by apply Hbuilt|done|done].
  - intros [(f & Hf & Hp)|(Hown & Hnf & Hno)].
    + left. pose proof (Hbuilt i f Hf) as Hb. split; [by apply (Hacc i f Hb)|]. left. by exists (mkEngaged i f).
    + destruct (decide (i ∈ refused gps krs)) as [Hr|Hr]; [right|left].
      * split_and!; [done|done|]. intros j Hj [([j' f] & Hin & <- & Hp)|[Hni Hown']]%Hc.
        -- by apply (Hno j' f); [apply (Hacc j' f Hin)|].
        -- assert (He : mkClaim p i = mkClaim p j) by (by apply (one_owner_inj owner)). injection He as ->. by apply Hni, Href.
      * split; [done|]. right. split; [|done]. intros ([i' f] & -> & Hin)%list_elem_of_fmap.
        by apply (Hnf f), (Hacc i' f Hin).
Qed.

Lemma no_accepts owner kr ebs :
  one_owner owner -> kr <> Val tt -> owners_after owner (map (fin kr) ebs) owner.
Proof.
  intros Ho Hkr. split; [done|].
  assert (Hno : forall i f, SFinalize i f (Val tt) ∉ map (fin kr) ebs) by (intros i f ([] & [= _ _ ?] & _)%list_elem_of_fmap; congruence).
  intros p i. split; [intros Hi; right; split_and!; [done|auto|]|intros [(f & ?%Hno & _)|[? _]]; done].
  intros j f ?%Hno. done.
Qed.

Lemma committed_owners flags test user_data kms st r st' bs rest :
  set_inv st -> committed flags test user_data kms st r st' bs rest ->
  let owner := plane_owner_ (seed_plane_owners kms (st_set st)) in
  if test then plane_owner_ (st_set st') = owner else owners_after owner rest (plane_owner_ (st_set st')).
Proof.
  intros Hi [_ _ _ (idxs & Hb & Hn & _) Hap He] owner.
  destruct (seed_ok kms (st_set st) (si_owner _ Hi)) as [Ho _]. fold owner in Ho.
  destruct He as [[Hf Hp]|(gps & krs & Hs & Hp)].
  - rewrite Hp. fold owner. destruct test; [done|]. destruct Hf as (e & ebs & _ & -> & _). by apply no_accepts.
  - destruct test; [done|]. rewrite Hp. fold owner. destruct Hs as (-> & Hl & Hcon & _).
    apply owners_sent; [done|by apply Hap|by eapply built_nodup|done|done].
Qed.

Lemma builds_rest_routed flags test user_data kms st r st' bs rest o :
  committed flags test user_data kms st r st' bs rest -> routed o (bs ++ rest) = Some o.
Proof.
  intros [_ _ _ (idxs & Hb & _) _ He].
  assert (Hbs : forall o, routed o bs = Some o).
  { intros o0. clear -Hb. revert o0. induction Hb as [|i c idxs bs (b & ->) _ IH]; intros o0; [done|]. apply IH. }
  assert (Hfin : forall kr ebs o, routed o (map (fin kr) ebs) = Some o) by (intros kr ebs; by induction ebs).
  rewrite routed_app, Hbs. simpl. destruct He as [[(e & ebs & _ & -> & _) _]|(gps & krs & (-> & _) & _)]; [apply Hfin|].
  revert krs. induction gps as [|gp gps IH]; intros [|kr krs]; [done..|]. cbn [sends]. simpl. rewrite routed_app, Hfin. apply IH.
Qed.

Lemma committed_inv flags test user_data kms st r st' bs rest :
  set_inv st -> committed flags test user_data kms st r st' bs rest -> set_inv st'.
Proof.
  intros Hi Hc. pose proof (committed_owners _ _ _ _ _ _ _ _ _ Hi Hc) as Ho.
  destruct (seed_ok kms (st_set st) (si_owner _ Hi)) as [Hs1 Hs2].
  assert (Hlive : forall p i, owns (plane_owner_ (seed_plane_owners kms (st_set st))) p i -> holds_scene i st).
  { intros p i [Hown|Hx]%Hs2; [by eapply (si_owns _ Hi)|done]. }
  pose proof Hc as [Hsc [Hsl Hfr] Hcalls (idxs & Hb & Hn & Hidx) _ He].
  assert (Hone : one_owner (plane_owner_ (st_set st')) /\
    forall p i, owns (plane_owner_ (st_set st')) p i -> holds_scene i st).
  { destruct test; [rewrite Ho; by split|]. destruct Ho as [H1 H2]. split; [done|].
    intros p i [(f & Hf & Hp)|[Hown _]]%H2; [|by eapply Hlive].
    destruct He as [[(e & ebs & _ & -> & _) _]|(gps & krs & (-> & Hl & Hcon & _) & _)].
    - by apply list_elem_of_fmap in Hf as ([] & [= _ _ ?] & _).
    - apply accepted_built in Hf; [|done]. rewrite Hcon in Hf. apply Hidx. by apply (built_index _ _ (mkEngaged i f) Hb). }
  eapply (inv_frame st); [done|done|done|done|exact Hcalls| |apply Hone|apply Hone].
  intros o. by eapply builds_rest_routed.
Qed.

Lemma reach_set_inv st : set_reach st -> set_inv st.
Proof.
  induction 1 as [fd scenes w | st op st' _ IH Hrun | st i s w _ IH].
  - split; unfold live_pins, owns; simpl; try by intros ? ?%not_elem_of_nil.
    + by exists []. + done. + apply NoDup_nil_2. + apply NoDup_nil_2. + by intros p i ?%not_elem_of_nil.
  - destruct op as [scene|index|spec|h|flags test user_data policy kms]; cbn [run_set_op] in Hrun.
    + apply bind_run in Hrun as (r & st1 & Hr & [= <-]). by eapply add_scene_inv.
    + by eapply remove_scene_inv.
    + apply bind_run in Hrun as (r & st1 & Hr & [= <-]).
      destruct (wp_add_set_layer spec st IH) as (r' & st2 & Hr' & Hi & _). rewrite Hr in Hr'. by injection Hr' as <- <-.
    + destruct (wp_remove_set_layer h st IH) as ([] & st2 & Hr' & Hi & _). rewrite Hrun in Hr'. by injection Hr' as <-.
    + apply bind_run in Hrun as (r & st1 & Hr & [= <-]).
      destruct (wp_do_commit_all flags test user_data policy kms st) as (r' & st2 & Hr' & bs & rest & Hc).
      rewrite Hr in Hr'. injection Hr' as <- <-. by eapply committed_inv.
  - apply (inv_frame st _ []); try done; try (by destruct st as [[] ? ?]); [|by rewrite app_nil_r| |];
      [|by apply (si_owner _ IH)|by apply (si_owns _ IH)].
    intros j. unfold own_work, holds_scene. destruct st as [[] ? ?]; simpl. destruct (decide (i = j)) as [->|Hn].
    + rewrite list_lookup_alter_eq. destruct (_ !! j) as [[x|]|]; simpl; naive_solver.
    + by rewrite list_lookup_alter_ne.
Qed.


(** C23. Layers routed through a set stay with their scenes: in every run a
    layer is only ever taken off the scene it was put on, once, and while that
    scene is there, and the layers on scenes are those of the live handles.
    Adding a layer puts it on all its targets, under a handle that names them,
    or on none: on a failure the scenes that took it give it back.  Removing a
    handle takes its layers off and ends it; a stale handle changes nothing. *)
Theorem set_layers_are_routed st :
  set_reach st ->
  (exists o, routed [] (st_calls st) = Some o /\ o ≡ₚ live_pins (st_set st) /\
     forall p, p ∈ o -> holds_scene (scene_index p) st) /\
  (forall spec, exists r st', add_set_layer spec st = Some (r, st') /\
     match r with
     | Val h => layer_added spec h st st'
     | Unexp _ => set_slots_ (st_set st') = set_slots_ (st_set st) /\
         exists ps, st_calls st' = st_calls st ++ map add_call ps ++ map remove_call ps
     end) /\
  (forall h, exists st', remove_set_layer h st = Some (tt, st') /\
     match set_slot_for h (st_set st) with
     | None => st' = st
     | Some (_, slot) => set_slot_for h (st_set st') = None /\
         st_calls st' = st_calls st ++ map remove_call (pins slot) /\
         live_pins (st_set st) ≡ₚ live_pins (st_set st') ++ pins slot
     end).
Proof.
  intros Hi%reach_set_inv. split_and!.
  - destruct (si_routed _ Hi) as (o & Hr & Ho). exists o. split_and!; [done|done|]. intros p Hp. rewrite Ho in Hp.
    by apply (si_pins _ Hi).
  - intros spec. destruct (wp_add_set_layer spec st Hi) as (r & st' & Hr & _ & Hp). eauto.
  - intros h. destruct (wp_remove_set_layer h st Hi) as ([] & st' & Hr & _ & Hp). exists st'. split; [done|].
    destruct (set_slot_for h (st_set st)) as [[i slot]|]; done.
Qed.

End SetRuns.
