(* ===== verification/SceneSetRuns.v ===== *)
(** Concrete runs of a set of scenes, and what the set does with the flags of
    a commit. *)
From S2P Require Import Prelude StateMonad DrmAbi Layer Atomic BufferSource SceneLayer SourceMirror SceneSet SceneSetCommit SceneSetProps.

#[local] Instance sample_lib : Libdrm := list_libdrm (fun _ _ => 0).
#[local] Existing Instance linux_abi.

(** A scene that wants some planes, takes those left to it, and asks for a
    synchronous flip. *)
Record SampleScene := mkSample { sm_crtc : Z; sm_wants : list Z; sm_claimed : list Z; sm_layers : N }.
Record SampleFrame := mkSampleFrame { sf_flags : Z; sf_planes : list Z }.

Definition FLIP_ASYNC : Z := 2.

#[local] Instance sample_scene : ChildScene SampleScene unit := {
  Frame := SampleFrame;
  would_request_modeset _ := false;
  crtc_id := sm_crtc;
  claimed_elsewhere := sm_claimed;
  set_planes_claimed_elsewhere l s := s {{ sm_claimed := l }};
  build_frame_into req flags test s w :=
    (Val (Some (mkSampleFrame (Z.ldiff flags FLIP_ASYNC) (filter (fun p => p ∉ sm_claimed s) (sm_wants s)))),
     req, s, w);
  finalize_frame frame kr s w := (match kr with Val _ => Val empty_report | Unexp e => Unexp e end, s, w);
  effective_flags_of := sf_flags;
  armed_planes_of := sf_planes;
  add_layer d s w := (Val (mkHandle (sm_layers s + 1) 1), s {{ sm_layers ::= N.succ }}, w);
  remove_layer h s w := (s, w);
  destroy_scene s w := w
}.

#[local] Instance sample_scene_laws : ChildSceneLaws SampleScene unit.
Proof.
  split.
  - by intros l [].
  - intros req flags test s w frame req' s' w' [= <- _ _ _] p Hp. simpl in Hp.
    by apply list_elem_of_filter in Hp as [? _].
  - by intros d s w r s' w' [= _ _ <-].
Qed.

(** Two scenes that want plane 42. *)
Definition sample_set : SetState (Scn := SampleScene) (Sh := unit) :=
  mkSetState (SceneSet.create 3 [mkSample 10 [41; 42] [] 0; mkSample 20 [42; 43] [] 0]) (mkOutside 0 [] tt) [].

Definition committed_set : SetState (Scn := SampleScene) (Sh := unit) :=
  match do_commit_all 0 false 0 Combined (Some []) sample_set with Some (_, st) => st | None => sample_set end.

Lemma sample_set_reach : set_reach sample_set.
Proof. apply sr_create. Qed.

Lemma committed_set_reach : set_reach committed_set.
Proof. apply (sr_op sample_set (OCommit 0 false 0 Combined (Some []))); [apply sample_set_reach|reflexivity]. Qed.


Definition sample_spec : SceneSetLayerSpec :=
  mkSpec (Some 5%positive) [mkTarget 0 default_display false; mkTarget 1 default_display true].

(** A mirrored layer goes on both scenes and comes off both. *)
Lemma set_layers_are_routed_witness :
  set_reach committed_set /\
  exists h st', add_set_layer sample_spec committed_set = Some (Val h, st') /\
    layer_added sample_spec h committed_set st' /\ h = mkHandle 1 1 /\ length (o_mirrors (st_out st')) = 1%nat.
Proof.
  split; [exact committed_set_reach|].
  destruct (set_layers_are_routed committed_set committed_set_reach) as (_ & Hadd & _).
  destruct (Hadd sample_spec) as (r & st' & Hr & Hp).
  assert (E : add_set_layer sample_spec committed_set = Some (Val (mkHandle 1 1), st') /\ length (o_mirrors (st_out st')) = 1%nat).
  { vm_compute in Hr. injection Hr as _ <-. by vm_compute. }
  destruct E as [E Hm]. rewrite E in Hr. injection Hr as <-. exists (mkHandle 1 1), st'. split; [exact E|]. by split_and!.
Defined.

(** A scene strips the tearing flag from a frame that cannot be flipped that
    way (layer_scene.hpp: it is always safe to pass); the set starts from the
    caller's flags and puts it back. *)
Lemma set_restores_the_async_flag :
  exists r st' cs, do_commit_all FLIP_ASYNC false 0 Combined (Some []) sample_set = Some (r, st') /\
    st_calls st' = st_calls sample_set ++ cs /\
    Forall (fun eb => Z.land (effective_flags_of (eb_state eb)) FLIP_ASYNC = 0) (built_of cs) /\
    submits_of cs = [(FLIP_ASYNC, 0)].
Proof.
  destruct (do_commit_all _ _ _ _ _ sample_set) as [[r st']|] eqn:E; [|discriminate E].
  exists r, st', (st_calls st'). vm_compute in E. injection E as <- <-. split_and!; [done|done| |done].
  repeat constructor.
Qed.

(** The header says every request of a split commit carries the user data, so
    that each scene's event comes; only the last does. *)
Lemma split_commit_drops_user_data :
  exists r st' cs, do_commit_all DRM_MODE_PAGE_FLIP_EVENT false 99 PerCrtc (Some []) sample_set = Some (r, st') /\
    st_calls st' = st_calls sample_set ++ cs /\
    submits_of cs = [(0, 0); (DRM_MODE_PAGE_FLIP_EVENT, 99)].
Proof.
  destruct (do_commit_all _ _ _ _ _ sample_set) as [[r st']|] eqn:E; [|discriminate E].
  exists r, st', (st_calls st'). vm_compute in E. injection E as <- <-. by split_and!.
Qed.
